(* ===== verification/_CoqProject ===== *)
-Q . S2P
Prelude.v
Errors.v
Floats.v
LexPath.v
UrlGuard.v
Egress.v
Capability.v
Tokens.v
HostFs.v
Wasi.v
Compression.v
Snapshot.v
Differential.v
SnapshotManager.v
Digest.v
SyncProtocol.v
DaemonFraming.v
Framed.v
Lineage.v
DaemonPool.v
Fuel.v
ModuleCache.v
Failure.v
Telemetry.v
Instinct.v
Execution.v
WasiExecution.v
Profile.v
McpGate.v
Speculative.v
McpServer.v
Tenants.v
Negotiator.v
Health.v
Trace.v
Epoch.v
Sandbox.v
SandboxPool.v
Json.v
Redaction.v
MemoryBridge.v
Attestation.v
Dsse.v
ProofExecution.v
CanonicalJson.v
RecallEnvelope.v
RecallReplay.v
RecallVerifier.v
RecallConfig.v
AeonTimeline.v
AeonConfig.v
AeonMemory.v
LlmPolicy.v
AeonExecution.v
McpHandlers.v
Agentd.v
