(* ===== verification/Prelude.v ===== *)
(** * Nexus: a verification library for the snap-rollback sandbox

    Nexus runs WebAssembly tools for an agent.  A caller presents capability tokens, the
    hypervisor checks them, runs the guest under a fuel budget, takes a snapshot of its
    memory, and on failure rolls back, advises a recovery and learns from the outcome.
    Snapshots are replicated between nodes over an authenticated channel.  This library
    translates those parts of [src/src/] into executable definitions and proves what
    makes each of them correct.

    ** Parts, files and sources

    Foundations
    - [Prelude]: results and their notation [let?], Rust's machine integers
      ([wrap32], [wrap64], [checked_add64], ...), little-endian bytes, decimal text, lemmas and tactics.
    - [Errors]: [error.rs] and [security/denial.rs], the error values of every part.
    - [Floats]: IEEE-754 numbers for the budgets, confidences and running averages.

    Authority ([security/])
    - [LexPath]: lexical path normalisation and containment ([capability.rs]).
    - [UrlGuard], [Egress]: which URLs a capability or the host may reach
      ([url_guard.rs], [egress.rs]).
    - [Capability]: capabilities, [allows] and [is_subset_of] ([capability.rs]).
    - [Tokens]: signed tokens, attenuation, revocation, the chain walk and
      [authorize] ([capability.rs]); [manager_ok] is the manager's invariant.

    - [HostFs]: a POSIX disk with links; [Wasi]: WASI mounts, their capabilities and their
      preparation ([wasi.rs]).
    - [Negotiator]: negotiated, always narrower tokens ([negotiator.rs]).

    Snapshots ([snapshot/])
    - [Compression], [Differential], [Snapshot]: the page encoding, page differences,
      the ring buffer and file changes ([compression.rs], [differential.rs], [manager.rs]).
    - [SnapshotManager]: creation, promotion, rollback and persistence ([manager.rs]).
      A ghost log of the memories snapshotted so far is the abstract state; [minv]
      relates the two and [reach] are the reachable pairs.

    Replication ([snapshot/sync/], [daemon/])
    - [Digest]: the canonical encoding and content digest ([digest.rs]).
    - [SyncProtocol]: the message handler and the replication loop ([protocol.rs],
      [transport.rs]).
    - [DaemonFraming], [Framed]: frames, MAC, sequence numbers and the handshake
      ([daemon/protocol.rs], [framed.rs]).
    - [Lineage]: the hybrid clock and the forest of lineage heads ([lineage.rs]).
    - [DaemonPool]: the pool of hypervisors as a step relation ([daemon/pool.rs]).

    Sandbox ([sandbox/])
    - [Fuel]: the meter, also under concurrency, and the adaptive budget
      ([fuel_meter.rs], [fuel_budget.rs]).
    - [ModuleCache]: the cache of compiled modules ([module_cache.rs]).
    - [Epoch]: the clock by which timeouts interrupt guests, for one thread and for any
      number of them ([wasm_runtime.rs]).
    - [Sandbox]: preparing, calling and supervising a guest, with and without WASI; wasmtime
      is the interface [Wasmtime] ([wasm_runtime.rs], [wasi.rs], [snapshot/manager.rs]).
    - [SandboxPool]: the pool, captured memory, and [sandbox_guest], the implementation of
      the interface [Execution.Guest] ([pool.rs], [wasm_memory.rs]).

    Execution ([hypervisor/], [telemetry/], [instinct/])
    - [Failure]: failure modes, health statuses and recovery policies
      ([failure_mode.rs], [recovery.rs], [validator/health.rs]).
    - [Health]: the health validator; [Telemetry]: error logs, history, patterns and
      statistics ([telemetry/mod.rs], [validator/error_log.rs], [telemetry/call_stack.rs]).
    - [Instinct]: the persistent store of learned advice ([instinct/mod.rs]).
    - [Execution]: [execute_tool_inner], its entry points and the retry loop, which
      compose all of the above ([hypervisor/mod.rs]).
    - [WasiExecution], [Speculative], [Trace]: executions with directories, racing
      recoveries, and recorded runs.

    Servers ([profile/], [bin/])
    - [Profile]: the operator's profile file and its policies ([profile/mod.rs]).
    - [McpGate], [McpServer], [McpHandlers], [Tenants]: admission, the handlers of all nineteen
      tools and the authentication of tenants of the MCP server ([bin/nexus_mcp.rs],
      [bin/nexus_mcp/]).
    - [Agentd]: start-up gates, authentication and the connections of the daemon
      ([bin/nexus_agentd.rs], [daemon/mod.rs]).

    Proofs ([proof/])
    - [Json]: JSON values and their sorted form; [Redaction]: error texts without secrets.
    - [Attestation], [Dsse]: capsules, their signature and the envelope around it.
    - [ProofExecution]: a run with its capsule.

    AEON ([crates/aeon_nexus_bridge/src/], [aeon.rs], [aeon/])
    - [MemoryBridge], [AeonConfig], [AeonMemory]: evidence of recalled memories, the settings
      and the client of the memory service ([lib.rs], [aeon.rs]).
    - [AeonTimeline]: the chain of events, its delivery and its spool ([aeon.rs]).
    - [LlmPolicy]: what a language model is told and asked ([hypervisor/llm_policy.rs]).
    - [AeonExecution]: what a run leaves for the memory service, capsules with memory, and runs
      whose refused request is negotiated ([hypervisor/mod.rs]).
    - [CanonicalJson], [RecallEnvelope]: the canonical text and the signed envelope.
    - [RecallReplay]: the storage contract of used nonces, and PostgreSQL as a store.
    - [RecallVerifier], [RecallConfig]: verification, and the settings and pinned keys.

    ** What the theorems show

    - Authority: a token validates exactly when its whole chain does, grants no more
      than its root, and is dead once an ancestor is revoked; nothing is executed
      without it, and directories are opened only where it allows it.
    - Memory: encodings and differences round-trip; in every reachable state a rollback,
      full or differential, restores the memory snapshotted under that identifier or
      reports that it is gone.
    - Guests: a guest starts on the restored memory with its input, every run is answered
      with a well-formed result, a guest is interrupted only if a run whose deadline is not
      before its own has timed out, and each run in flight has an instance as long as the
      workers that outlive their run fit in the spare ones.
    - Execution: one call ends in the answer that its verdict calls for and in a
      reachable state; over the sandbox, retrying ends with the first success or the last
      attempt, with nothing assumed of the guest.
    - Servers: only admitted requests run anything, a refused one changes nothing, what the
      server grants is what the operator listed (a memory scope may widen to its agent),
      secrets configured as empty or missing are told apart as the code does.
    - Proofs: a capsule tells the run, its signature binds every field, sensitive inputs
      leave no public digest.
    - AEON: hits of a client with a pinned key are what the service served, evidence binds the
      recall, events delivered one after the other form one chain that verifies, and nothing
      spooled is lost; prompts are clean and their number is bounded by the resets of a
      shared count; memory counts as attested only if it was verified.
    - Recall: an accepted envelope was signed by a pinned key for this request, is in its
      time window, and is accepted once; verification fails closed.
    - Replication: two nodes converge, stores stay content addressed, the channel
      delivers exactly what was sent, in order, up to a frame over its limit; lineage heads
      are the tips of the known forest whatever the order of arrival.
    - Bookkeeping: budgets are percentiles of the recorded samples, fuel is never
      overspent, the cache is LRU for one thread, telemetry and instincts are functions of
      the recorded history that survive a restart.
    - Digests: where two things are told apart by SHA-256, the theorem names the two texts
      that would have to share a digest.

    ** Conventions

    - Strings are byte strings; machine integers are [Z] with the wrap-around of a
      release build written out, where the code can reach it; lengths are below 2^64.
    - Each operation reads the clock once, as an argument; so do new identifiers.
    - A message rendered by [format!] is its template with its arguments.
    - Locks are held for a whole operation, so operations are atomic steps; where the
      code releases a lock in between, the operation is split ([ModuleCache],
      [DaemonPool], [Fuel.Shared], [Epoch], [SandboxPool]).
    - Code outside the repository (zstd, SHA-256, HMAC, Ed25519, serde, bincode, the
      url crate, hash-map order, the disk, wasmtime) is a type class of operations,
      with a class of laws for what the code relies on; each property that uses one
      has a witness over a concrete instance.

    ** Fuel

    The chain walk has fuel 6, one more than the deepest chain the code follows; the walk
    down a differential chain one more than the number of stored differences; the
    ancestor walk one more than the number of nodes; replication as many steps as the
    source's own bound.  In each case a theorem says that the fuel suffices: the
    operations return.

    ** Not modelled

    What a guest computes (wasmtime and the WASI host calls are interfaces); process and
    network I/O (the command line [main.rs], accept loops, sockets, signals, and what the AEON
    service and a language model answer, which are arguments); tasks that are spawned and not
    awaited (a delivery to the timeline is recorded as begun, what a failed run leaves for the
    memory service is a value); parsing and rendering of JSON by serde; logging. *)

From Stdlib Require Export ZArith Lia.
From Stdlib Require Export Strings.Byte Strings.Ascii.
From stdpp Require Export base tactics decidable option list gmap strings.

Open Scope Z_scope.

(** ** Fallible computations: Rust's [Result] *)

Inductive result (A E : Type) : Type :=
| Ok (a : A)
| Err (e : E).
Arguments Ok {A E} a.
Arguments Err {A E} e.

Definition result_bind {A B E} (r : result A E) (f : A → result B E) : result B E :=
  match r with Ok a => f a | Err e => Err e end.

Definition is_ok {A E} (r : result A E) : bool :=
  match r with Ok _ => true | Err _ => false end.

Definition result_map_err {A E F} (f : E → F) (r : result A E) : result A F :=
  match r with Ok a => Ok a | Err e => Err (f e) end.

(** [Option::ok_or] / [ok_or_else]. *)
Definition ok_or {A E} (o : option A) (e : E) : result A E :=
  match o with Some a => Ok a | None => Err e end.

(** [Iterator::collect::<Result<Vec<_>, _>>]: the first error wins. *)
Fixpoint result_mapM {A B E} (f : A → result B E) (l : list A) : result (list B) E :=
  match l with
  | [] => Ok []
  | a :: l' =>
      match f a with
      | Err e => Err e
      | Ok b => match result_mapM f l' with Err e => Err e | Ok bs => Ok (b :: bs) end
      end
  end.

Declare Scope rust_scope.
Delimit Scope rust_scope with rust.
Notation "'let?' x ':=' e 'in' k" := (result_bind e (fun x => k))
  (at level 10, x pattern, e at level 100, k at level 200) : rust_scope.
Open Scope rust_scope.

Lemma result_bind_Ok {A B E} (r : result A E) (f : A → result B E) b :
  result_bind r f = Ok b ↔ ∃ a, r = Ok a ∧ f a = Ok b.
Proof.
  destruct r as [a|e]; simpl; split.
  - eauto.
  - by intros (? & [= ->] & ?).
  - done.
  - by intros (? & ? & ?).
Qed.

Lemma is_ok_true {A E} (r : result A E) : is_ok r = true ↔ ∃ a, r = Ok a.
Proof. destruct r; simpl; split; [eauto|done|done|by intros []]. Qed.

Lemma is_ok_unit {E} (r : result unit E) : is_ok r = true ↔ r = Ok tt.
Proof. by destruct r as [[]|]. Qed.

(** ** Machine integers

    An unsigned [w]-bit integer is a [Z] in [0, 2^w); the wrap-around of release
    builds, the saturating and the checked operations are written out. *)

Definition U8_MAX : Z := 255.
Definition U16_MAX : Z := 65535.
Definition U32_MAX : Z := 4294967295.
Definition U64_MAX : Z := 18446744073709551615.

Definition wrap32 (z : Z) : Z := z mod 4294967296.
Definition wrap64 (z : Z) : Z := z mod 18446744073709551616.

Definition saturating_sub (a b : Z) : Z := Z.max 0 (a - b).
Definition saturating_add64 (a b : Z) : Z := Z.min U64_MAX (a + b).
Definition checked_add64 (a b : Z) : option Z := if a + b <=? U64_MAX then Some (a + b) else None.
Definition checked_mul64 (a b : Z) : option Z := if a * b <=? U64_MAX then Some (a * b) else None.

Definition is_u32 (z : Z) : Prop := 0 ≤ z ≤ U32_MAX.
Definition is_u64 (z : Z) : Prop := 0 ≤ z ≤ U64_MAX.

Lemma wrap32_small z : is_u32 z → wrap32 z = z.
Proof. unfold is_u32, wrap32, U32_MAX. intros. apply Z.mod_small. lia. Qed.

Lemma wrap32_range z : is_u32 (wrap32 z).
Proof.
  unfold is_u32, wrap32, U32_MAX.
  pose proof (Z.mod_pos_bound z 4294967296 ltac:(lia)). lia.
Qed.

Lemma wrap64_small z : is_u64 z → wrap64 z = z.
Proof. unfold is_u64, wrap64, U64_MAX. intros. apply Z.mod_small. lia. Qed.

Lemma wrap64_range z : is_u64 (wrap64 z).
Proof.
  unfold is_u64, wrap64, U64_MAX.
  pose proof (Z.mod_pos_bound z 18446744073709551616 ltac:(lia)). lia.
Qed.

(** A [Uuid] is a number; a [DateTime<Utc>] is its nanoseconds. *)
Abbreviation Uuid := N (only parsing).
Abbreviation DateTime := Z (only parsing).

(** ** Bytes and little/big endian encodings *)

#[export] Instance byte_eq_dec : EqDecision byte := Byte.byte_eq_dec.
#[export] Instance byte_inhabited : Inhabited byte := populate x00.

Definition Z_of_byte (b : byte) : Z := Z.of_N (Byte.to_N b).
Definition byte_of_Z (z : Z) : byte :=
  match Byte.of_N (Z.to_N (z mod 256)) with Some b => b | None => x00 end.

Lemma Z_of_byte_range b : 0 ≤ Z_of_byte b < 256.
Proof. unfold Z_of_byte. pose proof (Byte.to_N_bounded b). lia. Qed.

Lemma Z_of_byte_of_Z z : Z_of_byte (byte_of_Z z) = z mod 256.
Proof.
  unfold Z_of_byte, byte_of_Z.
  pose proof (Z.mod_pos_bound z 256 ltac:(lia)) as Hb.
  destruct (Byte.of_N (Z.to_N (z mod 256))) as [b|] eqn:E.
  - apply Byte.to_of_N in E. rewrite E. lia.
  - apply Byte.of_N_None_iff in E. lia.
Qed.

Lemma byte_of_Z_of_byte b : byte_of_Z (Z_of_byte b) = b.
Proof.
  unfold byte_of_Z. pose proof (Z_of_byte_range b).
  rewrite Z.mod_small by lia. unfold Z_of_byte.
  rewrite N2Z.id, Byte.of_to_N. done.
Qed.

Lemma Z_of_byte_inj a b : Z_of_byte a = Z_of_byte b → a = b.
Proof. intros H. rewrite <- (byte_of_Z_of_byte a), <- (byte_of_Z_of_byte b). congruence. Qed.

#[export] Program Instance byte_countable : Countable byte :=
  inj_countable' Z_of_byte byte_of_Z _.
Next Obligation. apply byte_of_Z_of_byte. Qed.

(** [to_le_bytes] of a [8 * n]-bit integer and its inverse. *)
Fixpoint le_bytes (n : nat) (z : Z) : list byte :=
  match n with
  | O => []
  | S n' => byte_of_Z z :: le_bytes n' (z / 256)
  end.

Fixpoint le_value (bs : list byte) : Z :=
  match bs with
  | [] => 0
  | b :: bs' => Z_of_byte b + 256 * le_value bs'
  end.

(** [to_be_bytes] and [from_be_bytes]. *)
Definition be_bytes (n : nat) (z : Z) : list byte := reverse (le_bytes n z).
Definition be_value (bs : list byte) : Z := le_value (reverse bs).

Lemma le_bytes_length n z : length (le_bytes n z) = n.
Proof. revert z. induction n; intros z; simpl; auto. Qed.

Lemma be_bytes_length n z : length (be_bytes n z) = n.
Proof. unfold be_bytes. by rewrite length_reverse, le_bytes_length. Qed.

Lemma le_value_range bs : 0 ≤ le_value bs < 256 ^ Z.of_nat (length bs).
Proof.
  induction bs as [|b bs IH]; cbn [le_value length]; [lia|].
  pose proof (Z_of_byte_range b).
  rewrite Nat2Z.inj_succ, Z.pow_succ_r by lia. lia.
Qed.

Lemma le_value_bytes n z : 0 ≤ z < 256 ^ Z.of_nat n → le_value (le_bytes n z) = z.
Proof.
  revert z. induction n as [|n IH]; intros z Hz; cbn [le_bytes le_value].
  - change (Z.of_nat 0) with 0 in Hz. lia.
  - rewrite Nat2Z.inj_succ, Z.pow_succ_r in Hz by lia.
    rewrite Z_of_byte_of_Z, IH.
    + pose proof (Z.div_mod z 256 ltac:(lia)). lia.
    + split; [apply Z.div_pos; lia | apply Z.div_lt_upper_bound; lia].
Qed.

Lemma le_bytes_value bs : le_bytes (length bs) (le_value bs) = bs.
Proof.
  induction bs as [|b bs IH]; cbn [le_bytes le_value length]; [done|].
  pose proof (Z_of_byte_range b). f_equal.
  - apply Z_of_byte_inj. rewrite Z_of_byte_of_Z.
    rewrite Z.mul_comm, Z_mod_plus_full, Z.mod_small; lia.
  - rewrite Z.mul_comm, Z_div_plus_full, Z.div_small by lia. done.
Qed.

Lemma le_bytes_inj n a b :
  0 ≤ a < 256 ^ Z.of_nat n → 0 ≤ b < 256 ^ Z.of_nat n → le_bytes n a = le_bytes n b → a = b.
Proof. intros Ha Hb H. rewrite <- (le_value_bytes n a), <- (le_value_bytes n b) by done. congruence. Qed.

Lemma be_value_bytes n z : 0 ≤ z < 256 ^ Z.of_nat n → be_value (be_bytes n z) = z.
Proof. intros. unfold be_value, be_bytes. rewrite reverse_involutive. by apply le_value_bytes. Qed.

Lemma be_value_range bs : 0 ≤ be_value bs < 256 ^ Z.of_nat (length bs).
Proof. unfold be_value. rewrite <- length_reverse. apply le_value_range. Qed.

(** ** Strings

    A Rust [String] is its sequence of UTF-8 bytes, here stdpp's [string].  The
    operations below are the ones of Rust's standard library that the program
    calls; white space is the Unicode [White_Space] property, recognised on the
    UTF-8 bytes, since [str::trim] is defined on it. *)

Definition code (a : ascii) : nat := nat_of_ascii a.

Fixpoint string_rev_app (s acc : string) : string :=
  match s with EmptyString => acc | String a s' => string_rev_app s' (String a acc) end.
Definition string_rev (s : string) : string := string_rev_app s EmptyString.

Fixpoint string_drop (n : nat) (s : string) : string :=
  match n, s with
  | O, _ => s
  | S _, EmptyString => EmptyString
  | S n', String _ s' => string_drop n' s'
  end.

Definition string_bytes (s : string) : list byte := String.list_byte_of_string s.

Definition nth_code (n : nat) (s : string) : nat :=
  match String.get n s with Some a => code a | None => 0%nat end.

Definition is_ascii_ws (c : nat) : bool :=
  ((9 <=? c) && (c <=? 13) || (c =? 32))%nat.
Definition is_ws2 (c0 c1 : nat) : bool :=
  ((c0 =? 194) && ((c1 =? 133) || (c1 =? 160)))%nat.
Definition is_ws3 (c0 c1 c2 : nat) : bool :=
  ((c0 =? 225) && (c1 =? 154) && (c2 =? 128)
   || (c0 =? 226) && (c1 =? 128)
      && ((128 <=? c2) && (c2 <=? 138) || (c2 =? 168) || (c2 =? 169) || (c2 =? 175))
   || (c0 =? 226) && (c1 =? 129) && (c2 =? 159)
   || (c0 =? 227) && (c1 =? 128) && (c2 =? 128))%nat.

(** Bytes of the white-space character at the front of [s], 0 when there is none. *)
Definition ws_front (s : string) : nat :=
  if is_ascii_ws (nth_code 0 s) then 1%nat
  else if is_ws2 (nth_code 0 s) (nth_code 1 s) then 2%nat
  else if is_ws3 (nth_code 0 s) (nth_code 1 s) (nth_code 2 s) then 3%nat
  else 0%nat.

(** The same at the front of a reversed string. *)
Definition ws_back (r : string) : nat :=
  if is_ascii_ws (nth_code 0 r) then 1%nat
  else if is_ws2 (nth_code 1 r) (nth_code 0 r) then 2%nat
  else if is_ws3 (nth_code 2 r) (nth_code 1 r) (nth_code 0 r) then 3%nat
  else 0%nat.

Fixpoint strip_ws (front : string → nat) (fuel : nat) (s : string) : string :=
  match fuel with
  | O => s
  | S fuel' => match front s with O => s | n => strip_ws front fuel' (string_drop n s) end
  end.

(** [str::trim_start], [str::trim_end] and [str::trim]. *)
Definition trim_start (s : string) : string := strip_ws ws_front (String.length s) s.
Definition trim_end (s : string) : string :=
  string_rev (strip_ws ws_back (String.length s) (string_rev s)).
Definition trim (s : string) : string := trim_end (trim_start s).

(** [to_ascii_lowercase]. *)
Definition lower_ascii (a : ascii) : ascii :=
  if ((65 <=? code a) && (code a <=? 90))%nat then ascii_of_nat (code a + 32) else a.
Fixpoint to_ascii_lowercase (s : string) : string :=
  match s with EmptyString => EmptyString | String a s' => String (lower_ascii a) (to_ascii_lowercase s') end.

(** [str::split] on one ASCII character: never empty, [""] splits into [[""]]. *)
Fixpoint split_on (c : ascii) (s : string) : list string :=
  match s with
  | EmptyString => [EmptyString]
  | String a s' =>
      if Ascii.eqb a c then EmptyString :: split_on c s'
      else match split_on c s' with
           | p :: ps => String a p :: ps
           | [] => [String a EmptyString]
           end
  end.

Fixpoint starts_with (p s : string) : bool :=
  match p, s with
  | EmptyString, _ => true
  | String a p', String b s' => Ascii.eqb a b && starts_with p' s'
  | String _ _, EmptyString => false
  end.

Fixpoint contains_str (needle s : string) : bool :=
  starts_with needle s ||
  match s with EmptyString => false | String _ s' => contains_str needle s' end.

Definition strip_prefix (p s : string) : option string :=
  if starts_with p s then Some (string_drop (String.length p) s) else None.
Definition strip_suffix (p s : string) : option string :=
  match strip_prefix (string_rev p) (string_rev s) with
  | Some r => Some (string_rev r)
  | None => None
  end.

(** [slice.join(sep)]. *)
Definition join (sep : string) (l : list string) : string := String.concat sep l.

(** Decimal rendering of a non-negative integer, [format!("{}", n)]. *)
Fixpoint dec_digits (fuel : nat) (n : Z) (acc : string) : string :=
  match fuel with
  | O => acc
  | S fuel' =>
      let acc' := String (ascii_of_nat (48 + Z.to_nat (n mod 10))) acc in
      if n <? 10 then acc' else dec_digits fuel' (n / 10) acc'
  end.
Definition fmt_u (n : Z) : string := dec_digits 40 n EmptyString.

(** Lower-case hexadecimal digits of bytes, [format!("{byte:02x}")]. *)
Definition hex_digit (v : Z) : ascii := ascii_of_nat (Z.to_nat (if v <? 10 then 48 + v else 87 + v)).
Fixpoint hex_lower (bytes : list byte) : string :=
  match bytes with
  | [] => EmptyString
  | b :: bytes => String (hex_digit (Z_of_byte b / 16)) (String (hex_digit (Z_of_byte b mod 16)) (hex_lower bytes))
  end.

(** A property of the sixteen digits. *)
Lemma hex_digit_ind (P : Z → ascii → bool) :
  forallb (λ v, P v (hex_digit v)) (seqZ 0 16) = true → ∀ v, 0 ≤ v < 16 → P v (hex_digit v) = true.
Proof.
  intros H v Hv. rewrite forallb_forall in H. apply H, list_elem_of_In, elem_of_seqZ. lia.
Qed.
Lemma byte_nibbles b :
  0 ≤ Z_of_byte b / 16 < 16 ∧ 0 ≤ Z_of_byte b mod 16 < 16 ∧ Z_of_byte b = 16 * (Z_of_byte b / 16) + Z_of_byte b mod 16.
Proof.
  pose proof (Z_of_byte_range b). split_and!;
    [apply Z.div_pos; lia|apply Z.div_lt_upper_bound; lia|apply Z.mod_pos_bound; lia|apply Z.mod_pos_bound; lia|apply Z.div_mod; lia].
Qed.
Definition unhex_digit (a : ascii) : Z := let c := Z.of_nat (code a) in if c <? 58 then c - 48 else c - 87.
Lemma unhex_hex v : 0 ≤ v < 16 → unhex_digit (hex_digit v) = v.
Proof.
  intros Hv. apply Z.eqb_eq, (hex_digit_ind (λ v a, unhex_digit a =? v)); [vm_compute; reflexivity|done].
Qed.
Lemma hex_lower_inj bs bs' : hex_lower bs = hex_lower bs' → bs = bs'.
Proof.
  revert bs'. induction bs as [|b bs IH]; intros [|b' bs']; cbn [hex_lower]; try done. intros [= Hh Hl H].
  destruct (byte_nibbles b) as (? & ? & Hb), (byte_nibbles b') as (? & ? & Hb').
  apply (f_equal unhex_digit) in Hh, Hl. rewrite !unhex_hex in Hh, Hl by done.
  f_equal; [apply Z_of_byte_inj; lia|by apply IH].
Qed.
Lemma nibbles_join b : byte_of_Z (Z.lor (Z.shiftl (Z_of_byte b / 16) 4) (Z_of_byte b mod 16)) = b.
Proof. destruct b; vm_compute; reflexivity. Qed.
Lemma nibbles_split high low : 0 ≤ high < 16 → 0 ≤ low < 16 →
  Z_of_byte (byte_of_Z (Z.lor (Z.shiftl high 4) low)) / 16 = high ∧ Z_of_byte (byte_of_Z (Z.lor (Z.shiftl high 4) low)) mod 16 = low.
Proof.
  intros Hh Hl.
  assert (forallb (λ h, forallb (λ l, let b := Z_of_byte (byte_of_Z (Z.lor (Z.shiftl h 4) l)) in (b / 16 =? h) && (b mod 16 =? l))
            (seqZ 0 16)) (seqZ 0 16) = true) as H by reflexivity.
  rewrite forallb_forall in H. specialize (H high ltac:(apply list_elem_of_In, elem_of_seqZ; lia)).
  rewrite forallb_forall in H. specialize (H low ltac:(apply list_elem_of_In, elem_of_seqZ; lia)).
  cbv zeta in H. lia.
Qed.
Lemma hex_lower_length bs : String.length (hex_lower bs) = (2 * length bs)%nat.
Proof. induction bs as [|b bs IH]; cbn [hex_lower String.length length]; [done|]. rewrite IH. lia. Qed.

Lemma string_bytes_app s t : string_bytes (s +:+ t) = string_bytes s ++ string_bytes t.
Proof.
  induction s as [|a s IH]; [done|]. change (String a s +:+ t) with (String a (s +:+ t)).
  unfold string_bytes in *. cbn. by f_equal.
Qed.
Lemma string_bytes_length s : length (string_bytes s) = String.length s.
Proof. induction s as [|a s IH]; [done|]. unfold string_bytes in *. cbn. f_equal. exact IH. Qed.
Lemma string_bytes_inj s t : string_bytes s = string_bytes t → s = t.
Proof.
  intros H. unfold string_bytes in H.
  rewrite <- (String.string_of_list_byte_of_string s), <- (String.string_of_list_byte_of_string t).
  by rewrite H.
Qed.

(** No occurrence of the character [c] in [s]. *)
Fixpoint no_char (c : ascii) (s : string) : Prop :=
  match s with EmptyString => True | String a s' => a ≠ c ∧ no_char c s' end.

#[global] Arguments Ascii.eqb : simpl never.
#[global] Arguments String.append !_ _ / : assert.

#[export] Instance no_char_dec c s : Decision (no_char c s).
Proof. induction s; simpl; apply _. Defined.

Lemma split_on_no_char c s : no_char c s → split_on c s = [s].
Proof.
  induction s as [|a s IH]; [done|]. intros [Ha Hs]. cbn.
  rewrite (proj2 (Ascii.eqb_neq a c) Ha). by rewrite IH.
Qed.

Lemma split_on_app c s t :
  no_char c s → split_on c (s +:+ String c t) = s :: split_on c t.
Proof.
  induction s as [|a s IH]; intros H; cbn.
  - by rewrite Ascii.eqb_refl.
  - destruct H as [Ha Hs]. rewrite (proj2 (Ascii.eqb_neq a c) Ha).
    by rewrite IH.
Qed.

Lemma split_on_nonempty c s : split_on c s ≠ [].
Proof. destruct s; cbn; [done|]. destruct (Ascii.eqb a c); [done|]. by destruct (split_on c s). Qed.

Lemma split_on_no_char_elem c s p : p ∈ split_on c s → no_char c p.
Proof.
  revert p. induction s as [|a s IH]; intros p; cbn.
  - intros ->%list_elem_of_singleton. done.
  - destruct (Ascii.eqb_spec a c) as [Ha|Ha].
    + intros [->|Hp]%elem_of_cons; [done|auto].
    + pose proof (split_on_nonempty c s). destruct (split_on c s) as [|q qs]; [done|].
      intros [->|Hp]%elem_of_cons.
      * split; [done|]. apply IH. left.
      * apply IH. by right.
Qed.

Lemma starts_with_app p s : starts_with p (p +:+ s) = true.
Proof. induction p as [|a p IH]; [done|]. cbn. rewrite Ascii.eqb_refl. exact IH. Qed.

Lemma starts_with_spec p s : starts_with p s = true ↔ ∃ t, s = p +:+ t.
Proof.
  split; [|intros [t ->]; apply starts_with_app].
  revert s. induction p as [|a p IH]; intros s; cbn.
  - intros _. by exists s.
  - destruct s as [|b s]; [done|]. intros [->%Ascii.eqb_eq H]%andb_true_iff.
    destruct (IH s H) as [t ->]. by exists t.
Qed.

Lemma string_app_assoc (a b c : string) : a +:+ b +:+ c = (a +:+ b) +:+ c.
Proof. induction a as [|x a IH]; [done|]. cbn. by rewrite IH. Qed.
Lemma string_app_nil_r s : s +:+ "" = s.
Proof. induction s as [|a s IH]; [done|]. cbn. by rewrite IH. Qed.
Lemma string_app_length s t : String.length (s +:+ t) = (String.length s + String.length t)%nat.
Proof. induction s as [|a s IH]; [done|]. cbn. by rewrite IH. Qed.
Lemma string_drop_length s t : string_drop (String.length s) (s +:+ t) = t.
Proof. by induction s. Qed.
Lemma substring_prefix s t : String.substring 0 (String.length s) (s +:+ t) = s.
Proof. induction s as [|a s IH]; cbn; [by destruct t|]. by rewrite IH. Qed.

Lemma string_rev_app_spec s acc : string_rev_app s acc = string_rev s +:+ acc.
Proof.
  unfold string_rev. revert acc. induction s as [|a s IH]; intros acc; [done|]. cbn [string_rev_app].
  by rewrite IH, (IH (String a "")), <- string_app_assoc.
Qed.
Lemma string_rev_cons a s : string_rev (String a s) = string_rev s +:+ String a "".
Proof. unfold string_rev at 1. cbn [string_rev_app]. apply string_rev_app_spec. Qed.
Lemma string_rev_concat s t : string_rev (s +:+ t) = string_rev t +:+ string_rev s.
Proof.
  induction s as [|a s IH]; [by rewrite string_app_nil_r|]. cbn [String.append].
  by rewrite !string_rev_cons, IH, string_app_assoc.
Qed.
Lemma string_rev_involutive s : string_rev (string_rev s) = s.
Proof. induction s as [|a s IH]; [done|]. by rewrite string_rev_cons, string_rev_concat, IH. Qed.

(** Text that begins, or ends, with a character that is neither white space nor part of
    one: trimming leaves it there. *)
Definition printing (a : ascii) : Prop := (33 ≤ code a ≤ 126)%nat.
#[export] Instance printing_dec a : Decision (printing a) := _.
Definition front_ok (s : string) : Prop := ∃ a t, s = String a t ∧ printing a.
Definition back_ok (s : string) : Prop := ∃ t z, s = t +:+ String z "" ∧ printing z.

Lemma front_ok_app s t : front_ok s → front_ok (s +:+ t).
Proof. intros (a & u & -> & Ha). by exists a, (u +:+ t). Qed.
Lemma back_ok_app s t : back_ok t → back_ok (s +:+ t).
Proof. intros (u & z & -> & Hz). exists (s +:+ u), z. by rewrite string_app_assoc. Qed.
Lemma back_ok_rev s : back_ok s → front_ok (string_rev s).
Proof. intros (t & z & -> & Hz). rewrite string_rev_concat. by exists z, (string_rev t). Qed.

Lemma ws_front_printing s : front_ok s → ws_front s = 0%nat.
Proof.
  intros (a & t & -> & Ha). unfold printing in Ha. unfold ws_front, is_ascii_ws, is_ws2, is_ws3.
  change (nth_code 0 (String a t)) with (code a).
  repeat match goal with
  | |- context [(code a <=? ?n)%nat] => destruct (Nat.leb_spec (code a) n); try lia
  | |- context [(?n <=? code a)%nat] => destruct (Nat.leb_spec n (code a)); try lia
  | |- context [(code a =? ?n)%nat] => destruct (Nat.eqb_spec (code a) n); try lia
  end; done.
Qed.
Lemma ws_back_printing s : front_ok s → ws_back s = 0%nat.
Proof.
  intros (a & t & -> & Ha). unfold printing in Ha. unfold ws_back, is_ascii_ws, is_ws2, is_ws3.
  change (nth_code 0 (String a t)) with (code a).
  repeat match goal with
  | |- context [(code a <=? ?n)%nat] => destruct (Nat.leb_spec (code a) n); try lia
  | |- context [(?n <=? code a)%nat] => destruct (Nat.leb_spec n (code a)); try lia
  | |- context [(code a =? ?n)%nat] => destruct (Nat.eqb_spec (code a) n); try lia
  end; rewrite ?andb_false_r; done.
Qed.

Lemma strip_ws_none front n s : front s = 0%nat → strip_ws front n s = s.
Proof. destruct n; [done|]. cbn. by intros ->. Qed.
Lemma trim_start_front s : front_ok s → trim_start s = s.
Proof. intros H. by apply strip_ws_none, ws_front_printing. Qed.
Lemma trim_end_back s : back_ok s → trim_end s = s.
Proof.
  intros H. unfold trim_end. rewrite strip_ws_none by by apply ws_back_printing, back_ok_rev.
  apply string_rev_involutive.
Qed.
Lemma trim_framed s : front_ok s → back_ok s → trim s = s.
Proof. intros H1 H2. unfold trim. by rewrite trim_start_front, trim_end_back. Qed.
Lemma trim_space_front s : front_ok s → back_ok s → trim (String " " s) = s.
Proof.
  intros H1 H2. unfold trim, trim_start. cbn [String.length strip_ws].
  change (ws_front (String " " s)) with 1%nat. cbn [string_drop].
  rewrite strip_ws_none by by apply ws_front_printing. by apply trim_end_back.
Qed.
Lemma trim_space_back s : front_ok s → back_ok s → trim (s +:+ " ") = s.
Proof.
  intros H1 H2. unfold trim. rewrite trim_start_front by by apply front_ok_app. unfold trim_end.
  rewrite string_rev_concat, string_app_length, Nat.add_comm. cbn [String.length Nat.add].
  change (string_rev " " +:+ string_rev s) with (String " " (string_rev s)). cbn [strip_ws].
  change (ws_back (String " " (string_rev s))) with 1%nat. cbn [string_drop].
  rewrite strip_ws_none by by apply ws_back_printing, back_ok_rev. apply string_rev_involutive.
Qed.

Lemma strip_suffix_app s p : strip_suffix p (s +:+ p) = Some s.
Proof.
  unfold strip_suffix, strip_prefix. rewrite string_rev_concat, starts_with_app.
  by rewrite string_drop_length, string_rev_involutive.
Qed.

Lemma join_cons2 sep a b l : join sep (a :: b :: l) = a +:+ sep +:+ join sep (b :: l).
Proof. done. Qed.
Lemma no_char_app c s t : no_char c (s +:+ t) ↔ no_char c s ∧ no_char c t.
Proof. induction s as [|a s IH]; cbn; [tauto|]. rewrite IH. tauto. Qed.

(** ** Generic list lemmas *)

Lemma removelast_snoc {A} (l : list A) a : removelast (l ++ [a]) = l.
Proof. rewrite removelast_app by done. apply app_nil_r. Qed.

Lemma fold_left_snoc {A B} (f : A → B → A) l b a :
  fold_left f (l ++ [b]) a = f (fold_left f l a) b.
Proof. by rewrite fold_left_app. Qed.

(** [Vec::len] as a machine integer; a vector has at most [isize::MAX] bytes. *)
Definition len {A} (l : list A) : Z := Z.of_nat (length l).
Definition vec_ok {A} (l : list A) : Prop := len l ≤ 9223372036854775807.

Lemma len_app {A} (l k : list A) : len (l ++ k) = len l + len k.
Proof. unfold len. rewrite length_app. lia. Qed.
Lemma len_nonneg {A} (l : list A) : 0 ≤ len l.
Proof. unfold len. lia. Qed.

(** ** Automation *)

(** Case analysis on every [match]/[if] scrutinee of the goal or a hypothesis. *)
Ltac split_match :=
  repeat (case_match; simplify_eq/=; try done).

Ltac inv_ok H :=
  repeat first
    [ apply result_bind_Ok in H as (? & ? & H)
    | progress simplify_eq/= ].

Create HintDb rust discriminated.
Create Rewrite HintDb rust.
#[export] Hint Resolve wrap32_range wrap64_range Z_of_byte_range le_value_range be_value_range : rust.
#[export] Hint Rewrite le_bytes_length be_bytes_length Z_of_byte_of_Z byte_of_Z_of_byte : rust.
