(* ===== verification/Errors.v ===== *)
(** * Error values: [src/error.rs] and [src/security/denial.rs]

    [NexusError] keeps the constructors of the source.  A message that the code
    renders with [format!] is kept as its template and its arguments, so two
    messages are equal when the code would print the same template with the same
    arguments; an argument whose [Debug]/[Display] text belongs to a library
    (UUIDs, URLs, I/O errors, derived [Debug]) is [AOpaque]. *)

From S2P Require Import Prelude.

Inductive Arg := ANum (n : Z) | AStr (s : string) | AOpaque.

Inductive Msg :=
| Lit (s : string)
| Fmt (template : string) (args : list Arg).

Inductive NexusError :=
| WasmError (m : Msg)
| SnapshotCreateFailed (m : Msg)
| RollbackFailed (m : Msg)
| Timeout (ms : Z)
| FuelExhausted (n : Z)
| MemoryLimitExceeded (bytes : Z)
| StateCorruption (m : Msg)
| InvalidCapability (m : Msg)
| CapabilityDenied (m : Msg)
| EgressDenied (m : Msg)
| FilesystemError (m : Msg)
| HealthValidationFailed (m : Msg)
| ResourceExhausted (m : Msg)
| SerializationError (m : Msg)
| ConfigError (m : Msg).

#[export] Instance Arg_eq_dec : EqDecision Arg.
Proof. solve_decision. Defined.
#[export] Instance Msg_eq_dec : EqDecision Msg.
Proof. solve_decision. Defined.
#[export] Instance NexusError_eq_dec : EqDecision NexusError.
Proof. solve_decision. Defined.

(** [NexusError::is_recoverable]. *)
Definition is_recoverable (e : NexusError) : bool :=
  match e with
  | Timeout _ | FuelExhausted _ | StateCorruption _ | HealthValidationFailed _ => true
  | _ => false
  end.

(** [NexusError::category]. *)
Definition category (e : NexusError) : string :=
  match e with
  | WasmError _ => "WASM_EXECUTION"
  | SnapshotCreateFailed _ => "SNAPSHOT_FAILURE"
  | RollbackFailed _ => "ROLLBACK_FAILURE"
  | Timeout _ => "TIMEOUT"
  | FuelExhausted _ => "INFINITE_LOOP_PREVENTED"
  | MemoryLimitExceeded _ => "MEMORY_EXCEEDED"
  | StateCorruption _ => "STATE_CORRUPTION"
  | InvalidCapability _ => "SECURITY_VIOLATION"
  | CapabilityDenied _ => "CAPABILITY_DENIED"
  | EgressDenied _ => "EGRESS_DENIED"
  | FilesystemError _ => "FILESYSTEM_ERROR"
  | HealthValidationFailed _ => "HEALTH_FAILURE"
  | ResourceExhausted _ => "RESOURCE_EXHAUSTED"
  | SerializationError _ => "SERIALIZATION_ERROR"
  | ConfigError _ => "CONFIG_ERROR"
  end.

(** [DenialReason] and its caller-safe messages. *)
Inductive DenialReason :=
| TokenExpired
| TokenRevoked
| CapabilityNotPermitted
| ToolNotAllowed
| ProfileRestriction
| WasmPathDenied
| WasmPathInaccessible.

Definition safe_message (r : DenialReason) : string :=
  match r with
  | TokenExpired => "capability token has expired"
  | TokenRevoked => "capability token has been revoked"
  | CapabilityNotPermitted => "capability not permitted by active profile"
  | ToolNotAllowed => "tool is not in the MCP tool allowlist"
  | ProfileRestriction => "request denied by active profile"
  | WasmPathDenied => "wasm path is outside allowed module directories"
  | WasmPathInaccessible => "wasm path is not accessible"
  end.

(** Telemetry keys identify the constructor: equal categories, same kind of error. *)
Definition same_kind (e1 e2 : NexusError) : Prop :=
  match e1, e2 with
  | WasmError _, WasmError _ | SnapshotCreateFailed _, SnapshotCreateFailed _
  | RollbackFailed _, RollbackFailed _ | Timeout _, Timeout _
  | FuelExhausted _, FuelExhausted _ | MemoryLimitExceeded _, MemoryLimitExceeded _
  | StateCorruption _, StateCorruption _ | InvalidCapability _, InvalidCapability _
  | CapabilityDenied _, CapabilityDenied _ | EgressDenied _, EgressDenied _
  | FilesystemError _, FilesystemError _
  | HealthValidationFailed _, HealthValidationFailed _
  | ResourceExhausted _, ResourceExhausted _
  | SerializationError _, SerializationError _ | ConfigError _, ConfigError _ => True
  | _, _ => False
  end.

Lemma category_same_kind e1 e2 : category e1 = category e2 ↔ same_kind e1 e2.
Proof. destruct e1, e2; simpl; split; done. Qed.

Lemma safe_message_inj r1 r2 : safe_message r1 = safe_message r2 → r1 = r2.
Proof. by destruct r1, r2. Qed.
