(* ===== verification/Floats.v ===== *)
(** * IEEE-754 numbers

    [f64] and [f32] values are the standard library's [spec_float], with Rust's
    conversions: [as f64] rounds to nearest, [as u64] truncates and saturates. *)

From Stdlib Require Export Floats.SpecFloat.
From S2P Require Import Prelude.

Abbreviation f64 := spec_float.
Definition f64_of_Z (z : Z) : f64 := binary_normalize 53 1024 z 0 false.
Definition f64_add : f64 → f64 → f64 := SFadd 53 1024.
Definition f64_sub : f64 → f64 → f64 := SFsub 53 1024.
Definition f64_mul : f64 → f64 → f64 := SFmul 53 1024.
Definition f64_div : f64 → f64 → f64 := SFdiv 53 1024.

Abbreviation f32 := spec_float.
Definition f32_of_Z (z : Z) : f32 := binary_normalize 24 128 z 0 false.
Definition f32_add : f32 → f32 → f32 := SFadd 24 128.
Definition f32_sub : f32 → f32 → f32 := SFsub 24 128.
Definition f32_mul : f32 → f32 → f32 := SFmul 24 128.
Definition f32_div : f32 → f32 → f32 := SFdiv 24 128.

(** Decimal literals [n / d], rounded once. *)
Definition f64_lit (n d : Z) : f64 := f64_div (f64_of_Z n) (f64_of_Z d).
Definition f32_lit (n d : Z) : f32 := f32_div (f32_of_Z n) (f32_of_Z d).

(** The ordered comparisons; all are false on a NaN. *)
Definition f_lt (a b : spec_float) : bool := SFltb a b.
Definition f_le (a b : spec_float) : bool := SFleb a b.

(** The integer part, toward zero, of a finite number. *)
Definition mag_floor (m : positive) (e : Z) : Z := Z.shiftl (Zpos m) e.
Definition mag_ceil (m : positive) (e : Z) : Z := - Z.shiftl (- Zpos m) e.

(** [x as u64] (and [as usize]). *)
Definition f64_to_u64 (x : f64) : Z :=
  match x with
  | S754_finite false m e => Z.min U64_MAX (mag_floor m e)
  | S754_infinity false => U64_MAX
  | _ => 0
  end.

(** [x.ceil() as usize]: the ceiling of a double is a double, so nothing is rounded. *)
Definition f64_ceil_u64 (x : f64) : Z :=
  match x with
  | S754_finite false m e => Z.min U64_MAX (mag_ceil m e)
  | S754_infinity false => U64_MAX
  | _ => 0
  end.

(** [c.clamp(lo, hi)]. *)
Definition f_clamp (lo hi c : spec_float) : spec_float :=
  if f_lt c lo then lo else if f_lt hi c then hi else c.

Lemma f64_to_u64_range x : is_u64 (f64_to_u64 x).
Proof.
  unfold is_u64, f64_to_u64, U64_MAX, mag_floor.
  destruct x as [|[]| |[] m e]; try lia. pose proof (proj2 (Z.shiftl_nonneg (Zpos m) e)). lia.
Qed.
