(* ===== verification/LexPath.v ===== *)
(** * Lexical paths: [normalize_lexical_path] and path containment

    [src/security/capability.rs] compares the paths of capabilities without
    consulting the filesystem.  A [PathBuf] is its POSIX byte string; the
    [std::path::Path] operations the code uses are modelled on the component
    sequence ([Path::components], [push], [pop], [starts_with], and equality,
    which Rust defines on components).  Windows prefixes do not occur on POSIX. *)

From S2P Require Import Prelude.

Inductive Component :=
| RootDir
| CurDir
| ParentDir
| Normal (part : string).

#[export] Instance Component_eq_dec : EqDecision Component.
Proof. solve_decision. Defined.

Abbreviation PathBuf := string.
Definition slash : ascii := "/"%char.

(** [Path::components]: repeated separators and inner [.] disappear, a leading
    [.] of a relative path is kept. *)
Definition piece_component (p : string) : list Component :=
  if decide (p = "") then []
  else if decide (p = ".") then []
  else if decide (p = "..") then [ParentDir]
  else [Normal p].

Definition components (p : PathBuf) : list Component :=
  match split_on slash p with
  | first :: rest =>
      if starts_with "/" p then RootDir :: (rest ≫= piece_component)
      else (if decide (first = ".") then [CurDir] else piece_component first)
             ++ (rest ≫= piece_component)
  | [] => []
  end.

(** [PathBuf::push]: an absolute argument replaces the path. *)
Definition path_push (p : list Component) (c : Component) : list Component :=
  match c with RootDir => [RootDir] | _ => p ++ [c] end.

(** The three mutable locals of the loop. *)
Record NormState := {
  normalized : list Component;
  normal_depth : nat;
  rooted : bool;
}.

Definition norm_step (st : NormState) (c : Component) : NormState :=
  match c with
  | RootDir =>
      {| normalized := path_push st.(normalized) RootDir;
         normal_depth := st.(normal_depth); rooted := true |}
  | CurDir => st
  | Normal part =>
      {| normalized := path_push st.(normalized) (Normal part);
         normal_depth := S st.(normal_depth); rooted := st.(rooted) |}
  | ParentDir =>
      match st.(normal_depth) with
      | S d => {| normalized := removelast st.(normalized);
                  normal_depth := d; rooted := st.(rooted) |}
      | O => if st.(rooted) then st
             else {| normalized := path_push st.(normalized) ParentDir;
                     normal_depth := O; rooted := st.(rooted) |}
      end
  end.

Definition norm_init : NormState :=
  {| normalized := []; normal_depth := O; rooted := false |}.

Definition normalize_lexical_path (cs : list Component) : list Component :=
  (fold_left norm_step cs norm_init).(normalized).

(** [Path::starts_with], component-wise. *)
Fixpoint comps_prefix (p q : list Component) : bool :=
  match p, q with
  | [], _ => true
  | c :: p', d :: q' => bool_decide (c = d) && comps_prefix p' q'
  | _ :: _, [] => false
  end.

(** Equality of [PathBuf]s is equality of their components. *)
Definition pathbuf_eqb (p q : PathBuf) : bool := bool_decide (components p = components q).

(** [Capability::path_contains] and [Capability::path_eq]. *)
Definition path_contains (parent requested : PathBuf) : bool :=
  let p := normalize_lexical_path (components parent) in
  let q := normalize_lexical_path (components requested) in
  bool_decide (p = q) || comps_prefix p q.

Definition path_eq (left right : PathBuf) : bool :=
  bool_decide (normalize_lexical_path (components left)
               = normalize_lexical_path (components right)).

(** ** Specification: lexical resolution from a working directory

    A directory is the list of names from the root, deepest first. *)
Definition resolve_step (cwd : list string) (c : Component) : list string :=
  match c with
  | RootDir => []
  | CurDir => cwd
  | ParentDir => tail cwd
  | Normal part => part :: cwd
  end.

Definition lex_resolve (cwd : list string) (cs : list Component) : list string :=
  fold_left resolve_step cs cwd.

(** [q] is at or below directory [p]. *)
Definition below (p q : list string) : Prop := ∃ names, q = names ++ p.

(** The shapes [components] produces: a root only in front. *)
Definition root_in_front (cs : list Component) : Prop := RootDir ∉ tail cs.

(** A normal form is an optional root or some [..], then names. *)
Inductive normal_form : list Component → Prop :=
| NF_abs names : normal_form (RootDir :: (Normal <$> names))
| NF_rel ups names : normal_form (replicate ups ParentDir ++ (Normal <$> names)).

(** ** Helper lemmas *)

Lemma comps_prefix_spec p q : comps_prefix p q = true ↔ ∃ r, q = p ++ r.
Proof.
  revert q. induction p as [|c p IH]; intros q; cbn.
  - split; [eauto|done].
  - destruct q as [|d q].
    + split; [done|]. by intros [r Hr].
    + rewrite andb_true_iff, bool_decide_eq_true, IH. split.
      * intros [-> [r ->]]. by exists r.
      * intros [r [= -> ->]]. eauto.
Qed.

Lemma piece_no_root p : RootDir ∉ piece_component p.
Proof. unfold piece_component. repeat case_decide; set_solver. Qed.

Lemma pieces_no_root ps : RootDir ∉ ps ≫= piece_component.
Proof. rewrite list_elem_of_bind. intros (p & Hp & _). by apply piece_no_root in Hp. Qed.

Lemma components_root_in_front p : root_in_front (components p).
Proof.
  unfold root_in_front, components.
  destruct (split_on slash p) as [|first rest]; [set_solver|].
  pose proof (pieces_no_root rest) as Hr. pose proof (piece_no_root first) as Hf.
  destruct (starts_with "/" p); [done|].
  case_decide; [set_solver|].
  destruct (piece_component first) as [|c cs]; simpl; [|set_solver].
  destruct (rest ≫= piece_component); set_solver.
Qed.

Lemma lex_resolve_app cwd a b : lex_resolve cwd (a ++ b) = lex_resolve (lex_resolve cwd a) b.
Proof. apply fold_left_app. Qed.

Lemma lex_resolve_names cwd names :
  lex_resolve cwd (Normal <$> names) = reverse names ++ cwd.
Proof.
  revert cwd. induction names as [|n names IH]; intros cwd; [done|].
  rewrite fmap_cons, reverse_cons, <- app_assoc.
  change (lex_resolve cwd (Normal n :: (Normal <$> names)))
    with (lex_resolve (n :: cwd) (Normal <$> names)).
  by rewrite IH.
Qed.

(** ** The loop invariant *)

Inductive norm_inv (cs : list Component) : NormState → Prop :=
| NI_abs names :
    (∀ cwd, lex_resolve cwd cs = reverse names) →
    norm_inv cs {| normalized := RootDir :: (Normal <$> names);
                   normal_depth := length names; rooted := true |}
| NI_rel ups names :
    (∀ cwd, lex_resolve cwd cs
            = lex_resolve cwd (replicate ups ParentDir ++ (Normal <$> names))) →
    norm_inv cs {| normalized := replicate ups ParentDir ++ (Normal <$> names);
                   normal_depth := length names; rooted := false |}.

Lemma replicate_snoc {A} n (a : A) : replicate n a ++ [a] = replicate (S n) a.
Proof. symmetry. apply replicate_S_end. Qed.

Lemma norm_step_abs cs names c :
  c ≠ RootDir →
  (∀ cwd, lex_resolve cwd cs = reverse names) →
  norm_inv (cs ++ [c])
    (norm_step {| normalized := RootDir :: (Normal <$> names);
                  normal_depth := length names; rooted := true |} c).
Proof.
  intros Hc Hres.
  assert (∀ cwd, lex_resolve cwd (cs ++ [c]) = resolve_step (reverse names) c) as Hnext.
  { intros cwd. rewrite lex_resolve_app, Hres. done. }
  destruct c as [| | |part]; [done|..]; cbn [norm_step normal_depth normalized rooted path_push].
  - constructor. intros cwd. by rewrite Hnext.
  - destruct names as [|n names] using rev_ind.
    + apply (NI_abs _ []). intros cwd. by rewrite Hnext.
    + rewrite length_app, Nat.add_comm. cbn [length Nat.add].
      rewrite fmap_app. change (Normal <$> [n]) with [Normal n].
      rewrite app_comm_cons, removelast_snoc.
      constructor. intros cwd. rewrite Hnext, reverse_snoc. done.
  - replace ((RootDir :: (Normal <$> names)) ++ [Normal part])
      with (RootDir :: (Normal <$> (names ++ [part]))) by (by rewrite fmap_app).
    replace (S (length names)) with (length (names ++ [part])) by (rewrite length_app; simpl; lia).
    constructor. intros cwd. rewrite Hnext, reverse_snoc. done.
Qed.

Lemma norm_step_rel cs ups names c :
  c ≠ RootDir →
  (∀ cwd, lex_resolve cwd cs
          = lex_resolve cwd (replicate ups ParentDir ++ (Normal <$> names))) →
  norm_inv (cs ++ [c])
    (norm_step {| normalized := replicate ups ParentDir ++ (Normal <$> names);
                  normal_depth := length names; rooted := false |} c).
Proof.
  intros Hc Hres.
  assert (∀ cwd, lex_resolve cwd (cs ++ [c])
    = lex_resolve cwd ((replicate ups ParentDir ++ (Normal <$> names)) ++ [c])) as Hnext.
  { intros cwd. by rewrite !lex_resolve_app, Hres, lex_resolve_app. }
  destruct c as [| | |part]; [done|..]; cbn [norm_step normal_depth normalized rooted path_push].
  - constructor. intros cwd. rewrite Hnext, lex_resolve_app. done.
  - destruct names as [|n names] using rev_ind.
    + assert ((replicate ups ParentDir ++ (Normal <$> [])) ++ [ParentDir]
              = replicate (S ups) ParentDir ++ (Normal <$> [])) as E.
      { cbn [fmap list_fmap]. by rewrite !app_nil_r, replicate_snoc. }
      cbn [length]. rewrite E in *. by apply (NI_rel _ (S ups) []).
    + rewrite length_app, Nat.add_comm. cbn [length Nat.add].
      rewrite fmap_app in *. change (Normal <$> [n]) with [Normal n] in *.
      rewrite app_assoc, removelast_snoc.
      constructor. intros cwd. rewrite Hnext, !lex_resolve_app. done.
  - rewrite <- app_assoc in *.
    replace ((Normal <$> names) ++ [Normal part]) with (Normal <$> (names ++ [part])) in *
      by (by rewrite fmap_app).
    replace (S (length names)) with (length (names ++ [part])) by (rewrite length_app; simpl; lia).
    by constructor.
Qed.

Lemma norm_inv_fold cs :
  root_in_front cs → norm_inv cs (fold_left norm_step cs norm_init).
Proof.
  induction cs as [|c cs IH] using rev_ind; intros Hroot.
  - apply (NI_rel [] 0 []). done.
  - rewrite fold_left_snoc. destruct cs as [|c0 cs0].
    + destruct c; cbn.
      * apply (NI_abs _ []). done.
      * apply (NI_rel _ 0 []). done.
      * apply (NI_rel _ 1 []). done.
      * by apply (NI_rel _ 0 [part]).
    + assert (c ≠ RootDir ∧ root_in_front (c0 :: cs0)) as [Hc Hr].
      { unfold root_in_front in *. cbn in *. set_solver. }
      destruct (IH Hr) as [names Hres|ups names Hres].
      * by apply norm_step_abs.
      * by apply norm_step_rel.
Qed.

Lemma normalize_normal_form p : normal_form (normalize_lexical_path (components p)).
Proof.
  unfold normalize_lexical_path.
  destruct (norm_inv_fold _ (components_root_in_front p)); constructor.
Qed.

Lemma rooted_fold cs st : rooted st = true → rooted (fold_left norm_step cs st) = true.
Proof.
  revert st. induction cs as [|c cs IH]; intros st H; [done|].
  cbn. apply IH. destruct c; cbn; try done.
  destruct (normal_depth st); [by rewrite H|done].
Qed.

Lemma components_absolute p :
  starts_with "/" p = true → ∃ rest, components p = RootDir :: rest.
Proof.
  unfold components. intros ->. pose proof (split_on_nonempty slash p).
  destruct (split_on slash p); [done|eauto].
Qed.

(** The normal form of an absolute path is a root and the names it resolves to. *)
Lemma normalize_absolute p :
  starts_with "/" p = true →
  ∃ names, normalize_lexical_path (components p) = RootDir :: (Normal <$> names)
           ∧ ∀ cwd, lex_resolve cwd (components p) = reverse names.
Proof.
  intros (rest & Hp)%components_absolute.
  pose proof (norm_inv_fold _ (components_root_in_front p)) as Hinv.
  assert (rooted (fold_left norm_step (components p) norm_init) = true) as Hr.
  { rewrite Hp. cbn [fold_left]. by apply rooted_fold. }
  unfold normalize_lexical_path. destruct Hinv as [names Hres|ups names Hres]; [|done].
  by exists names.
Qed.

Lemma path_contains_prefix p q :
  path_contains p q = true ↔
  ∃ r, normalize_lexical_path (components q) = normalize_lexical_path (components p) ++ r.
Proof.
  unfold path_contains. rewrite orb_true_iff, bool_decide_eq_true, comps_prefix_spec.
  split; [|by right]. intros [->|]; [|done]. exists []. by rewrite app_nil_r.
Qed.

#[export] Instance Normal_inj : Inj (=) (=) Normal.
Proof. by intros x y [= ->]. Qed.

(** In a normal form, only names follow a name. *)
Lemma normal_form_after_name l a x r :
  normal_form l → l = a ++ Normal x :: r → ∃ names, r = Normal <$> names.
Proof.
  assert (∀ k names, Normal <$> names = k ++ Normal x :: r → ∃ ns, r = Normal <$> ns) as Hn.
  { intros k names H. apply fmap_app_inv in H as (n1 & n2 & H1 & H2 & ->).
    destruct n2 as [|n n2]; [done|]. rewrite fmap_cons in H2. simplify_eq. eauto. }
  intros [names|ups names] H.
  - destruct a as [|c a]; simplify_eq/=. eauto.
  - apply app_eq_inv in H as [(k & Hk & H)|(k & -> & H)]; [|eauto].
    destruct k as [|c k].
    + apply (Hn [] names). by rewrite H.
    + simplify_eq/=. assert (Normal x ∈ replicate ups ParentDir) as He by (rewrite Hk; set_solver).
      by apply elem_of_replicate in He as [? _].
Qed.

(** A capability path confines when its normal form is absolute or ends in a name. *)
Definition anchored (p : PathBuf) : bool :=
  match normalize_lexical_path (components p) with
  | RootDir :: _ => true
  | l => match last l with Some (Normal _) => true | _ => false end
  end.

Lemma lex_resolve_normalize p cwd :
  lex_resolve cwd (normalize_lexical_path (components p)) = lex_resolve cwd (components p).
Proof.
  unfold normalize_lexical_path.
  destruct (norm_inv_fold _ (components_root_in_front p)) as [names H|ups names H];
    rewrite H; [|done]. cbn [normalized].
  change (lex_resolve cwd (RootDir :: (Normal <$> names)))
    with (lex_resolve [] (Normal <$> names)).
  rewrite lex_resolve_names. apply app_nil_r.
Qed.

Lemma anchored_suffix_names p r :
  anchored p = true →
  normal_form (normalize_lexical_path (components p) ++ r) →
  ∃ names, r = Normal <$> names.
Proof.
  intros Ha Hnf. unfold anchored in Ha.
  destruct (normalize_lexical_path (components p)) as [|c l] eqn:E; [done|].
  destruct c; try (
    destruct (last _) as [d|] eqn:El; [|done]; destruct d as [| | |x]; [done..|];
    apply last_Some in El as (l' & El);
    rewrite El, <- app_assoc in Hnf; by eapply normal_form_after_name).
  change ((RootDir :: l) ++ r) with (RootDir :: (l ++ r)) in Hnf.
  inversion Hnf as [names Hn|ups names Hn]; subst.
  - apply fmap_app_inv in Hn as (n1 & n2 & H1 & H2 & H3). eauto.
  - destruct ups; [destruct names|]; done.
Qed.

(** Normalizing twice changes nothing. *)
Lemma norm_step_names names st :
  fold_left norm_step (Normal <$> names) st
  = {| normalized := normalized st ++ (Normal <$> names);
       normal_depth := normal_depth st + length names; rooted := rooted st |}%nat.
Proof.
  revert st. induction names as [|n names IH]; intros st.
  - destruct st; cbn. by rewrite app_nil_r, Nat.add_0_r.
  - rewrite fmap_cons. cbn [fold_left norm_step]. rewrite IH. cbn [normalized normal_depth rooted path_push].
    rewrite <- app_assoc. cbn [length]. rewrite Nat.add_succ_r. done.
Qed.

Lemma norm_step_ups n st :
  normal_depth st = O → rooted st = false →
  fold_left norm_step (replicate n ParentDir) st
  = {| normalized := normalized st ++ replicate n ParentDir;
       normal_depth := O; rooted := false |}.
Proof.
  revert st. induction n as [|n IH]; intros st Hd Hr.
  - destruct st; cbn in *. by rewrite app_nil_r, Hd, Hr.
  - rewrite replicate_S. cbn [fold_left norm_step]. rewrite Hd, Hr, IH by done.
    cbn [normalized path_push]. by rewrite <- app_assoc.
Qed.

Lemma normalize_normal_form_id l : normal_form l → normalize_lexical_path l = l.
Proof.
  unfold normalize_lexical_path. intros [names|ups names].
  - cbn [fold_left norm_step norm_init path_push]. by rewrite norm_step_names.
  - rewrite fold_left_app, norm_step_ups by done. by rewrite norm_step_names.
Qed.

Lemma path_contains_refl p : path_contains p p = true.
Proof. apply path_contains_prefix. exists []. by rewrite app_nil_r. Qed.

Lemma path_contains_trans p q r :
  path_contains p q = true → path_contains q r = true → path_contains p r = true.
Proof.
  rewrite !path_contains_prefix. intros [a Ha] [b Hb].
  exists (a ++ b). by rewrite Hb, Ha, <- app_assoc.
Qed.

Lemma path_contains_eq_l p p' q :
  path_eq p p' = true → path_contains p q = path_contains p' q.
Proof. unfold path_eq, path_contains. by intros ->%bool_decide_eq_true. Qed.

Lemma path_eq_spec p q :
  path_eq p q = true ↔
  normalize_lexical_path (components p) = normalize_lexical_path (components q).
Proof. apply bool_decide_eq_true. Qed.

(** Containment is a preorder on paths, with [path_eq] as its equivalence. *)
#[export] Instance path_contains_preorder :
  PreOrder (λ p q, path_contains p q = true).
Proof. split; red; [apply path_contains_refl | apply path_contains_trans]. Qed.

(** ** Properties *)

(** Lexical normalization is a canonical form that keeps the meaning: from any
    working directory the normalized path resolves to the same directory as the
    path itself, the result is an optional root or leading [..]s followed by
    names only (no [.] and no inner [..] survives), and normalizing it again
    changes nothing. *)
Theorem normalize_canonical (p : PathBuf) (cwd : list string) :
  lex_resolve cwd (normalize_lexical_path (components p)) = lex_resolve cwd (components p)
  ∧ normal_form (normalize_lexical_path (components p))
  ∧ normalize_lexical_path (normalize_lexical_path (components p))
    = normalize_lexical_path (components p).
Proof.
  split; [apply lex_resolve_normalize|]. split; [apply normalize_normal_form|].
  apply normalize_normal_form_id, normalize_normal_form.
Qed.

(** For absolute paths, the component-prefix test of [path_contains] decides
    exactly "the requested path resolves at or below the granted one", whatever
    [.], [..] and repeated separators either path contains. *)
Theorem path_contains_absolute_iff (p q : PathBuf) :
  starts_with "/" p = true → starts_with "/" q = true →
  (path_contains p q = true ↔
   ∀ cwd, below (lex_resolve cwd (components p)) (lex_resolve cwd (components q))).
Proof.
  intros (np & Hp & Hrp)%normalize_absolute (nq & Hq & Hrq)%normalize_absolute.
  rewrite path_contains_prefix, Hp, Hq. split.
  - intros (r & [= H]) cwd. rewrite Hrp, Hrq.
    apply fmap_app_inv in H as (n1 & n2 & H1 & -> & ->).
    apply (inj (fmap Normal)) in H1 as ->.
    exists (reverse n2). apply reverse_app.
  - intros H. destruct (H []) as [names Hn]. rewrite Hrp, Hrq in Hn.
    apply (f_equal reverse) in Hn. rewrite reverse_app, !reverse_involutive in Hn.
    exists (Normal <$> reverse names). by rewrite Hn, fmap_app.
Qed.

(** A capability path whose normal form is absolute or ends in a name confines:
    every path it contains resolves at or below it, from any working directory. *)
Theorem path_contains_confines (p q : PathBuf) (cwd : list string) :
  anchored p = true → path_contains p q = true →
  below (lex_resolve cwd (components p)) (lex_resolve cwd (components q)).
Proof.
  rewrite path_contains_prefix. intros Ha [r Hr].
  assert (normal_form (normalize_lexical_path (components p) ++ r)) as Hnf
    by (rewrite <- Hr; apply normalize_normal_form).
  destruct (anchored_suffix_names _ _ Ha Hnf) as [names ->].
  exists (reverse names).
  rewrite <- (lex_resolve_normalize q), Hr, lex_resolve_app, lex_resolve_names.
  by rewrite lex_resolve_normalize.
Qed.

Lemma path_contains_absolute_iff_witness :
  path_contains "/home" "/home//user/./docs/../x" = true ∧
  (path_contains "/home" "/home/../etc" = true ↔
   ∀ cwd, below (lex_resolve cwd (components "/home"))
                (lex_resolve cwd (components "/home/../etc"))).
Proof. split; [vm_compute; reflexivity|]. apply path_contains_absolute_iff; vm_compute; reflexivity. Defined.

Lemma path_contains_confines_witness :
  below (lex_resolve ["proj"; "srv"] (components "./data"))
        (lex_resolve ["proj"; "srv"] (components "data/in/../out")).
Proof. apply path_contains_confines; vm_compute; reflexivity. Defined.

(** The empty normal form confines nothing: a grant on the relative path [.]
    contains every path whatsoever, absolute ones and ones above the working
    directory included, so containment then says nothing about where the
    requested path resolves. *)
Theorem path_contains_dot_everything (q : PathBuf) :
  path_contains "." q = true
  ∧ ¬ below (lex_resolve ["proj"; "srv"] (components "."))
            (lex_resolve ["proj"; "srv"] (components "/etc/shadow"))
  ∧ ¬ below (lex_resolve ["proj"; "srv"] (components "."))
            (lex_resolve ["proj"; "srv"] (components "../other")).
Proof.
  split; [apply path_contains_prefix; exists (normalize_lexical_path (components q)); reflexivity|].
  split; intros [names H]; vm_compute in H;
    (destruct names as [|n [|n' names]]; simplify_eq/=; destruct names; simplify_eq/=).
Qed.
