(* ===== verification/UrlGuard.v ===== *)
(** * The SSRF guard: [src/security/url_guard.rs]

    IP addresses are octets (v4) or 16-bit segments (v6) in [Z]; the predicates of
    [std::net] that the guard calls and the textual parser behind
    [str::parse::<IpAddr>] are written out.  The [url] crate is the interface
    [UrlLib]: parsing, the scheme, the host and the port of a URL. *)

From S2P Require Import Prelude Errors.

Record Ipv4Addr := V4 { oct0 : Z; oct1 : Z; oct2 : Z; oct3 : Z }.
Definition Ipv6Addr := list Z. (* the eight segments *)
Inductive IpAddr := IpV4 (ip : Ipv4Addr) | IpV6 (ip : Ipv6Addr).
Inductive Host := Domain (name : string) | HostIpv4 (ip : Ipv4Addr) | HostIpv6 (ip : Ipv6Addr).

(** The part of the [url] crate the program uses. *)
Class UrlLib := {
  Url : Type;
  url_parse : string → option Url;
  url_scheme : Url → string;
  url_host : Url → option Host;
  url_host_str : Url → option string;
  url_port_or_known_default : Url → option Z;
}.

(** ** [std::net] predicates *)

Section Ipv4.
Variable ip : Ipv4Addr.
Let a := ip.(oct0).
Let b := ip.(oct1).
Let c := ip.(oct2).
Let d := ip.(oct3).

Definition v4_is_loopback : bool := a =? 127.
Definition v4_is_private : bool :=
  (a =? 10) || ((a =? 172) && (16 <=? b) && (b <=? 31)) || ((a =? 192) && (b =? 168)).
Definition v4_is_link_local : bool := (a =? 169) && (b =? 254).
Definition v4_is_multicast : bool := (224 <=? a) && (a <=? 239).
Definition v4_is_broadcast : bool := (a =? 255) && (b =? 255) && (c =? 255) && (d =? 255).
Definition v4_is_documentation : bool :=
  ((a =? 192) && (b =? 0) && (c =? 2))
  || ((a =? 198) && (b =? 51) && (c =? 100))
  || ((a =? 203) && (b =? 0) && (c =? 113)).
Definition v4_is_unspecified : bool := (a =? 0) && (b =? 0) && (c =? 0) && (d =? 0).

(** [is_blocked_v4]. *)
Definition is_blocked_v4 : bool :=
  v4_is_loopback || v4_is_private || v4_is_link_local || v4_is_multicast
  || v4_is_broadcast || v4_is_documentation || v4_is_unspecified
  || ((a =? 100) && (Z.land b 192 =? 64))
  || ((a =? 198) && (Z.land b 254 =? 18))
  || (240 <=? a).
End Ipv4.

Definition seg (ip : Ipv6Addr) (i : nat) : Z := nth i ip 0.

Definition v6_is_loopback (ip : Ipv6Addr) : bool := bool_decide (ip = [0;0;0;0;0;0;0;1]).
Definition v6_is_unspecified (ip : Ipv6Addr) : bool := bool_decide (ip = [0;0;0;0;0;0;0;0]).
Definition v6_is_multicast (ip : Ipv6Addr) : bool := Z.land (seg ip 0) 65280 =? 65280.

Definition v4_of_segs (ab cd : Z) : Ipv4Addr := V4 (ab / 256) (ab mod 256) (cd / 256) (cd mod 256).

(** [to_ipv4_mapped]: only [::ffff:a.b.c.d]. *)
Definition to_ipv4_mapped (ip : Ipv6Addr) : option Ipv4Addr :=
  match ip with
  | [0;0;0;0;0;65535;ab;cd] => Some (v4_of_segs ab cd)
  | _ => None
  end.

(** [to_ipv4]: also the deprecated [::a.b.c.d]. *)
Definition to_ipv4 (ip : Ipv6Addr) : option Ipv4Addr :=
  match ip with
  | [0;0;0;0;0;65535;ab;cd] | [0;0;0;0;0;0;ab;cd] => Some (v4_of_segs ab cd)
  | _ => None
  end.

Definition is_blocked_v6 (ip : Ipv6Addr) : bool :=
  v6_is_loopback ip || v6_is_multicast ip || v6_is_unspecified ip
  || (Z.land (seg ip 0) 65472 =? 65152)
  || (Z.land (seg ip 0) 65024 =? 64512)
  || match (match to_ipv4_mapped ip with Some m => Some m | None => to_ipv4 ip end) with
     | Some mapped => is_blocked_v4 mapped
     | None => false
     end.

Definition is_blocked_ip (ip : IpAddr) : bool :=
  match ip with IpV4 ip => is_blocked_v4 ip | IpV6 ip => is_blocked_v6 ip end.

(** ** [str::parse::<IpAddr>]

    The recursive-descent parser of [core::net]: each reader returns the value and
    the rest of the input, or fails without consuming. *)

Definition digit_value (radix : Z) (a : ascii) : option Z :=
  let c := Z.of_nat (code a) in
  let v := if (48 <=? c) && (c <=? 57) then Some (c - 48)
           else if (97 <=? c) && (c <=? 122) then Some (c - 87)
           else if (65 <=? c) && (c <=? 90) then Some (c - 55)
           else None in
  match v with Some d => if d <? radix then Some d else None | None => None end.

(** Digits read so far [n], value so far [acc]; [None] past [max_digits] or [limit]. *)
Fixpoint read_digits (radix : Z) (max_digits : nat) (limit : Z) (n : nat) (acc : Z) (s : string)
  : option (nat * Z * string) :=
  match s with
  | String a s' =>
      match digit_value radix a with
      | Some d =>
          let acc' := acc * radix + d in
          if (limit <? acc') || (max_digits <? S n)%nat then None
          else read_digits radix max_digits limit (S n) acc' s'
      | None => Some (n, acc, s)
      end
  | EmptyString => Some (n, acc, s)
  end.

Definition read_number (radix : Z) (max_digits : nat) (limit : Z) (allow_zero_prefix : bool)
    (s : string) : option (Z * string) :=
  match read_digits radix max_digits limit 0 0 s with
  | Some (O, _, _) => None
  | Some (n, v, rest) =>
      if negb allow_zero_prefix && starts_with "0" s && (1 <? n)%nat then None
      else Some (v, rest)
  | None => None
  end.

Definition read_char (c : ascii) (s : string) : option string :=
  match s with String a s' => if Ascii.eqb a c then Some s' else None | _ => None end.

Definition read_separator {A} (sep : ascii) (index : nat) (read : string → option (A * string))
    (s : string) : option (A * string) :=
  match index with
  | O => read s
  | S _ => match read_char sep s with Some s' => read s' | None => None end
  end.

Definition read_octet (index : nat) (s : string) : option (Z * string) :=
  read_separator "."%char index (read_number 10 3 255 false) s.

Definition read_ipv4 (s : string) : option (Ipv4Addr * string) :=
  match read_octet 0 s with
  | None => None
  | Some (a, s1) => match read_octet 1 s1 with
    | None => None
    | Some (b, s2) => match read_octet 2 s2 with
      | None => None
      | Some (c, s3) => match read_octet 3 s3 with
        | None => None
        | Some (d, s4) => Some (V4 a b c d, s4)
        end end end end.

(** [read_groups]: up to [limit] groups from index [i], with an embedded IPv4
    tail allowed; returns the groups and whether an IPv4 address ended them. *)
Fixpoint read_groups (limit : nat) (i : nat) (s : string) : list Z * bool * string :=
  match limit with
  | O => ([], false, s)
  | S limit' =>
      let v4 := match limit' with
                | O => None
                | S _ => read_separator ":"%char i read_ipv4 s
                end in
      match v4 with
      | Some (V4 a b c d, s') => ([a * 256 + b; c * 256 + d], true, s')
      | None =>
          match read_separator ":"%char i (read_number 16 4 65535 true) s with
          | Some (g, s') =>
              let '(gs, v4end, rest) := read_groups limit' (S i) s' in (g :: gs, v4end, rest)
          | None => ([], false, s)
          end
      end
  end.

Definition read_ipv6 (s : string) : option (Ipv6Addr * string) :=
  let '(head, head_ipv4, s1) := read_groups 8 0 s in
  if decide (length head = 8%nat) then Some (head, s1)
  else if head_ipv4 then None
  else match read_char ":"%char s1 with
       | None => None
       | Some s2 => match read_char ":"%char s2 with
         | None => None
         | Some s3 =>
             let limit := (8 - (length head + 1))%nat in
             let '(tl, _, s4) := read_groups limit 0 s3 in
             Some (head ++ replicate (8 - length head - length tl) 0 ++ tl, s4)
         end end.

Definition parse_ip (s : string) : option IpAddr :=
  match read_ipv4 s with
  | Some (ip, EmptyString) => Some (IpV4 ip)
  | Some _ => None
  | None => match read_ipv6 s with
            | Some (ip, EmptyString) => Some (IpV6 ip)
            | _ => None
            end
  end.

Example parse_ip_v4 : parse_ip "169.254.169.254" = Some (IpV4 (V4 169 254 169 254)).
Proof. reflexivity. Qed.
Example parse_ip_v4_bad : parse_ip "010.0.0.1" = None ∧ parse_ip "1.2.3.256" = None.
Proof. split; reflexivity. Qed.
Example parse_ip_v6 :
  parse_ip "::ffff:127.0.0.1" = Some (IpV6 [0;0;0;0;0;65535;32512;1])
  ∧ parse_ip "fe80::1" = Some (IpV6 [65152;0;0;0;0;0;0;1])
  ∧ parse_ip "1:2:3:4:5:6:7:8" = Some (IpV6 [1;2;3;4;5;6;7;8])
  ∧ parse_ip "1::2::3" = None.
Proof. repeat split; reflexivity. Qed.

(** ** The guard *)

Definition is_blocked_hostname (host : string) : bool :=
  bool_decide (host ∈ ["localhost"; "metadata.google.internal"; "metadata.goog"; "metadata"])
  || starts_with "localhost." host.

(** [str::trim_end_matches(c)] / [trim_start_matches(c)] for one ASCII character. *)
Fixpoint trim_start_char (c : ascii) (s : string) : string :=
  match s with
  | String a s' => if Ascii.eqb a c then trim_start_char c s' else s
  | EmptyString => EmptyString
  end.
Definition trim_end_char (c : ascii) (s : string) : string :=
  string_rev (trim_start_char c (string_rev s)).

Section Guard.
Context `{UrlLib}.

Definition restricted_pattern_error (pattern : string) : NexusError :=
  InvalidCapability
    (Fmt "HTTP capability URL '{}' targets a restricted host or address" [AStr pattern]).

Definition restricted_url_error (_ : Url) : NexusError :=
  InvalidCapability (Fmt "HTTP URL '{}' targets a restricted host or address" [AOpaque]).

Definition validate_resolved_url (url : Url) : result () NexusError :=
  match url_host url with
  | Some (HostIpv4 ip) =>
      if is_blocked_ip (IpV4 ip) then Err (restricted_url_error url) else Ok ()
  | Some (HostIpv6 ip) =>
      if is_blocked_v6 ip then Err (restricted_url_error url) else Ok ()
  | Some (Domain name) =>
      let host := to_ascii_lowercase (trim_end_char "."%char name) in
      if match parse_ip host with Some ip => is_blocked_ip ip | None => false end
         || is_blocked_hostname host
      then Err (restricted_url_error url)
      else Ok ()
  | None =>
      Err (InvalidCapability (Fmt "HTTP URL '{}' does not contain a host" [AOpaque]))
  end.

Definition validate_http_capability_pattern (pattern : string) : result () NexusError :=
  let parse_target := match strip_suffix "/*" pattern with Some p => p | None => pattern end in
  match url_parse parse_target with
  | None => Err (InvalidCapability
                   (Fmt "invalid HTTP capability URL '{}': {}" [AStr pattern; AOpaque]))
  | Some url =>
      if negb (bool_decide (url_scheme url ∈ ["http"; "https"]))
      then Err (InvalidCapability
                  (Fmt "HTTP capability URL '{}' must use http or https scheme" [AStr pattern]))
      else result_map_err (λ _, restricted_pattern_error pattern) (validate_resolved_url url)
  end.

(** What an accepted pattern may name. *)
Definition host_permitted (h : Host) : Prop :=
  match h with
  | HostIpv4 ip => is_blocked_v4 ip = false
  | HostIpv6 ip => is_blocked_v6 ip = false
  | Domain name =>
      is_blocked_hostname (to_ascii_lowercase (trim_end_char "."%char name)) = false
      ∧ ∀ ip, parse_ip (to_ascii_lowercase (trim_end_char "."%char name)) = Some ip →
              is_blocked_ip ip = false
  end.

Lemma validate_resolved_url_ok url :
  validate_resolved_url url = Ok () ↔ ∃ h, url_host url = Some h ∧ host_permitted h.
Proof.
  unfold validate_resolved_url, host_permitted.
  destruct (url_host url) as [[name|ip|ip]|]; cbn [is_blocked_ip].
  - destruct (parse_ip _) as [ip|] eqn:E; cbn [orb].
    + destruct (is_blocked_ip ip) eqn:Eb; cbn [orb]; [|destruct (is_blocked_hostname _) eqn:Eh].
      * split; [done|]. intros (? & [= <-] & _ & Hip). rewrite (Hip ip E) in Eb. done.
      * split; [done|]. intros (? & [= <-] & Hh & _). congruence.
      * split; [|done]. intros _. eexists. split; [done|]. split; [done|].
        intros ip' H'. by simplify_eq.
    + destruct (is_blocked_hostname _) eqn:Eh.
      * split; [done|]. intros (? & [= <-] & Hh & _). congruence.
      * split; [|done]. intros _. exists (Domain name).
        split; [done|]. split; [done|]. intros ip'. by rewrite E.
  - destruct (is_blocked_v4 ip) eqn:E; split; try done; [|by eauto].
    intros (? & [= <-] & ?). congruence.
  - destruct (is_blocked_v6 ip) eqn:E; split; try done; [|by eauto].
    intros (? & [= <-] & ?). congruence.
  - split; [done|]. by intros (? & ? & ?).
Qed.
End Guard.

(** ** Specification: CIDR blocks *)

Definition octet (z : Z) : Prop := 0 ≤ z < 256.
Definition ipv4_ok (ip : Ipv4Addr) : Prop :=
  octet ip.(oct0) ∧ octet ip.(oct1) ∧ octet ip.(oct2) ∧ octet ip.(oct3).

Definition addr32 (ip : Ipv4Addr) : Z :=
  ((ip.(oct0) * 256 + ip.(oct1)) * 256 + ip.(oct2)) * 256 + ip.(oct3).

(** [addr] lies in [base/len]. *)
Definition in_cidr (addr : Z) (block : Ipv4Addr * Z) : bool :=
  addr / 2 ^ (32 - block.2) =? addr32 block.1 / 2 ^ (32 - block.2).

Definition restricted_blocks : list (Ipv4Addr * Z) :=
  [ (V4 127 0 0 0, 8);       (* loopback *)
    (V4 10 0 0 0, 8); (V4 172 16 0 0, 12); (V4 192 168 0 0, 16); (* private *)
    (V4 169 254 0 0, 16);    (* link local, cloud metadata *)
    (V4 224 0 0 0, 4);       (* multicast *)
    (V4 240 0 0 0, 4);       (* reserved and broadcast *)
    (V4 192 0 2 0, 24); (V4 198 51 100 0, 24); (V4 203 0 113 0, 24); (* documentation *)
    (V4 0 0 0 0, 32);        (* unspecified *)
    (V4 100 64 0 0, 10);     (* shared address space *)
    (V4 198 18 0 0, 15) ].   (* benchmarking *)

(** Facts about all octets, checked one by one. *)
Lemma all_octets (P : Z → bool) :
  forallb P (map Z.of_nat (seq 0 256)) = true → ∀ z, octet z → P z = true.
Proof.
  intros H z Hz. rewrite forallb_forall in H. apply H.
  apply in_map_iff. exists (Z.to_nat z). unfold octet in Hz.
  split; [lia|]. apply in_seq. lia.
Qed.

Lemma land_192 b : octet b → (Z.land b 192 =? 64) = (64 <=? b) && (b <=? 127).
Proof.
  intros Hb. apply eqb_prop.
  exact (all_octets (λ b, eqb (Z.land b 192 =? 64) ((64 <=? b) && (b <=? 127)))
           ltac:(vm_compute; reflexivity) b Hb).
Qed.

Lemma land_254 b : octet b → (Z.land b 254 =? 18) = (18 <=? b) && (b <=? 19).
Proof.
  intros Hb. apply eqb_prop.
  exact (all_octets (λ b, eqb (Z.land b 254 =? 18) ((18 <=? b) && (b <=? 19)))
           ltac:(vm_compute; reflexivity) b Hb).
Qed.

Lemma bool_eq_iff (a b : bool) : (a = true ↔ b = true) → a = b.
Proof. destruct a, b; intuition. Qed.

(** The guard's bit tests on one block, as a statement about the 32-bit address. *)
Ltac cidr_block :=
  intros; unfold in_cidr, addr32, octet in *; cbn [fst snd oct0 oct1 oct2 oct3] in *;
  apply bool_eq_iff; rewrite ?andb_true_iff, ?orb_true_iff, ?Z.eqb_eq, ?Z.leb_le;
  cbn -[Z.div Z.mul Z.add];
  Z.div_mod_to_equations; lia.

Section Blocks.
Variables a b c d : Z.
Hypothesis Ha : octet a.
Hypothesis Hb : octet b.
Hypothesis Hc : octet c.
Hypothesis Hd : octet d.

Lemma block_8 x : octet x → (a =? x) = in_cidr (addr32 (V4 a b c d)) (V4 x 0 0 0, 8).
Proof. cidr_block. Qed.
Lemma block_16 x y : octet x → octet y →
  (a =? x) && (b =? y) = in_cidr (addr32 (V4 a b c d)) (V4 x y 0 0, 16).
Proof. cidr_block. Qed.
Lemma block_24 x y z : octet x → octet y → octet z →
  (a =? x) && (b =? y) && (c =? z) = in_cidr (addr32 (V4 a b c d)) (V4 x y z 0, 24).
Proof. cidr_block. Qed.
Lemma block_172 :
  (a =? 172) && (16 <=? b) && (b <=? 31) = in_cidr (addr32 (V4 a b c d)) (V4 172 16 0 0, 12).
Proof. cidr_block. Qed.
Lemma block_224 : (224 <=? a) && (a <=? 239) = in_cidr (addr32 (V4 a b c d)) (V4 224 0 0 0, 4).
Proof. cidr_block. Qed.
Lemma block_240 : (240 <=? a) = in_cidr (addr32 (V4 a b c d)) (V4 240 0 0 0, 4).
Proof. cidr_block. Qed.
Lemma block_0 :
  (a =? 0) && (b =? 0) && (c =? 0) && (d =? 0) = in_cidr (addr32 (V4 a b c d)) (V4 0 0 0 0, 32).
Proof. cidr_block. Qed.
Lemma block_100 :
  (a =? 100) && ((64 <=? b) && (b <=? 127)) = in_cidr (addr32 (V4 a b c d)) (V4 100 64 0 0, 10).
Proof. cidr_block. Qed.
Lemma block_198 :
  (a =? 198) && ((18 <=? b) && (b <=? 19)) = in_cidr (addr32 (V4 a b c d)) (V4 198 18 0 0, 15).
Proof. cidr_block. Qed.
Lemma broadcast_reserved :
  (a =? 255) && (b =? 255) && (c =? 255) && (d =? 255) = true → (240 <=? a) = true.
Proof. rewrite !andb_true_iff, !Z.eqb_eq, Z.leb_le. lia. Qed.
End Blocks.

(** The octets of an IPv4 address embedded in two IPv6 segments. *)
Definition segs_of_v4 (ip : Ipv4Addr) : Z * Z :=
  (ip.(oct0) * 256 + ip.(oct1), ip.(oct2) * 256 + ip.(oct3)).

Lemma v4_of_segs_of_v4 ip :
  ipv4_ok ip → v4_of_segs (segs_of_v4 ip).1 (segs_of_v4 ip).2 = ip.
Proof.
  destruct ip as [a b c d]. unfold ipv4_ok, octet, v4_of_segs, segs_of_v4.
  cbn [oct0 oct1 oct2 oct3 fst snd]. intros (Ha & Hb & Hc & Hd).
  f_equal; Z.div_mod_to_equations; lia.
Qed.

(** ** Properties *)

(** The bit tests of [is_blocked_v4] are exactly membership in the list of
    restricted CIDR blocks (loopback, private, link-local/metadata, multicast,
    reserved, documentation, unspecified, shared and benchmarking space), for
    every IPv4 address. *)
Theorem is_blocked_v4_cidr (ip : Ipv4Addr) :
  ipv4_ok ip → is_blocked_v4 ip = existsb (in_cidr (addr32 ip)) restricted_blocks.
Proof.
  destruct ip as [a b c d]. intros (Ha & Hb & Hc & Hd). cbn [oct0 oct1 oct2 oct3] in *.
  unfold is_blocked_v4, v4_is_loopback, v4_is_private, v4_is_link_local, v4_is_multicast,
    v4_is_broadcast, v4_is_documentation, v4_is_unspecified.
  cbn [oct0 oct1 oct2 oct3]. rewrite land_192, land_254 by done.
  pose proof (broadcast_reserved a b c d) as Hbc.
  cbn [existsb restricted_blocks].
  rewrite <- !block_8, <- !block_16, <- !block_24, <- block_172, <- block_224, <- block_240,
    <- block_0, <- block_100, <- block_198 by (done || (unfold octet; lia)).
  apply bool_eq_iff. destruct (_ && (d =? 255)); [rewrite Hbc by done|];
    rewrite ?orb_true_iff, ?orb_false_iff; intuition.
Qed.

Lemma is_blocked_v4_cidr_witness :
  is_blocked_v4 (V4 100 127 255 255)
    = existsb (in_cidr (addr32 (V4 100 127 255 255))) restricted_blocks
  ∧ is_blocked_v4 (V4 100 127 255 255) = true ∧ is_blocked_v4 (V4 100 128 0 0) = false.
Proof.
  split; [apply is_blocked_v4_cidr; repeat split; cbn; lia|].
  split; vm_compute; reflexivity.
Defined.

(** An IPv4 address cannot be smuggled past the guard as an IPv4-mapped IPv6
    address: [::ffff:a.b.c.d] is blocked exactly when [a.b.c.d] is. *)
Theorem is_blocked_v6_mapped (ip : Ipv4Addr) :
  ipv4_ok ip →
  is_blocked_v6 [0; 0; 0; 0; 0; 65535; (segs_of_v4 ip).1; (segs_of_v4 ip).2] = is_blocked_v4 ip.
Proof.
  intros Hip. unfold is_blocked_v6. cbn [to_ipv4_mapped].
  rewrite v4_of_segs_of_v4 by done.
  unfold v6_is_loopback, v6_is_unspecified, v6_is_multicast, seg.
  rewrite !bool_decide_eq_false_2 by (intros [=]). done.
Qed.

Lemma is_blocked_v6_mapped_witness :
  is_blocked_v6 [0; 0; 0; 0; 0; 65535; (segs_of_v4 (V4 127 0 0 1)).1; (segs_of_v4 (V4 127 0 0 1)).2]
  = is_blocked_v4 (V4 127 0 0 1).
Proof. apply is_blocked_v6_mapped. repeat split; cbn; lia. Defined.

(** A granted HTTP pattern (after dropping one [/*] suffix) parses as an [http]
    or [https] URL whose host is neither a restricted address, nor a name that
    spells one, nor a restricted host name; every other pattern is refused. *)
Theorem validate_http_pattern_iff `{UrlLib} (pattern : string) :
  validate_http_capability_pattern pattern = Ok () ↔
  ∃ url h,
    url_parse (match strip_suffix "/*" pattern with Some p => p | None => pattern end) = Some url
    ∧ url_scheme url ∈ ["http"; "https"]
    ∧ url_host url = Some h ∧ host_permitted h.
Proof.
  unfold validate_http_capability_pattern.
  destruct (url_parse _) as [url|]; [|split; [done|by intros (? & ? & ? & _)]].
  destruct (decide (url_scheme url ∈ ["http"; "https"])) as [Hs|Hs].
  - rewrite bool_decide_eq_true_2 by done. cbn [negb].
    pose proof (validate_resolved_url_ok url) as Hv.
    destruct (validate_resolved_url url) as [[]|e]; cbn [result_map_err].
    + split; [|done]. intros _. destruct (proj1 Hv eq_refl) as (h & ? & ?). eauto 10.
    + split; [done|]. intros (? & h & [= <-] & _ & Hh & Hp).
      destruct Hv as [_ Hv]. discriminate Hv. eauto.
  - rewrite bool_decide_eq_false_2 by done. cbn [negb].
    split; [done|]. by intros (? & ? & [= <-] & ? & _).
Qed.
