(* ===== verification/Egress.v ===== *)
(** * The egress policy: [src/security/egress.rs]

    [EgressPolicy::from_env] takes the two environment variables as arguments
    ([std::env::var]: absent, set, or set to bytes that are not Unicode); name
    resolution ([ToSocketAddrs]) is the parameter [resolve], [None] being an I/O
    error. *)

From S2P Require Import Prelude Errors UrlGuard.

Inductive EnvVar := NotPresent | NotUnicode | Present (value : string).

Record EgressPolicy := {
  allow_hosts : gset string;
  allow_private : bool;
}.

Definition EgressPolicy_default : EgressPolicy := {| allow_hosts := ∅; allow_private := false |}.

Definition host_list (value : string) : list string :=
  filter (λ host, host ≠ "") (to_ascii_lowercase ∘ trim <$> split_on ","%char value).

Definition from_env (allowlist allow_private_var : EnvVar) : result EgressPolicy NexusError :=
  let? hosts :=
    match allowlist with
    | Present value => Ok (list_to_set (host_list value) : gset string)
    | NotPresent => Ok ∅
    | NotUnicode =>
        Err (ConfigError (Lit "NEXUS_EGRESS_ALLOWLIST must be valid Unicode"))
    end in
  let? private :=
    match allow_private_var with
    | Present value =>
        let normalized := to_ascii_lowercase (trim value) in
        if bool_decide (normalized ∈ [""; "0"; "false"]) then Ok false
        else if bool_decide (normalized ∈ ["1"; "true"]) then Ok true
        else Err (ConfigError
                    (Lit "NEXUS_EGRESS_ALLOW_PRIVATE must be one of: 0, 1, true, false"))
    | NotPresent => Ok false
    | NotUnicode =>
        Err (ConfigError (Lit "NEXUS_EGRESS_ALLOW_PRIVATE must be valid Unicode"))
    end in
  Ok {| allow_hosts := hosts; allow_private := private |}.

Definition allow_host (policy : EgressPolicy) (host : string) : EgressPolicy :=
  let host := to_ascii_lowercase (trim host) in
  if decide (host = "") then policy
  else {| allow_hosts := {[host]} ∪ policy.(allow_hosts); allow_private := policy.(allow_private) |}.

Section Check.
Context `{UrlLib}.
Variable resolve : string → Z → option (list IpAddr).

Definition is_blocked_address (policy : EgressPolicy) (ip : IpAddr) : bool :=
  if policy.(allow_private) then false else is_blocked_ip ip.

Definition check_url (policy : EgressPolicy) (url : Url) : result () NexusError :=
  if negb (bool_decide (url_scheme url ∈ ["http"; "https"]))
  then Err (EgressDenied (Fmt "URL scheme '{}' is not allowed" [AStr (url_scheme url)]))
  else
    match url_host_str url with
    | None => Err (EgressDenied (Lit "URL does not include a host"))
    | Some host =>
        let host := to_ascii_lowercase (trim host) in
        if decide (host ∈ policy.(allow_hosts)) then Ok ()
        else
          let socket_host := trim_end_char "]"%char (trim_start_char "["%char host) in
          let? port := ok_or (url_port_or_known_default url)
                         (EgressDenied (Fmt "URL '{}' has no known port" [AOpaque])) in
          let? addresses :=
            match parse_ip socket_host with
            | Some ip => Ok [ip]
            | None =>
                match resolve socket_host port with
                | Some addresses => Ok addresses
                | None => Err (EgressDenied
                    (Fmt "Failed to resolve '{}' for AEON egress: {error}" [AOpaque; AOpaque]))
                end
            end in
          if decide (addresses = [])
          then Err (EgressDenied (Fmt "URL '{}' did not resolve to any IP address" [AOpaque]))
          else if existsb (is_blocked_address policy) addresses
          then Err (EgressDenied
                 (Fmt "Egress denied to '{}' because destination is restricted" [AOpaque]))
          else Ok ()
    end.

(** The addresses a socket to this host and port would use. *)
Definition destination (socket_host : string) (port : Z) : option (list IpAddr) :=
  match parse_ip socket_host with Some ip => Some [ip] | None => resolve socket_host port end.

Lemma existsb_blocked policy addrs :
  existsb (is_blocked_address policy) addrs = false ↔
  allow_private policy = true ∨ ∀ ip, ip ∈ addrs → is_blocked_ip ip = false.
Proof.
  rewrite <- not_true_iff_false, existsb_exists. unfold is_blocked_address.
  setoid_rewrite <- list_elem_of_In. destruct (allow_private policy).
  - split; [by left|]. intros _ (? & _ & ?). done.
  - split.
    + intros Hn. right. intros ip Hip. destruct (is_blocked_ip ip) eqn:E; [|done].
      destruct Hn. eauto.
    + intros [|Hall] (ip & Hip & Hb); [done|]. rewrite Hall in Hb; done.
Qed.
End Check.

(** ** Properties *)

(** [check_url] lets a request out exactly when the scheme is HTTP(S) and the
    host is on the allow-list, or the host has a known port, its addresses are
    known and non-empty, and, unless private ranges are allowed, none of them is
    restricted: one blocked address among several denies the request. *)
Theorem check_url_iff `{UrlLib} (resolve : string → Z → option (list IpAddr))
    (policy : EgressPolicy) (url : Url) :
  check_url resolve policy url = Ok () ↔
  url_scheme url ∈ ["http"; "https"] ∧
  ∃ host, url_host_str url = Some host ∧
    (to_ascii_lowercase (trim host) ∈ allow_hosts policy
     ∨ ∃ port addrs,
         url_port_or_known_default url = Some port
         ∧ destination resolve
             (trim_end_char "]"%char (trim_start_char "["%char (to_ascii_lowercase (trim host))))
             port = Some addrs
         ∧ addrs ≠ []
         ∧ (allow_private policy = true ∨ ∀ ip, ip ∈ addrs → is_blocked_ip ip = false)).
Proof.
  unfold check_url, destination.
  destruct (decide (url_scheme url ∈ ["http"; "https"])) as [Hs|Hs];
    [rewrite bool_decide_eq_true_2 by done|rewrite bool_decide_eq_false_2 by done];
    cbn [negb]; [|by split; [|intros []]].
  destruct (url_host_str url) as [host|]; [|by split; [|intros (_ & ? & ? & _)]].
  set (h := to_ascii_lowercase (trim host)).
  set (sh := trim_end_char _ _).
  case_decide as Hin; [by split; eauto|].
  destruct (url_port_or_known_default url) as [port|]; cbn [ok_or result_bind].
  2:{ split; [done|]. intros (_ & ? & [= <-] & [?|(? & ? & ? & _)]); done. }
  trans (∃ addrs, match parse_ip sh with Some ip => Some [ip] | None => resolve sh port end = Some addrs
           ∧ addrs ≠ [] ∧ (allow_private policy = true ∨ ∀ ip, ip ∈ addrs → is_blocked_ip ip = false)).
  - destruct (match parse_ip sh with Some ip => Some [ip] | None => resolve sh port end)
      as [addrs|] eqn:E.
    + assert (match parse_ip sh with
              | Some ip => Ok [ip]
              | None => match resolve sh port with Some addresses => Ok addresses | None => _ end
              end = Ok (E:=NexusError) addrs) as ->.
      { destruct (parse_ip sh); [by simplify_eq|]. by rewrite E. }
      cbn [result_bind]. case_decide as He.
      * split; [done|]. by intros (? & [= <-] & ? & _).
      * destruct (existsb _ addrs) eqn:Eb.
        -- split; [done|]. intros (? & [= <-] & _ & Hp). apply existsb_blocked in Hp. congruence.
        -- split; [|done]. intros _. apply existsb_blocked in Eb. eauto.
    + assert (∃ e, match parse_ip sh with
              | Some ip => Ok [ip]
              | None => match resolve sh port with Some addresses => Ok addresses
                        | None => Err (EgressDenied
                      (Fmt "Failed to resolve '{}' for AEON egress: {error}" [AOpaque; AOpaque])) end
              end = Err (A:=list IpAddr) e) as [e ->].
      { destruct (parse_ip sh); [done|]. rewrite E. eauto. }
      split; [done|]. by intros (? & ? & _).
  - split.
    + intros (addrs & ? & ? & ?). split; [done|]. exists host. split; [done|]. right. eauto 10.
    + intros (_ & ? & [= <-] & [?|(? & addrs & [= <-] & ? & ? & ?)]); [done|]. eauto.
Qed.

(** The environment parser is fail-closed: it yields a policy that allows private
    ranges only when the variable, trimmed and lower-cased, is [1] or [true];
    unset means deny, every unrecognised value is a configuration error, and no
    empty host ever enters the allow-list. *)
Theorem from_env_fail_closed (hosts private : EnvVar) (p : EgressPolicy) :
  from_env hosts private = Ok p →
  (allow_private p = true ↔
     ∃ v, private = Present v ∧ to_ascii_lowercase (trim v) ∈ ["1"; "true"])
  ∧ "" ∉ allow_hosts p.
Proof.
  unfold from_env. rewrite result_bind_Ok. intros (hs & Hh & Hp).
  apply result_bind_Ok in Hp as (b & Hb & [= <-]). cbn [allow_private allow_hosts]. split.
  - destruct private as [| |v]; simplify_eq/=.
    + split; [done|]. by intros (? & ? & _).
    + repeat case_bool_decide; simplify_eq.
      * split; [done|]. intros (? & [= <-] & Hv).
        rewrite !list_elem_of_In in *. simpl in *. intuition congruence.
      * split; [eauto|done].
  - destruct hosts as [| |v]; simplify_eq; [apply not_elem_of_empty|].
    rewrite elem_of_list_to_set. unfold host_list. rewrite list_elem_of_filter. naive_solver.
Qed.

Definition example_policy : EgressPolicy :=
  {| allow_hosts := list_to_set (host_list " API.example.com,, b "); allow_private := true |}.

Lemma from_env_fail_closed_witness :
  (allow_private example_policy = true ↔
     ∃ v, Present " TRUE " = Present v ∧ to_ascii_lowercase (trim v) ∈ ["1"; "true"])
  ∧ "" ∉ allow_hosts example_policy.
Proof.
  apply (from_env_fail_closed (Present " API.example.com,, b ") (Present " TRUE ")).
  reflexivity.
Defined.

Example host_list_normalizes : host_list " API.example.com,, b " = ["api.example.com"; "b"].
Proof. vm_compute. reflexivity. Qed.
