(* ===== verification/Capability.v ===== *)
(** * Capabilities: the first half of [src/security/capability.rs]

    [MemoryScope] and [Capability] with the source's constructors, the [allows]
    relation a token is checked with and the [is_subset_of] relation that
    attenuation is checked with. *)

From S2P Require Import Prelude LexPath.

(** ** Memory scopes *)

Inductive MemoryScope :=
| Agent (agent_id : string)
| Session (agent_id session_id : string)
| Namespace (namespace : string).

#[export] Instance MemoryScope_eq_dec : EqDecision MemoryScope.
Proof. solve_decision. Defined.

(** [Display for MemoryScope]. *)
Definition scope_to_string (s : MemoryScope) : string :=
  match s with
  | Agent agent_id => "agent:" +:+ agent_id
  | Session agent_id session_id => "session:" +:+ agent_id +:+ ":" +:+ session_id
  | Namespace namespace => "namespace:" +:+ namespace
  end.

(** [MemoryScope::parse]: [parts] is the iterator [input.split(':')]. *)
Definition scope_parse (input : string) : option MemoryScope :=
  match split_on ":"%char input with
  | [] => None
  | first :: parts =>
      let kind := trim first in
      if decide (kind = "agent") then
        match parts with agent_id :: _ => Some (Agent agent_id) | [] => None end
      else if decide (kind = "session") then
        match parts with
        | [] => None
        | p1 :: rest1 =>
            let agent_id := trim p1 in
            match rest1 with
            | [] => None
            | p2 :: rest2 =>
                let session_id := trim p2 in
                match rest2 with
                | _ :: _ => None
                | [] => if decide (agent_id = "" ∨ session_id = "") then None
                        else Some (Session agent_id session_id)
                end
            end
        end
      else if decide (kind = "namespace") then
        match parts with
        | namespace :: _ =>
            if decide (trim namespace = "") then None else Some (Namespace (trim namespace))
        | [] => None
        end
      else None
  end.

(** [MemoryScope::is_subset_of]. *)
Definition scope_is_subset_of (self parent : MemoryScope) : bool :=
  match self, parent with
  | Agent agent_id, Agent parent_agent_id => bool_decide (agent_id = parent_agent_id)
  | Agent agent_id, Namespace parent_namespace => bool_decide (agent_id = parent_namespace)
  | Session agent_id session_id, Session parent_agent_id parent_session_id =>
      bool_decide (agent_id = parent_agent_id) && bool_decide (session_id = parent_session_id)
  | Session agent_id _, Agent parent_agent_id => bool_decide (agent_id = parent_agent_id)
  | Session agent_id _, Namespace parent_namespace => bool_decide (agent_id = parent_namespace)
  | Namespace namespace, Namespace parent_namespace => bool_decide (namespace = parent_namespace)
  | Namespace namespace, Agent parent_agent_id => bool_decide (namespace = parent_agent_id)
  | Namespace namespace, Session parent_agent_id _ => bool_decide (namespace = parent_agent_id)
  | Agent _, Session _ _ => false
  end.

(** [MemoryScope::matches]. *)
Definition scope_matches (self : MemoryScope) (agent_id : string) (session_id : option string) : bool :=
  match self with
  | Agent scope_agent_id => bool_decide (scope_agent_id = agent_id)
  | Session scope_agent_id scope_session_id =>
      bool_decide (scope_agent_id = agent_id)
      && match session_id with
         | Some session_id => bool_decide (session_id = scope_session_id)
         | None => false
         end
  | Namespace namespace => bool_decide (namespace = agent_id)
  end.

(** ** Capabilities *)

Inductive Capability :=
| ReadFile (p : PathBuf)
| WriteFile (p : PathBuf)
| ListDirectory (p : PathBuf)
| HttpGet (pattern : string)
| HttpPost (pattern : string)
| ExecuteBinary (p : PathBuf)
| MountTmpfs (p : PathBuf)
| MemoryPreview
| MemoryRecall
| ReadMemory (scope : MemoryScope)
| WriteMemory (scope : MemoryScope)
| AllCaps
| NoCap.

(** The derived [PartialEq]: paths compare by components. *)
Definition capability_eqb (a b : Capability) : bool :=
  match a, b with
  | ReadFile p, ReadFile q | WriteFile p, WriteFile q | ListDirectory p, ListDirectory q
  | ExecuteBinary p, ExecuteBinary q | MountTmpfs p, MountTmpfs q => pathbuf_eqb p q
  | HttpGet p, HttpGet q | HttpPost p, HttpPost q => bool_decide (p = q)
  | ReadMemory s, ReadMemory t | WriteMemory s, WriteMemory t => bool_decide (s = t)
  | MemoryPreview, MemoryPreview | MemoryRecall, MemoryRecall
  | AllCaps, AllCaps | NoCap, NoCap => true
  | _, _ => false
  end.

(** [Capability::allows]. *)
Definition allows (self requested : Capability) : bool :=
  match self, requested with
  | AllCaps, _ => true
  | NoCap, _ => false
  | ReadFile p1, ReadFile p2 => path_contains p1 p2
  | WriteFile p1, ReadFile p2 => path_contains p1 p2
  | WriteMemory scope, ReadMemory requested => scope_is_subset_of requested scope
  | WriteFile p1, WriteFile p2 => path_eq p1 p2
  | ReadMemory scope, ReadMemory requested => scope_is_subset_of requested scope
  | WriteMemory scope, WriteMemory requested => scope_is_subset_of requested scope
  | ListDirectory p1, ListDirectory p2 => path_contains p1 p2
  | HttpGet p1, HttpGet p2 => bool_decide (p1 = p2)
  | HttpPost p1, HttpPost p2 => bool_decide (p1 = p2)
  | ExecuteBinary p1, ExecuteBinary p2 => pathbuf_eqb p1 p2
  | MountTmpfs p1, MountTmpfs p2 => pathbuf_eqb p1 p2
  | MemoryPreview, MemoryPreview => true
  | MemoryRecall, MemoryRecall => true
  | _, _ => false
  end.

(** [Capability::is_subset_of]. *)
Definition is_subset_of (self parent : Capability) : bool :=
  match self, parent with
  | NoCap, _ => true
  | _, AllCaps => true
  | AllCaps, _ => false
  | _, _ => allows parent self
  end.

(** [Capability::description]. *)
Definition description (c : Capability) : string :=
  match c with
  | ReadFile p => "read:" +:+ p
  | WriteFile p => "write:" +:+ p
  | ListDirectory p => "list:" +:+ p
  | HttpGet pattern => "http_get:" +:+ pattern
  | HttpPost pattern => "http_post:" +:+ pattern
  | ExecuteBinary p => "exec:" +:+ p
  | MountTmpfs p => "tmpfs:" +:+ p
  | MemoryPreview => "nexus:memory_preview"
  | MemoryRecall => "nexus:memory_recall"
  | ReadMemory scope => "nexus:read_memory:" +:+ scope_to_string scope
  | WriteMemory scope => "nexus:write_memory:" +:+ scope_to_string scope
  | AllCaps => "all"
  | NoCap => "none"
  end.

(** ** Relations *)

(** The one pair of scopes [is_subset_of] orders against their meaning. *)
Definition namespace_under_session (child parent : MemoryScope) : bool :=
  match child, parent with Namespace _, Session _ _ => true | _, _ => false end.

(** The same at the level of capabilities. *)
Definition widening_link (child parent : Capability) : bool :=
  match child, parent with
  | ReadMemory c, ReadMemory p | ReadMemory c, WriteMemory p | WriteMemory c, WriteMemory p =>
      namespace_under_session c p
  | _, _ => false
  end.

(** Everything [c] grants, [p] grants. *)
Definition grants_within (c p : Capability) : Prop :=
  ∀ r, allows c r = true → allows p r = true.

#[export] Instance grants_within_preorder : PreOrder grants_within.
Proof. split; unfold grants_within; red; auto. Qed.

Ltac scopes :=
  repeat match goal with
  | H : (_ && _) = true |- _ => apply andb_true_iff in H as [? ?]
  | H : bool_decide _ = true |- _ => apply bool_decide_eq_true in H
  | |- (_ && _) = true => apply andb_true_iff; split
  | |- bool_decide _ = true => apply bool_decide_eq_true
  | _ => progress simplify_eq/=
  end.

Lemma scope_subset_refl s : scope_is_subset_of s s = true.
Proof. destruct s; cbn; scopes; done. Qed.

Lemma scope_subset_trans s1 s2 s3 :
  scope_is_subset_of s1 s2 = true → scope_is_subset_of s2 s3 = true →
  namespace_under_session s2 s3 = false → scope_is_subset_of s1 s3 = true.
Proof. destruct s1, s2, s3; cbn; intros; scopes; done. Qed.

Lemma scope_subset_matches s1 s2 a sess :
  scope_is_subset_of s1 s2 = true → namespace_under_session s1 s2 = false →
  scope_matches s1 a sess = true → scope_matches s2 a sess = true.
Proof. destruct s1, s2; cbn; intros; scopes; done. Qed.

Lemma is_subset_of_allows c p :
  is_subset_of c p = true → c = NoCap ∨ p = AllCaps ∨ (allows p c = true ∧ c ≠ AllCaps).
Proof. destruct c, p; cbn; intros; auto; right; right; split; done. Qed.

Lemma pathbuf_eqb_spec p q : pathbuf_eqb p q = true ↔ components p = components q.
Proof. apply bool_decide_eq_true. Qed.

(** Composing two grants. *)
Lemma allows_trans p c r :
  allows p c = true → widening_link c p = false →
  allows c r = true → c ≠ AllCaps → allows p r = true.
Proof.
  intros Hpc Hw Hcr Hna.
  destruct p, c; simplify_eq/=; try done; destruct r; simplify_eq/=; try done; scopes; try done;
    rewrite ?path_eq_spec, ?pathbuf_eqb_spec in *;
    first [ by eapply path_contains_trans
          | by eapply scope_subset_trans
          | congruence
          | idtac ];
    unfold path_contains in *; rewrite Hpc; exact Hcr.
Qed.

Lemma scope_roundtrip_session a b :
  no_char ":"%char a → no_char ":"%char b → trim a = a → trim b = b → a ≠ "" → b ≠ "" →
  scope_parse ("session:" +:+ a +:+ ":" +:+ b) = Some (Session a b).
Proof.
  intros Ha Hb Ta Tb Na Nb. unfold scope_parse.
  change ("session:" +:+ a +:+ ":" +:+ b)
    with ("session" +:+ String ":"%char (a +:+ String ":"%char b)).
  rewrite split_on_app by (cbn; repeat split; done).
  rewrite split_on_app, split_on_no_char by done.
  rewrite Ta, Tb.
  change (trim "session") with "session".
  rewrite decide_False, decide_True, decide_False by (done || intuition).
  done.
Qed.

(** A scope whose identifiers are free of [:], and free of surrounding white
    space and non-empty where the parser trims. *)
Definition scope_printable (s : MemoryScope) : Prop :=
  match s with
  | Agent a => no_char ":"%char a
  | Session a b =>
      no_char ":"%char a ∧ no_char ":"%char b ∧ trim a = a ∧ trim b = b ∧ a ≠ "" ∧ b ≠ ""
  | Namespace n => no_char ":"%char n ∧ trim n = n ∧ n ≠ ""
  end.

Lemma is_subset_of_sound_aux c p :
  is_subset_of c p = true → widening_link c p = false → grants_within c p.
Proof.
  intros Hs Hw r Hr. apply is_subset_of_allows in Hs as [->|[->|[Hs Hc]]].
  - done.
  - done.
  - by eapply allows_trans.
Qed.

(** ** Properties *)

(** C35: attenuation never widens: whenever [is_subset_of] accepts a child, every
    request the child allows is allowed by the parent, for every kind of
    capability and every path, pattern and scope, provided the link is not a
    [Namespace] memory scope placed under a [Session] scope. *)
Theorem is_subset_of_sound (c p : Capability) :
  is_subset_of c p = true → widening_link c p = false → grants_within c p.
Proof. apply is_subset_of_sound_aux. Qed.

Lemma is_subset_of_sound_witness :
  grants_within (ReadFile "/home/user/../user/docs") (WriteFile "/home/./user").
Proof. apply is_subset_of_sound; vm_compute; reflexivity. Defined.

(** The excluded pair does widen: a session-scoped memory capability may be
    attenuated to the agent's whole namespace, and the child then reads another
    session of that agent, which the parent may not. *)
Theorem namespace_attenuation_widens (agent s1 s2 : string) :
  s1 ≠ s2 →
  let parent := ReadMemory (Session agent s1) in
  let child := ReadMemory (Namespace agent) in
  let request := ReadMemory (Session agent s2) in
  is_subset_of child parent = true
  ∧ allows child request = true ∧ allows parent request = false
  ∧ scope_matches (Namespace agent) agent (Some s2) = true
  ∧ scope_matches (Session agent s1) agent (Some s2) = false.
Proof.
  intros Hs. cbn.
  rewrite !(bool_decide_eq_true_2 (agent = agent)), !(bool_decide_eq_false_2 (s2 = s1)) by congruence.
  done.
Qed.

Lemma namespace_attenuation_widens_witness :
  let parent := ReadMemory (Session "a" "s1") in
  let child := ReadMemory (Namespace "a") in
  let request := ReadMemory (Session "a" "s2") in
  is_subset_of child parent = true
  ∧ allows child request = true ∧ allows parent request = false
  ∧ scope_matches (Namespace "a") "a" (Some "s2") = true
  ∧ scope_matches (Session "a" "s1") "a" (Some "s2") = false.
Proof. apply (namespace_attenuation_widens "a" "s1" "s2"). discriminate. Defined.

(** Printing a memory scope and parsing it back gives the same scope, for every
    scope whose identifiers contain no [:] (and, where the parser trims, no
    surrounding white space). *)
Theorem scope_display_parse (s : MemoryScope) :
  scope_printable s → scope_parse (scope_to_string s) = Some s.
Proof.
  destruct s as [a|a b|n]; cbn [scope_printable scope_to_string].
  - intros Ha. unfold scope_parse.
    change ("agent:" +:+ a) with ("agent" +:+ String ":"%char a).
    rewrite split_on_app, split_on_no_char by (cbn; repeat split; done).
    by change (trim "agent") with "agent".
  - intros (? & ? & ? & ? & ? & ?). by apply scope_roundtrip_session.
  - intros (Hn & Tn & Nn). unfold scope_parse.
    change ("namespace:" +:+ n) with ("namespace" +:+ String ":"%char n).
    rewrite split_on_app, split_on_no_char by (cbn; repeat split; done).
    change (trim "namespace") with "namespace". rewrite Tn.
    rewrite !decide_False by done. by rewrite decide_True, decide_False by done.
Qed.

Lemma scope_display_parse_witness :
  scope_parse (scope_to_string (Session "agent-1" "sess 2")) = Some (Session "agent-1" "sess 2").
Proof. apply scope_display_parse. vm_compute. repeat split; discriminate. Defined.

(** An agent identifier with a [:] is cut at it, so two agents share one scope. *)
Example scope_parse_truncates :
  scope_parse (scope_to_string (Agent "team:alice")) = Some (Agent "team")
  ∧ scope_parse "agent:" = Some (Agent "").
Proof. split; vm_compute; reflexivity. Qed.
