(* ===== verification/Tokens.v ===== *)
(** * Capability tokens and their manager: the second half of
    [src/security/capability.rs]

    Ed25519 and bincode are the interface [CryptoLib], with the laws of their
    documentation in [CryptoLaws].  A UUID is a number; [Uuid::new_v4()] and
    [Utc::now()] are arguments of the operations that call them (one clock reading
    per operation, in nanoseconds).  [u32] depths wrap, as in release builds. *)

From S2P Require Import Prelude Errors LexPath Capability UrlGuard.

(** What [bincode::serialize] is applied to. *)
Record SignedFields := {
  sf_id : Uuid; sf_capability : Capability; sf_granted_by : string;
  sf_issued_at : DateTime; sf_expires_at : DateTime;
  sf_parent_id : option Uuid; sf_chain_depth : Z;
}.

Class CryptoLib := {
  SigningKey : Type;
  VerifyingKey : Type;
  verifying_key_of : SigningKey → VerifyingKey;
  ed_sign : SigningKey → list byte → list byte;
  ed_verify : VerifyingKey → list byte → list byte → bool;
  bincode : SignedFields → option (list byte);
}.

(** A signature has 64 bytes and verifies under the key's own public key. *)
Class CryptoLaws (C : CryptoLib) : Prop := {
  ed_sign_length k m : length (ed_sign k m) = 64%nat;
  ed_sign_verifies k m : ed_verify (verifying_key_of k) m (ed_sign k m) = true;
}.

Record CapabilityToken := {
  tok_id : Uuid;
  tok_capability : Capability;
  tok_granted_by : string;
  tok_issued_at : DateTime;
  tok_expires_at : DateTime;
  tok_parent_id : option Uuid;
  tok_chain_depth : Z;
  tok_signature : list byte;
}.

Definition DEFAULT_MAX_CHAIN_DEPTH : Z := 5.

Definition signed_fields (t : CapabilityToken) : SignedFields :=
  {| sf_id := t.(tok_id); sf_capability := t.(tok_capability);
     sf_granted_by := t.(tok_granted_by); sf_issued_at := t.(tok_issued_at);
     sf_expires_at := t.(tok_expires_at); sf_parent_id := t.(tok_parent_id);
     sf_chain_depth := t.(tok_chain_depth) |}.

Definition with_signature (t : CapabilityToken) (sig : list byte) : CapabilityToken :=
  {| tok_id := t.(tok_id); tok_capability := t.(tok_capability);
     tok_granted_by := t.(tok_granted_by); tok_issued_at := t.(tok_issued_at);
     tok_expires_at := t.(tok_expires_at); tok_parent_id := t.(tok_parent_id);
     tok_chain_depth := t.(tok_chain_depth); tok_signature := sig |}.

Section Tokens.
Context `{U : UrlLib} `{C : CryptoLib}.

(** The pattern check [new] and [attenuate] share. *)
Definition check_pattern (c : Capability) : result () NexusError :=
  match c with
  | HttpGet p | HttpPost p => validate_http_capability_pattern p
  | _ => Ok ()
  end.

(** Serialize the fields and sign them. *)
Definition sign_token (what : string) (t : CapabilityToken) (key : SigningKey)
  : result CapabilityToken NexusError :=
  match bincode (signed_fields t) with
  | None => Err (SerializationError (Fmt what [AOpaque]))
  | Some data_to_sign => Ok (with_signature t (ed_sign key data_to_sign))
  end.

(** [CapabilityToken::new]. *)
Definition token_new (capability : Capability) (granted_by : string) (validity_duration : Z)
    (signing_key : SigningKey) (now : DateTime) (id : Uuid) : result CapabilityToken NexusError :=
  let? _ := check_pattern capability in
  sign_token "token signing: {e}"
    {| tok_id := id; tok_capability := capability; tok_granted_by := granted_by;
       tok_issued_at := now; tok_expires_at := now + validity_duration;
       tok_parent_id := None; tok_chain_depth := 0; tok_signature := [] |} signing_key.

(** [CapabilityToken::verify_signature]. *)
Definition verify_signature (t : CapabilityToken) (verifying_key : VerifyingKey) : bool :=
  match bincode (signed_fields t) with
  | None => false
  | Some data_to_verify =>
      if decide (length t.(tok_signature) = 64%nat)
      then ed_verify verifying_key data_to_verify t.(tok_signature)
      else false
  end.

(** [CapabilityToken::is_valid] and [CapabilityToken::allows]. *)
Definition is_valid (now : DateTime) (t : CapabilityToken) : bool := now <? t.(tok_expires_at).
Definition token_allows (now : DateTime) (t : CapabilityToken) (requested : Capability) : bool :=
  is_valid now t && allows t.(tok_capability) requested.

(** [CapabilityToken::attenuate]. *)
Definition token_attenuate (self : CapabilityToken) (narrower : Capability) (granted_by : string)
    (validity_duration : Z) (signing_key : SigningKey) (max_depth : Z)
    (now : DateTime) (id : Uuid) : result CapabilityToken NexusError :=
  if negb (is_subset_of narrower self.(tok_capability))
  then Err (InvalidCapability
              (Fmt "attenuated capability {:?} is not a subset of parent {:?}" [AOpaque; AOpaque]))
  else
    let child_depth := wrap32 (self.(tok_chain_depth) + 1) in
    if max_depth <? child_depth
    then Err (InvalidCapability (Fmt "attenuation chain depth {child_depth} exceeds max {max_depth}"
                [ANum child_depth; ANum max_depth]))
    else
      let? _ := check_pattern narrower in
      let expires_at := Z.min (now + validity_duration) self.(tok_expires_at) in
      sign_token "attenuate signing: {e}"
        {| tok_id := id; tok_capability := narrower; tok_granted_by := granted_by;
           tok_issued_at := now; tok_expires_at := expires_at;
           tok_parent_id := Some self.(tok_id); tok_chain_depth := child_depth;
           tok_signature := [] |} signing_key.

(** ** The manager *)

Record CapabilityManager := {
  signing_key : SigningKey;
  verifying_key : VerifyingKey;
  active_tokens : gmap Uuid CapabilityToken;
  revoked_tokens : gmap Uuid DateTime;
}.

(** [CapabilityManager::from_keys] and [new] (whose key comes from the OS). *)
Definition from_keys (sk : SigningKey) (vk : VerifyingKey) : CapabilityManager :=
  {| signing_key := sk; verifying_key := vk; active_tokens := ∅; revoked_tokens := ∅ |}.
Definition manager_new (generated : SigningKey) : CapabilityManager :=
  from_keys generated (verifying_key_of generated).

Definition register (m : CapabilityManager) (t : CapabilityToken) : CapabilityManager :=
  {| signing_key := m.(signing_key); verifying_key := m.(verifying_key);
     active_tokens := <[t.(tok_id) := t]> m.(active_tokens);
     revoked_tokens := m.(revoked_tokens) |}.

(** [CapabilityManager::issue]; on an error the manager is unchanged. *)
Definition issue (m : CapabilityManager) (capability : Capability) (granted_by : string)
    (validity_duration : Z) (now : DateTime) (id : Uuid)
  : result (CapabilityToken * CapabilityManager) NexusError :=
  let? token := token_new capability granted_by validity_duration m.(signing_key) now id in
  Ok (token, register m token).

(** [CapabilityManager::attenuate]. *)
Definition attenuate (m : CapabilityManager) (parent_id : Uuid) (narrower : Capability)
    (granted_by : string) (validity_duration : Z) (now : DateTime) (id : Uuid)
  : result (CapabilityToken * CapabilityManager) NexusError :=
  let? parent := ok_or (m.(active_tokens) !! parent_id)
                   (InvalidCapability (Lit "capability chain validation failed")) in
  let? child := token_attenuate parent narrower granted_by validity_duration
                  m.(signing_key) DEFAULT_MAX_CHAIN_DEPTH now id in
  Ok (child, register m child).

(** [CapabilityManager::revoke] and [is_revoked]. *)
Definition revoke (m : CapabilityManager) (token_id : Uuid) (now : DateTime) : CapabilityManager :=
  {| signing_key := m.(signing_key); verifying_key := m.(verifying_key);
     active_tokens := delete token_id m.(active_tokens);
     revoked_tokens := <[token_id := now]> m.(revoked_tokens) |}.
Definition is_revoked (m : CapabilityManager) (token_id : Uuid) : bool :=
  bool_decide (is_Some (m.(revoked_tokens) !! token_id)).

(** The [while let Some(pid) = child.parent_id] loop of [validate_chain], one unit
    of fuel per iteration; [None] when the fuel is used up. *)
Fixpoint chain_walk (fuel : nat) (m : CapabilityManager) (now : DateTime) (child : CapabilityToken)
  : option (result () NexusError) :=
  match fuel with
  | O => None
  | S fuel' =>
      match child.(tok_parent_id) with
      | None => Some (Ok ())
      | Some pid =>
          if decide (is_Some (m.(revoked_tokens) !! pid))
          then Some (Err (InvalidCapability (Lit (safe_message TokenRevoked))))
          else match m.(active_tokens) !! pid with
          | None => Some (Err (InvalidCapability (Lit "capability chain validation failed")))
          | Some parent =>
              if negb (verify_signature parent m.(verifying_key))
              then Some (Err (InvalidCapability
                     (Fmt "ancestor {pid} has invalid signature" [AOpaque])))
              else if negb (is_valid now parent)
              then Some (Err (InvalidCapability
                     (Fmt "ancestor {pid} expired at {}" [AOpaque; AOpaque])))
              else if negb (child.(tok_chain_depth) =? wrap32 (parent.(tok_chain_depth) + 1))
              then Some (Err (InvalidCapability
                     (Fmt "non-monotonic chain depth at {pid}" [AOpaque])))
              else if negb (is_subset_of child.(tok_capability) parent.(tok_capability))
              then Some (Err (InvalidCapability
                     (Fmt "link {:?} is not a subset of parent {:?}" [AOpaque; AOpaque])))
              else chain_walk fuel' m now parent
          end
      end
  end.

(** [validate_chain]; an accepted depth [d] needs at most [d + 1] iterations. *)
Definition validate_chain (m : CapabilityManager) (now : DateTime) (token : CapabilityToken)
    (max_depth : Z) : option (result () NexusError) :=
  if max_depth <? token.(tok_chain_depth)
  then Some (Err (InvalidCapability (Fmt "chain depth {} exceeds max {max_depth}"
                    [ANum token.(tok_chain_depth); ANum max_depth])))
  else chain_walk (S (Z.to_nat max_depth)) m now token.

(** [CapabilityManager::validate]. *)
Definition validate (m : CapabilityManager) (now : DateTime) (token : CapabilityToken)
    (requested : Capability) : option (result () NexusError) :=
  if decide (is_Some (m.(revoked_tokens) !! token.(tok_id)))
  then Some (Err (InvalidCapability (Lit (safe_message TokenRevoked))))
  else if negb (is_valid now token)
  then Some (Err (InvalidCapability (Lit (safe_message TokenExpired))))
  else if negb (verify_signature token m.(verifying_key))
  then Some (Err (InvalidCapability (Lit (safe_message CapabilityNotPermitted))))
  else
    match (match token.(tok_parent_id) with
           | Some _ => validate_chain m now token DEFAULT_MAX_CHAIN_DEPTH
           | None => Some (Ok ())
           end) with
    | None => None
    | Some (Err e) => Some (Err e)
    | Some (Ok _) =>
        if negb (token_allows now token requested)
        then Some (Err (InvalidCapability (Lit (safe_message CapabilityNotPermitted))))
        else Some (Ok ())
    end.

(** [tokens.iter().any(|t| self.validate(t, cap).is_ok())]. *)
Fixpoint any_valid (m : CapabilityManager) (now : DateTime) (tokens : list CapabilityToken)
    (cap : Capability) : option bool :=
  match tokens with
  | [] => Some false
  | t :: ts =>
      match validate m now t cap with
      | None => None
      | Some r => if is_ok r then Some true else any_valid m now ts cap
      end
  end.

(** [CapabilityManager::authorize]. *)
Fixpoint authorize (m : CapabilityManager) (now : DateTime) (tokens : list CapabilityToken)
    (required : list Capability) : option (result () NexusError) :=
  match required with
  | [] => Some (Ok ())
  | cap :: required' =>
      match any_valid m now tokens cap with
      | None => None
      | Some false => Some (Err (CapabilityDenied (Fmt "no valid token grants {:?}" [AOpaque])))
      | Some true => authorize m now tokens required'
      end
  end.
End Tokens.

(** ** Specification of a valid chain *)

Section Spec.
Context `{U : UrlLib} `{C : CryptoLib}.

(** The registered ancestors [l] of [t], nearest first, every link checked. *)
Fixpoint chain_spec (m : CapabilityManager) (now : DateTime) (t : CapabilityToken)
    (l : list CapabilityToken) : Prop :=
  match l with
  | [] => t.(tok_parent_id) = None
  | p :: l' =>
      ∃ pid, t.(tok_parent_id) = Some pid
        ∧ m.(revoked_tokens) !! pid = None
        ∧ m.(active_tokens) !! pid = Some p
        ∧ verify_signature p m.(verifying_key) = true
        ∧ now < p.(tok_expires_at)
        ∧ t.(tok_chain_depth) = wrap32 (p.(tok_chain_depth) + 1)
        ∧ is_subset_of t.(tok_capability) p.(tok_capability) = true
        ∧ chain_spec m now p l'
  end.

(** What [validate] promises. *)
Definition valid_for (m : CapabilityManager) (now : DateTime) (t : CapabilityToken)
    (requested : Capability) : Prop :=
  m.(revoked_tokens) !! t.(tok_id) = None
  ∧ now < t.(tok_expires_at)
  ∧ verify_signature t m.(verifying_key) = true
  ∧ (is_Some t.(tok_parent_id) → t.(tok_chain_depth) ≤ DEFAULT_MAX_CHAIN_DEPTH)
  ∧ (∃ ancestors, chain_spec m now t ancestors)
  ∧ allows t.(tok_capability) requested = true.

(** Registered ancestry: [id] is the parent, or an ancestor of the registered parent. *)
Inductive descends (m : CapabilityManager) : CapabilityToken → Uuid → Prop :=
| descends_parent t id : t.(tok_parent_id) = Some id → descends m t id
| descends_up t pid p id :
    t.(tok_parent_id) = Some pid → m.(active_tokens) !! pid = Some p →
    descends m p id → descends m t id.

(** Invariant of the manager. *)
Record token_ok (m : CapabilityManager) (id : Uuid) (t : CapabilityToken) : Prop := {
  to_id : t.(tok_id) = id;
  to_live : m.(revoked_tokens) !! id = None;
  to_depth : 0 ≤ t.(tok_chain_depth) ≤ DEFAULT_MAX_CHAIN_DEPTH;
  to_sig : verify_signature t m.(verifying_key) = true;
  to_pattern : check_pattern t.(tok_capability) = Ok ();
  to_parent : ∀ pid, t.(tok_parent_id) = Some pid →
    is_Some (m.(revoked_tokens) !! pid) ∨
    ∃ p, m.(active_tokens) !! pid = Some p
      ∧ t.(tok_chain_depth) = p.(tok_chain_depth) + 1
      ∧ is_subset_of t.(tok_capability) p.(tok_capability) = true
      ∧ t.(tok_expires_at) ≤ p.(tok_expires_at);
}.

Definition manager_ok (m : CapabilityManager) : Prop :=
  m.(verifying_key) = verifying_key_of m.(signing_key)
  ∧ ∀ id t, m.(active_tokens) !! id = Some t → token_ok m id t.

(** A UUID never used before. *)
Definition fresh (m : CapabilityManager) (id : Uuid) : Prop :=
  m.(active_tokens) !! id = None ∧ m.(revoked_tokens) !! id = None.

(** One operation of the manager. *)
Inductive manager_step : CapabilityManager → CapabilityManager → Prop :=
| step_issue m c by_ d now id t m' :
    fresh m id → issue m c by_ d now id = Ok (t, m') → manager_step m m'
| step_attenuate m pid c by_ d now id t m' :
    fresh m id → attenuate m pid c by_ d now id = Ok (t, m') → manager_step m m'
| step_revoke m id now : manager_step m (revoke m id now).

Inductive manager_steps : CapabilityManager → CapabilityManager → Prop :=
| steps_refl m : manager_steps m m
| steps_next m m1 m2 : manager_steps m m1 → manager_step m1 m2 → manager_steps m m2.

(** ** Lemmas about the walk *)

Lemma is_valid_true now t : is_valid now t = true ↔ now < t.(tok_expires_at).
Proof. apply Z.ltb_lt. Qed.

Lemma chain_walk_ok fuel m now t :
  chain_walk fuel m now t = Some (Ok ()) ↔
  ∃ l, (length l < fuel)%nat ∧ chain_spec m now t l.
Proof.
  revert t. induction fuel as [|fuel IH]; intros t; cbn [chain_walk].
  { split; [done|]. intros (l & ? & _). lia. }
  destruct (tok_parent_id t) as [pid|] eqn:Ep.
  2:{ split; [|done]. intros _. exists []. cbn. split; [lia|done]. }
  trans (∃ p l, (length l < fuel)%nat ∧ chain_spec m now t (p :: l)).
  2:{ split.
      - intros (p & l & ? & ?). exists (p :: l). cbn [length]. split; [lia|done].
      - intros ([|p l] & Hl & Hs); [by cbn in Hs; rewrite Ep in Hs|].
        cbn [length] in Hl. exists p, l. split; [lia|done]. }
  cbn [chain_spec]. case_decide as Hr.
  { split; [done|]. intros (p & l & _ & pid' & E & Hn & _).
    rewrite Ep in E. simplify_eq. rewrite Hn in Hr. by destruct Hr. }
  apply eq_None_not_Some in Hr.
  destruct (active_tokens m !! pid) as [p|] eqn:Ea.
  2:{ split; [done|]. intros (p & l & _ & pid' & E & _ & Ha & _). congruence. }
  destruct (verify_signature p (verifying_key m)) eqn:Ev; cbn [negb].
  2:{ split; [done|]. intros (p' & l & _ & pid' & E & _ & Ha & Hv & _).
      rewrite Ep in E. simplify_eq. congruence. }
  destruct (is_valid now p) eqn:Evd; cbn [negb].
  2:{ split; [done|]. intros (p' & l & _ & pid' & E & _ & Ha & _ & Hx & _).
      rewrite Ep in E. simplify_eq. apply is_valid_true in Hx. congruence. }
  destruct (Z.eqb_spec (tok_chain_depth t) (wrap32 (tok_chain_depth p + 1))) as [Ed|Ed]; cbn [negb].
  2:{ split; [done|]. intros (p' & l & _ & pid' & E & _ & Ha & _ & _ & Hd & _).
      congruence. }
  destruct (is_subset_of _ _) eqn:Es; cbn [negb].
  2:{ split; [done|]. intros (p' & l & _ & pid' & E & _ & Ha & _ & _ & _ & Hs & _).
      rewrite Ep in E. simplify_eq. congruence. }
  rewrite IH. apply is_valid_true in Evd. split.
  - intros (l & Hl & Hc). exists p, l. split; [done|]. exists pid. eauto 10.
  - intros (p' & l & Hl & pid' & E & _ & Ha & _ & _ & _ & _ & Hc).
    rewrite Ep in E. simplify_eq. eauto.
Qed.

(** Registered depths strictly decrease along the walk, so it ends. *)
Lemma chain_walk_terminates m fuel now t :
  (∀ id p, m.(active_tokens) !! id = Some p → 0 ≤ p.(tok_chain_depth) < U32_MAX) →
  0 ≤ t.(tok_chain_depth) → (Z.to_nat t.(tok_chain_depth) < fuel)%nat →
  is_Some (chain_walk fuel m now t).
Proof.
  intros Hm. revert t. induction fuel as [|fuel IH]; intros t Hd Hf; [lia|].
  cbn [chain_walk].
  destruct (tok_parent_id t) as [pid|]; [|done].
  case_decide; [done|].
  destruct (active_tokens m !! pid) as [p|] eqn:Ea; [|done].
  pose proof (Hm _ _ Ea) as Hp.
  do 2 (case_match; [done|]).
  destruct (Z.eqb_spec (tok_chain_depth t) (wrap32 (tok_chain_depth p + 1))) as [Ed|Ed]; [|done].
  cbn [negb]. case_match; [done|].
  rewrite wrap32_small in Ed by (unfold is_u32, U32_MAX in *; lia).
  apply IH; lia.
Qed.

(** A registered, checked chain is as deep as the token says. *)
Lemma chain_spec_length m now t l :
  (∀ id p, m.(active_tokens) !! id = Some p → 0 ≤ p.(tok_chain_depth) < U32_MAX) →
  0 ≤ t.(tok_chain_depth) → chain_spec m now t l →
  Z.of_nat (length l) ≤ t.(tok_chain_depth).
Proof.
  intros Hm. revert t. induction l as [|p l IH]; intros t Hd; cbn [chain_spec length]; [lia|].
  intros (pid & _ & _ & Ha & _ & _ & Hdep & _ & Hc).
  pose proof (Hm _ _ Ha) as Hp.
  rewrite wrap32_small in Hdep by (unfold is_u32, U32_MAX in *; lia).
  specialize (IH p ltac:(lia) Hc). lia.
Qed.

Lemma chain_spec_not_revoked m now t l id :
  chain_spec m now t l → descends m t id → m.(revoked_tokens) !! id = None.
Proof.
  intros Hc Hd. revert l Hc.
  induction Hd as [t id Hp|t pid p id Hp Ha Hd IH]; intros [|q l]; cbn; try congruence.
  - intros (pid' & E & Hr & _). congruence.
  - intros (pid' & E & _ & Ha' & _ & _ & _ & _ & Hc). apply (IH l). congruence.
Qed.
End Spec.

(** ** The invariant *)

Section Invariant.
Context `{U : UrlLib} `{C : CryptoLib} `{L : !CryptoLaws C}.

Lemma sign_token_Ok what t key t' :
  sign_token what t key = Ok t' →
  (∃ sig, t' = with_signature t sig) ∧ verify_signature t' (verifying_key_of key) = true.
Proof.
  unfold sign_token. destruct (bincode (signed_fields t)) as [data|] eqn:E; [|done].
  intros [= <-]. split; [eauto|]. unfold verify_signature.
  change (signed_fields (with_signature t (ed_sign key data))) with (signed_fields t).
  rewrite E. cbn [tok_signature with_signature].
  rewrite decide_True by apply ed_sign_length. apply ed_sign_verifies.
Qed.

Lemma issue_Ok m c by_ d now id t m' :
  issue m c by_ d now id = Ok (t, m') →
  m' = register m t ∧ check_pattern c = Ok ()
  ∧ t.(tok_id) = id ∧ t.(tok_capability) = c ∧ t.(tok_granted_by) = by_
  ∧ t.(tok_issued_at) = now ∧ t.(tok_expires_at) = now + d
  ∧ t.(tok_parent_id) = None ∧ t.(tok_chain_depth) = 0
  ∧ verify_signature t (verifying_key_of m.(signing_key)) = true.
Proof.
  unfold issue, token_new. intros H.
  apply result_bind_Ok in H as (t' & H & [= -> <-]).
  apply result_bind_Ok in H as ([] & Hp & H).
  apply sign_token_Ok in H as [[sig ->] Hv]. done.
Qed.

Lemma attenuate_Ok m pid c by_ d now id t m' :
  attenuate m pid c by_ d now id = Ok (t, m') →
  ∃ p, m.(active_tokens) !! pid = Some p ∧ m' = register m t
    ∧ check_pattern c = Ok () ∧ is_subset_of c p.(tok_capability) = true
    ∧ t.(tok_id) = id ∧ t.(tok_capability) = c ∧ t.(tok_granted_by) = by_
    ∧ t.(tok_issued_at) = now ∧ t.(tok_expires_at) = Z.min (now + d) p.(tok_expires_at)
    ∧ t.(tok_parent_id) = Some p.(tok_id)
    ∧ t.(tok_chain_depth) = wrap32 (p.(tok_chain_depth) + 1)
    ∧ t.(tok_chain_depth) ≤ DEFAULT_MAX_CHAIN_DEPTH
    ∧ verify_signature t (verifying_key_of m.(signing_key)) = true.
Proof.
  unfold attenuate, token_attenuate. intros H.
  apply result_bind_Ok in H as (p & Hp & H). exists p.
  apply result_bind_Ok in H as (t' & H & [= -> <-]).
  destruct (is_subset_of c _) eqn:Es; cbn [negb] in H; [|done].
  destruct (Z.ltb_spec DEFAULT_MAX_CHAIN_DEPTH (wrap32 (tok_chain_depth p + 1))); [done|].
  apply result_bind_Ok in H as ([] & Hc & H).
  apply sign_token_Ok in H as [[sig ->] Hv].
  destruct (active_tokens m !! pid); simplify_eq/=. repeat split; done.
Qed.

Lemma token_ok_register m id' t' t :
  fresh m t.(tok_id) → token_ok m id' t' → m.(active_tokens) !! id' = Some t' →
  token_ok (register m t) id' t'.
Proof.
  intros [Hf _] Hok Ha. destruct Hok; constructor; cbn [register revoked_tokens verifying_key]; try done.
  intros pid Hpid. destruct (to_parent0 pid Hpid) as [?|(p & Hp & ?)]; [by left|].
  right. exists p. cbn [active_tokens register]. rewrite lookup_insert_ne by congruence. done.
Qed.

Lemma manager_ok_register m t :
  manager_ok m → fresh m t.(tok_id) → token_ok (register m t) t.(tok_id) t →
  manager_ok (register m t).
Proof.
  intros [Hk Hm] Hf Ht. split; [done|]. intros id' t'. cbn [active_tokens register].
  destruct (decide (t.(tok_id) = id')) as [<-|Hne].
  - rewrite lookup_insert_eq. by intros [= <-].
  - rewrite lookup_insert_ne by done. intros Ha. apply token_ok_register; auto.
Qed.

Lemma manager_ok_new key : manager_ok (manager_new key).
Proof. split; [done|]. intros id t. cbn. by rewrite lookup_empty. Qed.

Lemma manager_ok_step m m' : manager_ok m → manager_step m m' → manager_ok m'.
Proof.
  intros Hm Hstep. pose proof Hm as [Hk Ht]. destruct Hstep as
    [m c by_ d now id t m' Hf H|m pid c by_ d now id t m' Hf H|m id now].
  - apply issue_Ok in H as (-> & Hp & <- & Hc & _ & _ & _ & Hpar & Hd & Hv).
    apply manager_ok_register; [done..|].
    constructor; cbn [register revoked_tokens verifying_key]; try done.
    + apply Hf.
    + rewrite Hd. unfold DEFAULT_MAX_CHAIN_DEPTH. lia.
    + by rewrite Hk.
    + by rewrite Hc.
    + intros pid E. congruence.
  - apply attenuate_Ok in H as
      (p & Ha & -> & Hp & Hs & <- & Hc & _ & _ & He & Hpar & Hd & Hmax & Hv).
    pose proof (to_depth _ _ _ (Ht _ _ Ha)) as Hpd.
    apply manager_ok_register; [done..|].
    constructor; cbn [register revoked_tokens verifying_key active_tokens]; try done.
    + apply Hf.
    + rewrite Hd. split; [apply wrap32_range|]. by rewrite <- Hd.
    + by rewrite Hk.
    + by rewrite Hc.
    + intros pid' E. right. exists p.
      assert (pid' = pid) as ->.
      { rewrite Hpar in E. injection E as <-. by apply (to_id _ _ _ (Ht _ _ Ha)). }
      rewrite lookup_insert_ne by (intros Heq; destruct Hf as [Hf _]; congruence).
      split; [done|]. rewrite Hd, wrap32_small, Hc, He
        by (unfold is_u32, U32_MAX, DEFAULT_MAX_CHAIN_DEPTH in *; lia).
      split; [done|]. split; [done|]. lia.
  - split; [done|]. intros id' t'. cbn [active_tokens revoke].
    destruct (decide (id = id')) as [->|Hne]; [by rewrite lookup_delete_eq|].
    rewrite lookup_delete_ne by done. intros Ha.
    destruct (Ht _ _ Ha); constructor; cbn [revoked_tokens revoke verifying_key active_tokens]; try done.
    + by rewrite lookup_insert_ne.
    + intros pid Hpid. destruct (decide (id = pid)) as [->|Hp].
      * left. rewrite lookup_insert_eq. eauto.
      * rewrite lookup_insert_ne, lookup_delete_ne by done. auto.
Qed.

Lemma manager_ok_steps m m' : manager_ok m → manager_steps m m' → manager_ok m'.
Proof. intros Hm Hs. induction Hs; eauto using manager_ok_step. Qed.

Lemma revoked_step m m' id :
  manager_step m m' → is_Some (m.(revoked_tokens) !! id) → is_Some (m'.(revoked_tokens) !! id).
Proof.
  intros [? ? ? ? ? ? ? ? _ H|? ? ? ? ? ? ? ? ? _ H|? id' ?] Hr.
  - apply issue_Ok in H as (-> & _). done.
  - apply attenuate_Ok in H as (? & _ & -> & _). done.
  - cbn. destruct (decide (id' = id)) as [->|].
    + rewrite lookup_insert_eq. eauto.
    + by rewrite lookup_insert_ne.
Qed.

Lemma revoked_steps m m' id :
  manager_steps m m' → is_Some (m.(revoked_tokens) !! id) → is_Some (m'.(revoked_tokens) !! id).
Proof. induction 1; eauto using revoked_step. Qed.

Lemma manager_ok_depths m : manager_ok m →
  ∀ id p, m.(active_tokens) !! id = Some p → 0 ≤ p.(tok_chain_depth) < U32_MAX.
Proof.
  intros [_ Hm] id p Ha. pose proof (to_depth _ _ _ (Hm _ _ Ha)).
  unfold DEFAULT_MAX_CHAIN_DEPTH, U32_MAX in *. lia.
Qed.

(** In an invariant state, a registered token none of whose ancestors is revoked
    has its whole chain registered and checked, until it expires. *)
Lemma registered_chain m now t :
  manager_ok m → (∃ id, m.(active_tokens) !! id = Some t) →
  (∀ a, descends m t a → m.(revoked_tokens) !! a = None) → now < t.(tok_expires_at) →
  ∃ l, chain_spec m now t l.
Proof.
  intros Hm. remember (Z.to_nat (tok_chain_depth t)) as n eqn:En.
  revert t En. induction n as [n IH] using lt_wf_ind. intros t En [id Ha] Hanc Hnow.
  pose proof (proj2 Hm _ _ Ha) as Hok. pose proof (to_depth _ _ _ Hok) as Hd.
  destruct (tok_parent_id t) as [pid|] eqn:Ep; [|by exists []].
  pose proof (Hanc pid ltac:(by constructor)) as Hnr.
  destruct (to_parent _ _ _ Hok _ Ep) as [[x Hx]|(p & Hp & Hpd & Hs & He)]; [congruence|].
  pose proof (proj2 Hm _ _ Hp) as Hpok. pose proof (to_depth _ _ _ Hpok) as Hpdep.
  destruct (IH (Z.to_nat (tok_chain_depth p)) ltac:(lia) p eq_refl) as [l Hl]; [eauto| |lia|].
  - intros a Hda. apply Hanc. by eapply descends_up.
  - exists (p :: l). exists pid. do 3 (split; [done|]). split; [apply Hpok|].
    split; [lia|]. split; [|done].
    rewrite wrap32_small; [done|]. unfold is_u32, U32_MAX, DEFAULT_MAX_CHAIN_DEPTH in *. lia.
Qed.
End Invariant.

Lemma manager_steps_trans `{U : UrlLib} `{C : CryptoLib} a b c :
  manager_steps a b → manager_steps b c → manager_steps a c.
Proof. intros H. induction 1 as [|? ? ? ? IH ?]; [done|]. eapply steps_next; [by apply IH|done]. Qed.

Section Clients.
Context `{U : UrlLib} `{C : CryptoLib} `{L : !CryptoLaws C}.

Lemma validate_ok_spec m now t r :
  manager_ok m → 0 ≤ t.(tok_chain_depth) →
  validate m now t r = Some (Ok ()) ↔ valid_for m now t r.
Proof.
  intros Hm Hd. unfold validate, valid_for.
  case_decide as Hr.
  { split; [done|]. intros [E _]. rewrite E in Hr. by destruct Hr. }
  apply eq_None_not_Some in Hr.
  destruct (is_valid now t) eqn:Ev; cbn [negb].
  2:{ split; [done|]. intros (_ & Hx & _). apply is_valid_true in Hx. congruence. }
  destruct (verify_signature t _) eqn:Es; cbn [negb].
  2:{ split; [done|]. intros (_ & _ & ? & _). congruence. }
  pose proof Ev as Hexp. apply is_valid_true in Hexp.
  unfold token_allows. rewrite Ev. cbn [andb].
  assert (Hallow : (if negb (allows (tok_capability t) r)
           then Some (Err (InvalidCapability (Lit (safe_message CapabilityNotPermitted))))
           else Some (Ok ())) = Some (Ok ()) ↔ allows (tok_capability t) r = true).
  { by destruct (allows _ _). }
  destruct (tok_parent_id t) as [pid|] eqn:Ep.
  - unfold validate_chain. destruct (Z.ltb_spec DEFAULT_MAX_CHAIN_DEPTH (tok_chain_depth t)) as [Hlt|Hle].
    { split; [done|]. intros (_ & _ & _ & Hmax & _). specialize (Hmax ltac:(eauto)). lia. }
    pose proof (chain_walk_ok (S (Z.to_nat DEFAULT_MAX_CHAIN_DEPTH)) m now t) as Hwalk.
    destruct (chain_walk _ m now t) as [[[]|e]|]; cbv beta iota.
    + rewrite Hallow. split.
      * intros Ha. destruct (proj1 Hwalk eq_refl) as (l & _ & Hc). eauto 10.
      * by intros (_ & _ & _ & _ & _ & ?).
    + split; [done|]. intros (_ & _ & _ & _ & [l Hc] & _).
      pose proof (chain_spec_length _ _ _ _ (manager_ok_depths _ Hm) Hd Hc).
      destruct Hwalk as [_ Hw]. discriminate Hw. exists l. split; [lia|done].
    + split; [done|]. intros (_ & _ & _ & _ & [l Hc] & _).
      pose proof (chain_spec_length _ _ _ _ (manager_ok_depths _ Hm) Hd Hc).
      destruct Hwalk as [_ Hw]. discriminate Hw. exists l. split; [lia|done].
  - rewrite Hallow. split.
    + intros Ha. do 3 (split; [done|]). split; [by intros [? ?]|]. split; [by exists []|done].
    + by intros (_ & _ & _ & _ & _ & ?).
Qed.

Lemma validate_total m now t r :
  manager_ok m → 0 ≤ t.(tok_chain_depth) → is_Some (validate m now t r).
Proof.
  intros Hm Hd. unfold validate. case_decide; [done|]. do 2 (case_match; [done|]).
  assert (is_Some (match tok_parent_id t with
            | Some _ => validate_chain m now t DEFAULT_MAX_CHAIN_DEPTH
            | None => Some (Ok ()) end)) as [v ->].
  { destruct (tok_parent_id t); [|done]. unfold validate_chain. case_match eqn:E; [done|].
    apply Z.ltb_ge in E. apply chain_walk_terminates; [by apply manager_ok_depths|done|].
    unfold DEFAULT_MAX_CHAIN_DEPTH in *. lia. }
  destruct v; [|done]. by case_match.
Qed.

Lemma any_valid_spec m now ts cap :
  manager_ok m → (∀ t, t ∈ ts → 0 ≤ t.(tok_chain_depth)) →
  ∃ b, any_valid m now ts cap = Some b ∧
       (b = true ↔ ∃ t, t ∈ ts ∧ valid_for m now t cap).
Proof.
  intros Hm. induction ts as [|t ts IH]; intros Hts; cbn.
  - exists false. split; [done|]. split; [done|]. intros (t & Ht & _). by apply elem_of_nil in Ht.
  - pose proof (validate_ok_spec m now t cap Hm ltac:(apply Hts; left)) as Hspec.
    destruct (validate_total m now t cap Hm ltac:(apply Hts; left)) as [v Hv].
    rewrite Hv in *. destruct (is_ok v) eqn:Eo.
    + apply is_ok_unit in Eo as ->. exists true. split; [done|]. split; [|done].
      intros _. exists t. split; [left|]. by apply Hspec.
    + destruct IH as (b & Hb & Hiff); [intros; apply Hts; by right|].
      exists b. split; [done|]. rewrite Hiff. split.
      * intros (t' & ? & ?). exists t'. split; [by right|done].
      * intros (t' & [->|?]%elem_of_cons & Hv'); [|eauto].
        apply Hspec in Hv'. simplify_eq.
Qed.

Lemma active_step m m' id t :
  manager_step m m' → m.(active_tokens) !! id = Some t →
  m'.(active_tokens) !! id = Some t ∨ is_Some (m'.(revoked_tokens) !! id).
Proof.
  intros [? ? ? ? ? ? t' ? [Hf _] H|? ? ? ? ? ? ? t' ? [Hf _] H|? id' ?] Ha.
  - apply issue_Ok in H as (-> & _ & Hid & _). left. cbn.
    rewrite lookup_insert_ne by congruence. done.
  - apply attenuate_Ok in H as (? & _ & -> & _ & _ & Hid & _). left. cbn.
    rewrite lookup_insert_ne by congruence. done.
  - cbn. destruct (decide (id' = id)) as [->|].
    + right. rewrite lookup_insert_eq. eauto.
    + left. by rewrite lookup_delete_ne.
Qed.

Lemma active_steps m m' id t :
  manager_steps m m' → m.(active_tokens) !! id = Some t →
  m'.(active_tokens) !! id = Some t ∨ is_Some (m'.(revoked_tokens) !! id).
Proof.
  induction 1 as [|m m1 m2 H IH Hs]; intros Ha; [by left|].
  destruct (IH Ha); [by eapply active_step|]. right. by eapply revoked_step.
Qed.
End Clients.

(** No link from [t] up through [l] is the widening one. *)
Fixpoint links_narrow (t : CapabilityToken) (l : list CapabilityToken) : bool :=
  match l with
  | [] => true
  | p :: l' => negb (widening_link t.(tok_capability) p.(tok_capability)) && links_narrow p l'
  end.

Lemma chain_grants_within `{U : UrlLib} `{C : CryptoLib} m now t l :
  chain_spec m now t l → links_narrow t l = true →
  grants_within t.(tok_capability) (default t (last l)).(tok_capability).
Proof.
  revert t. induction l as [|p l IH]; intros t; cbn [chain_spec links_narrow].
  - intros _ _ r. done.
  - intros (pid & _ & _ & _ & _ & _ & _ & Hs & Hc) [Hw Hn]%andb_true_iff.
    apply negb_true_iff in Hw. trans (tok_capability p).
    + by apply is_subset_of_sound_aux.
    + specialize (IH p Hc Hn). destruct l as [|q l]; [exact IH|].
      rewrite last_cons_cons. destruct (last_is_Some (q :: l)) as [_ Hx].
      destruct Hx as [x Hx]; [done|]. rewrite Hx in *. exact IH.
Qed.

(** ** Properties *)

(** C12: [validate] is exactly its specification in every reachable manager state: it
    accepts a token for a request if and only if the token is not revoked, not
    expired, signed by the manager's key, at depth at most 5 when attenuated, all
    of its ancestors are registered, unrevoked, signed and unexpired with depths
    falling by one and each link a subset of its parent, and its own capability
    allows the request. *)
Theorem validate_iff `{U : UrlLib} `{C : CryptoLib} `{L : !CryptoLaws C}
    (key : SigningKey) (m : CapabilityManager) (now : DateTime) (t : CapabilityToken)
    (r : Capability) :
  manager_steps (manager_new key) m → 0 ≤ t.(tok_chain_depth) →
  validate m now t r = Some (Ok ()) ↔ valid_for m now t r.
Proof. intros Hs. apply validate_ok_spec. eapply manager_ok_steps; [apply manager_ok_new|done]. Qed.

(** Validation always terminates with an answer: in a reachable state the walk
    up the attenuation chain ends within its six iterations, for any presented
    token, forged ones included. *)
Theorem validate_terminates `{U : UrlLib} `{C : CryptoLib} `{L : !CryptoLaws C}
    (key : SigningKey) (m : CapabilityManager) (now : DateTime) (t : CapabilityToken)
    (r : Capability) :
  manager_steps (manager_new key) m → is_u32 t.(tok_chain_depth) →
  ∃ answer, validate m now t r = Some answer.
Proof.
  intros Hs [Hd _]. apply (validate_total); [|done].
  eapply manager_ok_steps; [apply manager_ok_new|done].
Qed.

(** C22: revocation cascades and is permanent: once a token identifier is revoked, no
    later state of the manager validates that token, or any token that has it
    among its registered ancestors, for any request at any time. *)
Theorem revocation_cascades `{U : UrlLib} `{C : CryptoLib} `{L : !CryptoLaws C}
    (key : SigningKey) (m m' : CapabilityManager) (id : Uuid) (at_ now : DateTime)
    (t : CapabilityToken) (r : Capability) :
  manager_steps (manager_new key) m → manager_steps (revoke m id at_) m' →
  0 ≤ t.(tok_chain_depth) →
  t.(tok_id) = id ∨ descends m' t id →
  validate m' now t r ≠ Some (Ok ()).
Proof.
  intros Hs Hs' Hd Hrel Hv.
  assert (is_Some (revoked_tokens m' !! id)) as [x Hx].
  { eapply (revoked_steps); [done|]. cbn. rewrite lookup_insert_eq. eauto. }
  assert (manager_ok m') as Hok.
  { eapply manager_ok_steps; [|exact Hs']. eapply manager_ok_step; [|apply step_revoke].
    eapply manager_ok_steps; [apply manager_ok_new|done]. }
  apply validate_ok_spec in Hv as (Hr & _ & _ & _ & [l Hl] & _); [|done..].
  destruct Hrel as [<-|Hdesc]; [congruence|].
  pose proof (chain_spec_not_revoked _ _ _ _ _ Hl Hdesc). congruence.
Qed.

(** Delegated authority is bounded by the root: when a token validates for a
    request, the token at the root of its chain grants that request itself,
    unless some link is the [Namespace]-under-[Session] pair. *)
Theorem validated_within_root `{U : UrlLib} `{C : CryptoLib} `{L : !CryptoLaws C}
    (key : SigningKey) (m : CapabilityManager) (now : DateTime) (t : CapabilityToken)
    (r : Capability) :
  manager_steps (manager_new key) m → 0 ≤ t.(tok_chain_depth) →
  validate m now t r = Some (Ok ()) →
  ∃ ancestors, chain_spec m now t ancestors
    ∧ (links_narrow t ancestors = true →
       allows (default t (last ancestors)).(tok_capability) r = true).
Proof.
  intros Hs Hd Hv.
  apply validate_ok_spec in Hv as (_ & _ & _ & _ & [l Hl] & Ha); [|by eapply manager_ok_steps; [apply manager_ok_new|]|done].
  exists l. split; [done|]. intros Hn. by apply (chain_grants_within _ _ _ _ Hl Hn).
Qed.

(** A freshly issued token works: in every later state of the manager in which
    it has not been revoked, and until it expires, it validates for every request
    its capability allows, whatever was issued, attenuated or revoked meanwhile. *)
Theorem issued_token_validates `{U : UrlLib} `{C : CryptoLib} `{L : !CryptoLaws C}
    (key : SigningKey) (m m1 m2 : CapabilityManager) (c r : Capability) (by_ : string)
    (d : Z) (issued now : DateTime) (id : Uuid) (t : CapabilityToken) :
  manager_steps (manager_new key) m → fresh m id →
  issue m c by_ d issued id = Ok (t, m1) → manager_steps m1 m2 →
  m2.(revoked_tokens) !! id = None → now < issued + d → allows c r = true →
  validate m2 now t r = Some (Ok ()).
Proof.
  intros Hs Hf Hi Hs2 Hnr Hnow Ha.
  assert (manager_ok m1) as Hok1.
  { eapply manager_ok_step; [|by eapply step_issue].
    eapply manager_ok_steps; [apply manager_ok_new|done]. }
  assert (manager_ok m2) as Hok2 by (by eapply manager_ok_steps).
  apply issue_Ok in Hi as (-> & _ & Hid & Hc & _ & _ & He & Hp & Hd & Hv).
  assert (active_tokens m2 !! id = Some t) as Hact.
  { destruct (active_steps _ _ id t Hs2) as [|[x Hx]]; [|done|congruence].
    cbn. by rewrite Hid, lookup_insert_eq. }
  pose proof (proj2 Hok2 _ _ Hact) as Htok.
  apply validate_ok_spec; [done|lia|]. split; [by rewrite Hid|]. split; [lia|].
  split; [apply Htok|]. rewrite Hp, Hc. split; [by intros [? ?]|]. split; [|done].
  by exists [].
Qed.

(** Attenuation succeeds exactly when the parent is registered, the new
    capability is a subset of it, the child would be at most at depth 5 and an
    HTTP pattern passes the guard; the child then sits one level deeper, never
    outlives its parent, carries the manager's signature and is registered under
    its identifier.  (bincode is assumed to serialize every token.) *)
Theorem attenuate_iff `{U : UrlLib} `{C : CryptoLib} `{L : !CryptoLaws C}
    (key : SigningKey) (m : CapabilityManager) (pid id : Uuid) (c : Capability)
    (by_ : string) (d : Z) (now : DateTime) :
  manager_steps (manager_new key) m → (∀ f, is_Some (bincode f)) →
  (∃ t m', attenuate m pid c by_ d now id = Ok (t, m')
     ∧ ∃ p, m.(active_tokens) !! pid = Some p
       ∧ t.(tok_parent_id) = Some pid
       ∧ t.(tok_chain_depth) = p.(tok_chain_depth) + 1
       ∧ t.(tok_expires_at) = Z.min (now + d) p.(tok_expires_at)
       ∧ verify_signature t m.(verifying_key) = true
       ∧ m'.(active_tokens) = <[id := t]> m.(active_tokens))
  ↔ ∃ p, m.(active_tokens) !! pid = Some p ∧ is_subset_of c p.(tok_capability) = true
       ∧ p.(tok_chain_depth) < DEFAULT_MAX_CHAIN_DEPTH ∧ check_pattern c = Ok ().
Proof.
  intros Hs Hb. assert (manager_ok m) as [Hk Hok]
    by (eapply manager_ok_steps; [apply manager_ok_new|done]).
  assert (∀ p, active_tokens m !! pid = Some p →
          wrap32 (tok_chain_depth p + 1) = tok_chain_depth p + 1) as Hw.
  { intros p Hp. apply wrap32_small. pose proof (to_depth _ _ _ (Hok _ _ Hp)).
    unfold is_u32, U32_MAX, DEFAULT_MAX_CHAIN_DEPTH in *. lia. }
  split.
  - intros (t & m' & H & _).
    apply attenuate_Ok in H as (p & Hp & _ & Hc & Hsub & _ & _ & _ & _ & _ & _ & Hd & Hmax & _).
    exists p. rewrite (Hw p Hp) in Hd. split_and!; try done. lia.
  - intros (p & Hp & Hsub & Hd & Hc).
    destruct (attenuate m pid c by_ d now id) as [[t m']|e] eqn:E.
    + exists t, m'. split; [done|]. exists p. split; [done|].
      apply attenuate_Ok in E as (p' & Hp' & -> & _ & _ & Hid & _ & _ & _ & He & Hpar & Hdep & _ & Hv).
      assert (p' = p) as -> by congruence.
      rewrite (Hw _ Hp) in Hdep. rewrite <- Hk in Hv.
      rewrite (to_id _ _ _ (Hok _ _ Hp)) in Hpar. cbn [register active_tokens].
      by rewrite Hid.
    + exfalso. revert E. unfold attenuate, token_attenuate, sign_token. rewrite Hp.
      cbn [ok_or result_bind]. rewrite Hsub, (Hw p Hp). cbn [negb].
      destruct (Z.ltb_spec DEFAULT_MAX_CHAIN_DEPTH (tok_chain_depth p + 1)); [lia|].
      rewrite Hc. cbn [result_bind].
      match goal with |- context [bincode ?f] => destruct (Hb f) as [x ->] end. done.
Qed.

Lemma authorize_spec `{U : UrlLib} `{C : CryptoLib} `{L : !CryptoLaws C}
    (m : CapabilityManager) (now : DateTime) (tokens : list CapabilityToken) (required : list Capability) :
  manager_ok m → (∀ t, t ∈ tokens → 0 ≤ t.(tok_chain_depth)) →
  (authorize m now tokens required = Some (Ok ()) ↔
   ∀ cap, cap ∈ required → ∃ t, t ∈ tokens ∧ valid_for m now t cap)
  ∧ is_Some (authorize m now tokens required).
Proof.
  intros Hok Hts. induction required as [|cap required [IH IHs]]; cbn [authorize].
  - split; [|by eexists]. split; [|done]. intros _ cap Hc. by apply elem_of_nil in Hc.
  - destruct (any_valid_spec m now tokens cap Hok Hts) as (b & -> & Hb). destruct b.
    + split; [|done]. rewrite IH. split.
      * intros H cap' [->|?]%elem_of_cons; [by apply Hb|auto].
      * intros H cap' ?. apply H. by right.
    + split; [|by eexists]. split; [done|]. intros H. discriminate (proj2 Hb (H cap ltac:(left))).
Qed.

(** [authorize] accepts a request list exactly when every required capability is
    granted by some presented token that is valid in the sense of the chain
    specification; one unsatisfied requirement denies the call. *)
Theorem authorize_iff `{U : UrlLib} `{C : CryptoLib} `{L : !CryptoLaws C}
    (key : SigningKey) (m : CapabilityManager) (now : DateTime)
    (tokens : list CapabilityToken) (required : list Capability) :
  manager_steps (manager_new key) m → (∀ t, t ∈ tokens → 0 ≤ t.(tok_chain_depth)) →
  authorize m now tokens required = Some (Ok ()) ↔
  ∀ cap, cap ∈ required → ∃ t, t ∈ tokens ∧ valid_for m now t cap.
Proof.
  intros Hs. apply authorize_spec. eapply manager_ok_steps; [apply manager_ok_new|done].
Qed.

(** ** A concrete instance, and the properties applied to it *)

Module Toy.
(** Keys are numbers; the signature of a message is the key, then the message, cut
    to 64 bytes. *)
Definition sign (k : Z) (m : list byte) : list byte :=
  take 64 (le_bytes 8 k ++ m ++ replicate 64 x00).
#[export] Instance crypto : CryptoLib := {|
  SigningKey := Z;
  VerifyingKey := Z;
  verifying_key_of k := k;
  ed_sign := sign;
  ed_verify k m s := bool_decide (s = sign k m);
  bincode f := Some (le_bytes 8 (Z.of_N f.(sf_id)) ++ le_bytes 8 f.(sf_expires_at)
                       ++ le_bytes 4 f.(sf_chain_depth));
|}.
#[export] Instance crypto_laws : CryptoLaws crypto.
Proof.
  constructor.
  - intros k m. change (length (sign k m) = 64%nat). unfold sign. rewrite length_take, !length_app, length_replicate, le_bytes_length. lia.
  - intros k m. cbn. by apply bool_decide_eq_true.
Qed.
#[export] Instance url : UrlLib := {|
  Url := string;
  url_parse _ := None;
  url_scheme u := u;
  url_host _ := None;
  url_host_str _ := None;
  url_port_or_known_default _ := None;
|}.

Definition unwrap {A B} (dflt : A) (r : result (B * A) NexusError) : A :=
  match r with Ok (_, a) => a | Err _ => dflt end.
Definition token (m : CapabilityManager) (id : Uuid) : CapabilityToken :=
  default {| tok_id := 0; tok_capability := ReadFile EmptyString;
             tok_granted_by := EmptyString; tok_issued_at := 0; tok_expires_at := 0;
             tok_parent_id := None; tok_chain_depth := 0; tok_signature := [] |}
    (m.(active_tokens) !! id).

(** A root token 1 for [/data], attenuated to token 2 for [/data/sub]. *)
Definition key : SigningKey := 7.
Definition m0 : CapabilityManager := manager_new key.
Definition m1 := unwrap m0 (issue m0 (ReadFile "/data") "ops" 100 0 1%N).
Definition m2 := unwrap m1 (attenuate m1 1%N (ReadFile "/data/sub") "ops" 500 10 2%N).

Lemma unwrap_Ok (m : CapabilityManager) id (r : result (CapabilityToken * CapabilityManager) NexusError) :
  is_ok r = true → (∀ t m', r = Ok (t, m') → m'.(active_tokens) !! id = Some t) →
  r = Ok (token (unwrap m r) id, unwrap m r).
Proof. intros Hr Ht. destruct r as [[t m']|e]; [|done]. cbn. unfold token. by rewrite (Ht t m' eq_refl). Qed.

Lemma issued1 : issue m0 (ReadFile "/data") "ops" 100 0 1%N = Ok (token m1 1%N, m1).
Proof.
  apply unwrap_Ok; [vm_compute; reflexivity|].
  intros t m' (-> & _ & <- & _)%issue_Ok. apply lookup_insert_eq.
Qed.
Lemma attenuated2 : attenuate m1 1%N (ReadFile "/data/sub") "ops" 500 10 2%N = Ok (token m2 2%N, m2).
Proof.
  apply unwrap_Ok; [vm_compute; reflexivity|].
  intros t m' (p & _ & -> & _ & _ & <- & _)%attenuate_Ok. apply lookup_insert_eq.
Qed.

Lemma steps1 : manager_steps m0 m1.
Proof.
  eapply steps_next; [apply steps_refl|].
  eapply (step_issue m0 (ReadFile "/data") "ops" 100 0 1%N); [split; reflexivity|apply issued1].
Qed.
Lemma steps12 : manager_steps m1 m2.
Proof.
  eapply steps_next; [apply steps_refl|].
  eapply (step_attenuate m1 1%N (ReadFile "/data/sub") "ops" 500 10 2%N); [split; vm_compute; reflexivity|apply attenuated2].
Qed.
Lemma steps2 : manager_steps m0 m2.
Proof. eapply manager_steps_trans; [apply steps1 | apply steps12]. Qed.
End Toy.
#[local] Existing Instances Toy.crypto Toy.crypto_laws Toy.url.

Lemma validate_iff_witness :
  validate Toy.m2 50 (Toy.token Toy.m2 2%N) (ReadFile "/data/sub/x") = Some (Ok ())
  ∧ valid_for Toy.m2 50 (Toy.token Toy.m2 2%N) (ReadFile "/data/sub/x").
Proof.
  assert (validate Toy.m2 50 (Toy.token Toy.m2 2%N) (ReadFile "/data/sub/x") = Some (Ok ())) as H
    by (vm_compute; reflexivity).
  split; [exact H|].
  refine (proj1 (validate_iff Toy.key Toy.m2 50 (Toy.token Toy.m2 2%N) (ReadFile "/data/sub/x")
                   Toy.steps2 _) H).
  vm_compute. discriminate.
Defined.

Lemma validate_terminates_witness :
  ∃ answer, validate Toy.m2 50 (Toy.token Toy.m2 2%N) (ReadFile "/etc") = Some answer.
Proof.
  apply (validate_terminates Toy.key); [exact Toy.steps2 | vm_compute; split; discriminate].
Defined.

Lemma revocation_cascades_witness :
  validate (revoke Toy.m2 1%N 40) 50 (Toy.token Toy.m2 2%N) (ReadFile "/data/sub/x") ≠ Some (Ok ()).
Proof.
  apply (revocation_cascades Toy.key Toy.m2 _ 1%N 40).
  - exact Toy.steps2.
  - apply steps_refl.
  - vm_compute. discriminate.
  - right. apply descends_parent. vm_compute. reflexivity.
Defined.

Lemma validated_within_root_witness :
  ∃ ancestors, chain_spec Toy.m2 50 (Toy.token Toy.m2 2%N) ancestors
    ∧ (links_narrow (Toy.token Toy.m2 2%N) ancestors = true →
       allows (default (Toy.token Toy.m2 2%N) (last ancestors)).(tok_capability)
         (ReadFile "/data/sub/x") = true).
Proof.
  apply (validated_within_root Toy.key);
    [exact Toy.steps2 | vm_compute; discriminate | vm_compute; reflexivity].
Defined.

Lemma issued_token_validates_witness :
  validate Toy.m2 50 (Toy.token Toy.m1 1%N) (ReadFile "/data/x") = Some (Ok ()).
Proof.
  apply (issued_token_validates Toy.key Toy.m0 Toy.m1 Toy.m2 (ReadFile "/data")
           _ "ops" 100 0 50 1%N).
  - apply steps_refl.
  - split; reflexivity.
  - exact Toy.issued1.
  - exact Toy.steps12.
  - vm_compute. reflexivity.
  - reflexivity.
  - vm_compute. reflexivity.
Defined.

Lemma attenuate_iff_witness :
  ∃ t m', attenuate Toy.m1 1%N (ReadFile "/data/sub") "ops" 500 10 2%N = Ok (t, m')
     ∧ ∃ p, Toy.m1.(active_tokens) !! 1%N = Some p
       ∧ t.(tok_parent_id) = Some 1%N
       ∧ t.(tok_chain_depth) = p.(tok_chain_depth) + 1
       ∧ t.(tok_expires_at) = Z.min (10 + 500) p.(tok_expires_at)
       ∧ verify_signature t Toy.m1.(verifying_key) = true
       ∧ m'.(active_tokens) = <[2%N := t]> Toy.m1.(active_tokens).
Proof.
  refine (proj2 (attenuate_iff Toy.key Toy.m1 1%N 2%N (ReadFile "/data/sub") "ops" 500 10
                   Toy.steps1 _) _).
  - intros f. eexists. reflexivity.
  - exists (Toy.token Toy.m1 1%N). vm_compute. repeat split; reflexivity.
Defined.

Lemma authorize_iff_witness :
  ∃ t, t ∈ [Toy.token Toy.m2 2%N; Toy.token Toy.m2 1%N]
    ∧ valid_for Toy.m2 50 t (ReadFile "/data/y").
Proof.
  refine (proj1 (authorize_iff Toy.key Toy.m2 50 [Toy.token Toy.m2 2%N; Toy.token Toy.m2 1%N]
                   [ReadFile "/data/sub/x"; ReadFile "/data/y"] Toy.steps2 _) _ _ _).
  - intros t Ht. repeat (apply elem_of_cons in Ht as [->|Ht]; [vm_compute; discriminate|]).
    by apply elem_of_nil in Ht.
  - vm_compute. reflexivity.
  - right. left.
Defined.
