(* ===== verification/HostFs.v ===== *)
(** * The host filesystem that the mounts are prepared on

    The [std::fs] calls of [src/sandbox/wasi.rs] on a POSIX disk with symbolic links:
    [exists], [is_dir], [canonicalize] and [create_dir_all].  A location is the list of
    names from the root, deepest first; the root is [[]].  Resolution follows at most 40
    links, as Linux does.  Nothing else changes the disk during a call. *)

From S2P Require Import Prelude LexPath.

Inductive Node := NDir | NFile | NLink (target : PathBuf).
#[export] Instance Node_eq_dec : EqDecision Node.
Proof. solve_decision. Defined.

Record Fs := {
  nodes : gmap (list string) Node;
  cwd : list string;
  may_create : list string → bool;
}.
Inductive IoErr := NotFound | OtherErr.

Definition node_at (fs : Fs) (loc : list string) : option Node :=
  match loc with [] => Some NDir | _ => fs.(nodes) !! loc end.
Definition is_dir_at (fs : Fs) (loc : list string) : bool := bool_decide (node_at fs loc = Some NDir).

(** A path that ends in a separator or in [.] names a directory. *)
Definition os_components (p : PathBuf) : list Component :=
  components p ++
  match last (split_on slash p) with
  | Some piece => if decide (piece = "" ∨ piece = ".") then [CurDir] else []
  | None => []
  end.

(** The walk from a location: the links it may still follow and where it ends. *)
Fixpoint namei (links : nat) (fs : Fs) :=
  fix walk (at_ : list string) (cs : list Component) {struct cs} : result (nat * list string) IoErr :=
    match cs with
    | [] => Ok (links, at_)
    | c :: cs =>
        if negb (is_dir_at fs at_) then Err OtherErr
        else match c with
        | RootDir => walk [] cs
        | CurDir => walk at_ cs
        | ParentDir => walk (tail at_) cs
        | Normal n =>
            match fs.(nodes) !! (n :: at_) with
            | None => Err NotFound
            | Some (NLink target) =>
                match links with
                | O => Err OtherErr
                | S links => namei links fs at_ (os_components target ++ cs)
                end
            | Some _ => walk (n :: at_) cs
            end
        end
    end.
Definition MAX_LINKS : nat := 40.

Definition resolve_comps (fs : Fs) (cs : list Component) : result (list string) IoErr :=
  match cs with
  | [] => Err NotFound
  | _ => let? r := namei MAX_LINKS fs fs.(cwd) cs in Ok r.2
  end.
Definition resolve (fs : Fs) (p : PathBuf) : result (list string) IoErr :=
  if decide (p = "") then Err NotFound else resolve_comps fs (os_components p).

Definition exists_comps (fs : Fs) (cs : list Component) : bool := is_ok (resolve_comps fs cs).
Definition exists_path (fs : Fs) (p : PathBuf) : bool := is_ok (resolve fs p).
Definition is_dir_comps (fs : Fs) (cs : list Component) : bool :=
  match resolve_comps fs cs with Ok loc => is_dir_at fs loc | Err _ => false end.
Definition is_dir (fs : Fs) (p : PathBuf) : bool :=
  match resolve fs p with Ok loc => is_dir_at fs loc | Err _ => false end.

(** The text of a location, and [PathBuf::push] of a name. *)
Definition loc_path (loc : list string) : PathBuf := "/" +:+ join "/" (reverse loc).
Definition ends_in_slash (p : PathBuf) : bool := bool_decide (last (split_on slash p) = Some "").
Definition push_str (p : PathBuf) (s : string) : PathBuf :=
  if starts_with "/" s then s
  else if (String.length p =? 0)%nat then s
  else if ends_in_slash p then p +:+ s else p +:+ "/" +:+ s.

Definition canonicalize (fs : Fs) (p : PathBuf) : result PathBuf IoErr :=
  match resolve fs p with Ok loc => Ok (loc_path loc) | Err e => Err e end.

(** ** Making directories *)

Definition add_dir (fs : Fs) (loc : list string) : Fs :=
  {| nodes := <[loc := NDir]> fs.(nodes); cwd := fs.(cwd); may_create := fs.(may_create) |}.

(** [mkdir(2)]: the parent must be a directory and the name free. *)
Definition mkdir (fs : Fs) (cs : list Component) : result Fs IoErr :=
  match last cs with
  | Some (Normal n) =>
      match namei MAX_LINKS fs fs.(cwd) (removelast cs) with
      | Err e => Err e
      | Ok (_, loc) =>
          if is_dir_at fs loc
          then match fs.(nodes) !! (n :: loc) with
               | Some _ => Err OtherErr
               | None => if fs.(may_create) (n :: loc) then Ok (add_dir fs (n :: loc)) else Err OtherErr
               end
          else Err OtherErr
      end
  | _ => match resolve_comps fs cs with Ok _ => Err OtherErr | Err e => Err e end
  end.

(** [create_dir_all] of a path whose components are, last first, [rcs]; directories
    made before a failure stay. *)
Fixpoint create_dir_all (fs : Fs) (rcs : list Component) : Fs * result () IoErr :=
  match rcs with
  | [] => (fs, Ok ())
  | c :: parent =>
      let finish (fs : Fs) (r : result Fs IoErr) :=
        match r with
        | Ok fs' => (fs', Ok ())
        | Err e => if is_dir_comps fs (reverse rcs) then (fs, Ok ()) else (fs, Err e)
        end in
      match mkdir fs (reverse rcs) with
      | Err NotFound =>
          match c with
          | RootDir => (fs, Err OtherErr)
          | _ =>
              match create_dir_all fs parent with
              | (fs, Err e) => (fs, Err e)
              | (fs, Ok _) => finish fs (mkdir fs (reverse rcs))
              end
          end
      | r => finish fs r
      end
  end.
(** A final [.] cannot be made; [Path::parent] does not see it. *)
Definition ends_in_dot (p : PathBuf) : bool :=
  bool_decide (last (filter (λ s, s ≠ "") (split_on slash p)) = Some ".").
Definition create_dir_all_path (fs : Fs) (p : PathBuf) : Fs * result () IoErr :=
  if ends_in_dot p
  then if is_dir fs p then (fs, Ok ())
       else match resolve fs p with
            | Err NotFound =>
                match create_dir_all fs (tail (reverse (components p))) with
                | (fs, Err e) => (fs, Err e)
                | (fs, Ok _) => if is_dir fs p then (fs, Ok ()) else (fs, Err NotFound)
                end
            | _ => (fs, Err OtherErr)
            end
  else create_dir_all fs (reverse (components p)).

(** ** Walks *)

Section Walks.
Variable fs : Fs.

Lemma namei_nil l at_ : namei l fs at_ [] = Ok (l, at_).
Proof. by destruct l. Qed.

Lemma namei_cons l at_ c cs :
  namei l fs at_ (c :: cs) =
  if negb (is_dir_at fs at_) then Err OtherErr
  else match c with
  | RootDir => namei l fs [] cs
  | CurDir => namei l fs at_ cs
  | ParentDir => namei l fs (tail at_) cs
  | Normal n =>
      match fs.(nodes) !! (n :: at_) with
      | None => Err NotFound
      | Some (NLink target) =>
          match l with O => Err OtherErr | S l => namei l fs at_ (os_components target ++ cs) end
      | Some _ => namei l fs (n :: at_) cs
      end
  end.
Proof. by destruct l. Qed.

Lemma namei_app l at_ a b :
  namei l fs at_ (a ++ b) = (let? r := namei l fs at_ a in namei r.1 fs r.2 b).
Proof.
  revert at_ a. induction l as [l IHl] using lt_wf_ind. intros at_ a. revert at_.
  induction a as [|c a IH]; intros at_; [by rewrite namei_nil|].
  cbn [app]. rewrite !namei_cons. destruct (negb _); [done|]. destruct c as [| | |n]; try apply IH.
  destruct (nodes fs !! (n :: at_)) as [[| |t]|]; [apply IH|apply IH| |done].
  destruct l as [|l]; [done|]. rewrite app_assoc. apply IHl. lia.
Qed.
End Walks.

(** [fs'] has everything that [fs] has, and possibly new directories. *)
Record extends (fs fs' : Fs) : Prop := {
  ext_cwd : fs'.(cwd) = fs.(cwd);
  ext_old loc n : fs.(nodes) !! loc = Some n → fs'.(nodes) !! loc = Some n;
  ext_new loc : fs.(nodes) !! loc = None → fs'.(nodes) !! loc = None ∨ fs'.(nodes) !! loc = Some NDir;
}.
#[export] Instance extends_preorder : PreOrder extends.
Proof.
  split; [constructor; auto|]. intros a b c [] []. constructor; [congruence|auto|].
  intros loc Hn. destruct (ext_new0 loc Hn) as [Hb|Hb]; auto.
Qed.

Lemma is_dir_at_extends fs fs' loc : extends fs fs' → is_dir_at fs loc = true → is_dir_at fs' loc = true.
Proof.
  intros [_ Ho _]. unfold is_dir_at, node_at. rewrite !bool_decide_eq_true. destruct loc; auto.
Qed.

Lemma namei_extends fs fs' : extends fs fs' → ∀ l at_ cs r, namei l fs at_ cs = Ok r → namei l fs' at_ cs = Ok r.
Proof.
  intros He l. induction l as [l IHl] using lt_wf_ind. intros at_ cs. revert at_.
  induction cs as [|c cs IH]; intros at_ r; [by rewrite !namei_nil|]. rewrite !namei_cons.
  destruct (is_dir_at fs at_) eqn:Hd; [|done]. rewrite (is_dir_at_extends _ _ _ He Hd). cbn [negb].
  destruct c as [| | |n]; auto.
  destruct (nodes fs !! (n :: at_)) as [[| |t]|] eqn:Hn; [| | |done]; rewrite (ext_old _ _ He _ _ Hn); auto.
  destruct l as [|l]; [done|]. apply IHl. lia.
Qed.

Lemma resolve_comps_extends fs fs' cs loc :
  extends fs fs' → resolve_comps fs cs = Ok loc → resolve_comps fs' cs = Ok loc.
Proof.
  intros He. unfold resolve_comps. destruct cs as [|c cs]; [done|].
  intros (r & Hr & Hl)%result_bind_Ok. rewrite (ext_cwd _ _ He), (namei_extends _ _ He _ _ _ _ Hr). done.
Qed.

Lemma add_dir_extends fs loc : fs.(nodes) !! loc = None → extends fs (add_dir fs loc).
Proof.
  intros Hn. constructor; [done|..]; cbn [add_dir nodes].
  - intros loc' n Hl. rewrite lookup_insert_ne; [done|congruence].
  - intros loc' Hl. destruct (decide (loc = loc')) as [->|Hne].
    + right. apply lookup_insert_eq.
    + left. by rewrite lookup_insert_ne.
Qed.

Lemma mkdir_extends fs cs fs' : mkdir fs cs = Ok fs' → extends fs fs'.
Proof.
  unfold mkdir. intros H. repeat case_match; simplify_eq. by apply add_dir_extends.
Qed.

Lemma create_dir_all_extends fs rcs : extends fs (create_dir_all fs rcs).1.
Proof.
  revert fs. induction rcs as [|c rcs IH]; intros fs; cbn [create_dir_all]; [done|].
  destruct (mkdir fs _) as [fs1|[]] eqn:Em; cbn; [by eapply mkdir_extends| |by destruct (is_dir_comps _ _)].
  assert (extends fs (let (fs0, r) := create_dir_all fs rcs in
    match r with
    | Ok _ => match mkdir fs0 (reverse (c :: rcs)) with
              | Ok fs' => (fs', Ok ())
              | Err e => if is_dir_comps fs0 (reverse (c :: rcs)) then (fs0, Ok ()) else (fs0, Err e) end
    | Err e => (fs0, Err e) end).1) as Hc.
  { specialize (IH fs). destruct (create_dir_all fs rcs) as [fs2 [[]|e]]; [|done]. cbn in IH. etrans; [exact IH|].
    destruct (mkdir fs2 _) as [fs3|e] eqn:Em2; [by eapply mkdir_extends|by destruct (is_dir_comps _ _)]. }
  by destruct c.
Qed.

Lemma create_dir_all_path_extends fs p : extends fs (create_dir_all_path fs p).1.
Proof.
  unfold create_dir_all_path. destruct (ends_in_dot p); [|apply create_dir_all_extends].
  destruct (is_dir fs p); [done|]. destruct (resolve fs p) as [|[]]; try done.
  pose proof (create_dir_all_extends fs (tail (reverse (components p)))) as He.
  destruct (create_dir_all _ _) as [fs1 [[]|e]]; [|done]. by destruct (is_dir fs1 p).
Qed.

(** ** Well-formed disks and the text of locations *)

Definition valid_name (n : string) : Prop := no_char slash n ∧ n ≠ "" ∧ n ≠ "." ∧ n ≠ "..".

Record fs_ok (fs : Fs) : Prop := {
  ok_names loc : is_Some (fs.(nodes) !! loc) → Forall valid_name loc;
  ok_parent n loc : is_Some (fs.(nodes) !! (n :: loc)) → node_at fs loc = Some NDir;
  ok_cwd : node_at fs fs.(cwd) = Some NDir;
}.

Lemma piece_valid p n : no_char slash p → Normal n ∈ piece_component p → valid_name n.
Proof.
  intros Hp. unfold piece_component. repeat case_decide; try (by intros []%elem_of_nil).
  - by intros Hn%list_elem_of_singleton.
  - intros [= ->]%list_elem_of_singleton. done.
Qed.

Lemma piece_valid_name n : valid_name n → piece_component n = [Normal n].
Proof. intros (_ & H1 & H2 & H3). unfold piece_component. by rewrite !decide_False. Qed.

Lemma components_valid p n : Normal n ∈ components p → valid_name n.
Proof.
  pose proof (split_on_no_char_elem slash p) as Hs. unfold components.
  destruct (split_on slash p) as [|first rest]; [by intros []%elem_of_nil|].
  assert (∀ x, x ∈ rest → no_char slash x) as Hrest by (intros x Hx; apply Hs; by right).
  assert (Normal n ∈ rest ≫= piece_component → valid_name n) as Hr.
  { intros (x & Hp & Hx)%list_elem_of_bind. by eapply piece_valid; [apply Hrest|]. }
  destruct (starts_with "/" p).
  - intros [[=]|H]%elem_of_cons. auto.
  - rewrite elem_of_app. intros [H|H]; [|auto]. case_decide.
    + by apply list_elem_of_singleton in H.
    + by eapply piece_valid; [apply Hs; left|].
Qed.

Lemma split_on_app_gen c s t : split_on c (s +:+ String c t) = split_on c s ++ split_on c t.
Proof.
  induction s as [|a s IH]; cbn; [by rewrite Ascii.eqb_refl|].
  rewrite IH. destruct (Ascii.eqb a c); [done|].
  pose proof (split_on_nonempty c s). by destruct (split_on c s).
Qed.

Lemma split_on_join (l : list string) (s : string) :
  Forall valid_name l →
  split_on slash (s +:+ String slash (join "/" l)) = split_on slash s ++ match l with [] => [""] | _ => l end.
Proof.
  intros Hl. rewrite split_on_app_gen. f_equal. induction Hl as [|n l Hn Hl IH]; [done|].
  destruct l as [|m l]; [by apply split_on_no_char, Hn|].
  change (join "/" (n :: m :: l)) with (n +:+ String slash (join "/" (m :: l))).
  by rewrite split_on_app_gen, IH, (split_on_no_char slash n) by apply Hn.
Qed.

Lemma pieces_of_names l : Forall valid_name l → l ≫= piece_component = Normal <$> l.
Proof. induction 1 as [|n l Hn Hl IH]; [done|]. cbn. by rewrite piece_valid_name, IH. Qed.

(** The text of an absolute list of names has these components. *)
Lemma components_abs l : Forall valid_name l → components ("/" +:+ join "/" l) = RootDir :: (Normal <$> l).
Proof.
  intros Hl. unfold components. change (starts_with "/" ("/" +:+ join "/" l)) with true.
  pose proof (split_on_join l "" Hl) as Hs. change ("" +:+ String slash (join "/" l)) with ("/" +:+ join "/" l) in Hs.
  rewrite Hs. cbn [split_on app]. f_equal.
  destruct l; [done|]. by apply pieces_of_names.
Qed.

Lemma components_loc loc : Forall valid_name loc → components (loc_path loc) = RootDir :: (Normal <$> reverse loc).
Proof. intros H. apply components_abs. by apply Forall_reverse. Qed.

Lemma join_snoc l m n : join "/" ((l ++ [m]) ++ [n]) = join "/" (l ++ [m]) +:+ "/" +:+ n.
Proof.
  induction l as [|k l IH]; [done|]. cbn [app].
  destruct l as [|k' l].
  { change (k +:+ ("/" +:+ (m +:+ ("/" +:+ n))) = (k +:+ ("/" +:+ m)) +:+ ("/" +:+ n)). by rewrite !string_app_assoc. }
  change (k +:+ "/" +:+ join "/" (((k' :: l) ++ [m]) ++ [n])
          = (k +:+ "/" +:+ join "/" ((k' :: l) ++ [m])) +:+ "/" +:+ n).
  by rewrite IH, !string_app_assoc.
Qed.

Lemma valid_name_relative n : valid_name n → starts_with "/" n = false.
Proof.
  intros [Hn _]. destruct n as [|a n]; [done|]. destruct Hn as [Ha _]. cbn.
  destruct (Ascii.eqb_spec "/"%char a) as [<-|]; [done|]. done.
Qed.

Lemma push_str_abs l n :
  Forall valid_name l → valid_name n → push_str ("/" +:+ join "/" l) n = "/" +:+ join "/" (l ++ [n]).
Proof.
  intros Hl Hn. unfold push_str. rewrite (valid_name_relative n Hn).
  change (String.length ("/" +:+ join "/" l) =? 0)%nat with false. cbv iota.
  unfold ends_in_slash. change ("/" +:+ join "/" l) with ("" +:+ String slash (join "/" l)).
  rewrite split_on_join by done. destruct l as [|m l _] using rev_ind; [done|].
  rewrite bool_decide_eq_false_2.
  - by rewrite join_snoc.
  - destruct (l ++ [m]) eqn:E; [by destruct l|]. rewrite <- E in Hl |- *. rewrite app_assoc, last_snoc.
    apply Forall_app in Hl as [_ [(_ & Hm & _) _]%Forall_cons]. congruence.
Qed.

Lemma pushes_abs l ns :
  Forall valid_name l → Forall valid_name ns →
  fold_left push_str ns ("/" +:+ join "/" l) = "/" +:+ join "/" (l ++ ns).
Proof.
  intros Hl Hns. revert l Hl. induction Hns as [|n ns Hn Hns IH]; intros l Hl; cbn [fold_left].
  - by rewrite app_nil_r.
  - rewrite push_str_abs by done. rewrite IH, <- app_assoc; [done|]. by apply Forall_app_2, Forall_singleton.
Qed.

(** ** Relative paths and their absolute form *)

Lemma components_push_rel l p :
  Forall valid_name l → starts_with "/" p = false → p ≠ "" →
  ∃ (dot : bool) cs, components p = (if dot then [CurDir] else []) ++ cs
    ∧ components (push_str ("/" +:+ join "/" l) p) = RootDir :: (Normal <$> l) ++ cs
    ∧ last (split_on slash (push_str ("/" +:+ join "/" l) p)) = last (split_on slash p)
    ∧ components p ≠ [].
Proof.
  intros Hl Hp Hne.
  assert (split_on slash (push_str ("/" +:+ join "/" l) p) = "" :: l ++ split_on slash p
    ∧ starts_with "/" (push_str ("/" +:+ join "/" l) p) = true) as [Hs Hst].
  { unfold push_str. rewrite Hp. change (String.length ("/" +:+ join "/" l) =? 0)%nat with false. cbv iota.
    unfold ends_in_slash. change ("/" +:+ join "/" l) with ("" +:+ String slash (join "/" l)).
    rewrite split_on_join by done. destruct l as [|m l].
    - split; [|done]. by rewrite bool_decide_eq_true_2 by done.
    - rewrite bool_decide_eq_false_2.
      + split; [|done]. change ("/" +:+ p) with (String slash p). rewrite split_on_app_gen, split_on_join by done. done.
      + rewrite last_app. destruct (last (m :: l)) as [x|] eqn:E; [|by apply last_None in E].
        intros [= ->]. apply last_Some in E as [l' E]. rewrite E in Hl.
        by apply Forall_app in Hl as [_ [(_ & ? & _) _]%Forall_cons]. }
  pose proof (split_on_nonempty slash p) as Hn. unfold components. rewrite Hp, Hst, Hs.
  destruct (split_on slash p) as [|first rest] eqn:Ep; [done|].
  assert ((l ++ first :: rest) ≫= piece_component = (Normal <$> l) ++ piece_component first ++ (rest ≫= piece_component)) as Hb.
  { rewrite bind_app, pieces_of_names by done. done. }
  assert (first ≠ "") as Hf.
  { intros ->. destruct p as [|a p]; [done|]. cbn in Ep, Hp. destruct (Ascii.eqb_spec a slash) as [->|Hne'].
    - done.
    - by destruct (split_on slash p). }
  exists (bool_decide (first = ".")). case_bool_decide as Hdot.
  - exists (rest ≫= piece_component). rewrite decide_True by done. subst first. cbn [app].
    split_and!; [done| |by rewrite last_cons, last_app, last_cons; destruct (last rest)|done]. by rewrite Hb.
  - exists (piece_component first ++ (rest ≫= piece_component)). rewrite decide_False by done. cbn [app].
    split_and!; [done|by rewrite Hb|by rewrite last_cons, last_app, last_cons; destruct (last rest)|].
    unfold piece_component. rewrite !decide_False by done. by case_decide.
Qed.

Section Resolve.
Variables fs fs' : Fs.
Hypothesis Hok : fs_ok fs.
Hypothesis Hext : extends fs fs'.

Lemma loc_valid loc : node_at fs loc = Some NDir → Forall valid_name loc.
Proof using Hok. destruct loc as [|n loc]; [done|]. intros H. apply (ok_names _ Hok). by eexists. Qed.

(** A directory is reached from the root along its own names. *)
Lemma namei_down l at_ : node_at fs at_ = Some NDir → namei l fs [] (Normal <$> reverse at_) = Ok (l, at_).
Proof using Hok.
  induction at_ as [|n at_ IH]; intros Hd; [apply namei_nil|].
  assert (node_at fs at_ = Some NDir) as Hp by (apply (ok_parent _ Hok n); by eexists).
  rewrite reverse_cons, fmap_app, namei_app, (IH Hp). cbn [result_bind fst snd fmap list_fmap].
  rewrite namei_cons. unfold is_dir_at. rewrite bool_decide_eq_true_2 by done. cbn [negb].
  cbn [node_at] in Hd. rewrite Hd. apply namei_nil.
Qed.

Lemma cwd_dir : is_dir_at fs' fs'.(cwd) = true.
Proof using Hok Hext.
  rewrite (ext_cwd _ _ Hext). eapply is_dir_at_extends; [done|].
  apply bool_decide_eq_true, (ok_cwd _ Hok).
Qed.

(** Resolving a relative path is resolving it joined to the working directory. *)
Lemma resolve_joined p :
  starts_with "/" p = false → p ≠ "" → resolve fs' (push_str (loc_path fs.(cwd)) p) = resolve fs' p.
Proof using Hok Hext.
  intros Hr Hne. unfold loc_path.
  destruct (components_push_rel (reverse fs.(cwd)) p) as (dot & cs & Hp & Hj & Hl & Hnil);
    [apply Forall_reverse, loc_valid, (ok_cwd _ Hok)|done|done|].
  unfold resolve. rewrite !decide_False.
  2:{ done. }
  2:{ intros E. rewrite E in Hj. done. }
  unfold os_components. rewrite Hl, Hj. set (tr := match last (split_on slash p) with Some _ => _ | None => _ end).
  unfold resolve_comps. cbn [app]. rewrite namei_cons, cwd_dir. cbn [negb].
  destruct (components p ++ tr) as [|c0 cs0] eqn:Ec; [by destruct (components p)|]. rewrite <- Ec.
  rewrite <- app_assoc, namei_app.
  rewrite (namei_extends _ _ Hext _ _ _ _ (namei_down MAX_LINKS _ (ok_cwd _ Hok))). cbn [result_bind fst snd].
  rewrite <- (ext_cwd _ _ Hext), Hp. destruct dot; [|done]. cbn [app]. by rewrite namei_cons, cwd_dir.
Qed.

(** What follows a missing entry can only consist of directories made since. *)
Lemma namei_made l at_ n ns r :
  fs.(nodes) !! (n :: at_) = None → namei l fs' at_ (Normal <$> (n :: ns)) = Ok r →
  r = (l, reverse (n :: ns) ++ at_).
Proof using Hok Hext.
  revert at_ n. induction ns as [|m ns IH]; intros at_ n Hn; rewrite fmap_cons, namei_cons;
    (destruct (is_dir_at fs' at_); [|done]); cbn [negb];
    destruct (ext_new _ _ Hext _ Hn) as [->| ->]; try done.
  - rewrite namei_nil. by intros [= <-].
  - intros H. apply IH in H; [|].
    + by rewrite H, (reverse_cons (m :: ns)), <- app_assoc.
    + destruct (nodes fs !! (m :: n :: at_)) eqn:E; [|done].
      pose proof (ok_parent _ Hok m (n :: at_) ltac:(by eexists)) as Hd. cbn in Hd. by rewrite Hn in Hd.
Qed.
End Resolve.

(** A final separator or dot does not change where a path leads. *)
Lemma resolve_components fs p loc :
  resolve fs p = Ok loc → ∃ l, namei MAX_LINKS fs fs.(cwd) (components p) = Ok (l, loc).
Proof.
  unfold resolve, os_components. case_decide; [done|].
  set (tr := match last (split_on slash p) with Some _ => _ | None => _ end).
  assert (tr = [] ∨ tr = [CurDir]) as Htr by (subst tr; destruct (last _); [case_decide|]; auto).
  unfold resolve_comps. destruct (components p ++ tr) as [|c0 cs0] eqn:E; [done|]. rewrite <- E.
  intros (r & Hr & [= <-])%result_bind_Ok. rewrite namei_app in Hr.
  apply result_bind_Ok in Hr as ([l at_] & Hw & Hr). exists l. rewrite Hw. do 2 f_equal.
  destruct Htr as [-> | ->]; [rewrite namei_nil in Hr; by injection Hr as <-|].
  rewrite namei_cons in Hr. destruct (negb _); [done|]. rewrite namei_nil in Hr. by injection Hr as <-.
Qed.
