(* ===== verification/Wasi.v ===== *)
(** * WASI mounts: the configuration half of [src/sandbox/wasi.rs]

    [WasiToolConfig] (mounts chosen by the caller, whose capabilities are derived before
    anything is created, and which are prepared after authorisation) and
    [WasiSandboxConfig::from_capabilities].  The filesystem is [HostFs]. *)

From S2P Require Import Prelude Errors LexPath Capability HostFs.

Record PreOpen := { host_path : PathBuf; guest_path : string; writable : bool }.
Inductive WasiAccess := ReadOnly | ReadWrite.
Record WasiMount := { mount_host : PathBuf; mount_guest : string; access : WasiAccess }.

Record WasiToolConfig := {
  mounts : list WasiMount;
  tool_stdout : bool;
  tool_stderr : bool;
  tool_env : list (string * string);
  tool_args : list string;
}.
Record WasiSandboxConfig := {
  preopens : list PreOpen;
  inherit_stdout : bool;
  inherit_stderr : bool;
  env_vars : list (string * string);
  args : list string;
}.
Record ValidatedWasiToolConfig := {
  sandbox_config : WasiSandboxConfig;
  required_caps : list Capability;
}.

Definition WasiToolConfig_new : WasiToolConfig :=
  {| mounts := []; tool_stdout := false; tool_stderr := false; tool_env := []; tool_args := [] |}.
Definition with_mount (c : WasiToolConfig) (host : PathBuf) (guest : string) (a : WasiAccess) : WasiToolConfig :=
  {| mounts := c.(mounts) ++ [{| mount_host := host; mount_guest := guest; access := a |}];
     tool_stdout := c.(tool_stdout); tool_stderr := c.(tool_stderr);
     tool_env := c.(tool_env); tool_args := c.(tool_args) |}.

(** ** Guest paths *)

Definition byte0 : ascii := "000"%char.

(** The loop over the components of an absolute path. *)
Fixpoint guest_parts (cs : list Component) : result (list string) NexusError :=
  match cs with
  | [] => Ok []
  | RootDir :: cs => guest_parts cs
  | Normal part :: cs => let? parts := guest_parts cs in Ok (part :: parts)
  | _ :: _ => Err (ConfigError (Fmt "WASI guest path contains traversal or prefix component: {path}" [AOpaque]))
  end.

Definition normalize_guest_path (path : string) : result string NexusError :=
  if negb (starts_with "/" path)
  then Err (ConfigError (Fmt "WASI guest path must be absolute: {path}" [AStr path]))
  else if contains_str (String byte0 EmptyString) path || contains_str "\" path || contains_str "//" path
  then Err (ConfigError (Fmt "WASI guest path contains invalid characters: {path}" [AStr path]))
  else
    let? parts := guest_parts (components path) in
    match parts with
    | [] => Err (ConfigError (Lit "WASI guest path cannot be root"))
    | _ => Ok ("/" +:+ join "/" parts)
    end.

Definition suffix_is_below (left right : string) : bool :=
  match strip_prefix left right with Some suffix => starts_with "/" suffix | None => false end.
Definition guest_path_overlaps (left right : string) : bool :=
  bool_decide (left = right) || suffix_is_below left right || suffix_is_below right left.

(** The loop of [normalized_mounts]; [seen] are the guest paths so far. *)
Fixpoint normalize_mounts (seen : list string) (ms : list WasiMount) : result (list WasiMount) NexusError :=
  match ms with
  | [] => Ok []
  | m :: ms =>
      let? guest := normalize_guest_path m.(mount_guest) in
      if bool_decide (guest ∈ seen)
      then Err (ConfigError (Fmt "duplicate WASI guest path: {guest_path}" [AStr guest]))
      else match list_find (λ existing, guest_path_overlaps existing guest = true) seen with
      | Some (_, existing) =>
          Err (ConfigError (Fmt "overlapping WASI guest paths: {existing} and {guest_path}" [AStr existing; AStr guest]))
      | None =>
          let? rest := normalize_mounts (seen ++ [guest]) ms in
          Ok ({| mount_host := m.(mount_host); mount_guest := guest; access := m.(access) |} :: rest)
      end
  end.
Definition normalized_mounts (c : WasiToolConfig) : result (list WasiMount) NexusError :=
  normalize_mounts [] c.(mounts).

(** ** Host directories *)

Definition canonicalize_existing_mount_dir (fs : Fs) (path : PathBuf) : result PathBuf NexusError :=
  match canonicalize fs path with
  | Err _ => Err (FilesystemError (Fmt "failed to canonicalize WASI mount directory {}: {e}" [AStr path; AOpaque]))
  | Ok canonical =>
      if is_dir fs canonical then Ok canonical
      else Err (ConfigError (Fmt "WASI mount canonical host path is not a directory: {}" [AStr canonical]))
  end.

Definition absolute_mount_path (fs : Fs) (path : PathBuf) : PathBuf :=
  if starts_with "/" path then path else push_str (loc_path fs.(cwd)) path.

(** The climb to the closest existing ancestor, over the components, last first. *)
Fixpoint climb (fs : Fs) (rcs : list Component) (missing : list string) : option (list Component * list string) :=
  match rcs with
  | Normal component :: parent =>
      let missing := missing ++ [component] in
      if exists_comps fs (reverse parent) then Some (reverse parent, missing) else climb fs parent missing
  | _ => None
  end.

(** The text of an absolute component list. *)
Definition comps_path (cs : list Component) : PathBuf :=
  "/" +:+ join "/" (omap (λ c, match c with Normal n => Some n | _ => None end) cs).

Definition required_capability_mount_dir (fs : Fs) (path : PathBuf) : result PathBuf NexusError :=
  if exists_path fs path then canonicalize_existing_mount_dir fs path
  else
    let absolute := absolute_mount_path fs path in
    if exists_path fs absolute then
      let? resolved := canonicalize_existing_mount_dir fs absolute in
      Ok (comps_path (normalize_lexical_path (components resolved)))
    else match climb fs (reverse (components absolute)) [] with
    | None => Err (FilesystemError (Fmt "failed to resolve WASI mount directory {} without creation" [AStr path]))
    | Some (ancestor, missing_components) =>
        let? base :=
          match resolve_comps fs ancestor with
          | Err _ => Err (FilesystemError (Fmt "failed to canonicalize WASI mount directory {}: {e}" [AOpaque; AOpaque]))
          | Ok loc =>
              if is_dir_at fs loc then Ok (loc_path loc)
              else Err (ConfigError (Fmt "WASI mount canonical host path is not a directory: {}" [AOpaque]))
          end in
        let resolved := fold_left push_str (reverse missing_components) base in
        Ok (comps_path (normalize_lexical_path (components resolved)))
    end.

Definition prepare_mount_dir (fs : Fs) (path : PathBuf) : Fs * result PathBuf NexusError :=
  if exists_path fs path && negb (is_dir fs path)
  then (fs, Err (ConfigError (Fmt "WASI mount host path is not a directory: {}" [AStr path])))
  else if exists_path fs path then (fs, canonicalize_existing_mount_dir fs path)
  else match create_dir_all_path fs path with
  | (fs, Err _) => (fs, Err (FilesystemError (Fmt "failed to create WASI mount directory {}: {e}" [AStr path; AOpaque])))
  | (fs, Ok _) => (fs, canonicalize_existing_mount_dir fs path)
  end.

(** ** The two derivations *)

Definition mount_caps (host : PathBuf) (a : WasiAccess) : list Capability :=
  ReadFile host :: match a with ReadWrite => [WriteFile host] | ReadOnly => [] end.

Fixpoint mounts_capabilities (fs : Fs) (ms : list WasiMount) : result (list Capability) NexusError :=
  match ms with
  | [] => Ok []
  | m :: ms =>
      let? host := required_capability_mount_dir fs m.(mount_host) in
      let? rest := mounts_capabilities fs ms in
      Ok (mount_caps host m.(access) ++ rest)
  end.
Definition required_capabilities (fs : Fs) (c : WasiToolConfig) : result (list Capability) NexusError :=
  let? ms := normalized_mounts c in mounts_capabilities fs ms.

Fixpoint prepare_all (fs : Fs) (ms : list WasiMount) : Fs * result (list PreOpen * list Capability) NexusError :=
  match ms with
  | [] => (fs, Ok ([], []))
  | m :: ms =>
      match prepare_mount_dir fs m.(mount_host) with
      | (fs, Err e) => (fs, Err e)
      | (fs, Ok host) =>
          match prepare_all fs ms with
          | (fs, Err e) => (fs, Err e)
          | (fs, Ok (pre, caps)) =>
              (fs, Ok ({| host_path := host; guest_path := m.(mount_guest);
                          writable := match m.(access) with ReadWrite => true | ReadOnly => false end |} :: pre,
                       mount_caps host m.(access) ++ caps))
          end
      end
  end.
Definition prepare_mounts (fs : Fs) (c : WasiToolConfig) : Fs * result ValidatedWasiToolConfig NexusError :=
  match normalized_mounts c with
  | Err e => (fs, Err e)
  | Ok ms =>
      match prepare_all fs ms with
      | (fs, Err e) => (fs, Err e)
      | (fs, Ok (pre, caps)) =>
          (fs, Ok {| sandbox_config := {| preopens := pre; inherit_stdout := c.(tool_stdout);
                       inherit_stderr := c.(tool_stderr); env_vars := c.(tool_env); args := c.(tool_args) |};
                     required_caps := caps |})
      end
  end.
Definition validate_config (fs : Fs) (c : WasiToolConfig) := prepare_mounts fs c.

(** ** Preopens from capabilities *)

(** The text of a normalised path: [PathBuf::push] of its components. *)
Definition normal_path (p : PathBuf) : PathBuf :=
  match normalize_lexical_path (components p) with
  | RootDir :: cs => comps_path cs
  | cs => join "/" (omap (λ c, match c with Normal n => Some n | ParentDir => Some ".." | _ => None end) cs)
  end.

Definition add_readable (path : PathBuf) (pre : list PreOpen) : list PreOpen :=
  if existsb (λ p, pathbuf_eqb p.(host_path) path) pre then pre
  else pre ++ [{| host_path := path; guest_path := path; writable := false |}].
Fixpoint add_writable (path : PathBuf) (pre : list PreOpen) : list PreOpen :=
  match pre with
  | [] => [{| host_path := path; guest_path := path; writable := true |}]
  | p :: pre =>
      if pathbuf_eqb p.(host_path) path
      then {| host_path := p.(host_path); guest_path := p.(guest_path); writable := true |} :: pre
      else p :: add_writable path pre
  end.

Definition WasiSandboxConfig_default : WasiSandboxConfig :=
  {| preopens := []; inherit_stdout := false; inherit_stderr := false; env_vars := []; args := [] |}.
Definition set_preopens (c : WasiSandboxConfig) (p : list PreOpen) : WasiSandboxConfig :=
  {| preopens := p; inherit_stdout := c.(inherit_stdout); inherit_stderr := c.(inherit_stderr);
     env_vars := c.(env_vars); args := c.(args) |}.
Definition add_capability (c : WasiSandboxConfig) (cap : Capability) : WasiSandboxConfig :=
  match cap with
  | ReadFile path | ListDirectory path => set_preopens c (add_readable (normal_path path) c.(preopens))
  | WriteFile path => set_preopens c (add_writable (normal_path path) c.(preopens))
  | AllCaps => {| preopens := c.(preopens); inherit_stdout := true; inherit_stderr := true;
                  env_vars := c.(env_vars); args := c.(args) |}
  | _ => c
  end.
Definition from_capabilities (caps : list Capability) : WasiSandboxConfig :=
  fold_left add_capability caps WasiSandboxConfig_default.

(** ** Authorised mounts and prepared mounts agree *)

(** Where a host path stops to exist its next component is free: nothing, not even
    a dangling link, has that name. *)
Definition frontier_free (fs : Fs) (path : PathBuf) : Prop :=
  exists_path fs path = false → ∀ ancestor missing n loc,
    climb fs (reverse (components (absolute_mount_path fs path))) [] = Some (ancestor, missing) →
    last missing = Some n → resolve_comps fs ancestor = Ok loc → fs.(nodes) !! (n :: loc) = None.

Lemma climb_spec fs rcs m0 ancestor missing :
  climb fs rcs m0 = Some (ancestor, missing) →
  ∃ n ns, reverse rcs = ancestor ++ (Normal <$> n :: ns) ∧ missing = m0 ++ reverse (n :: ns).
Proof.
  revert m0. induction rcs as [|c rcs IH]; intros m0; [done|]. cbn [climb]. destruct c as [| | |n]; try done.
  destruct (exists_comps fs (reverse rcs)).
  - intros [= <- <-]. exists n, []. by rewrite reverse_cons.
  - intros (m & ns & Hr & ->)%IH. exists m, (ns ++ [n]).
    rewrite (app_comm_cons ns [n] m), reverse_snoc, fmap_app, reverse_cons, Hr, <- !app_assoc. done.
Qed.

Lemma canonicalize_existing_Ok fs path host :
  canonicalize_existing_mount_dir fs path = Ok host →
  ∃ loc, resolve fs path = Ok loc ∧ host = loc_path loc ∧ is_dir fs host = true.
Proof.
  unfold canonicalize_existing_mount_dir, canonicalize. destruct (resolve fs path) as [loc|e]; [|done].
  destruct (is_dir fs (loc_path loc)) eqn:Hd; [|done]. intros [= <-]. by exists loc.
Qed.

Lemma prepare_mount_dir_Ok fs path fs' host :
  prepare_mount_dir fs path = (fs', Ok host) → extends fs fs' ∧ canonicalize_existing_mount_dir fs' path = Ok host.
Proof.
  unfold prepare_mount_dir. destruct (exists_path fs path && negb (is_dir fs path)); [done|].
  destruct (exists_path fs path); [by intros [= <- <-]|].
  pose proof (create_dir_all_path_extends fs path) as He.
  destruct (create_dir_all_path fs path) as [fs1 [[]|e]]; [|done]. by intros [= <- <-].
Qed.

Lemma resolve_absolute fs fs' p :
  fs_ok fs → extends fs fs' → p ≠ "" → resolve fs' (absolute_mount_path fs p) = resolve fs' p.
Proof.
  intros Hok He Hne. unfold absolute_mount_path. destruct (starts_with "/" p) eqn:Hs; [done|]. by apply resolve_joined.
Qed.
Lemma absolute_nonempty fs p : p ≠ "" → absolute_mount_path fs p ≠ "".
Proof.
  intros Hp. unfold absolute_mount_path, push_str. destruct (starts_with "/" p); [done|].
  change (String.length (loc_path (cwd fs)) =? 0)%nat with false. by destruct (ends_in_slash _).
Qed.

(** The text that [required_capability_mount_dir] builds. *)
Lemma pushed_path fs ancestor_loc n ns :
  fs_ok fs → is_dir_at fs ancestor_loc = true → Forall valid_name (n :: ns) →
  comps_path (normalize_lexical_path (components (fold_left push_str (n :: ns) (loc_path ancestor_loc))))
  = loc_path (reverse (n :: ns) ++ ancestor_loc).
Proof.
  intros Hok Hd%bool_decide_eq_true Hv. pose proof (loc_valid fs Hok _ Hd) as Hl%Forall_reverse.
  unfold loc_path at 1. rewrite pushes_abs, components_abs by first [done|by apply Forall_app_2].
  rewrite normalize_normal_form_id by constructor. unfold comps_path, loc_path. cbn [omap list_omap].
  rewrite reverse_app, reverse_involutive. do 2 f_equal. induction (reverse ancestor_loc ++ n :: ns); [done|].
  cbn. by f_equal.
Qed.

Lemma mount_dir_agrees fs fs1 fs2 path host host' :
  fs_ok fs → extends fs fs1 → frontier_free fs path →
  required_capability_mount_dir fs path = Ok host → prepare_mount_dir fs1 path = (fs2, Ok host') →
  extends fs1 fs2 ∧ host' = host ∧ is_dir fs2 host = true ∧ ∃ loc, resolve fs2 path = Ok loc ∧ host = loc_path loc.
Proof.
  intros Hok He Hfree Hreq Hprep. apply prepare_mount_dir_Ok in Hprep as [He12 Hcan].
  assert (extends fs fs2) as He2 by (by etrans). split; [done|].
  apply canonicalize_existing_Ok in Hcan as (loc2 & Hr2 & -> & Hd2).
  assert (loc_path loc2 = host) as Heq; [|by rewrite <- Heq; eauto].
  assert (path ≠ "") as Hne by (intros ->; done).
  unfold required_capability_mount_dir in Hreq. destruct (exists_path fs path) eqn:Hex.
  { apply canonicalize_existing_Ok in Hreq as (loc & Hr & -> & _).
    unfold resolve in Hr, Hr2. rewrite decide_False in Hr, Hr2 by done.
    apply (resolve_comps_extends _ _ _ _ He2) in Hr. congruence. }
  assert (exists_path fs (absolute_mount_path fs path) = false) as Hexa
    by (unfold exists_path; by rewrite resolve_absolute).
  rewrite Hexa in Hreq.
  rewrite <- (resolve_absolute fs fs2 path Hok He2 Hne) in Hr2.
  apply resolve_components in Hr2 as [l Hr2].
  unfold frontier_free in Hfree. specialize (Hfree Hex). set (abs := absolute_mount_path fs path) in *.
  destruct (climb fs (reverse (components abs)) []) as [[ancestor missing]|] eqn:Hc; [|done].
  pose proof (climb_spec _ _ _ _ _ Hc) as (n & ns & Hcs & Hmiss). rewrite reverse_involutive in Hcs.
  destruct (resolve_comps fs ancestor) as [loc|e] eqn:Ha; [|done].
  destruct (is_dir_at fs loc) eqn:Hd; [|done]. injection Hreq as <-. cbn [app] in Hmiss.
  rewrite Hmiss, reverse_involutive, (pushed_path fs); [|done|done|].
  2:{ apply Forall_forall. intros x Hx. apply (components_valid abs). rewrite Hcs. apply elem_of_app. right.
      by apply list_elem_of_fmap_2. }
  specialize (Hfree ancestor missing n loc eq_refl ltac:(by rewrite Hmiss, reverse_cons, last_snoc) Ha).
  rewrite Hcs, namei_app in Hr2. apply result_bind_Ok in Hr2 as ([l1 at1] & Hw & Hrest).
  unfold resolve_comps in Ha. destruct ancestor as [|c0 cs0]; [done|].
  apply result_bind_Ok in Ha as ([l0 at0] & Hw0 & [= <-]).
  rewrite (ext_cwd _ _ He2), (namei_extends _ _ He2 _ _ _ _ Hw0) in Hw. injection Hw as <- <-.
  apply (namei_made fs fs2 Hok He2) in Hrest; [|done]. by injection Hrest as _ ->.
Qed.

Lemma normalize_mounts_hosts seen ms ms' :
  normalize_mounts seen ms = Ok ms' → mount_host <$> ms' = mount_host <$> ms ∧ access <$> ms' = access <$> ms.
Proof.
  revert seen ms'. induction ms as [|m ms IH]; intros seen ms'; cbn [normalize_mounts]; [by intros [= <-]|].
  intros (g & _ & H)%result_bind_Ok. case_bool_decide; [done|].
  destruct (list_find _ _) as [[? ?]|]; [done|].
  apply result_bind_Ok in H as (rest & [Hh Ha]%IH & [= <-]). by rewrite !fmap_cons, Hh, Ha.
Qed.

(** A preopened directory, against the mount it was prepared for and the capabilities
    that were derived before. *)
Record mounted (fs : Fs) (caps : list Capability) (m : WasiMount) (p : PreOpen) : Prop := {
  mt_location : ∃ loc, resolve fs m.(mount_host) = Ok loc ∧ p.(host_path) = loc_path loc;
  mt_readable : ReadFile p.(host_path) ∈ caps;
  mt_access : p.(writable) = true ↔ m.(access) = ReadWrite;
  mt_writable : p.(writable) = true → WriteFile p.(host_path) ∈ caps;
}.

Lemma mounted_weaken fs fs' caps caps' m p :
  mounted fs caps m p → extends fs fs' → caps ⊆ caps' → mounted fs' caps' m p.
Proof.
  intros [(loc & Hr & Hh) H2 H3 H4] He Hc. constructor; [|auto..]. exists loc. split; [|done].
  revert Hr. unfold resolve. case_decide; [done|]. by apply resolve_comps_extends.
Qed.

Lemma prepare_all_agrees fs ms : ∀ fs1 fs2 caps pre caps',
  fs_ok fs → extends fs fs1 → Forall (λ m, frontier_free fs m.(mount_host)) ms →
  mounts_capabilities fs ms = Ok caps → prepare_all fs1 ms = (fs2, Ok (pre, caps')) →
  extends fs1 fs2 ∧ caps' = caps ∧ Forall2 (mounted fs2 caps) ms pre.
Proof.
  induction ms as [|m ms IH]; intros fs1 fs2 caps pre caps' Hok He Hfree; cbn [mounts_capabilities prepare_all].
  { intros [= <-] [= <- <- <-]. by split_and!. }
  intros (host & Hh & (rest & Hrest & [= <-])%result_bind_Ok)%result_bind_Ok Hp.
  apply Forall_cons in Hfree as [Hf Hfree].
  destruct (prepare_mount_dir fs1 (mount_host m)) as [fs3 [host'|e]] eqn:Em; [|done].
  destruct (mount_dir_agrees _ _ _ _ _ _ Hok He Hf Hh Em) as (He3 & -> & Hdir & loc & Hr & Hl).
  destruct (prepare_all fs3 ms) as [fs4 [[pre' caps'']|e]] eqn:Ea; [|done]. injection Hp as <- <- <-.
  destruct (IH fs3 fs4 rest pre' caps'' Hok (transitivity He He3) Hfree Hrest Ea) as (He4 & -> & Hall).
  split; [by etrans|]. split; [done|]. constructor.
  - eapply (mounted_weaken fs3); [|done|reflexivity].
    constructor; cbn [host_path writable]; [by exists loc|by left|by destruct (access m)|].
    destruct (access m); [done|]. intros _. right. by left.
  - eapply Forall2_impl; [exact Hall|]. intros m' p' Hm. eapply mounted_weaken; [exact Hm|done|].
    intros x Hx. change (x ∈ mount_caps host (access m) ++ rest). apply elem_of_app. by right.
Qed.

Lemma prepared_agree fs fs' c caps v :
  fs_ok fs → Forall (λ m, frontier_free fs m.(mount_host)) c.(mounts) →
  required_capabilities fs c = Ok caps → prepare_mounts fs c = (fs', Ok v) →
  extends fs fs' ∧ ∃ ms, (v.(required_caps) = caps ∧ normalized_mounts c = Ok ms
      ∧ mount_host <$> ms = mount_host <$> c.(mounts))
      ∧ Forall2 (mounted fs' caps) ms v.(sandbox_config).(preopens).
Proof.
  intros Hok Hfree (ms & Hms & Hcaps)%result_bind_Ok. unfold prepare_mounts. rewrite Hms.
  destruct (prepare_all fs ms) as [fs1 [[pre caps']|e]] eqn:Ea; [|done]. intros [= <- <-].
  destruct (normalize_mounts_hosts _ _ _ Hms) as [Hh _].
  assert (Forall (λ m, frontier_free fs m.(mount_host)) ms) as Hfree'.
  { assert (Forall (frontier_free fs) (mount_host <$> ms)) as H; [|by rewrite Forall_fmap in H].
    rewrite Hh, Forall_fmap. exact Hfree. }
  destruct (prepare_all_agrees _ _ _ _ _ _ _ Hok (reflexivity fs) Hfree' Hcaps Ea) as (He & -> & Hall).
  split; [done|]. by exists ms.
Qed.

(** C3: the mounts that are prepared are the ones that were authorised.  On a well-formed
    disk that changes only through the preparation, and whose host paths do not run into
    a dangling link, the capabilities derived before anything is created are exactly
    those of the directories prepared afterwards; every mount opens the directory its
    host path leads to, writable exactly if asked for, under a read capability for that
    very directory and, if writable, a write capability for it; and the preparation only
    adds directories.  (Through a dangling link another directory is opened:
    [dangling_link_escapes].) *)
Theorem prepared_mounts_are_authorized (fs fs' : Fs) (c : WasiToolConfig) (caps : list Capability)
    (v : ValidatedWasiToolConfig) :
  fs_ok fs → Forall (λ m, frontier_free fs m.(mount_host)) c.(mounts) →
  required_capabilities fs c = Ok caps → prepare_mounts fs c = (fs', Ok v) →
  extends fs fs' ∧ v.(required_caps) = caps
  ∧ ∃ ms, normalized_mounts c = Ok ms ∧ mount_host <$> ms = mount_host <$> c.(mounts)
      ∧ Forall2 (mounted fs' caps) ms v.(sandbox_config).(preopens).
Proof.
  intros Hok Hfree Hcaps Hp. destruct (prepared_agree _ _ _ _ _ Hok Hfree Hcaps Hp) as (He & ms & (Hv & Hm & Hh) & Hall).
  split; [done|]. split; [done|]. by exists ms.
Qed.

(** ** Guest paths *)

Lemma guest_parts_Ok cs parts : RootDir ∉ cs → guest_parts cs = Ok parts → cs = Normal <$> parts.
Proof.
  revert parts. induction cs as [|c cs IH]; intros parts; cbn [guest_parts]; [by intros _ [= <-]|].
  intros [Hc Hcs]%not_elem_of_cons. destruct c as [| | |n]; [done|done|done|].
  intros (ps & Hp%IH & [= <-])%result_bind_Ok; [|done]. by rewrite Hp.
Qed.

(** A normalised guest path is a root and at least one name. *)
Definition guest_normal (g : string) : Prop :=
  ∃ parts, parts ≠ [] ∧ Forall valid_name parts ∧ g = "/" +:+ join "/" parts.

Lemma normalize_guest_path_Ok path g :
  normalize_guest_path path = Ok g →
  ∃ parts, parts ≠ [] ∧ Forall valid_name parts ∧ g = "/" +:+ join "/" parts
    ∧ components path = RootDir :: (Normal <$> parts).
Proof.
  unfold normalize_guest_path. destruct (starts_with "/" path) eqn:Hs; [cbn [negb]|done].
  destruct (_ || _); [done|]. intros (parts & Hp & H)%result_bind_Ok.
  destruct (components_absolute _ Hs) as [rest Hc]. rewrite Hc in Hp. cbn [guest_parts] in Hp.
  pose proof (components_root_in_front path) as Hr. unfold root_in_front in Hr. rewrite Hc in Hr. cbn [tail] in Hr.
  apply guest_parts_Ok in Hp as ->; [|done]. destruct parts as [|x xs]; [done|]. injection H as <-.
  exists (x :: xs). split_and!; [done| |done|done].
  apply Forall_forall. intros n Hn. apply (components_valid path). rewrite Hc. right. by apply list_elem_of_fmap_2.
Qed.

Lemma string_drop_app (s t : string) : string_drop (String.length s) (s +:+ t) = t.
Proof. induction s as [|a s IH]; [by destruct t|]. exact IH. Qed.
Lemma strip_prefix_app (s t : string) : strip_prefix s (s +:+ t) = Some t.
Proof. unfold strip_prefix. by rewrite starts_with_app, string_drop_app. Qed.

Lemma join_app l k : l ≠ [] → k ≠ [] → join "/" (l ++ k) = join "/" l +:+ ("/" +:+ join "/" k).
Proof.
  intros Hl Hk. induction l as [|a l IH]; [done|]. destruct l as [|b l].
  - by destruct k.
  - change (a +:+ ("/" +:+ join "/" ((b :: l) ++ k)) = (a +:+ ("/" +:+ join "/" (b :: l))) +:+ ("/" +:+ join "/" k)).
    rewrite IH by done. by rewrite !string_app_assoc.
Qed.

(** Nested guest paths overlap. *)
Lemma nested_overlaps g g' :
  guest_normal g → guest_normal g' → comps_prefix (components g) (components g') = true →
  guest_path_overlaps g g' = true ∧ guest_path_overlaps g' g = true.
Proof.
  intros (l & Hl & Hv & ->) (l' & Hl' & Hv' & ->). rewrite !components_abs by done.
  intros (r & Hr)%comps_prefix_spec. cbn [app] in Hr. injection Hr as Hr.
  apply fmap_app_inv in Hr as (l1 & k & Hl1 & _ & ->). apply (inj (fmap Normal)) in Hl1 as <-.
  unfold guest_path_overlaps. destruct k as [|x k].
  - rewrite app_nil_r. by rewrite bool_decide_eq_true_2.
  - assert (suffix_is_below ("/" +:+ join "/" l) ("/" +:+ join "/" (l ++ x :: k)) = true) as ->.
    { unfold suffix_is_below. rewrite join_app by done.
      rewrite (string_app_assoc "/" (join "/" l)). by rewrite strip_prefix_app. }
    by rewrite !orb_true_r.
Qed.

Definition guests_apart (g g' : string) : Prop :=
  comps_prefix (components g) (components g') = false ∧ comps_prefix (components g') (components g) = false.

Lemma normalize_mounts_apart ms : ∀ seen ms',
  Forall guest_normal seen → normalize_mounts seen ms = Ok ms' →
  Forall (λ m, guest_normal m.(mount_guest) ∧ Forall (guests_apart m.(mount_guest)) seen) ms'
  ∧ ForallOrdPairs (λ m m', guests_apart m'.(mount_guest) m.(mount_guest)) ms'.
Proof.
  induction ms as [|m ms IH]; intros seen ms' Hseen; cbn [normalize_mounts].
  { intros [= <-]. by split; constructor. }
  intros (g & Hg & H)%result_bind_Ok. case_bool_decide as Hdup; [done|].
  destruct (list_find _ _) as [[? ?]|] eqn:Hf; [done|].
  apply result_bind_Ok in H as (rest & Hrest & [= <-]).
  assert (guest_normal g) as Hn by (apply normalize_guest_path_Ok in Hg as (parts & ? & ? & ? & _); by exists parts).
  assert (Forall (guests_apart g) seen) as Hap.
  { apply list_find_None in Hf. apply Forall_forall. intros x Hx. rewrite Forall_forall in Hf, Hseen.
    specialize (Hf x Hx). cbn in Hf. split; apply not_true_is_false; intros Hp.
    - by destruct (nested_overlaps g x Hn (Hseen x Hx) Hp).
    - by destruct (nested_overlaps x g (Hseen x Hx) Hn Hp). }
  destruct (IH (seen ++ [g]) rest) as [Hall Hord]; [by apply Forall_app_2; [|apply Forall_singleton]|done|].
  split; [|constructor; [|done]].
  - constructor; [done|]. eapply Forall_impl; [exact Hall|]. by intros m' [? [? ?]%Forall_app].
  - eapply Forall_impl; [exact Hall|]. by intros m' [_ [_ [? _]%Forall_cons]%Forall_app].
Qed.

(** Accepted mounts have normalised absolute guest paths, and no two of them are
    equal or nested, in components. *)
Theorem guest_paths_apart (c : WasiToolConfig) (ms : list WasiMount) :
  normalized_mounts c = Ok ms →
  Forall (λ m, guest_normal m.(mount_guest)) ms
  ∧ ForallOrdPairs (λ m m', guests_apart m'.(mount_guest) m.(mount_guest)) ms.
Proof.
  intros H. destruct (normalize_mounts_apart _ [] ms ltac:(constructor) H) as [Hall Hord].
  split; [|done]. eapply Forall_impl; [exact Hall|]. by intros m [? _].
Qed.

(** ** Preopens of capabilities *)

Lemma split_on_join_rel l : l ≠ [] → Forall (no_char slash) l → split_on slash (join "/" l) = l.
Proof.
  intros Hne Hl. induction Hl as [|n l Hn Hl IH]; [done|].
  destruct l as [|m l]; [by apply split_on_no_char|].
  change (join "/" (n :: m :: l)) with (n +:+ String slash (join "/" (m :: l))).
  by rewrite split_on_app_gen, IH, (split_on_no_char slash n) by done.
Qed.

Lemma elem_of_removelast {A} (l : list A) x : x ∈ removelast l → x ∈ l.
Proof. destruct l as [|a l _] using rev_ind; [done|]. rewrite removelast_snoc, elem_of_app. by left. Qed.

Lemma norm_step_members st c n : Normal n ∈ (norm_step st c).(normalized) → Normal n = c ∨ Normal n ∈ st.(normalized).
Proof.
  destruct c as [| | |p]; cbn [norm_step normalized path_push].
  - by intros ?%list_elem_of_singleton.
  - by right.
  - destruct (normal_depth st); cbn [normalized].
    + destruct (rooted st); cbn [normalized path_push]; [by right|].
      intros [?|?%list_elem_of_singleton]%elem_of_app; [by right|done].
    + intros ?%elem_of_removelast. by right.
  - intros [?|?%list_elem_of_singleton]%elem_of_app; auto.
Qed.

Lemma normalize_members cs n : Normal n ∈ normalize_lexical_path cs → Normal n ∈ cs.
Proof.
  assert (∀ st, Normal n ∈ (fold_left norm_step cs st).(normalized) → Normal n ∈ cs ∨ Normal n ∈ st.(normalized)) as H.
  { induction cs as [|c cs IH]; intros st; cbn [fold_left]; [by right|].
    intros [?|[->|?]%norm_step_members]%IH; [by left; right|by left; left|by right]. }
  intros [?|Hn]%H; [done|]. by apply elem_of_nil in Hn.
Qed.

Lemma names_of_names (names : list string) :
  omap (λ c, match c with Normal n => Some n | _ => None end) (Normal <$> names) = names.
Proof. induction names; f_equal/=; done. Qed.

Lemma names_ups (names : list string) :
  omap (λ c, match c with Normal n => Some n | ParentDir => Some ".." | _ => None end) (Normal <$> names) = names.
Proof. induction names; f_equal/=; done. Qed.

Lemma components_normal_path p : components (normal_path p) = normalize_lexical_path (components p).
Proof.
  assert (∀ n, Normal n ∈ normalize_lexical_path (components p) → valid_name n) as Hv.
  { intros n Hn. apply (components_valid p). by apply normalize_members. }
  unfold normal_path. revert Hv. destruct (normalize_normal_form p) as [names|ups names]; intros Hv.
  - assert (Forall valid_name names) as Hn.
    { apply Forall_forall. intros n Hn. apply Hv. right. by apply list_elem_of_fmap_2. }
    unfold comps_path. rewrite names_of_names. by apply components_abs.
  - set (f := λ c, match c with Normal n => Some n | ParentDir => Some ".." | _ => None end).
    assert (omap f (replicate ups ParentDir ++ (Normal <$> names)) = replicate ups ".." ++ names) as Ho.
    { rewrite omap_app. f_equal; [|apply names_ups]. clear. induction ups as [|u IH]; [done|]. cbn. by rewrite IH. }
    assert (Forall valid_name names) as Hn.
    { apply Forall_forall. intros n Hn. apply Hv. apply elem_of_app. right. by apply list_elem_of_fmap_2. }
    replace (match replicate ups ParentDir ++ (Normal <$> names) with RootDir :: cs => comps_path cs | cs => join "/" (omap f cs) end)
      with (join "/" (replicate ups ".." ++ names)) by (rewrite <- Ho; destruct ups; [destruct names|]; done).
    clear Ho Hv. destruct (replicate ups ".." ++ names) as [|s ss] eqn:E; [by destruct ups, names|].
    unfold components. rewrite split_on_join_rel; [|done|].
    2:{ rewrite <- E. apply Forall_app_2; [by apply Forall_replicate|]. eapply Forall_impl; [exact Hn|]. by intros x []. }
    assert (s ≠ "" ∧ s ≠ "." ∧ no_char slash s) as (Hs1 & Hs2 & Hs3).
    { destruct ups; cbn in E; simplify_eq; [|done]. by apply Forall_cons in Hn as [(? & ? & ? & _) _]. }
    assert (starts_with "/" (join "/" (s :: ss)) = false) as ->.
    { destruct s as [|a s]; [done|]. destruct Hs3 as [Ha _]. destruct ss; cbn;
        (destruct (Ascii.eqb_spec "/"%char a) as [<-|]; [done|done]). }
    rewrite decide_False by done.
    change (piece_component s ++ (ss ≫= piece_component)) with ((s :: ss) ≫= piece_component).
    rewrite <- E, bind_app, (pieces_of_names names) by done. f_equal. clear. induction ups as [|ups IH]; [done|]. cbn. by rewrite IH.
Qed.

Definition opened (p : PreOpen) : list Component := components p.(host_path).
Definition fs_path (c : Capability) : option PathBuf :=
  match c with ReadFile p | ListDirectory p | WriteFile p => Some p | _ => None end.

Record opens (caps : list Capability) (pre : list PreOpen) : Prop := {
  op_nodup : NoDup (opened <$> pre);
  op_paths cs : cs ∈ opened <$> pre ↔
    ∃ cap path, cap ∈ caps ∧ fs_path cap = Some path ∧ normalize_lexical_path (components path) = cs;
  op_writable p : p ∈ pre → p.(writable) = true ↔
    ∃ path, WriteFile path ∈ caps ∧ normalize_lexical_path (components path) = opened p;
}.

Lemma existsb_opened path pre :
  existsb (λ p, pathbuf_eqb p.(host_path) path) pre = bool_decide (components path ∈ opened <$> pre).
Proof.
  induction pre as [|p pre IH]; [done|]. cbn [existsb fmap list_fmap]. rewrite IH. unfold pathbuf_eqb, opened.
  apply Bool.eq_iff_eq_true. rewrite orb_true_iff, !bool_decide_eq_true, elem_of_cons. naive_solver.
Qed.

Lemma add_writable_opened path pre :
  opened <$> add_writable path pre
  = if decide (components path ∈ opened <$> pre) then opened <$> pre else (opened <$> pre) ++ [components path].
Proof.
  induction pre as [|p pre IH]; [done|]. cbn [add_writable].
  assert (components path ∈ opened <$> p :: pre ↔ opened p = components path ∨ components path ∈ opened <$> pre) as Hc
    by (rewrite fmap_cons, elem_of_cons; naive_solver).
  unfold pathbuf_eqb. case_bool_decide as Hp.
  - rewrite decide_True by (apply Hc; by left). done.
  - rewrite fmap_cons, IH. destruct (decide (components path ∈ opened <$> pre)) as [H|H].
    + rewrite decide_True by (apply Hc; by right). done.
    + rewrite decide_False by (intros [?|?]%Hc; done). done.
Qed.

Lemma add_writable_elem path pre q :
  NoDup (opened <$> pre) → q ∈ add_writable path pre →
  (opened q = components path ∧ q.(writable) = true) ∨ (opened q ≠ components path ∧ q ∈ pre).
Proof.
  induction pre as [|p pre IH]; cbn [add_writable]; intros Hnd.
  { intros ->%list_elem_of_singleton. by left. }
  apply NoDup_cons in Hnd as [Hp Hnd]. unfold pathbuf_eqb. case_bool_decide as Hb.
  - intros [->|Hq]%elem_of_cons; [by left|]. right. split; [|by right].
    intros He. apply Hp. unfold opened at 1. rewrite Hb, <- He. by apply list_elem_of_fmap_2.
  - intros [->|Hq]%elem_of_cons; [right; split; [done|by left]|].
    destruct (IH Hnd Hq) as [?|[? ?]]; [by left|right; split; [done|by right]].
Qed.

Lemma opens_weaken caps cap pre :
  opens caps pre → fs_path cap = None → opens (caps ++ [cap]) pre.
Proof.
  intros [Hnd Hp Hw] Hc. constructor; [done|..].
  - intros cs. rewrite Hp. split; intros (c & p & Hin & Hf & Hn); exists c, p; split_and!; try done.
    + apply elem_of_app. by left.
    + apply elem_of_app in Hin as [?| ->%list_elem_of_singleton]; [done|congruence].
  - intros p Hin. rewrite (Hw p Hin). split; intros (path & Hi & Hn); exists path; (split; [|done]).
    + apply elem_of_app. by left.
    + apply elem_of_app in Hi as [?|<-%list_elem_of_singleton]; [done|discriminate].
Qed.

Lemma opens_add caps cap path pre pre' :
  opens caps pre → fs_path cap = Some path → NoDup (opened <$> pre') →
  (∀ cs, cs ∈ opened <$> pre' ↔ cs ∈ opened <$> pre ∨ cs = normalize_lexical_path (components path)) →
  (∀ p, p ∈ pre' → (p.(writable) = true ↔
     (∃ q, WriteFile q ∈ caps ∧ normalize_lexical_path (components q) = opened p)
     ∨ cap = WriteFile path ∧ normalize_lexical_path (components path) = opened p)) →
  opens (caps ++ [cap]) pre'.
Proof.
  intros [Hnd Hp Hw] Hc Hnd' Hp' Hw'. constructor; [done|..].
  - intros cs. rewrite Hp', Hp. split.
    + intros [(c & q & Hin & Hf & Hn)| ->].
      * exists c, q. split; [|done]. apply elem_of_app. by left.
      * exists cap, path. split; [|done]. apply elem_of_app. right. by left.
    + intros (c & q & [Hin| ->%list_elem_of_singleton]%elem_of_app & Hf & Hn); [left; eauto|].
      right. simplify_eq. done.
  - intros p Hin. rewrite (Hw' p Hin). split.
    + intros [(q & Hq & Hn)|[-> Hn]].
      * exists q. split; [|done]. apply elem_of_app. by left.
      * exists path. split; [|done]. apply elem_of_app. right. by left.
    + intros (q & [Hq|Hq%list_elem_of_singleton]%elem_of_app & Hn); [by left; eauto|].
      right. rewrite <- Hq in Hc. cbn in Hc. by simplify_eq.
Qed.

Lemma opens_readable caps cap path pre :
  opens caps pre → fs_path cap = Some path → cap ≠ WriteFile path →
  opens (caps ++ [cap]) (add_readable (normal_path path) pre).
Proof.
  intros Ho Hc Hw. pose proof Ho as [Hnd Hp Hwr]. unfold add_readable. rewrite existsb_opened, components_normal_path.
  case_bool_decide as Hin.
  - eapply opens_add; [done..| |].
    + intros cs. split; [by left|]. by intros [?| ->].
    + intros p Hpin. rewrite (Hwr p Hpin). split; [by left|]. by intros [?|[? _]].
  - eapply opens_add; [done..| | |].
    + rewrite fmap_app. apply NoDup_app. split; [done|]. split; [|apply NoDup_singleton].
      intros x Hx ->%list_elem_of_singleton. apply Hin. revert Hx. unfold opened at 1. cbn.
      by rewrite components_normal_path.
    + intros cs. rewrite fmap_app, elem_of_app. cbn. unfold opened at 2. cbn.
      rewrite components_normal_path, list_elem_of_singleton. done.
    + intros p [Hpin| ->%list_elem_of_singleton]%elem_of_app.
      * rewrite (Hwr p Hpin). split; [by left|]. by intros [?|[? _]].
      * cbn [writable]. split; [done|]. intros [(q & Hq & Hn)|[? _]]; [|done]. exfalso. apply Hin.
        apply Hp. exists (WriteFile q), q. split; [done|]. split; [done|]. rewrite Hn. unfold opened. cbn.
        by rewrite components_normal_path.
Qed.

Lemma opens_writable caps path pre :
  opens caps pre → opens (caps ++ [WriteFile path]) (add_writable (normal_path path) pre).
Proof.
  intros Ho. pose proof Ho as [Hnd Hp Hwr].
  pose proof (add_writable_opened (normal_path path) pre) as Ha. rewrite components_normal_path in Ha.
  eapply (opens_add _ _ path); [done..| | |].
  - rewrite Ha. case_decide as Hin; [done|]. apply NoDup_app. split; [done|]. split; [|apply NoDup_singleton].
    by intros x Hx ->%list_elem_of_singleton.
  - intros cs. rewrite Ha. case_decide as Hin.
    + split; [by left|]. by intros [?| ->].
    + by rewrite elem_of_app, list_elem_of_singleton.
  - intros p Hpin. apply add_writable_elem in Hpin as [[Hq ->]|[Hq Hpin]]; [| |done];
      rewrite components_normal_path in Hq.
    + split; [|done]. by right.
    + rewrite (Hwr p Hpin). split; [by left|]. intros [?|[_ ?]]; [done|congruence].
Qed.

(** The preopens derived from capabilities are exactly the directories that the file
    and directory capabilities name: one per normalised path, and writable exactly when
    some capability is a write to that path. *)
Theorem preopens_of_capabilities (caps : list Capability) : opens caps (from_capabilities caps).(preopens).
Proof.
  unfold from_capabilities. induction caps as [|cap caps IH] using rev_ind.
  { constructor; [constructor|..].
    - intros cs. split; [by intros ?%elem_of_nil|]. by intros (? & ? & ?%elem_of_nil & _).
    - by intros p ?%elem_of_nil. }
  rewrite fold_left_snoc. destruct cap; cbn [add_capability set_preopens preopens];
    first [by apply opens_writable|by apply opens_readable|by apply opens_weaken].
Qed.

(** ** Concrete disks *)

Module ToyDisk.
(** [/data] is a directory with a directory [sub] and a dangling link. *)
Definition disk : Fs :=
  {| nodes := {[ ["data"] := NDir; ["sub"; "data"] := NDir; ["link"; "data"] := NLink "/data/t" ]};
     cwd := ["data"]; may_create _ := true |}.
Definition config : WasiToolConfig :=
  with_mount (with_mount WasiToolConfig_new "/data/sub" "/in/" ReadOnly) "sub/../sub/new/out" "/out" ReadWrite.
(** A read-only mount that creates the target of the link, then a writable mount of the link. *)
Definition racy : WasiToolConfig :=
  with_mount (with_mount WasiToolConfig_new "/data/t" "/a" ReadOnly) "/data/link" "/b" ReadWrite.

Lemma disk_ok : fs_ok disk.
Proof.
  assert (∀ loc, is_Some (disk.(nodes) !! loc) → loc = ["data"] ∨ loc = ["sub"; "data"] ∨ loc = ["link"; "data"]) as Hn.
  { intros loc [x Hx]. cbn in Hx. rewrite !lookup_insert_Some, lookup_singleton_Some in Hx. naive_solver. }
  constructor.
  - intros loc [->|[->| ->]]%Hn; repeat constructor; try done; cbn; repeat split; congruence.
  - intros n loc [[= -> ->]|[[= -> ->]|[= -> ->]]]%Hn; vm_compute; reflexivity.
  - vm_compute. reflexivity.
Qed.
Lemma config_free : Forall (λ m, frontier_free disk m.(mount_host)) config.(mounts).
Proof.
  repeat constructor; cbn [mount_host]; intros Hex ancestor missing n loc Hc Hl Hr.
  - vm_compute in Hex. discriminate Hex.
  - assert (climb disk (reverse (components (absolute_mount_path disk "sub/../sub/new/out"))) []
      = Some ([RootDir; Normal "data"; Normal "sub"; ParentDir; Normal "sub"], ["out"; "new"])) as Hcl
      by (vm_compute; reflexivity).
    rewrite Hcl in Hc. injection Hc as <- <-. injection Hl as <-.
    vm_compute in Hr. injection Hr as <-. vm_compute. reflexivity.
Qed.
End ToyDisk.

Lemma prepared_mounts_are_authorized_witness :
  ∃ fs' v, prepare_mounts ToyDisk.disk ToyDisk.config = (fs', Ok v)
    ∧ v.(required_caps) = [ReadFile "/data/sub"; ReadFile "/data/sub/new/out"; WriteFile "/data/sub/new/out"]
    ∧ is_dir fs' "/data/sub/new/out" = true.
Proof.
  assert (Wasi.required_capabilities ToyDisk.disk ToyDisk.config
    = Ok [ReadFile "/data/sub"; ReadFile "/data/sub/new/out"; WriteFile "/data/sub/new/out"]) as Hc
    by (vm_compute; reflexivity).
  destruct (prepare_mounts ToyDisk.disk ToyDisk.config) as [fs' [v|e]] eqn:Hp.
  - exists fs', v. split; [reflexivity|].
    destruct (prepared_mounts_are_authorized _ _ _ _ _ ToyDisk.disk_ok ToyDisk.config_free Hc Hp) as (_ & Hv & _).
    split; [exact Hv|]. assert (is_dir (prepare_mounts ToyDisk.disk ToyDisk.config).1 "/data/sub/new/out" = true) as Hd
      by (vm_compute; reflexivity). rewrite Hp in Hd. exact Hd.
  - assert (is_ok (prepare_mounts ToyDisk.disk ToyDisk.config).2 = true) as Hd by (vm_compute; reflexivity).
    rewrite Hp in Hd. discriminate Hd.
Defined.

Lemma guest_paths_apart_witness :
  ∃ ms, normalized_mounts ToyDisk.config = Ok ms ∧ mount_guest <$> ms = ["/in"; "/out"]
    ∧ Forall (λ m, guest_normal m.(mount_guest)) ms.
Proof.
  destruct (normalized_mounts ToyDisk.config) as [ms|e] eqn:Hm.
  - exists ms. split; [reflexivity|]. split; [|apply (proj1 (guest_paths_apart _ _ Hm))].
    vm_compute in Hm. injection Hm as <-. reflexivity.
  - vm_compute in Hm. discriminate Hm.
Defined.

(** Without that condition, a mount of a dangling link whose target an earlier mount
    creates opens a directory for which no write capability was asked. *)
Theorem dangling_link_escapes :
  ∃ caps fs' v p, Wasi.required_capabilities ToyDisk.disk ToyDisk.racy = Ok caps
    ∧ prepare_mounts ToyDisk.disk ToyDisk.racy = (fs', Ok v)
    ∧ p ∈ v.(sandbox_config).(preopens) ∧ p.(host_path) = "/data/t" ∧ p.(writable) = true
    ∧ ¬ existsb (λ c, is_subset_of (WriteFile "/data/t") c) caps.
Proof.
  destruct (prepare_mounts ToyDisk.disk ToyDisk.racy) as [fs' r] eqn:Hp.
  assert (r = (prepare_mounts ToyDisk.disk ToyDisk.racy).2) as Hr by (by rewrite Hp).
  destruct r as [v|e]; [|by vm_compute in Hr].
  eexists _, fs', v, {| host_path := "/data/t"; guest_path := "/b"; writable := true |}.
  split; [vm_compute; reflexivity|]. split; [done|].
  split; [|split_and!; [done|done|by vm_compute]]. vm_compute in Hr. injection Hr as ->. right. left.
Qed.
