(* ===== verification/Compression.v ===== *)
(** * Compression: [src/snapshot/compression.rs]

    The zero-page run encoding of snapshot memory, executable down to the bytes,
    and the zstd wrappers.  The zstd codec is the interface [ZstdLib], with the
    round trip of its documentation in [ZstdLaws]; its error texts are opaque. *)

From S2P Require Import Prelude Errors Floats.

(** ** The codec interface *)

Class ZstdLib := {
  copy_encode : list byte → Z → option (list byte);
  copy_decode : list byte → option (list byte);
}.

(** Every stream the encoder writes decodes to its input. *)
Class ZstdLaws (Zs : ZstdLib) : Prop := {
  zstd_roundtrip data level out : copy_encode data level = Some out → copy_decode out = Some data;
}.

Inductive CompressionAlgo := Zstd | NoCompression.

Record CompressionConfig := {
  cfg_algorithm : CompressionAlgo; cfg_level : Z; cfg_checksum : bool;
}.
Definition CompressionConfig_default : CompressionConfig :=
  {| cfg_algorithm := Zstd; cfg_level := 3; cfg_checksum := true |}.

Record CompressedData := {
  cd_data : list byte;
  cd_original_size : Z;
  cd_compressed_size : Z;
  cd_algorithm : CompressionAlgo;
  cd_level : Z;
}.

(** [CompressedData::compression_ratio] and [space_saved]. *)
Definition compression_ratio (c : CompressedData) : f64 :=
  if c.(cd_original_size) =? 0 then f64_of_Z 1
  else f64_div (f64_of_Z c.(cd_compressed_size)) (f64_of_Z c.(cd_original_size)).
Definition space_saved (c : CompressedData) : Z :=
  saturating_sub c.(cd_original_size) c.(cd_compressed_size).

Section Codec.
Context `{Zs : ZstdLib}.

Definition compress_zstd (data : list byte) (level : Z) : result CompressedData Msg :=
  match copy_encode data level with
  | None => Err (Fmt "Failed to compress: {}" [AOpaque])
  | Some compressed =>
      Ok {| cd_data := compressed; cd_original_size := len data;
            cd_compressed_size := len compressed; cd_algorithm := Zstd; cd_level := level |}
  end.

Definition decompress_zstd (data : list byte) (_original_size : Z) : result (list byte) Msg :=
  ok_or (copy_decode data) (Fmt "Failed to decompress: {}" [AOpaque]).

Definition compress (data : list byte) (config : CompressionConfig) : result CompressedData Msg :=
  match config.(cfg_algorithm) with
  | Zstd => compress_zstd data config.(cfg_level)
  | NoCompression =>
      Ok {| cd_data := data; cd_original_size := len data; cd_compressed_size := len data;
            cd_algorithm := config.(cfg_algorithm); cd_level := config.(cfg_level) |}
  end.

Definition decompress (data : list byte) (algorithm : CompressionAlgo) (original_size : Z)
  : result (list byte) Msg :=
  match algorithm with
  | Zstd => decompress_zstd data original_size
  | NoCompression => Ok data
  end.

(** [StreamingCompressor]: [new], [write] and [finish]. *)
Record StreamingCompressor := { sc_buffer : list byte; sc_level : Z }.
Definition streaming_new (level : Z) : result StreamingCompressor Msg :=
  Ok {| sc_buffer := []; sc_level := level |}.
Definition streaming_write (c : StreamingCompressor) (data : list byte) : result StreamingCompressor Msg :=
  Ok {| sc_buffer := c.(sc_buffer) ++ data; sc_level := c.(sc_level) |}.
Definition streaming_finish (c : StreamingCompressor) : result CompressedData Msg :=
  match copy_encode c.(sc_buffer) c.(sc_level) with
  | None => Err (Fmt "Failed to compress: {}" [AOpaque])
  | Some compressed =>
      Ok {| cd_data := compressed; cd_original_size := len c.(sc_buffer);
            cd_compressed_size := len compressed; cd_algorithm := Zstd; cd_level := c.(sc_level) |}
  end.
End Codec.

(** ** Page encoding *)

(** [page_size]: one 64 KiB WASM page. *)
Definition page_size : nat := Z.to_nat 65536.
#[global] Opaque page_size.

(** [slice::chunks]. *)
Fixpoint chunks_aux {A} (fuel n : nat) (l : list A) : list (list A) :=
  match fuel with
  | O => []
  | S fuel' => match l with [] => [] | _ => take n l :: chunks_aux fuel' n (drop n l) end
  end.
Definition chunks {A} (n : nat) (l : list A) : list (list A) := chunks_aux (length l) n l.

Definition is_zero_page (chunk : list byte) : bool := forallb (λ b, bool_decide (b = x00)) chunk.

(** The body of the page loop of [compress_snapshot_memory]. *)
Definition compress_page (st : list byte * Z * Z) (chunk : list byte) : list byte * Z * Z :=
  let '(result, zero_pages, nonzero_pages) := st in
  if is_zero_page chunk
  then (result ++ [x00], zero_pages + 1, nonzero_pages)
  else ((result ++ [x01]) ++ chunk, zero_pages, nonzero_pages + 1).

Definition compress_snapshot_memory (memory : list byte) : result (list byte * Z) Msg :=
  if negb (len memory mod Z.of_nat page_size =? 0)
  then Err (Lit "Snapshot memory length must be a multiple of the WASM page size")
  else
    let '(result, zero_pages, nonzero_pages) :=
      fold_left compress_page (chunks page_size memory) ([], 0, 0) in
    let header := le_bytes 8 zero_pages ++ le_bytes 8 nonzero_pages in
    Ok (header ++ result, len memory).

(** The page loop of [decompress_snapshot_memory]: [n] iterations left, at [pos]. *)
Fixpoint decompress_pages (n : nat) (compressed : list byte) (pos : nat) (seen_zero seen_nonzero : Z)
    (res : list byte) : result (nat * Z * Z * list byte) Msg :=
  match n with
  | O => Ok (pos, seen_zero, seen_nonzero, res)
  | S n' =>
      match compressed !! pos with
      | None => Err (Lit "Unexpected end of data")
      | Some marker =>
          let pos := S pos in
          if decide (marker = x00)
          then decompress_pages n' compressed pos (seen_zero + 1) seen_nonzero
                 (res ++ replicate page_size x00)
          else if decide (marker = x01)
          then
            match checked_add64 (Z.of_nat pos) (Z.of_nat page_size) with
            | None => Err (Lit "Compressed position overflow")
            | Some _ =>
                let end_ := (pos + page_size)%nat in
                if (length compressed <? end_)%nat
                then Err (Lit "Unexpected end of non-zero page")
                else decompress_pages n' compressed end_ seen_zero (seen_nonzero + 1)
                       (res ++ take page_size (drop pos compressed))
            end
          else Err (Fmt "Invalid page marker: {marker:#04x}" [ANum (Z_of_byte marker)])
      end
  end.

Definition decompress_snapshot_memory (compressed : list byte) : result (list byte) Msg :=
  if (length compressed <? 16)%nat then Err (Lit "Invalid compressed data")
  else
    let zero_pages := le_value (take 8 compressed) in
    let nonzero_pages := le_value (take 8 (drop 8 compressed)) in
    let psize := Z.of_nat page_size in
    let? total_pages := ok_or (checked_add64 zero_pages nonzero_pages) (Lit "Page count overflow") in
    let? raw := ok_or (checked_mul64 nonzero_pages psize) (Lit "Compressed size overflow") in
    let? expected_payload_len := ok_or (checked_add64 total_pages raw) (Lit "Compressed size overflow") in
    let? expected_len := ok_or (checked_add64 16 expected_payload_len) (Lit "Compressed size overflow") in
    if negb (len compressed =? expected_len)
    then Err (Lit "Compressed data length does not match header")
    else
      let? _ := ok_or (checked_mul64 total_pages psize) (Lit "Decompressed size overflow") in
      let? out := decompress_pages (Z.to_nat total_pages) compressed 16 0 0 [] in
      let '(pos, seen_zero_pages, seen_nonzero_pages, res) := out in
      if negb ((seen_zero_pages =? zero_pages) && (seen_nonzero_pages =? nonzero_pages))
      then Err (Lit "Page marker counts do not match header")
      else if negb (pos =? length compressed)%nat
      then Err (Lit "Trailing compressed data")
      else Ok res.

(** ** Specification: frames *)

Inductive Frame := ZeroPage | RawPage (page : list byte).

Definition frame_bytes (f : Frame) : list byte :=
  match f with ZeroPage => [x00] | RawPage p => x01 :: p end.
Definition frame_page (f : Frame) : list byte :=
  match f with ZeroPage => replicate page_size x00 | RawPage p => p end.
Definition frame_ok (f : Frame) : Prop :=
  match f with ZeroPage => True | RawPage p => length p = page_size end.
Definition frame_zero (f : Frame) : Z := match f with ZeroPage => 1 | RawPage _ => 0 end.
Definition frame_raw (f : Frame) : Z := match f with ZeroPage => 0 | RawPage _ => 1 end.

Definition encs (fs : list Frame) : list byte := concat (frame_bytes <$> fs).
Definition pages (fs : list Frame) : list byte := concat (frame_page <$> fs).
Definition zeros (fs : list Frame) : Z := foldr (λ f n, frame_zero f + n) 0 fs.
Definition raws (fs : list Frame) : Z := foldr (λ f n, frame_raw f + n) 0 fs.

(** A well-formed stream: the two counts, then the frames. *)
Definition stream (fs : list Frame) : list byte :=
  le_bytes 8 (zeros fs) ++ le_bytes 8 (raws fs) ++ encs fs.

(** The frame the compressor writes for a page. *)
Definition frame_of (page : list byte) : Frame := if is_zero_page page then ZeroPage else RawPage page.

(** ** Lemmas *)

Lemma page_size_Z : Z.of_nat page_size = 65536.
Proof. apply (Z2Nat.id 65536). lia. Qed.

Lemma chunks_aux_eq {A} fuel n (l : list A) :
  (0 < n)%nat → (length l ≤ fuel)%nat →
  concat (chunks_aux fuel n l) = l
  ∧ ((n | length l)%nat → Forall (λ c, length c = n) (chunks_aux fuel n l)).
Proof.
  intros Hn. revert l. induction fuel as [|fuel IH]; intros l Hl; cbn.
  - destruct l; [|cbn in Hl; lia]. split; [done|]. constructor.
  - destruct l as [|a l]; [split; [done|constructor]|].
    set (w := a :: l) in *. assert (length (drop n w) ≤ fuel)%nat as Hd.
    { rewrite length_drop. lia. }
    destruct (IH _ Hd) as [Hc Hf]. cbn [concat]. rewrite Hc, take_drop. split; [done|].
    intros [k Hk]. assert (n ≤ length w)%nat.
    { destruct k; [cbn in Hk; lia|]. nia. }
    constructor.
    + rewrite length_take. lia.
    + apply Hf. exists (k - 1)%nat. rewrite length_drop. nia.
Qed.

Lemma chunks_concat {A} n (l : list A) : (0 < n)%nat → concat (chunks n l) = l.
Proof. intros. by apply chunks_aux_eq. Qed.

Lemma chunks_Forall {A} n (l : list A) :
  (0 < n)%nat → (n | length l)%nat → Forall (λ c, length c = n) (chunks n l).
Proof. intros ??. by apply chunks_aux_eq. Qed.

Lemma is_zero_page_spec c : is_zero_page c = true ↔ c = replicate (length c) x00.
Proof.
  unfold is_zero_page. rewrite forallb_forall. setoid_rewrite <- list_elem_of_In.
  setoid_rewrite bool_decide_eq_true. split; intros H.
  - symmetry. apply replicate_as_Forall. split; [done|]. apply Forall_forall.
    intros x Hx. symmetry. auto.
  - symmetry in H. apply replicate_as_Forall in H as [_ H]. intros x Hx. symmetry.
    by eapply Forall_forall in H.
Qed.

Lemma frame_of_ok c : length c = page_size → frame_ok (frame_of c) ∧ frame_page (frame_of c) = c.
Proof.
  intros Hc. unfold frame_of. destruct (is_zero_page c) eqn:E; [|done].
  split; [done|]. apply is_zero_page_spec in E. cbn. congruence.
Qed.

Lemma compress_fold cs acc z n :
  fold_left compress_page cs (acc, z, n) =
  (acc ++ encs (frame_of <$> cs), z + zeros (frame_of <$> cs), n + raws (frame_of <$> cs)).
Proof.
  revert acc z n. induction cs as [|c cs IH]; intros acc z n; cbn.
  - by rewrite app_nil_r, !Z.add_0_r.
  - assert (frame_of c = if is_zero_page c then ZeroPage else RawPage c) as -> by done.
    destruct (is_zero_page c); rewrite IH; unfold encs, zeros, raws; cbn [frame_zero frame_raw frame_bytes];
      rewrite <- ?(assoc_L (++)), ?Z.add_assoc, ?Z.add_0_r; reflexivity.
Qed.

Lemma encs_cons f fs : encs (f :: fs) = frame_bytes f ++ encs fs.
Proof. done. Qed.
Lemma pages_cons f fs : pages (f :: fs) = frame_page f ++ pages fs.
Proof. done. Qed.
Lemma counts_cons f fs :
  zeros (f :: fs) = frame_zero f + zeros fs ∧ raws (f :: fs) = frame_raw f + raws fs.
Proof. done. Qed.

Lemma counts_nonneg fs : 0 ≤ zeros fs ∧ 0 ≤ raws fs ∧ zeros fs + raws fs = len fs.
Proof.
  induction fs as [|f fs IH]; [done|]. destruct (counts_cons f fs) as [-> ->].
  unfold len in *. cbn [length]. destruct f; cbn [frame_zero frame_raw]; lia.
Qed.

Lemma encs_length fs :
  Forall frame_ok fs → len (encs fs) = len fs + raws fs * Z.of_nat page_size.
Proof.
  induction 1 as [|f fs Hf _ IH]; [done|]. rewrite encs_cons, len_app, IH.
  destruct (counts_cons f fs) as [_ ->]. unfold len. cbn [length].
  destruct f; cbn [frame_ok frame_bytes frame_raw length] in *; lia.
Qed.

Lemma pages_length fs : Forall frame_ok fs → len (pages fs) = len fs * Z.of_nat page_size.
Proof.
  induction 1 as [|f fs Hf _ IH]; [done|]. rewrite pages_cons, len_app, IH. unfold len.
  cbn [length]. destruct f; cbn [frame_ok frame_page] in *; rewrite ?length_replicate; lia.
Qed.

(** One step of the loop consumes one frame. *)
Lemma decompress_pages_sound n c pos z k acc pos' z' k' acc' :
  decompress_pages n c pos z k acc = Ok (pos', z', k', acc') → (pos ≤ length c)%nat →
  ∃ fs, Forall frame_ok fs ∧ length fs = n ∧ drop pos c = encs fs ++ drop pos' c
    ∧ (pos' ≤ length c)%nat ∧ z' = z + zeros fs ∧ k' = k + raws fs ∧ acc' = acc ++ pages fs.
Proof.
  revert pos z k acc. induction n as [|n IH]; intros pos z k acc; cbn [decompress_pages].
  { intros [= -> -> -> ->] ?. exists []. cbn. rewrite app_nil_r, !Z.add_0_r. done. }
  destruct (c !! pos) as [m|] eqn:Em; [|done]. intros H Hpos.
  pose proof (drop_S _ _ _ Em) as Hdrop. apply lookup_lt_Some in Em.
  case_decide; [|case_decide; [|done]].
  - destruct (IH _ _ _ _ H ltac:(lia)) as (fs & Hok & Hn & Hd & Hp & -> & -> & ->).
    exists (ZeroPage :: fs). rewrite encs_cons, pages_cons, Hdrop, Hd, !(assoc_L (++)).
    destruct (counts_cons ZeroPage fs) as [-> ->]. cbn [frame_zero frame_raw frame_bytes frame_page].
    split_and!; [by constructor|cbn [length]; lia|by subst|done|lia|lia|reflexivity].
  - destruct (checked_add64 _ _); [|done].
    destruct (Nat.ltb_spec (length c) (S pos + page_size)) as [|Hlen]; [done|].
    destruct (IH _ _ _ _ H ltac:(lia)) as (fs & Hok & Hn & Hd & Hp & -> & -> & ->).
    set (p := take page_size (drop (S pos) c)) in *.
    exists (RawPage p :: fs). rewrite encs_cons, pages_cons, Hdrop, !(assoc_L (++)).
    destruct (counts_cons (RawPage p) fs) as [-> ->]. cbn [frame_zero frame_raw frame_bytes frame_page].
    split_and!; [|cbn [length]; lia| |done|lia|lia|reflexivity].
    + constructor; [|done]. unfold frame_ok, p. rewrite length_take, length_drop. lia.
    + subst m. cbn [app]. f_equal. rewrite <- (take_drop page_size (drop (S pos) c)) at 1.
      rewrite drop_drop, Hd. by rewrite <- ?(assoc_L (++)).
Qed.

Lemma decompress_pages_complete fs c pos z k acc tl :
  Forall frame_ok fs → len c + 65536 ≤ U64_MAX → (pos ≤ length c)%nat → drop pos c = encs fs ++ tl →
  decompress_pages (length fs) c pos z k acc
  = Ok ((pos + length (encs fs))%nat, z + zeros fs, k + raws fs, acc ++ pages fs).
Proof.
  intros Hok Hv. revert pos z k acc. induction Hok as [|f fs Hf _ IH]; intros pos z k acc Hpos Hd.
  { cbn. by rewrite app_nil_r, !Z.add_0_r, Nat.add_0_r. }
  rewrite encs_cons, <- (assoc_L (++)) in Hd.
  assert (length c = pos + (length (frame_bytes f) + length (encs fs ++ tl)))%nat as Hlen.
  { apply (f_equal length) in Hd. rewrite length_drop, length_app in Hd. lia. }
  assert (∃ m, c !! pos = Some m ∧ drop pos c = m :: drop (S pos) c) as (m & Em & Hm).
  { destruct (lookup_lt_is_Some_2 c pos) as [m Em]; [destruct f; cbn in Hlen; lia|].
    exists m. split; [done|]. by apply drop_S. }
  rewrite Hm in Hd. cbn [length decompress_pages]. rewrite Em.
  destruct (counts_cons f fs) as [-> ->]. rewrite encs_cons, pages_cons.
  destruct f as [|p]; cbn [frame_bytes frame_page frame_zero frame_raw app length frame_ok] in *; injection Hd as -> Hd.
  - rewrite decide_True by done. rewrite (IH (S pos)) by (done || lia).
    rewrite (assoc_L (++)), ?Z.add_assoc, ?Z.add_0_r. do 4 f_equal. lia.
  - rewrite decide_False, decide_True by done.
    unfold checked_add64. destruct (Z.leb_spec (Z.of_nat (S pos) + Z.of_nat page_size) U64_MAX) as [_|Hov].
    2:{ unfold len in Hv. rewrite page_size_Z in Hov. lia. }
    destruct (Nat.ltb_spec (length c) (S pos + page_size)) as [Hx|_]; [rewrite !length_app in *; lia|].
    rewrite Hd, (IH (S pos + page_size)%nat).
    + rewrite <- Hf at 2. rewrite take_app_length, (assoc_L (++)), ?Z.add_assoc, ?Z.add_0_r, length_app.
      do 4 f_equal. lia.
    + rewrite !length_app in *. lia.
    + rewrite <- drop_drop, Hd, <- Hf. by rewrite drop_app_length.
Qed.

(** The header and the length check accept exactly well-formed streams. *)
Lemma decompress_stream fs :
  Forall frame_ok fs → len (stream fs) + 65536 ≤ U64_MAX → len fs * 65536 ≤ U64_MAX →
  decompress_snapshot_memory (stream fs) = Ok (pages fs).
Proof.
  intros Hok Hlen Hcap.
  pose proof (counts_nonneg fs) as (Hz & Hr & Hsum).
  assert (len (stream fs) = 16 + (len fs + raws fs * 65536)) as Hl.
  { unfold stream. rewrite !len_app, (encs_length _ Hok), page_size_Z. unfold len at 1 2.
    rewrite !le_bytes_length. lia. }
  assert (Hb : U64_MAX + 1 = 256 ^ Z.of_nat 8) by reflexivity.
  unfold decompress_snapshot_memory.
  destruct (Nat.ltb_spec (length (stream fs)) 16) as [Hx|_]; [unfold len in Hl; lia|].
  assert (take 8 (stream fs) = le_bytes 8 (zeros fs)) as ->.
  { unfold stream. by rewrite take_app_length'. }
  assert (drop 8 (stream fs) = le_bytes 8 (raws fs) ++ encs fs) as ->.
  { unfold stream. by rewrite drop_app_length'. }
  rewrite (take_app_length' (le_bytes 8 (raws fs))) by (by rewrite le_bytes_length).
  rewrite !le_value_bytes by lia. rewrite page_size_Z. unfold checked_add64, checked_mul64.
  repeat match goal with |- context [?a <=? U64_MAX] => destruct (Z.leb_spec a U64_MAX); [|lia]; cbn [ok_or result_bind] end.
  rewrite Hl, Hsum, Z.eqb_refl. cbn [negb].
  replace (Z.to_nat (len fs)) with (length fs) by (unfold len; lia).
  rewrite (decompress_pages_complete fs (stream fs) 16 0 0 [] []); [|done|lia|unfold len in Hl; lia|].
  2:{ unfold stream. rewrite (assoc_L (++)), app_nil_r. apply drop_app_length'.
      by rewrite length_app, !le_bytes_length. }
  cbn [result_bind]. rewrite !Z.add_0_l, !Z.eqb_refl. cbn [andb negb].
  rewrite (proj2 (Nat.eqb_eq _ _)); [done|]. unfold stream. by rewrite !length_app, !le_bytes_length.
Qed.

Lemma decompress_is_stream c m :
  decompress_snapshot_memory c = Ok m →
  ∃ fs, Forall frame_ok fs ∧ len fs * 65536 ≤ U64_MAX ∧ c = stream fs ∧ m = pages fs.
Proof.
  unfold decompress_snapshot_memory. destruct (Nat.ltb_spec (length c) 16) as [|H16]; [done|].
  intros H. apply result_bind_Ok in H as (total & Ht & H).
  do 3 (apply result_bind_Ok in H as (? & ? & H)).
  destruct (len c =? _); cbn [negb] in H; [|done].
  apply result_bind_Ok in H as (cap & Hcap & H).
  apply result_bind_Ok in H as ([[[pos sz] sn] res] & Hp & H).
  destruct (Z.eqb_spec sz (le_value (take 8 c))) as [Ez|]; [|done].
  destruct (Z.eqb_spec sn (le_value (take 8 (drop 8 c)))) as [En|]; [|done].
  destruct (Nat.eqb_spec pos (length c)) as [->|]; [|done].
  injection H as <-. apply decompress_pages_sound in Hp as (fs & Hok & _ & Hd & _ & Hz & Hn & Hres); [|lia].
  rewrite drop_all, app_nil_r in Hd. rewrite Z.add_0_l in Hz, Hn.
  assert (len fs * 65536 ≤ U64_MAX) as Hbound.
  { pose proof (counts_nonneg fs). unfold checked_add64 in Ht. unfold checked_mul64 in Hcap.
    rewrite page_size_Z in Hcap. do 2 case_match; try done. injection Ht as <-. lia. }
  exists fs. split_and!; [done|done| |done]. unfold stream.
  assert (∀ bs, length bs = 8%nat → le_bytes 8 (le_value bs) = bs) as Hle.
  { intros bs Hbs. rewrite <- Hbs at 1. apply le_bytes_value. }
  rewrite <- Hz, <- Hn, Ez, En, <- Hd, !Hle by (rewrite ?length_take, ?length_drop; lia).
  change 16%nat with (8 + 8)%nat. by rewrite <- drop_drop, !take_drop.
Qed.

Lemma compress_snapshot_memory_ok m :
  len m mod 65536 = 0 →
  ∃ fs, Forall frame_ok fs ∧ pages fs = m ∧ compress_snapshot_memory m = Ok (stream fs, len m)
    ∧ len m = len fs * 65536.
Proof.
  intros Hm. exists (frame_of <$> chunks page_size m).
  assert (Forall (λ c, length c = page_size) (chunks page_size m)) as Hc.
  { pose proof page_size_Z. apply chunks_Forall; [lia|].
    apply Z.mod_divide in Hm as [k Hk]; [|done]. exists (Z.to_nat k). unfold len in Hk. nia. }
  assert (Forall frame_ok (frame_of <$> chunks page_size m)) as Hok.
  { apply Forall_fmap. eapply Forall_impl; [exact Hc|]. intros c H. by apply frame_of_ok. }
  assert (pages (frame_of <$> chunks page_size m) = m) as Hp.
  { rewrite <- (chunks_concat page_size m) at 2 by (pose proof page_size_Z; lia).
    unfold pages. f_equal. rewrite <- list_fmap_compose.
    rewrite <- (list_fmap_id (chunks page_size m)) at 2.
    apply Forall_fmap_ext_1. eapply Forall_impl; [exact Hc|]. intros c H. by apply frame_of_ok. }
  split_and!; [done|done| |].
  - unfold compress_snapshot_memory. rewrite page_size_Z, Hm. cbn [Z.eqb negb].
    rewrite compress_fold, !Z.add_0_l. cbn [app]. by rewrite <- (assoc_L (++)).
  - rewrite <- Hp at 1. rewrite (pages_length _ Hok), page_size_Z. done.
Qed.

(** ** Properties *)

(** The page encoding of snapshot memory loses nothing: compression succeeds
    exactly on whole WASM pages, reports the original size, and decompressing its
    output returns the memory byte for byte, in at most [16 + pages * 65537] bytes. *)
Theorem memory_roundtrip (m : list byte) :
  vec_ok m →
  match compress_snapshot_memory m with
  | Ok (c, n) => n = len m ∧ decompress_snapshot_memory c = Ok m
                 ∧ len c ≤ 16 + len m / 65536 * 65537
  | Err _ => len m mod 65536 ≠ 0
  end.
Proof.
  intros Hv. destruct (decide (len m mod 65536 = 0)) as [Hm|Hm].
  2:{ unfold compress_snapshot_memory. rewrite page_size_Z.
      by rewrite (proj2 (Z.eqb_neq _ _) Hm). }
  destruct (compress_snapshot_memory_ok m Hm) as (fs & Hok & Hp & -> & Hl).
  pose proof (counts_nonneg fs). unfold vec_ok, U64_MAX in *.
  assert (len (stream fs) = 16 + (len fs + raws fs * 65536)) as Hs.
  { unfold stream. rewrite !len_app, (encs_length _ Hok), page_size_Z. unfold len at 1 2.
    rewrite !le_bytes_length. lia. }
  split_and!; [done| |].
  - rewrite decompress_stream, Hp; [done|done| |]; unfold U64_MAX; lia.
  - rewrite Hl, Z.div_mul by done. lia.
Qed.

(** The decompressor accepts exactly the well-formed streams: a 16-byte header
    that counts the frames, then zero markers and marked raw pages with nothing
    missing and nothing left over; its result is the concatenation of the pages. *)
Theorem decompress_iff (c m : list byte) :
  vec_ok c →
  decompress_snapshot_memory c = Ok m ↔
  ∃ fs, Forall frame_ok fs ∧ len fs * 65536 ≤ U64_MAX ∧ c = stream fs ∧ m = pages fs.
Proof.
  intros Hv. unfold vec_ok in Hv. split; [apply decompress_is_stream|].
  intros (fs & Hok & Hcap & -> & ->). apply decompress_stream; [done| |done]. unfold U64_MAX. lia.
Qed.

Lemma memory_roundtrip_witness :
  let m := replicate page_size x00 ++ replicate page_size x2a in
  match compress_snapshot_memory m with
  | Ok (c, n) => n = len m ∧ decompress_snapshot_memory c = Ok m
                 ∧ len c ≤ 16 + len m / 65536 * 65537
  | Err _ => len m mod 65536 ≠ 0
  end.
Proof.
  apply (memory_roundtrip (replicate page_size x00 ++ replicate page_size x2a)).
  vm_compute. discriminate.
Defined.

(** The empty memory, an unknown marker and a truncated raw page. *)
Lemma decompress_iff_witness :
  decompress_snapshot_memory (replicate 16 x00) = Ok []
  ∧ decompress_snapshot_memory (le_bytes 8 1 ++ le_bytes 8 0 ++ [x02])
    = Err (Fmt "Invalid page marker: {marker:#04x}" [ANum 2]).
Proof.
  split; [|vm_compute; reflexivity].
  refine (proj2 (decompress_iff (replicate 16 x00) [] _) _).
  - vm_compute. discriminate.
  - exists []. split_and!; [constructor|vm_compute; discriminate|reflexivity|reflexivity].
Defined.

(** Streaming compression is one-shot compression of everything written, in
    order, and decompresses back to it, whatever the sequence of writes. *)
Theorem streaming_roundtrip `{Zs : ZstdLib} (L : ZstdLaws Zs) (level : Z)
    (c0 : StreamingCompressor) (writes : list (list byte)) (sizes : Z) :
  streaming_new level = Ok c0 →
  ∃ c, fold_left (λ r w, result_bind r (λ c, streaming_write c w)) writes (Ok c0) = Ok c
    ∧ streaming_finish c
      = compress (concat writes) {| cfg_algorithm := Zstd; cfg_level := level; cfg_checksum := true |}
    ∧ ∀ out, streaming_finish c = Ok out →
        decompress out.(cd_data) out.(cd_algorithm) sizes = Ok (concat writes)
        ∧ out.(cd_original_size) = len (concat writes).
Proof.
  intros [= <-].
  assert (∀ buf, fold_left (λ r w, result_bind r (λ c, streaming_write c w)) writes
            (Ok {| sc_buffer := buf; sc_level := level |})
          = Ok {| sc_buffer := buf ++ concat writes; sc_level := level |}) as Hf.
  { induction writes as [|w ws IH]; intros buf; cbn; [by rewrite app_nil_r|].
    unfold streaming_write at 2. cbn. by rewrite IH, (assoc_L (++)). }
  eexists. split; [apply Hf|]. split; [done|]. intros out. unfold streaming_finish. cbn.
  destruct (copy_encode (concat writes) level) eqn:E; [|done]. intros [= <-]. cbn.
  unfold decompress_zstd. by rewrite (zstd_roundtrip _ _ _ E).
Qed.

(** A codec that stores its input behind one tag byte. *)
Module ToyZstd.
#[export] Instance zstd : ZstdLib := {|
  copy_encode data _ := Some (x28 :: data);
  copy_decode data := match data with [] => None | t :: d => if decide (t = x28) then Some d else None end;
|}.
#[export] Instance zstd_laws : ZstdLaws zstd.
Proof. constructor. intros data level out [= <-]. cbn. by rewrite decide_True. Qed.
End ToyZstd.

Lemma streaming_roundtrip_witness :
  ∃ c, fold_left (λ r w, result_bind r (λ c, streaming_write c w)) [[x01]; [x02; x03]]
         (Ok {| sc_buffer := []; sc_level := 3 |}) = Ok c
    ∧ streaming_finish (Zs := ToyZstd.zstd) c
      = compress (Zs := ToyZstd.zstd) [x01; x02; x03] {| cfg_algorithm := Zstd; cfg_level := 3; cfg_checksum := true |}
    ∧ ∀ out, streaming_finish (Zs := ToyZstd.zstd) c = Ok out →
        decompress (Zs := ToyZstd.zstd) out.(cd_data) out.(cd_algorithm) 3 = Ok [x01; x02; x03]
        ∧ out.(cd_original_size) = 3.
Proof.
  apply (streaming_roundtrip ToyZstd.zstd_laws 3 {| sc_buffer := []; sc_level := 3 |}
           [[x01]; [x02; x03]] 3). reflexivity.
Defined.
