(* ===== verification/Snapshot.v ===== *)
(** * Snapshots, filesystem changes and the ring buffer:
    the data half of [src/snapshot/manager.rs]

    A snapshot's identifier and timestamp ([Uuid::new_v4()], [Utc::now()]) are
    arguments of [snapshot_new]; SHA-256 is the parameter [sha256_hex].  Floating
    point values of WASM globals are kept as their bits. *)

From S2P Require Import Prelude Errors Floats Compression.

Abbreviation FilePath := string.

Record FileChange := { fc_path : FilePath; fc_content : list byte; fc_old_content : option (list byte) }.

Record FilesystemDiff := {
  created : list FileChange;
  modified : list FileChange;
  deleted : list FilePath;
  dirs_created : list FilePath;
  dirs_deleted : list FilePath;
}.

Inductive RevertOperation :=
| OpCreate (p : FilePath) (content : list byte)
| OpCreateDir (p : FilePath)
| OpOverwrite (p : FilePath) (content : list byte)
| OpDelete (p : FilePath)
| OpRestore (p : FilePath).

Definition FilesystemDiff_new : FilesystemDiff :=
  {| created := []; modified := []; deleted := []; dirs_created := []; dirs_deleted := [] |}.

Definition record_create (d : FilesystemDiff) (path : FilePath) (content : list byte) : FilesystemDiff :=
  {| created := d.(created) ++ [{| fc_path := path; fc_content := content; fc_old_content := None |}];
     modified := d.(modified); deleted := d.(deleted);
     dirs_created := d.(dirs_created); dirs_deleted := d.(dirs_deleted) |}.

Definition record_modify (d : FilesystemDiff) (path : FilePath) (new_content old_content : list byte)
  : FilesystemDiff :=
  {| created := d.(created);
     modified := d.(modified) ++ [{| fc_path := path; fc_content := new_content;
                                     fc_old_content := Some old_content |}];
     deleted := d.(deleted); dirs_created := d.(dirs_created); dirs_deleted := d.(dirs_deleted) |}.

Definition record_delete (d : FilesystemDiff) (path : FilePath) : FilesystemDiff :=
  {| created := d.(created); modified := d.(modified); deleted := d.(deleted) ++ [path];
     dirs_created := d.(dirs_created); dirs_deleted := d.(dirs_deleted) |}.

(** [FilesystemDiff::revert] and [FilesystemDiff::apply]. *)
Definition revert_modify (change : FileChange) : list RevertOperation :=
  match change.(fc_old_content) with
  | Some old => [OpOverwrite change.(fc_path) old]
  | None => []
  end.
Definition revert (d : FilesystemDiff) : list RevertOperation :=
  (OpRestore <$> d.(deleted))
  ++ (d.(modified) ≫= revert_modify)
  ++ ((λ c, OpDelete c.(fc_path)) <$> d.(created)).
Definition apply (d : FilesystemDiff) : list RevertOperation :=
  (OpCreateDir <$> d.(dirs_created))
  ++ ((λ c, OpCreate c.(fc_path) c.(fc_content)) <$> d.(created))
  ++ ((λ c, OpOverwrite c.(fc_path) c.(fc_content)) <$> d.(modified))
  ++ (OpDelete <$> d.(deleted)).

(** ** Execution state and metadata *)

Inductive GlobalValue := I32 (v : Z) | I64 (v : Z) | F32 (bits : Z) | F64 (bits : Z).
Record GlobalSnapshot := { gs_name : string; gs_value : GlobalValue; gs_mutable : bool }.
Record TableSnapshot := { ts_name : string; ts_size : Z }.
Record ExecutionState := {
  captured_globals : list GlobalSnapshot;
  captured_tables : list TableSnapshot;
}.
Record SnapshotMetadata := {
  operation_name : string;
  input_hash : string;
  creation_time_us : Z;
  memory_pages : Z;
  preconditions : list string;
}.
Definition SnapshotMetadata_new (operation_name input_hash : string) : SnapshotMetadata :=
  {| operation_name := operation_name; input_hash := input_hash; creation_time_us := 0;
     memory_pages := 0; preconditions := [] |}.

Record Snapshot := {
  snap_id : Uuid;
  snap_timestamp : DateTime;
  snap_memory : list byte;
  memory_checksum : string;
  fs_changes : FilesystemDiff;
  snap_execution_state : ExecutionState;
  snap_metadata : SnapshotMetadata;
  original_size : Z;
  compressed_size : Z;
}.

#[export] Instance FileChange_eq_dec : EqDecision FileChange.
Proof. solve_decision. Defined.
#[export] Instance FilesystemDiff_eq_dec : EqDecision FilesystemDiff.
Proof. solve_decision. Defined.
#[export] Instance GlobalValue_eq_dec : EqDecision GlobalValue.
Proof. solve_decision. Defined.
#[export] Instance GlobalSnapshot_eq_dec : EqDecision GlobalSnapshot.
Proof. solve_decision. Defined.
#[export] Instance TableSnapshot_eq_dec : EqDecision TableSnapshot.
Proof. solve_decision. Defined.
#[export] Instance ExecutionState_eq_dec : EqDecision ExecutionState.
Proof. solve_decision. Defined.
#[export] Instance SnapshotMetadata_eq_dec : EqDecision SnapshotMetadata.
Proof. solve_decision. Defined.
#[export] Instance Snapshot_eq_dec : EqDecision Snapshot.
Proof. solve_decision. Defined.

Section Snapshots.
Context `{Zs : ZstdLib}.
Variable sha256_hex : list byte → string.

(** [Snapshot::new], [verify], [decompress_memory] and [compression_ratio]. *)
Definition snapshot_new (memory : list byte) (fs : FilesystemDiff) (st : ExecutionState)
    (md : SnapshotMetadata) (id : Uuid) (now : DateTime) : result Snapshot NexusError :=
  match copy_encode memory 3 with
  | None => Err (SerializationError (Fmt "compression failed: {e}" [AOpaque]))
  | Some compressed =>
      Ok {| snap_id := id; snap_timestamp := now; snap_memory := compressed;
            memory_checksum := sha256_hex memory; fs_changes := fs;
            snap_execution_state := st; snap_metadata := md;
            original_size := len memory; compressed_size := len compressed |}
  end.

Definition verify (s : Snapshot) (memory : list byte) : bool :=
  bool_decide (sha256_hex memory = s.(memory_checksum)).

Definition decompress_memory (s : Snapshot) : result (list byte) NexusError :=
  ok_or (copy_decode s.(snap_memory)) (SerializationError (Fmt "Failed to decompress: {}" [AOpaque])).
End Snapshots.

Definition snapshot_compression_ratio (s : Snapshot) : f64 :=
  if s.(original_size) =? 0 then f64_of_Z 1
  else f64_div (f64_of_Z s.(compressed_size)) (f64_of_Z s.(original_size)).

(** ** Ring buffer *)

Record SnapshotRingBuffer := {
  capacity : nat;
  snapshots : list Snapshot;
  index : gmap Uuid nat;
}.

Definition ring_new (capacity : nat) : SnapshotRingBuffer :=
  {| capacity := capacity; snapshots := []; index := ∅ |}.

(** [for (i, s) in self.snapshots.iter().enumerate() { self.index.insert(s.id, i) }] *)
Definition reindex (l : list Snapshot) : gmap Uuid nat :=
  fold_left (λ m '(i, s), <[s.(snap_id) := i]> m) (imap pair l) ∅.

Definition ring_push (b : SnapshotRingBuffer) (snapshot : Snapshot) : SnapshotRingBuffer :=
  let '(snaps, idx) :=
    if (b.(capacity) <=? length b.(snapshots))%nat
    then (tail b.(snapshots), reindex (tail b.(snapshots)))
    else (b.(snapshots), b.(index)) in
  {| capacity := b.(capacity);
     snapshots := snaps ++ [snapshot];
     index := <[snapshot.(snap_id) := length snaps]> idx |}.

Definition ring_get (b : SnapshotRingBuffer) (id : Uuid) : option Snapshot :=
  i ← b.(index) !! id; b.(snapshots) !! i.
Definition ring_latest (b : SnapshotRingBuffer) : option Snapshot := last b.(snapshots).
Definition ring_all (b : SnapshotRingBuffer) : list Snapshot := b.(snapshots).
Definition ring_clear (b : SnapshotRingBuffer) : SnapshotRingBuffer :=
  {| capacity := b.(capacity); snapshots := []; index := ∅ |}.
Definition ring_len (b : SnapshotRingBuffer) : nat := length b.(snapshots).
Definition ring_is_empty (b : SnapshotRingBuffer) : bool := bool_decide (b.(snapshots) = []).

(** ** Specification of the filesystem operations

    The program hands the operations to its caller; here they act on a map from
    paths to contents, [OpRestore] taking the content from the original state. *)

Abbreviation Files := (gmap FilePath (list byte)).

Definition run_op (orig fs : Files) (op : RevertOperation) : Files :=
  match op with
  | OpCreate p c | OpOverwrite p c => <[p := c]> fs
  | OpCreateDir _ => fs
  | OpDelete p => delete p fs
  | OpRestore p => match orig !! p with Some c => <[p := c]> fs | None => fs end
  end.
Definition run (orig : Files) (ops : list RevertOperation) (fs : Files) : Files :=
  fold_left (run_op orig) ops fs.

Definition created_paths (d : FilesystemDiff) : list FilePath := fc_path <$> d.(created).
Definition modified_paths (d : FilesystemDiff) : list FilePath := fc_path <$> d.(modified).
Definition touched (d : FilesystemDiff) : list FilePath :=
  created_paths d ++ modified_paths d ++ d.(deleted).

(** A diff that records what happened to [orig]: created files are new, recorded
    old contents are the original ones, deleted files existed. *)
Record consistent (orig : Files) (d : FilesystemDiff) : Prop := {
  con_created c : c ∈ d.(created) → orig !! c.(fc_path) = None;
  con_modified c : c ∈ d.(modified) → ∃ old, c.(fc_old_content) = Some old ∧ orig !! c.(fc_path) = Some old;
  con_deleted p : p ∈ d.(deleted) → is_Some (orig !! p);
}.

Definition op_path (op : RevertOperation) : option FilePath :=
  match op with
  | OpCreate p _ | OpOverwrite p _ | OpDelete p | OpRestore p => Some p
  | OpCreateDir _ => None
  end.

Lemma run_app orig ops1 ops2 fs : run orig (ops1 ++ ops2) fs = run orig ops2 (run orig ops1 fs).
Proof. apply fold_left_app. Qed.

Lemma run_untouched orig ops fs p :
  (∀ op, op ∈ ops → op_path op ≠ Some p) → run orig ops fs !! p = fs !! p.
Proof.
  revert fs. induction ops as [|op ops IH]; intros fs H; [done|]. cbn.
  transitivity (run_op orig fs op !! p).
  - apply IH. intros op' ?. apply H. by right.
  - specialize (H op ltac:(left)).
    destruct op as [q c|q|q c|q|q]; cbn in *; try (rewrite lookup_insert_ne by congruence); try done.
    + rewrite lookup_delete_ne by congruence. done.
    + destruct (orig !! q); [|done]. rewrite lookup_insert_ne by congruence. done.
Qed.

(** The last operation on a path decides it, when they all agree on the outcome. *)
Lemma run_settles orig ops fs p v :
  (∃ op, op ∈ ops ∧ op_path op = Some p) →
  (∀ op fs', op ∈ ops → op_path op = Some p → run_op orig fs' op !! p = v) →
  run orig ops fs !! p = v.
Proof.
  revert fs. induction ops as [|op ops IH] using rev_ind; intros fs (op' & Hin & Hp) Hv.
  { by apply elem_of_nil in Hin. }
  rewrite run_app. cbn. destruct (decide (op_path op = Some p)) as [Ho|Ho].
  - apply Hv; [|done]. apply elem_of_app. right. left.
  - change (run orig [op] (run orig ops fs) !! p = v).
    rewrite run_untouched; [|by intros ? ->%list_elem_of_singleton].
    apply elem_of_app in Hin as [Hin| ->%list_elem_of_singleton]; [|congruence].
    apply IH; [eauto|]. intros op'' fs' ?. apply Hv. apply elem_of_app. by left.
Qed.

Lemma elem_of_revert d op :
  op ∈ revert d ↔
  (∃ p, op = OpRestore p ∧ p ∈ d.(deleted))
  ∨ (∃ c old, op = OpOverwrite c.(fc_path) old ∧ c ∈ d.(modified) ∧ c.(fc_old_content) = Some old)
  ∨ (∃ c, op = OpDelete c.(fc_path) ∧ c ∈ d.(created)).
Proof.
  unfold revert. rewrite !elem_of_app, !list_elem_of_fmap, list_elem_of_bind.
  assert (∀ c, op ∈ revert_modify c ↔ ∃ old, op = OpOverwrite c.(fc_path) old ∧ c.(fc_old_content) = Some old) as Hm.
  { intros c. unfold revert_modify. destruct (fc_old_content c); [rewrite list_elem_of_singleton|rewrite elem_of_nil]; naive_solver. }
  setoid_rewrite Hm. naive_solver.
Qed.

Lemma elem_of_apply_path d op p :
  op ∈ apply d → op_path op = Some p → p ∈ touched d.
Proof.
  unfold apply, touched, created_paths, modified_paths. rewrite !elem_of_app, !list_elem_of_fmap.
  intros [(?&->&?)|[(?&->&?)|[(?&->&?)|(?&->&?)]]]; cbn; intros [= <-]; eauto.
Qed.

Lemma revert_settles orig d fs p :
  consistent orig d → p ∈ touched d → run orig (revert d) fs !! p = orig !! p.
Proof.
  intros Hc Hp. apply run_settles.
  - setoid_rewrite elem_of_revert. unfold touched, created_paths, modified_paths in Hp.
    rewrite !elem_of_app, !list_elem_of_fmap in Hp. destruct Hp as [(c&->&Hc')|[(c&->&Hc')|Hp]].
    + exists (OpDelete c.(fc_path)). split; [|done]. right. right. eauto.
    + destruct (con_modified _ _ Hc c Hc') as (old & Ho & _).
      exists (OpOverwrite c.(fc_path) old). split; [|done]. right. left. eauto.
    + exists (OpRestore p). split; [|done]. left. eauto.
  - intros op fs' [(q&->&Hq)|[(c&old&->&Hm&Ho)|(c&->&Hc')]]%elem_of_revert; cbn; intros [= <-].
    + destruct (con_deleted _ _ Hc q Hq) as [x Hx]. by rewrite Hx, lookup_insert_eq.
    + destruct (con_modified _ _ Hc c Hm) as (old' & Ho' & Hx). rewrite lookup_insert_eq. congruence.
    + rewrite lookup_delete_eq. symmetry. by apply (con_created _ _ Hc).
Qed.

(** ** Ring buffer lemmas *)

Abbreviation ids l := (snap_id <$> l).

Lemma reindex_snoc l s : reindex (l ++ [s]) = <[s.(snap_id) := length l]> (reindex l).
Proof.
  unfold reindex. rewrite imap_app, fold_left_app. cbn. by rewrite Nat.add_0_r.
Qed.

(** The index of a buffer with distinct identifiers gives each one's position. *)
Lemma reindex_spec l id i : NoDup (ids l) → reindex l !! id = Some i ↔ ids l !! i = Some id.
Proof.
  induction l as [|s l IH] using rev_ind; intros Hnd.
  { cbn. rewrite lookup_empty. done. }
  rewrite reindex_snoc. rewrite fmap_app in *. cbn in *.
  apply NoDup_app in Hnd as (Hnd & Hs & _).
  destruct (decide (s.(snap_id) = id)) as [<-|Hne].
  - rewrite lookup_insert_eq. rewrite lookup_app_Some, length_fmap. split.
    + intros [= <-]. right. split; [lia|]. by rewrite Nat.sub_diag.
    + intros [H|[Hl H]].
      * destruct (Hs (snap_id s)); [|left]. by eapply list_elem_of_lookup_2.
      * apply lookup_lt_Some in H as Hlt. cbn in Hlt. f_equal. lia.
  - rewrite lookup_insert_ne, (IH Hnd) by done. rewrite lookup_app_Some. split; [by left|].
    intros [?|[_ H]]; [done|]. apply list_lookup_singleton_Some in H as [_ ?]. done.
Qed.

(** What the ring promises: the last [max 1 capacity] pushes. *)
Definition window (capacity : nat) (history : list Snapshot) : list Snapshot :=
  drop (length history - Nat.max 1 capacity) history.

Record ring_ok (b : SnapshotRingBuffer) (history : list Snapshot) : Prop := {
  ring_window : b.(snapshots) = window b.(capacity) history;
  ring_index : b.(index) = reindex b.(snapshots);
}.

Definition pushes (b : SnapshotRingBuffer) (history : list Snapshot) : SnapshotRingBuffer :=
  fold_left ring_push history b.

Lemma window_length k h : length (window k h) = Nat.min (Nat.max 1 k) (length h).
Proof. unfold window. rewrite length_drop. lia. Qed.

Lemma tail_drop_1 {A} (l : list A) : tail l = drop 1 l.
Proof. by destruct l. Qed.

Lemma ring_ok_push b h s : ring_ok b h → ring_ok (ring_push b s) (h ++ [s]).
Proof.
  intros [Hw Hi]. unfold ring_push.
  destruct (Nat.leb_spec (capacity b) (length (snapshots b))) as [Hle|Hlt].
  - constructor; cbn [snapshots index capacity].
    + rewrite Hw, window_length in Hle. rewrite Hw. unfold window. rewrite length_app. cbn [length].
      destruct (decide (length h < Nat.max 1 (capacity b))%nat) as [Hs|Hs].
      * assert (length h = 0 ∧ capacity b = 0)%nat as [Hh Hc] by lia.
        apply nil_length_inv in Hh as ->. by rewrite Hc.
      * rewrite tail_drop_1, drop_drop, <- drop_app_le by lia. f_equal. lia.
    + by rewrite reindex_snoc.
  - constructor; cbn [snapshots index capacity].
    + rewrite Hw, window_length in Hlt. rewrite Hw. unfold window. rewrite length_app. cbn [length].
      rewrite <- drop_app_le by lia. f_equal. lia.
    + by rewrite reindex_snoc, Hi.
Qed.

Lemma ring_ok_new k : ring_ok (ring_new k) [].
Proof. by constructor. Qed.

Lemma ring_ok_pushes b h0 h : ring_ok b h0 → ring_ok (pushes b h) (h0 ++ h).
Proof.
  revert b h0. induction h as [|s h IH]; intros b h0 Hb; [by rewrite app_nil_r|].
  rewrite cons_middle, (assoc_L (++)). by apply (IH (ring_push b s)), ring_ok_push.
Qed.

Lemma pushes_capacity b h : capacity (pushes b h) = capacity b.
Proof.
  revert b. induction h as [|s h IH]; intros b; [done|].
  change (capacity (pushes (ring_push b s) h) = capacity b). rewrite IH. unfold ring_push.
  by destruct (_ <=? _)%nat.
Qed.

Lemma window_ids_NoDup k h : NoDup (ids h) → NoDup (ids (window k h)).
Proof.
  intros H. unfold window. rewrite <- (take_drop (length h - Nat.max 1 k) h), fmap_app in H.
  by apply NoDup_app in H as (_ & _ & ?).
Qed.

Lemma window_suffix k h s : s ∈ window k h → s ∈ h.
Proof.
  intros H. rewrite <- (take_drop (length h - Nat.max 1 k) h). apply elem_of_app. by right.
Qed.

Lemma ring_get_spec b h id s :
  ring_ok b h → NoDup (ids h) →
  ring_get b id = Some s ↔ s ∈ window b.(capacity) h ∧ s.(snap_id) = id.
Proof.
  intros [Hw Hi] Hnd. unfold ring_get. rewrite Hi, Hw.
  pose proof (window_ids_NoDup b.(capacity) h Hnd) as Hn. set (l := window _ h) in *.
  rewrite bind_Some. setoid_rewrite reindex_spec; [|done]. split.
  - intros (i & Hid & Hs). split; [by eapply list_elem_of_lookup_2|].
    rewrite list_lookup_fmap, Hs in Hid. by injection Hid.
  - intros [[i Hs]%list_elem_of_lookup Hid]. exists i. split; [|done].
    by rewrite list_lookup_fmap, Hs, <- Hid.
Qed.

Lemma last_drop {A} n (l : list A) : (n < length l)%nat → last (drop n l) = last l.
Proof.
  intros H. rewrite <- (take_drop n l) at 2. rewrite last_app.
  destruct (last (drop n l)) as [x|] eqn:E; [done|].
  apply last_None in E. apply (f_equal length) in E. rewrite length_drop in E. cbn in E. lia.
Qed.

(** ** Properties *)

(** The ring buffer refines its history: after any sequence of pushes of
    distinct snapshots it holds exactly the last [capacity] of them in order (one,
    when the capacity is 0), [latest] is the last push, and [get] finds exactly the
    retained snapshots by identifier, across evictions and index rebuilds. *)
Theorem ring_refines_history (k : nat) (history : list Snapshot) :
  NoDup (ids history) →
  let b := pushes (ring_new k) history in
  b.(snapshots) = window k history
  ∧ ring_len b = Nat.min (Nat.max 1 k) (length history)
  ∧ ring_latest b = last history
  ∧ ∀ id s, ring_get b id = Some s ↔ s ∈ window k history ∧ s.(snap_id) = id.
Proof.
  intros Hnd b. pose proof (ring_ok_pushes _ _ history (ring_ok_new k)) as Hok.
  cbn [app] in Hok. fold b in Hok.
  assert (capacity b = k) as Hk by apply pushes_capacity.
  pose proof (ring_window _ _ Hok) as Hw. rewrite Hk in Hw. split_and!; [done| | |].
  - unfold ring_len. by rewrite Hw, window_length.
  - unfold ring_latest. rewrite Hw. unfold window. destruct history as [|s h]; [done|].
    apply last_drop. cbn [length]. lia.
  - intros id s. rewrite <- Hk. by apply ring_get_spec.
Qed.

Definition example_snapshot (id : Uuid) : Snapshot :=
  {| snap_id := id; snap_timestamp := 0; snap_memory := []; memory_checksum := EmptyString;
     fs_changes := FilesystemDiff_new;
     snap_execution_state := {| captured_globals := []; captured_tables := [] |};
     snap_metadata := SnapshotMetadata_new "op" "hash"; original_size := 0; compressed_size := 0 |}.

Lemma ring_refines_history_witness :
  let h := [example_snapshot 1; example_snapshot 2; example_snapshot 3] in
  let b := pushes (ring_new 2) h in
  b.(snapshots) = window 2 h
  ∧ ring_len b = 2%nat
  ∧ ring_latest b = Some (example_snapshot 3)
  ∧ ∀ id s, ring_get b id = Some s ↔ s ∈ window 2 h ∧ s.(snap_id) = id.
Proof.
  apply (ring_refines_history 2 [example_snapshot 1; example_snapshot 2; example_snapshot 3]).
  apply (bool_decide_unpack _). vm_compute. exact I.
Defined.

(** Running the revert operations brings back the original files, from the state
    the recorded changes lead to and from any state that differs from the original
    only on recorded paths, when each recorded old content is the original one. *)
Theorem revert_restores (orig : Files) (d : FilesystemDiff) :
  consistent orig d →
  run orig (revert d) (run orig (apply d) orig) = orig
  ∧ ∀ fs, (∀ p, p ∉ touched d → fs !! p = orig !! p) → run orig (revert d) fs = orig.
Proof.
  intros Hc.
  assert (∀ fs, (∀ p, p ∉ touched d → fs !! p = orig !! p) → run orig (revert d) fs = orig) as H.
  { intros fs Hfs. apply map_eq. intros p. destruct (decide (p ∈ touched d)) as [Hp|Hp].
    - by apply revert_settles.
    - rewrite run_untouched; [by apply Hfs|]. intros op Hop Hpath. apply Hp.
      unfold touched, created_paths, modified_paths. rewrite !elem_of_app, !list_elem_of_fmap.
      apply elem_of_revert in Hop as [(?&->&?)|[(?&?&->&?&_)|(?&->&?)]]; injection Hpath as <-; eauto. }
  split; [|done]. apply H. intros p Hp. apply run_untouched. intros op Hop Hpath.
  apply Hp. by eapply elem_of_apply_path.
Qed.

Definition example_orig : Files := {["a" := [x01]; "b" := [x02]]}.
Definition example_diff : FilesystemDiff :=
  record_delete (record_modify (record_create FilesystemDiff_new "c" [x03]) "a" [x09] [x01]) "b".

Lemma revert_restores_witness :
  run example_orig (apply example_diff) example_orig = {["a" := [x09]; "c" := [x03]]}
  ∧ run example_orig (revert example_diff) (run example_orig (apply example_diff) example_orig)
    = example_orig.
Proof.
  split; [vm_compute; reflexivity|].
  refine (proj1 (revert_restores example_orig example_diff _)). constructor.
  - intros c [->|Hx]%elem_of_cons; [vm_compute; reflexivity|by apply elem_of_nil in Hx].
  - intros c [->|Hx]%elem_of_cons; [|by apply elem_of_nil in Hx].
    exists [x01]. split; vm_compute; reflexivity.
  - intros p [->|Hx]%elem_of_cons; [|by apply elem_of_nil in Hx].
    exists [x02]. vm_compute. reflexivity.
Defined.

(** The revert of a file modified twice does not restore it: the old contents are
    written back in recording order, so the intermediate version wins. *)
Theorem revert_double_modify (orig fs : Files) (p : FilePath) (v0 v1 v2 : list byte) :
  let d := record_modify (record_modify FilesystemDiff_new p v1 v0) p v2 v1 in
  run orig (apply d) fs !! p = Some v2
  ∧ run orig (revert d) (run orig (apply d) fs) !! p = Some v1.
Proof. cbn. by rewrite !lookup_insert_eq. Qed.
