(* ===== verification/Differential.v ===== *)
(** * Differential snapshots: [src/snapshot/differential.rs]

    The dirty pages of a memory against a base, each compressed, and their overlay.
    A [HashMap]'s iteration order is the interface [HashIter]: any permutation of
    its entries, so the theorems hold for every order. *)

From S2P Require Import Prelude Errors Compression Snapshot.

(** [const PAGE_SIZE: usize = 4096]. *)
Definition PAGE_SIZE : nat := Z.to_nat 4096.
#[global] Opaque PAGE_SIZE.

Lemma PAGE_SIZE_Z : Z.of_nat PAGE_SIZE = 4096.
Proof. apply (Z2Nat.id 4096). lia. Qed.
Lemma PAGE_SIZE_pos : (0 < PAGE_SIZE)%nat.
Proof. pose proof PAGE_SIZE_Z. lia. Qed.

Record DiffSnapshot := {
  diff_id : Uuid;
  base_id : Uuid;
  diff_timestamp : DateTime;
  dirty_pages : gmap Z (list byte);
  dirty_count : Z;
  total_memory_size : Z;
  diff_execution_state : ExecutionState;
  diff_metadata : SnapshotMetadata;
  generation : Z;
}.

Class HashIter := {
  hash_iter : gmap Z (list byte) → list (Z * list byte);
  hash_iter_perm m : hash_iter m ≡ₚ map_to_list m;
}.

Section Diff.
Context `{Zs : ZstdLib} `{Hi : HashIter}.

(** [div_ceil] *)
Definition div_ceil (a b : nat) : nat := ((a + b - 1) / b)%nat.

(** One iteration of the page loop of [compute_dirty_pages]. *)
Definition dirty_page (base_memory current_memory : list byte) (dirty : gmap Z (list byte))
    (page_idx : nat) : result (gmap Z (list byte)) NexusError :=
  let start := (page_idx * PAGE_SIZE)%nat in
  let end_ := Nat.min (start + PAGE_SIZE) (length base_memory) in
  let base_page := take (end_ - start) (drop start base_memory) in
  let current_page := take (end_ - start) (drop start current_memory) in
  if decide (base_page = current_page) then Ok dirty
  else
    match copy_encode current_page 3 with
    | None => Err (SerializationError (Fmt "page compression failed: {e}" [AOpaque]))
    | Some compressed => Ok (<[wrap32 (Z.of_nat page_idx) := compressed]> dirty)
    end.

Definition compute_dirty_pages (base_memory current_memory : list byte)
  : result (gmap Z (list byte)) NexusError :=
  if negb (length base_memory =? length current_memory)%nat
  then Err (SnapshotCreateFailed (Fmt "memory size mismatch: base={} current={}"
              [ANum (len base_memory); ANum (len current_memory)]))
  else
    fold_left (λ r page_idx, let? dirty := r in dirty_page base_memory current_memory dirty page_idx)
      (seq 0 (div_ceil (length base_memory) PAGE_SIZE)) (Ok ∅).

(** [DiffSnapshot::new] and [compressed_size]. *)
Definition diff_new (base : Uuid) (base_memory current_memory : list byte) (st : ExecutionState)
    (md : SnapshotMetadata) (gen : Z) (id : Uuid) (now : DateTime) : result DiffSnapshot NexusError :=
  let? pages := compute_dirty_pages base_memory current_memory in
  Ok {| diff_id := id; base_id := base; diff_timestamp := now; dirty_pages := pages;
        dirty_count := wrap32 (Z.of_nat (size pages)); total_memory_size := len current_memory;
        diff_execution_state := st; diff_metadata := md; generation := gen |}.

Definition diff_compressed_size (d : DiffSnapshot) : Z :=
  foldr (λ kv acc, len kv.2 + acc) 0 (hash_iter d.(dirty_pages)).

(** One iteration of the overlay loop of [apply_diff]. *)
Definition apply_page (res : list byte) (page_idx : Z) (compressed : list byte)
  : result (list byte) NexusError :=
  let start := (Z.to_nat page_idx * PAGE_SIZE)%nat in
  let end_ := Nat.min (start + PAGE_SIZE) (length res) in
  if (length res <=? start)%nat
  then Err (RollbackFailed (Fmt "dirty page index {} out of bounds for memory size {}"
              [ANum page_idx; ANum (len res)]))
  else
    match copy_decode compressed with
    | None => Err (SerializationError (Fmt "page decompression failed: {e}" [AOpaque]))
    | Some decompressed =>
        let page_len := (end_ - start)%nat in
        if negb (length decompressed =? page_len)%nat
        then Err (RollbackFailed (Fmt "decompressed page {} has size {} but expected {}"
                    [ANum page_idx; ANum (len decompressed); ANum (Z.of_nat page_len)]))
        else Ok (take start res ++ decompressed ++ drop end_ res)
    end.

Definition apply_pages (pages : list (Z * list byte)) (res : list byte)
  : result (list byte) NexusError :=
  fold_left (λ r '(page_idx, compressed), let? res := r in apply_page res page_idx compressed)
    pages (Ok res).

Definition apply_diff (base_memory : list byte) (diff : DiffSnapshot) : result (list byte) NexusError :=
  if negb (len base_memory =? diff.(total_memory_size))
  then Err (RollbackFailed (Fmt "base memory size ({}) does not match diff total_memory_size ({})"
              [ANum (len base_memory); ANum diff.(total_memory_size)]))
  else apply_pages (hash_iter diff.(dirty_pages)) base_memory.

Definition apply_diff_chain (base_memory : list byte) (diffs : list DiffSnapshot)
  : result (list byte) NexusError :=
  fold_left (λ r diff, let? current := r in apply_diff current diff) diffs (Ok base_memory).
End Diff.

(** ** Pages of a memory *)

Definition page (k : nat) (l : list byte) : list byte :=
  take PAGE_SIZE (drop (k * PAGE_SIZE) l).

Lemma page_lookup k l j :
  (j < PAGE_SIZE)%nat → page k l !! j = l !! (k * PAGE_SIZE + j)%nat.
Proof. intros Hj. unfold page. by rewrite lookup_take_lt, lookup_drop by done. Qed.

Lemma page_length k l : length (page k l) = Nat.min PAGE_SIZE (length l - k * PAGE_SIZE).
Proof. unfold page. by rewrite length_take, length_drop. Qed.

Lemma pages_ext l1 l2 : (∀ k, page k l1 = page k l2) → l1 = l2.
Proof.
  intros H. apply list_eq. intros i. pose proof PAGE_SIZE_pos.
  pose proof (Nat.div_mod i PAGE_SIZE ltac:(lia)) as Hi.
  pose proof (Nat.mod_upper_bound i PAGE_SIZE ltac:(lia)).
  rewrite Hi, (Nat.mul_comm PAGE_SIZE), <- !page_lookup by done. by rewrite H.
Qed.

Lemma page_slice k l :
  take (Nat.min (k * PAGE_SIZE + PAGE_SIZE) (length l) - k * PAGE_SIZE) (drop (k * PAGE_SIZE) l)
  = page k l.
Proof.
  unfold page. destruct (decide (k * PAGE_SIZE + PAGE_SIZE ≤ length l)%nat).
  - f_equal. lia.
  - rewrite !take_ge; rewrite ?length_drop; try done; lia.
Qed.

(** Overwriting one page leaves the others and the length alone. *)
Lemma page_write k l d k' :
  (k * PAGE_SIZE < length l)%nat → length d = length (page k l) →
  let l' := take (k * PAGE_SIZE) l ++ d ++ drop (Nat.min (k * PAGE_SIZE + PAGE_SIZE) (length l)) l in
  length l' = length l ∧ page k' l' = if decide (k' = k) then d else page k' l.
Proof.
  intros Hk Hd l'. rewrite page_length in Hd.
  assert (length l' = length l) as Hl.
  { unfold l'. rewrite !length_app, length_take, length_drop. lia. }
  split; [done|]. apply list_eq. intros j.
  destruct (decide (j < PAGE_SIZE)%nat) as [Hj|Hj].
  2:{ rewrite !lookup_ge_None_2; [done| |]; [destruct (decide (k' = k))|];
        rewrite ?page_length; lia. }
  rewrite page_lookup by done. unfold l'.
  destruct (decide (k' = k)) as [->|Hne].
  - rewrite lookup_app_r by (rewrite length_take; lia).
    rewrite length_take_le by lia. replace (k * PAGE_SIZE + j - k * PAGE_SIZE)%nat with j by lia.
    destruct (decide (j < length d)%nat); [by rewrite lookup_app_l|].
    rewrite lookup_app_r, lookup_drop by lia. rewrite !lookup_ge_None_2 by lia. done.
  - rewrite page_lookup by done.
    destruct (decide (k' < k)%nat).
    + rewrite lookup_app_l by (rewrite length_take; nia). rewrite lookup_take_lt by nia. done.
    + assert (k * PAGE_SIZE + PAGE_SIZE ≤ k' * PAGE_SIZE)%nat by nia.
      rewrite lookup_app_r by (rewrite length_take; lia). rewrite length_take_le by lia.
      destruct (decide (k * PAGE_SIZE + PAGE_SIZE ≤ length l)%nat).
      * rewrite lookup_app_r by lia. rewrite lookup_drop. f_equal. lia.
      * rewrite (lookup_ge_None_2 l) by lia. rewrite lookup_ge_None_2; [done|].
        rewrite length_app, length_drop. lia.
Qed.

Section Laws.
Context `{Zs : ZstdLib} `{Hi : HashIter}.

(** An entry that can be overlaid on a memory of [n] bytes, and the page it gives. *)
Definition entry_ok (n : nat) (page_idx : Z) (compressed : list byte) : Prop :=
  (Z.to_nat page_idx * PAGE_SIZE < n)%nat
  ∧ ∃ d, copy_decode compressed = Some d
      ∧ length d = Nat.min PAGE_SIZE (n - Z.to_nat page_idx * PAGE_SIZE).

(** The memory that agrees with the decoded entries, and with [base] elsewhere. *)
Definition overlaid (base : list byte) (dirty : gmap Z (list byte)) (res : list byte) : Prop :=
  length res = length base
  ∧ ∀ k, page k res = match dirty !! Z.of_nat k with
                      | Some c => default [] (copy_decode c)
                      | None => page k base
                      end.

Lemma apply_page_Ok r i c r' :
  apply_page r i c = Ok r' ↔
  entry_ok (length r) i c ∧ length r' = length r
  ∧ ∀ k, page k r' = if decide (k = Z.to_nat i) then default [] (copy_decode c) else page k r.
Proof.
  unfold apply_page, entry_ok. set (k := Z.to_nat i).
  destruct (Nat.leb_spec (length r) (k * PAGE_SIZE)) as [|Hlt].
  { split; [done|]. intros [[? _] _]. lia. }
  destruct (copy_decode c) as [d|]; [|split; [done|by intros [(_ & ? & ? & _) _]]].
  destruct (Nat.eqb_spec (length d) (Nat.min (k * PAGE_SIZE + PAGE_SIZE) (length r) - k * PAGE_SIZE)) as [Hd|Hd]; cbn [negb].
  2:{ split; [done|]. intros [(_ & d' & [= <-] & ?) _]. lia. }
  assert (length d = length (page k r)) as Hdp by (rewrite page_length; lia).
  pose proof (λ k', proj1 (page_write k r d k' Hlt Hdp)) as Hlen.
  pose proof (λ k', proj2 (page_write k r d k' Hlt Hdp)) as Hpage. split.
  - intros [= <-]. split_and!; [done| |by apply (Hlen 0%nat)|done].
    exists d. rewrite page_length in Hdp. done.
  - intros (_ & _ & Hr'). f_equal. apply pages_ext. intros k'. by rewrite Hpage, Hr'.
Qed.

Lemma apply_pages_cons i c ps r :
  apply_pages ((i, c) :: ps) r = result_bind (apply_page r i c) (apply_pages ps).
Proof.
  unfold apply_pages. cbn. destruct (apply_page r i c) as [r'|e]; [done|]. cbn.
  induction ps as [|[j d] ps IH]; [done|]. cbn. done.
Qed.

Lemma apply_pages_Ok ps r r' :
  NoDup ps.*1 → Forall (λ kv, 0 ≤ kv.1) ps →
  apply_pages ps r = Ok r' ↔
  Forall (λ kv, entry_ok (length r) kv.1 kv.2) ps ∧ overlaid r (list_to_map ps) r'.
Proof.
  intros Hnd Hpos. revert r. induction ps as [|[i c] ps IH]; intros r.
  { cbn. split.
    - intros [= ->]. split; [constructor|]. split; [done|]. intros k. by rewrite lookup_empty.
    - intros [_ [_ H]]. f_equal. symmetry. apply pages_ext. intros k. by rewrite H, lookup_empty. }
  apply NoDup_cons in Hnd as [Hi' Hnd]. apply Forall_cons in Hpos as [Hp0 Hpos]. cbn [fst] in *.
  rewrite apply_pages_cons, Forall_cons, result_bind_Ok. setoid_rewrite IH; [|done..]. cbn [fst snd].
  assert (∀ k, Z.of_nat k = i ↔ k = Z.to_nat i) as Hk by (intros; lia).
  split.
  - intros (r1 & (He & Hl & Hp)%apply_page_Ok & Hps & Hl' & Ho). rewrite Hl in *.
    split; [by split|]. split; [congruence|]. intros k. rewrite Ho, list_to_map_cons. cbn.
    destruct (decide (i = Z.of_nat k)) as [->|Hne].
    + rewrite lookup_insert_eq, not_elem_of_list_to_map_1 by done. rewrite Hp, decide_True by lia. done.
    + rewrite lookup_insert_ne, Hp by done. by rewrite decide_False by lia.
  - intros ([He Hps] & Hl' & Ho).
    destruct (apply_page r i c) as [r1|e] eqn:E.
    2:{ exfalso. revert E. destruct He as [Hlt (d & Hd & Hdl)]. unfold apply_page.
        destruct (Nat.leb_spec (length r) (Z.to_nat i * PAGE_SIZE)); [lia|].
        rewrite Hd. match goal with |- context [negb (?a =? ?b)%nat] => destruct (Nat.eqb_spec a b) end; [done|lia]. }
    exists r1. split; [done|]. apply apply_page_Ok in E as (_ & Hl & Hp). rewrite Hl.
    split; [done|]. split; [congruence|]. intros k. rewrite Ho, list_to_map_cons. cbn.
    destruct (decide (i = Z.of_nat k)) as [->|Hne].
    + rewrite lookup_insert_eq, not_elem_of_list_to_map_1 by done. rewrite Hp, decide_True by lia. done.
    + rewrite lookup_insert_ne, Hp by done. by rewrite decide_False by lia.
Qed.

Lemma apply_diff_Ok base d r :
  map_Forall (λ i _, 0 ≤ i) d.(dirty_pages) →
  apply_diff base d = Ok r ↔
  len base = d.(total_memory_size)
  ∧ map_Forall (λ i c, entry_ok (length base) i c) d.(dirty_pages)
  ∧ overlaid base d.(dirty_pages) r.
Proof.
  intros Hpos. unfold apply_diff.
  destruct (Z.eqb_spec (len base) (total_memory_size d)); cbn [negb]; [|split; [done|by intros [? _]]].
  pose proof (hash_iter_perm d.(dirty_pages)) as Hperm.
  rewrite apply_pages_Ok.
  - rewrite (list_to_map_proper _ (map_to_list d.(dirty_pages))), list_to_map_to_list by
      (done || (rewrite Hperm; apply NoDup_fst_map_to_list)).
    rewrite map_Forall_to_list, Hperm.
    assert (∀ l : list (Z * list byte), Forall (λ kv, entry_ok (length base) kv.1 kv.2) l
            ↔ Forall (λ '(i, c), entry_ok (length base) i c) l) as ->.
    { intros l. apply Forall_iff. by intros [i c]. }
    unfold uncurry. naive_solver.
  - rewrite Hperm. apply NoDup_fst_map_to_list.
  - rewrite Hperm. apply map_Forall_to_list in Hpos. eapply Forall_impl; [done|]. by intros [i c].
Qed.
End Laws.

(** ** The dirty pages *)

Section Compute.
Context `{Zs : ZstdLib}.

(** Memories whose page indices fit in [u32]: up to 16 TiB. *)
Definition indexable (l : list byte) : Prop := len l ≤ 4096 * 4294967296.

(** [dirty] holds exactly the changed pages below [n], compressed. *)
Definition dirty_upto (base cur : list byte) (n : nat) (dirty : gmap Z (list byte)) : Prop :=
  (∀ i c, dirty !! i = Some c → ∃ k, i = Z.of_nat k ∧ (k < n)%nat ∧ page k base ≠ page k cur
                               ∧ copy_encode (page k cur) 3 = Some c)
  ∧ ∀ k, (k < n)%nat → page k base ≠ page k cur → is_Some (dirty !! Z.of_nat k).

Lemma fold_result_Err {A B E} (f : A → B → result A E) l e :
  fold_left (λ r b, let? a := r in f a b) l (Err e) = Err e.
Proof. induction l; [done|]. done. Qed.

Lemma pages_below_ceil k (l : list byte) :
  (k < div_ceil (length l) PAGE_SIZE)%nat ↔ (k * PAGE_SIZE < length l)%nat.
Proof.
  unfold div_ceil. pose proof PAGE_SIZE_pos as Hp. split; intros H.
  - pose proof (Nat.div_mod (length l + PAGE_SIZE - 1) PAGE_SIZE ltac:(lia)) as Hd.
    pose proof (Nat.mod_upper_bound (length l + PAGE_SIZE - 1) PAGE_SIZE ltac:(lia)). nia.
  - apply (Nat.lt_le_trans _ (S k)); [lia|]. apply Nat.div_le_lower_bound; [lia|]. nia.
Qed.

Lemma page_nil k (l : list byte) : (length l ≤ k * PAGE_SIZE)%nat → page k l = [].
Proof. intros H. unfold page. rewrite drop_ge by done. apply take_nil. Qed.

Lemma dirty_page_eq base cur dirty k :
  length base = length cur → indexable base → (k * PAGE_SIZE < length base)%nat →
  dirty_page base cur dirty k =
  if decide (page k base = page k cur) then Ok dirty
  else match copy_encode (page k cur) 3 with
       | None => Err (SerializationError (Fmt "page compression failed: {e}" [AOpaque]))
       | Some c => Ok (<[Z.of_nat k := c]> dirty)
       end.
Proof.
  intros Hl Hix Hk. unfold dirty_page. rewrite page_slice, Hl, page_slice.
  assert (wrap32 (Z.of_nat k) = Z.of_nat k) as ->; [|done].
  apply wrap32_small. pose proof PAGE_SIZE_Z. unfold indexable, len, is_u32, U32_MAX in *. nia.
Qed.

Lemma compute_upto base cur n dirty :
  length base = length cur → indexable base →
  (n ≤ div_ceil (length base) PAGE_SIZE)%nat →
  fold_left (λ r k, let? d := r in dirty_page base cur d k) (seq 0 n) (Ok ∅) = Ok dirty →
  dirty_upto base cur n dirty.
Proof.
  intros Hl Hix. revert dirty. induction n as [|n IH]; intros dirty Hn.
  { cbn. intros [= <-]. split; [|lia]. intros i c. by rewrite lookup_empty. }
  rewrite seq_S, fold_left_app. cbn [fold_left]. intros (d & Hd & H)%result_bind_Ok.
  destruct (IH d ltac:(lia) Hd) as [Hs Hc]. cbn in H.
  rewrite dirty_page_eq in H by (done || (apply pages_below_ceil; lia)).
  case_decide as Hpage.
  - injection H as <-. split.
    + intros i c Hi. destruct (Hs i c Hi) as (k & ? & ? & ?). exists k. split; [done|]. split; [lia|done].
    + intros k Hk Hne. apply Hc; [|done]. assert (k ≠ n) by congruence. lia.
  - destruct (copy_encode (page n cur) 3) as [c|] eqn:Ec; [|done]. injection H as <-. split.
    + intros i c' Hi. destruct (decide (i = Z.of_nat n)) as [->|Hne].
      * rewrite lookup_insert_eq in Hi. injection Hi as <-. exists n. split_and!; try done. lia.
      * rewrite lookup_insert_ne in Hi by done.
        destruct (Hs i c' Hi) as (k & ? & ? & ?). exists k. split; [done|]. split; [lia|done].
    + intros k Hk Hne. destruct (decide (k = n)) as [->|]; [rewrite lookup_insert_eq; eauto|].
      rewrite lookup_insert_ne by lia. apply Hc; [lia|done].
Qed.

(** The stored pages are exactly the changed ones. *)
Lemma compute_dirty_pages_spec base cur dirty :
  indexable base → compute_dirty_pages base cur = Ok dirty →
  length base = length cur
  ∧ (∀ i c, dirty !! i = Some c → ∃ k, i = Z.of_nat k ∧ (k * PAGE_SIZE < length base)%nat
       ∧ page k base ≠ page k cur ∧ copy_encode (page k cur) 3 = Some c)
  ∧ ∀ k, page k base ≠ page k cur → is_Some (dirty !! Z.of_nat k).
Proof.
  intros Hix. unfold compute_dirty_pages.
  destruct (Nat.eqb_spec (length base) (length cur)) as [Hl|]; cbn [negb]; [|done].
  intros H%compute_upto; [|done..]. destruct H as [Hs Hc]. split; [done|]. split.
  - intros i c Hi. destruct (Hs i c Hi) as (k & -> & Hk%pages_below_ceil & ? & ?). eauto.
  - intros k Hne. apply Hc; [|done]. apply pages_below_ceil.
    destruct (decide (k * PAGE_SIZE < length base)%nat); [done|].
    rewrite !page_nil in Hne by lia. done.
Qed.

(** When the codec does not fail, two memories of one length always have a diff. *)
Lemma compute_dirty_pages_total base cur :
  (∀ data, is_Some (copy_encode data 3)) → length base = length cur →
  ∃ dirty, compute_dirty_pages base cur = Ok dirty.
Proof.
  intros Hz Hl. unfold compute_dirty_pages. rewrite (proj2 (Nat.eqb_eq _ _) Hl). cbn [negb].
  generalize (seq 0 (div_ceil (length base) PAGE_SIZE)). intros ks.
  generalize (∅ : gmap Z (list byte)). induction ks as [|k ks IH]; intros d; cbn; [eauto|].
  assert (∃ d', dirty_page base cur d k = Ok d') as [d' ->]; [|apply IH].
  unfold dirty_page. case_decide; [eauto|].
  match goal with |- context [copy_encode ?p 3] => destruct (Hz p) as [c ->] end. eauto.
Qed.

Context `{L : !ZstdLaws Zs} `{Hi : HashIter}.

(** The overlay of the dirty pages is the current memory. *)
Lemma dirty_overlaid base cur dirty :
  indexable base → compute_dirty_pages base cur = Ok dirty →
  map_Forall (λ i _, 0 ≤ i) dirty
  ∧ map_Forall (λ i c, entry_ok (length base) i c) dirty ∧ overlaid base dirty cur.
Proof.
  intros Hix H. destruct (compute_dirty_pages_spec _ _ _ Hix H) as (Hl & Hs & Hc).
  split_and!.
  - intros i c Hic. destruct (Hs i c Hic) as (k & -> & _). lia.
  - intros i c Hic. destruct (Hs i c Hic) as (k & -> & Hk & _ & He).
    split; [by rewrite Nat2Z.id|]. exists (page k cur). apply zstd_roundtrip in He.
    rewrite page_length, Nat2Z.id, Hl. done.
  - split; [done|]. intros k. destruct (dirty !! Z.of_nat k) as [c|] eqn:E.
    + destruct (Hs _ _ E) as (k' & <-%Nat2Z.inj & _ & _ & He). by rewrite (zstd_roundtrip _ _ _ He).
    + destruct (decide (page k base = page k cur)) as [|Hne]; [done|].
      destruct (Hc k Hne). congruence.
Qed.

Lemma diff_new_apply base cur b st md g id now d :
  indexable base → diff_new b base cur st md g id now = Ok d → apply_diff base d = Ok cur.
Proof.
  intros Hix. unfold diff_new. intros (dirty & Hd & [= <-])%result_bind_Ok.
  destruct (dirty_overlaid _ _ _ Hix Hd) as (Hpos & Hok & Hov).
  apply apply_diff_Ok; [done|]. split_and!; [|done|done].
  apply compute_dirty_pages_spec in Hd as [Hl _]; [|done]. cbn. unfold len. by rewrite Hl.
Qed.
End Compute.

(** A run of diffs, each taken against the memory before it. *)
Inductive recorded `{Zs : ZstdLib} : list byte → list DiffSnapshot → list byte → Prop :=
| recorded_nil m : recorded m [] m
| recorded_cons m m' m'' b st md g id now d ds :
    diff_new b m m' st md g id now = Ok d → recorded m' ds m'' → recorded m (d :: ds) m''.

Lemma apply_diff_chain_cons `{Zs : ZstdLib} `{Hi : HashIter} m d ds :
  apply_diff_chain m (d :: ds) = result_bind (apply_diff m d) (λ m', apply_diff_chain m' ds).
Proof.
  unfold apply_diff_chain. cbn. destruct (apply_diff m d) as [m'|e]; [done|]. cbn.
  induction ds as [|d' ds IH]; done.
Qed.

Lemma apply_diff_chain_app `{Zs : ZstdLib} `{Hi : HashIter} m ds1 ds2 :
  apply_diff_chain m (ds1 ++ ds2) = result_bind (apply_diff_chain m ds1) (λ m', apply_diff_chain m' ds2).
Proof.
  revert m. induction ds1 as [|d ds1 IH]; intros m; [done|].
  cbn [app]. rewrite !apply_diff_chain_cons. destruct (apply_diff m d); [|done]. apply IH.
Qed.

(** ** Properties *)

(** A differential snapshot reproduces the memory it was taken of: overlaying it
    on its base gives the current memory byte for byte, whatever order the hash map
    yields its pages in; it stores a page exactly when that page changed, and
    taking it fails exactly on memories of different sizes (or in the codec). *)
Theorem diff_roundtrip `{Zs : ZstdLib} `{L : !ZstdLaws Zs} `{Hi : HashIter} (b id : Uuid)
    (base cur : list byte) (st : ExecutionState) (md : SnapshotMetadata) (g : Z) (now : DateTime) :
  indexable base → (∀ data, is_Some (copy_encode data 3)) →
  match diff_new b base cur st md g id now with
  | Ok d => length base = length cur ∧ apply_diff base d = Ok cur
      ∧ (∀ k, is_Some (d.(dirty_pages) !! Z.of_nat k) ↔ page k base ≠ page k cur)
  | Err e => length base ≠ length cur ∧ category e = category (SnapshotCreateFailed (Lit "e"))
  end.
Proof.
  intros Hix Hz. destruct (decide (length base = length cur)) as [Hl|Hl].
  - destruct (compute_dirty_pages_total base cur Hz Hl) as [dirty Hd].
    pose proof (compute_dirty_pages_spec _ _ _ Hix Hd) as (_ & Hs & Hc).
    destruct (diff_new b base cur st md g id now) as [d|e] eqn:E.
    + split; [done|]. split; [by eapply diff_new_apply|].
      unfold diff_new in E. rewrite Hd in E. injection E as <-. cbn. intros k. split; [|apply Hc].
      intros [c Hk]. by destruct (Hs _ _ Hk) as (k' & ->%Nat2Z.inj & _ & ? & _).
    + unfold diff_new in E. by rewrite Hd in E.
  - unfold diff_new, compute_dirty_pages. by rewrite (proj2 (Nat.eqb_neq _ _) Hl).
Qed.

(** [apply_diff] on any diff, well made or not: it succeeds exactly when the sizes
    agree and every stored page is in bounds and decodes to the page's length, and
    the result then has the base's size, the decoded pages where the diff has
    entries and the base's bytes everywhere else, in any iteration order. *)
Theorem apply_diff_iff `{Zs : ZstdLib} `{Hi : HashIter} (base r : list byte) (d : DiffSnapshot) :
  map_Forall (λ i _, is_u32 i) d.(dirty_pages) →
  apply_diff base d = Ok r ↔
  len base = d.(total_memory_size)
  ∧ map_Forall (λ i c, entry_ok (length base) i c) d.(dirty_pages)
  ∧ overlaid base d.(dirty_pages) r.
Proof.
  intros Hu. apply apply_diff_Ok. eapply map_Forall_impl; [done|]. intros i c [? _]. done.
Qed.

(** A chain of diffs, each recorded against the state before it, rebuilds the
    last state from the first. *)
Theorem diff_chain_roundtrip `{Zs : ZstdLib} `{L : !ZstdLaws Zs} `{Hi : HashIter}
    (m m' : list byte) (ds : list DiffSnapshot) :
  indexable m → recorded m ds m' → apply_diff_chain m ds = Ok m'.
Proof.
  intros Hix H. induction H as [|m m1 m2 b st md g id now d ds Hd _ IH]; [done|].
  rewrite apply_diff_chain_cons, (diff_new_apply _ _ _ _ _ _ _ _ _ Hix Hd). apply IH.
  unfold diff_new in Hd. apply result_bind_Ok in Hd as (dirty & Hd & _).
  apply compute_dirty_pages_spec in Hd as [Hl _]; [|done]. unfold indexable, len in *. by rewrite <- Hl.
Qed.

(** ** Concrete memories *)

#[export] Instance toy_hash_iter : HashIter.
Proof. refine {| hash_iter m := reverse (map_to_list m) |}. intros m. apply reverse_Permutation. Defined.

Definition toy_state : ExecutionState := {| captured_globals := []; captured_tables := [] |}.
Definition toy_meta : SnapshotMetadata := SnapshotMetadata_new "op" "hash".
(** Two pages and a half; the second memory differs in the last two. *)
Definition toy_mem (b : byte) : list byte :=
  replicate 4096 x00 ++ replicate 6000 b.
Definition toy_diff (a b : byte) : result DiffSnapshot NexusError :=
  diff_new (Zs := ToyZstd.zstd) 1 (toy_mem a) (toy_mem b) toy_state toy_meta 1 2 0.

Lemma diff_roundtrip_witness :
  match toy_diff x01 x02 with
  | Ok d => length (toy_mem x01) = length (toy_mem x02)
      ∧ apply_diff (Zs := ToyZstd.zstd) (toy_mem x01) d = Ok (toy_mem x02)
      ∧ (∀ k, is_Some (d.(dirty_pages) !! Z.of_nat k) ↔ page k (toy_mem x01) ≠ page k (toy_mem x02))
  | Err e => length (toy_mem x01) ≠ length (toy_mem x02)
      ∧ category e = category (SnapshotCreateFailed (Lit "e"))
  end.
Proof.
  apply (diff_roundtrip (L := ToyZstd.zstd_laws) 1 2 (toy_mem x01) (toy_mem x02) toy_state toy_meta 1 0).
  - vm_compute. discriminate.
  - intros data. eexists. reflexivity.
Defined.

(** The empty diff gives the base back; a page index past the end is refused. *)
Definition toy_patch (pages : gmap Z (list byte)) : DiffSnapshot :=
  {| diff_id := 2; base_id := 1; diff_timestamp := 0; dirty_pages := pages;
     dirty_count := Z.of_nat (size pages); total_memory_size := 3;
     diff_execution_state := toy_state; diff_metadata := toy_meta; generation := 1 |}.

Lemma apply_diff_iff_witness :
  apply_diff (Zs := ToyZstd.zstd) [x01; x02; x03] (toy_patch {[0 := [x28; x07; x08; x09]]})
    = Ok [x07; x08; x09]
  ∧ overlaid (Zs := ToyZstd.zstd) [x01; x02; x03] {[0 := [x28; x07; x08; x09]]} [x07; x08; x09].
Proof.
  assert (apply_diff (Zs := ToyZstd.zstd) [x01; x02; x03] (toy_patch {[0 := [x28; x07; x08; x09]]})
    = Ok [x07; x08; x09]) as H by (vm_compute; reflexivity).
  split; [exact H|].
  refine (proj2 (proj2 (proj1 (apply_diff_iff (Zs := ToyZstd.zstd) [x01; x02; x03] [x07; x08; x09]
            (toy_patch {[0 := [x28; x07; x08; x09]]}) _) H))).
  apply map_Forall_singleton. vm_compute. split; discriminate.
Defined.

Lemma diff_chain_roundtrip_witness :
  ∃ d1 d2, toy_diff x01 x02 = Ok d1 ∧ toy_diff x02 x03 = Ok d2
    ∧ apply_diff_chain (Zs := ToyZstd.zstd) (toy_mem x01) [d1; d2] = Ok (toy_mem x03).
Proof.
  destruct (toy_diff x01 x02) as [d1|] eqn:E1; [|vm_compute in E1; discriminate E1].
  destruct (toy_diff x02 x03) as [d2|] eqn:E2; [|vm_compute in E2; discriminate E2].
  exists d1, d2. split; [reflexivity|]. split; [reflexivity|].
  apply (diff_chain_roundtrip (L := ToyZstd.zstd_laws)).
  - vm_compute. discriminate.
  - eapply recorded_cons; [exact E1|]. eapply recorded_cons; [exact E2|]. apply recorded_nil.
Defined.
