(* ===== verification/SnapshotManager.v ===== *)
(** * The snapshot manager: the second half of [src/snapshot/manager.rs]

    Each method is one function of the manager's state; the read-write locks are
    not modelled, the operations are taken one at a time.  The persistence
    directory is the map [disk] from snapshot identifiers to file contents; bincode,
    SHA-256 and whether a file can be written or read are the interface [SnapEnv].
    The new UUID, the clock and the elapsed microseconds are arguments. *)

From S2P Require Import Prelude Errors Floats Compression Snapshot Differential.

Class SnapEnv := {
  sha256_hex : list byte → string;
  snap_serialize : Snapshot → option (list byte);
  snap_deserialize : list byte → option Snapshot;
  disk_writable : Uuid → bool;
  disk_readable : Uuid → bool;
}.

Class SnapEnvLaws (E : SnapEnv) : Prop := {
  snap_codec_roundtrip s bytes : snap_serialize s = Some bytes → snap_deserialize bytes = Some s;
}.

Definition DEFAULT_MAX_DIFF_DEPTH : Z := 8.

Record SnapshotStats := {
  total_snapshots : Z;
  total_rollbacks : Z;
  total_memory_saved_mb : f64;
  avg_compression_ratio : f64;
  last_snapshot_time_us : Z;
}.
Definition SnapshotStats_default : SnapshotStats :=
  {| total_snapshots := 0; total_rollbacks := 0; total_memory_saved_mb := f64_of_Z 0;
     avg_compression_ratio := f64_of_Z 0; last_snapshot_time_us := 0 |}.

Record SnapshotManager := {
  buffer : SnapshotRingBuffer;
  diff_buffer : list DiffSnapshot;
  max_diff_depth : Z;
  persist_enabled : bool;
  persist_dir : option string;
  stats : SnapshotStats;
  disk : gmap Uuid (list byte);
}.

Inductive DiffSnapshotResult := Diff (d : DiffSnapshot) | Promoted (s : Snapshot).

Record RollbackResult := {
  rb_snapshot_id : Uuid;
  rb_memory : list byte;
  rb_execution_state : ExecutionState;
  rb_fs_operations : list RevertOperation;
  rb_timestamp : DateTime;
}.

(** [new], [with_persistence] and [with_max_diff_depth]. *)
Definition manager_with (capacity : nat) (depth : Z) (persist : bool) (dir : option string)
  : SnapshotManager :=
  {| buffer := ring_new capacity; diff_buffer := []; max_diff_depth := depth;
     persist_enabled := persist; persist_dir := dir; stats := SnapshotStats_default; disk := ∅ |}.
Definition snapshot_manager_new (capacity : nat) : SnapshotManager :=
  manager_with capacity DEFAULT_MAX_DIFF_DEPTH false None.
Definition with_persistence (capacity : nat) (dir : string) : SnapshotManager :=
  manager_with capacity DEFAULT_MAX_DIFF_DEPTH true (Some dir).
Definition with_max_diff_depth (capacity : nat) (depth : Z) : SnapshotManager :=
  manager_with capacity depth false None.

Definition set_buffer (m : SnapshotManager) (b : SnapshotRingBuffer) : SnapshotManager :=
  {| buffer := b; diff_buffer := m.(diff_buffer); max_diff_depth := m.(max_diff_depth);
     persist_enabled := m.(persist_enabled); persist_dir := m.(persist_dir);
     stats := m.(stats); disk := m.(disk) |}.
Definition set_diffs (m : SnapshotManager) (ds : list DiffSnapshot) : SnapshotManager :=
  {| buffer := m.(buffer); diff_buffer := ds; max_diff_depth := m.(max_diff_depth);
     persist_enabled := m.(persist_enabled); persist_dir := m.(persist_dir);
     stats := m.(stats); disk := m.(disk) |}.
Definition set_stats (m : SnapshotManager) (s : SnapshotStats) : SnapshotManager :=
  {| buffer := m.(buffer); diff_buffer := m.(diff_buffer); max_diff_depth := m.(max_diff_depth);
     persist_enabled := m.(persist_enabled); persist_dir := m.(persist_dir);
     stats := s; disk := m.(disk) |}.
Definition set_disk (m : SnapshotManager) (d : gmap Uuid (list byte)) : SnapshotManager :=
  {| buffer := m.(buffer); diff_buffer := m.(diff_buffer); max_diff_depth := m.(max_diff_depth);
     persist_enabled := m.(persist_enabled); persist_dir := m.(persist_dir);
     stats := m.(stats); disk := d |}.

(** The statistics update of [create_snapshot]. *)
Definition count_snapshot (st : SnapshotStats) (s : Snapshot) (elapsed_us : Z) : SnapshotStats :=
  let n := wrap64 (st.(total_snapshots) + 1) in
  {| total_snapshots := n;
     total_rollbacks := st.(total_rollbacks);
     total_memory_saved_mb :=
       f64_add st.(total_memory_saved_mb)
         (f64_div (f64_of_Z (saturating_sub s.(original_size) s.(compressed_size))) (f64_of_Z 1048576));
     avg_compression_ratio :=
       f64_div
         (f64_add (f64_mul st.(avg_compression_ratio) (f64_of_Z (wrap64 (n - 1))))
            (snapshot_compression_ratio s))
         (f64_of_Z n);
     last_snapshot_time_us := wrap64 elapsed_us |}.

(** The statistics update of the two rollbacks. *)
Definition count_rollback (m : SnapshotManager) : SnapshotManager :=
  let st := m.(stats) in
  set_stats m {| total_snapshots := st.(total_snapshots);
                 total_rollbacks := wrap64 (st.(total_rollbacks) + 1);
                 total_memory_saved_mb := st.(total_memory_saved_mb);
                 avg_compression_ratio := st.(avg_compression_ratio);
                 last_snapshot_time_us := st.(last_snapshot_time_us) |}.

Definition latest (m : SnapshotManager) : option Snapshot := ring_latest m.(buffer).
Definition diff_snapshot_count (m : SnapshotManager) : nat := length m.(diff_buffer).
Definition snapshot_content_digest (m : SnapshotManager) (id : Uuid) : option string :=
  memory_checksum <$> ring_get m.(buffer) id.

(** [diff_buf.iter().find(|d| d.id == id)] *)
Definition find_diff (ds : list DiffSnapshot) (id : Uuid) : option DiffSnapshot :=
  snd <$> list_find (λ d, d.(diff_id) = id) ds.

Section Manager.
Context `{Zs : ZstdLib} `{Hi : HashIter} `{E : SnapEnv}.

Definition persist_snapshot (m : SnapshotManager) (s : Snapshot)
  : SnapshotManager * result () NexusError :=
  match m.(persist_dir) with
  | None => (m, Err (ConfigError (Lit "No persistence directory set")))
  | Some _ =>
      match snap_serialize s with
      | None => (m, Err (SerializationError (Fmt "Failed to serialize: {}" [AOpaque])))
      | Some bytes =>
          if disk_writable s.(snap_id)
          then (set_disk m (<[s.(snap_id) := bytes]> m.(disk)), Ok ())
          else (m, Err (FilesystemError (Fmt "Failed to write: {}" [AOpaque])))
      end
  end.

(** [create_snapshot]: a failing write leaves the snapshot in the buffer. *)
Definition create_snapshot (m : SnapshotManager) (memory : list byte) (fs : FilesystemDiff)
    (st : ExecutionState) (md : SnapshotMetadata) (id : Uuid) (now : DateTime) (elapsed_us : Z)
  : SnapshotManager * result Snapshot NexusError :=
  match snapshot_new sha256_hex memory fs st md id now with
  | Err e => (m, Err e)
  | Ok snapshot =>
      let m := set_stats m (count_snapshot m.(stats) snapshot elapsed_us) in
      let m := set_buffer m (ring_push m.(buffer) snapshot) in
      if m.(persist_enabled)
      then let '(m, r) := persist_snapshot m snapshot in (m, let? _ := r in Ok snapshot)
      else (m, Ok snapshot)
  end.

Definition rollback_to (m : SnapshotManager) (snapshot_id : Uuid) (now : DateTime)
  : SnapshotManager * result RollbackResult NexusError :=
  match ring_get m.(buffer) snapshot_id with
  | None => (m, Err (RollbackFailed (Fmt "Snapshot {} not found" [AOpaque])))
  | Some snapshot =>
      match decompress_memory snapshot with
      | Err e => (m, Err e)
      | Ok memory =>
          (count_rollback m,
           Ok {| rb_snapshot_id := snapshot_id; rb_memory := memory;
                 rb_execution_state := snapshot.(snap_execution_state);
                 rb_fs_operations := revert snapshot.(fs_changes); rb_timestamp := now |})
      end
  end.

(** The loop that collects the chain of diffs down to a full snapshot, one unit of
    fuel per turn: [None] when the fuel runs out. *)
Fixpoint walk (fuel : nat) (m : SnapshotManager) (broken : NexusError) (current_base : Uuid)
    (chain : list DiffSnapshot) : option (result (Uuid * list DiffSnapshot) NexusError) :=
  match fuel with
  | O => None
  | S fuel' =>
      match ring_get m.(buffer) current_base with
      | Some _ => Some (Ok (current_base, chain))
      | None =>
          match find_diff m.(diff_buffer) current_base with
          | None => Some (Err broken)
          | Some parent => walk fuel' m broken parent.(base_id) (chain ++ [parent])
          end
      end
  end.

(** The shared end of [rollback_to_diff] and [reconstruct_memory_for]: walk from
    [target], decompress the base, apply the chain oldest first. *)
Definition chain_memory (m : SnapshotManager) (broken missing : NexusError) (target : DiffSnapshot)
  : option (result (list byte) NexusError) :=
  match walk (S (length m.(diff_buffer))) m broken target.(base_id) [target] with
  | None => None
  | Some (Err e) => Some (Err e)
  | Some (Ok (current_base, chain)) =>
      Some (let? base_snap := ok_or (ring_get m.(buffer) current_base) missing in
            let? base_memory := decompress_memory base_snap in
            apply_diff_chain base_memory (reverse chain))
  end.

Definition rollback_to_diff (m : SnapshotManager) (id : Uuid) (now : DateTime)
  : option (SnapshotManager * result RollbackResult NexusError) :=
  match find_diff m.(diff_buffer) id with
  | None => Some (m, Err (RollbackFailed (Fmt "Diff snapshot {} not found" [AOpaque])))
  | Some target_diff =>
      match chain_memory m (RollbackFailed (Fmt "Diff chain broken: cannot find snapshot {}" [AOpaque]))
              (RollbackFailed (Fmt "Base snapshot {} not found" [AOpaque])) target_diff with
      | None => None
      | Some (Err e) => Some (m, Err e)
      | Some (Ok memory) =>
          Some (count_rollback m,
                Ok {| rb_snapshot_id := id; rb_memory := memory;
                      rb_execution_state := target_diff.(diff_execution_state);
                      rb_fs_operations := []; rb_timestamp := now |})
      end
  end.

Definition reconstruct_memory_for (m : SnapshotManager) (id : Uuid)
  : option (result (list byte) NexusError) :=
  match ring_get m.(buffer) id with
  | Some snap => Some (decompress_memory snap)
  | None =>
      match find_diff m.(diff_buffer) id with
      | None => Some (Err (RollbackFailed (Fmt "Snapshot {} not found in any buffer" [AOpaque])))
      | Some target =>
          chain_memory m (RollbackFailed (Fmt "Diff chain broken at {}" [AOpaque]))
            (RollbackFailed (Fmt "base snapshot {current_base} was evicted before diff reconstruction completed"
               [AOpaque])) target
      end
  end.

(** The generation a diff against [base] gets. *)
Definition next_generation (m : SnapshotManager) (base : Uuid) : Z :=
  match find_diff m.(diff_buffer) base with
  | Some d => wrap32 (d.(generation) + 1)
  | None => 1
  end.
Definition promotes (m : SnapshotManager) (base : Uuid) : bool :=
  m.(max_diff_depth) <? next_generation m base.

Definition create_diff_snapshot (m : SnapshotManager) (current_memory : list byte) (base : Uuid)
    (st : ExecutionState) (md : SnapshotMetadata) (id : Uuid) (now : DateTime) (elapsed_us : Z)
  : option (SnapshotManager * result DiffSnapshotResult NexusError) :=
  if promotes m base
  then
    let '(m, r) := create_snapshot m current_memory FilesystemDiff_new st md id now elapsed_us in
    Some (m, let? full := r in Ok (Promoted full))
  else
    match reconstruct_memory_for m base with
    | None => None
    | Some (Err e) => Some (m, Err e)
    | Some (Ok base_memory) =>
        match diff_new base base_memory current_memory st md (next_generation m base) id now with
        | Err e => Some (m, Err e)
        | Ok diff => Some (set_diffs m (m.(diff_buffer) ++ [diff]), Ok (Diff diff))
        end
    end.

Definition MAX_SNAPSHOT_BYTES : Z := 256 * 1024 * 1024.

Definition load_snapshot (m : SnapshotManager) (snapshot_id : Uuid) : result (option Snapshot) NexusError :=
  let? _ := ok_or m.(persist_dir) (ConfigError (Lit "No persistence directory set")) in
  match m.(disk) !! snapshot_id with
  | None => Ok None
  | Some bytes =>
      if negb (disk_readable snapshot_id)
      then Err (FilesystemError (Fmt "Failed to read: {}" [AOpaque]))
      else if MAX_SNAPSHOT_BYTES <? len bytes
      then Err (SerializationError (Fmt "snapshot file too large ({} bytes; max {MAX_SNAPSHOT_BYTES})"
                  [ANum (len bytes)]))
      else
        let? snapshot := ok_or (snap_deserialize bytes)
                           (SerializationError (Fmt "Failed to deserialize: {}" [AOpaque])) in
        Ok (Some snapshot)
  end.
End Manager.

(** ** Specification: the log of memories

    The ghost state records the memory each snapshot identifier was taken of, and
    every full snapshot that entered the ring, in order. *)

Record Ghost := { g_log : gmap Uuid (list byte); g_full : list Snapshot }.
Definition ghost_empty : Ghost := {| g_log := ∅; g_full := [] |}.

Definition log_diff (g : Ghost) (id : Uuid) (memory : list byte) : Ghost :=
  {| g_log := <[id := memory]> g.(g_log); g_full := g.(g_full) |}.
Definition log_full (g : Ghost) (id : Uuid) (memory : list byte) (s : result Snapshot NexusError) : Ghost :=
  {| g_log := <[id := memory]> g.(g_log);
     g_full := match s with Ok s => g.(g_full) ++ [s] | Err _ => g.(g_full) end |}.

(** A snapshot identifier from which memory can still be rebuilt. *)
Inductive rooted (m : SnapshotManager) : Uuid → Prop :=
| rooted_full id s : ring_get m.(buffer) id = Some s → rooted m id
| rooted_diff id d : find_diff m.(diff_buffer) id = Some d → rooted m d.(base_id) → rooted m id.

Section Spec.
Context `{Zs : ZstdLib} `{Hi : HashIter} `{E : SnapEnv}.

(** One operation, with a fresh identifier and a memory below 16 TiB. *)
Inductive mstep : SnapshotManager * Ghost → SnapshotManager * Ghost → Prop :=
| ms_create m g memory fs st md id now el m' r :
    g.(g_log) !! id = None → indexable memory →
    create_snapshot m memory fs st md id now el = (m', r) →
    mstep (m, g) (m', log_full g id memory (snapshot_new sha256_hex memory fs st md id now))
| ms_diff m g memory base st md id now el m' r :
    g.(g_log) !! id = None → indexable memory →
    create_diff_snapshot m memory base st md id now el = Some (m', r) →
    mstep (m, g) (m', if promotes m base
                      then log_full g id memory
                             (snapshot_new sha256_hex memory FilesystemDiff_new st md id now)
                      else log_diff g id memory)
| ms_rollback m g id now m' r : rollback_to m id now = (m', r) → mstep (m, g) (m', g)
| ms_rollback_diff m g id now m' r :
    rollback_to_diff m id now = Some (m', r) → mstep (m, g) (m', g).

Inductive reach (start : SnapshotManager) : SnapshotManager * Ghost → Prop :=
| reach_start : reach start (start, ghost_empty)
| reach_step a b : reach start a → mstep a b → reach start b.

(** ** The invariant *)

Record diff_ok (m : SnapshotManager) (g : Ghost) (i : nat) (d : DiffSnapshot) : Prop := {
  dok_apply : ∃ bm cm, g.(g_log) !! d.(base_id) = Some bm ∧ g.(g_log) !! d.(diff_id) = Some cm
                ∧ apply_diff bm d = Ok cm;
  dok_not_full : d.(diff_id) ∉ ids g.(g_full);
  dok_base : (d.(base_id) ∈ ids g.(g_full) ∧ d.(generation) = 1)
             ∨ ∃ j p, (j < i)%nat ∧ m.(diff_buffer) !! j = Some p ∧ p.(diff_id) = d.(base_id)
                   ∧ d.(generation) = p.(generation) + 1;
  dok_gen : 1 ≤ d.(generation) ≤ m.(max_diff_depth);
}.

Record minv (m : SnapshotManager) (g : Ghost) : Prop := {
  mi_ring : ring_ok m.(buffer) g.(g_full);
  mi_nodup : NoDup (ids g.(g_full));
  mi_full s : s ∈ g.(g_full) → ∃ mem, g.(g_log) !! s.(snap_id) = Some mem
                ∧ copy_decode s.(snap_memory) = Some mem;
  mi_log id mem : g.(g_log) !! id = Some mem → indexable mem;
  mi_diffs i d : m.(diff_buffer) !! i = Some d → diff_ok m g i d;
  mi_diff_nodup : NoDup (diff_id <$> m.(diff_buffer));
  mi_depth : m.(max_diff_depth) < U32_MAX;
}.

Lemma find_diff_Some ds id d :
  NoDup (diff_id <$> ds) → find_diff ds id = Some d ↔ d ∈ ds ∧ d.(diff_id) = id.
Proof.
  intros Hnd. unfold find_diff. rewrite fmap_Some. split.
  - intros ([i d'] & (Hdi & <- & _)%list_find_Some & ->). split; [|done].
    by eapply list_elem_of_lookup_2.
  - intros [Hin Hid]. destruct (list_find_elem_of (λ d, diff_id d = id) ds d Hin Hid) as [[i d'] Hf].
    exists (i, d'). split; [done|]. apply list_find_Some in Hf as (Hd' & Hid' & _). cbn.
    apply list_elem_of_lookup in Hin as [j Hj].
    assert (i = j) as ->.
    { apply (NoDup_lookup (diff_id <$> ds) i j id Hnd); rewrite list_lookup_fmap.
      - rewrite Hd'. cbn. by rewrite Hid'.
      - rewrite Hj. cbn. by rewrite Hid. }
    congruence.
Qed.

Lemma ring_get_full m g id s :
  minv m g → ring_get m.(buffer) id = Some s →
  id ∈ ids g.(g_full) ∧ ∃ mem, g.(g_log) !! id = Some mem ∧ copy_decode s.(snap_memory) = Some mem.
Proof.
  intros Hm Hs. apply (ring_get_spec _ _ _ _ (mi_ring _ _ Hm) (mi_nodup _ _ Hm)) in Hs as [Hs <-].
  apply window_suffix in Hs. split; [|by apply (mi_full _ _ Hm)]. by apply list_elem_of_fmap_2.
Qed.

Lemma find_diff_index m g id d :
  minv m g → find_diff m.(diff_buffer) id = Some d →
  d.(diff_id) = id ∧ ∃ i, m.(diff_buffer) !! i = Some d ∧ diff_ok m g i d.
Proof.
  intros Hm Hd. apply find_diff_Some in Hd as [Hd <-]; [|apply Hm]. split; [done|].
  apply list_elem_of_lookup in Hd as [i Hd]. exists i. split; [done|]. by apply (mi_diffs _ _ Hm).
Qed.

(** A full snapshot's identifier is never a diff's. *)
Lemma full_not_diff m g id :
  minv m g → id ∈ ids g.(g_full) → find_diff m.(diff_buffer) id = None.
Proof.
  intros Hm Hid. destruct (find_diff _ id) as [d|] eqn:Ed; [|done].
  destruct (find_diff_index _ _ _ _ Hm Ed) as (<- & i & _ & Hok). by destruct (dok_not_full _ _ _ _ Hok).
Qed.

(** The parent found for a diff is an earlier one. *)
Lemma parent_earlier m g i d p :
  minv m g → m.(diff_buffer) !! i = Some d → find_diff m.(diff_buffer) d.(base_id) = Some p →
  ∃ j, (j < i)%nat ∧ m.(diff_buffer) !! j = Some p ∧ d.(generation) = p.(generation) + 1.
Proof.
  intros Hm Hd Hp. pose proof (mi_diffs _ _ Hm i d Hd) as Hok.
  destruct (dok_base _ _ _ _ Hok) as [[Hb _]|(j & p' & Hj & Hp' & Hid & Hg)].
  { by rewrite (full_not_diff _ _ _ Hm Hb) in Hp. }
  exists j. apply (find_diff_Some _ _ _ (mi_diff_nodup _ _ Hm)) in Hp as [[k Hk]%list_elem_of_lookup Hpid].
  assert (j = k) as ->.
  { apply (NoDup_lookup (diff_id <$> diff_buffer m) j k d.(base_id) (mi_diff_nodup _ _ Hm));
      rewrite list_lookup_fmap.
    - rewrite Hp'. cbn. by rewrite Hid.
    - rewrite Hk. cbn. by rewrite Hpid. }
  assert (p' = p) as -> by congruence. done.
Qed.

Lemma walk_spec m g :
  minv m g → ∀ i d, m.(diff_buffer) !! i = Some d → ∀ fuel broken chain, (i < fuel)%nat →
  (∃ root rs rm l bm, walk fuel m broken d.(base_id) chain = Some (Ok (root, chain ++ l))
     ∧ ring_get m.(buffer) root = Some rs ∧ copy_decode rs.(snap_memory) = Some rm
     ∧ g.(g_log) !! d.(base_id) = Some bm ∧ apply_diff_chain rm (reverse l) = Ok bm
     ∧ len l = d.(generation) - 1 ∧ rooted m d.(base_id))
  ∨ (walk fuel m broken d.(base_id) chain = Some (Err broken) ∧ ¬ rooted m d.(base_id)).
Proof.
  intros Hm i. induction (lt_wf i) as [i _ IH]. intros d Hd fuel broken chain Hf.
  destruct fuel as [|fuel]; [lia|]. cbn [walk].
  pose proof (mi_diffs _ _ Hm i d Hd) as Hok.
  destruct (ring_get (buffer m) (base_id d)) as [rs|] eqn:Er.
  - left. destruct (ring_get_full _ _ _ _ Hm Er) as (Hfull & mem & Hlog & Hdec).
    exists (base_id d), rs, mem, [], mem. rewrite app_nil_r. split_and!; try done.
    + destruct (dok_base _ _ _ _ Hok) as [[_ ->]|(j & p & _ & Hp & Hid & _)]; [done|].
      destruct (dok_not_full _ _ _ _ (mi_diffs _ _ Hm j p Hp)). by rewrite Hid.
    + by eapply rooted_full.
  - destruct (find_diff (diff_buffer m) (base_id d)) as [p|] eqn:Ep.
    2:{ right. split; [done|]. intros Hr. inversion Hr; congruence. }
    destruct (parent_earlier _ _ _ _ _ Hm Hd Ep) as (j & Hj & Hp & Hg).
    destruct (find_diff_index _ _ _ _ Hm Ep) as (Hpid & _).
    destruct (IH j Hj p Hp fuel broken (chain ++ [p]) ltac:(lia))
      as [(root & rs & rm & l & bm & Hw & Hrs & Hrm & Hbm & Hap & Hl & Hr)|[Hw Hn]].
    + left. destruct (dok_apply _ _ _ _ (mi_diffs _ _ Hm j p Hp)) as (bm' & cm & Hb' & Hc & Hpa).
      assert (bm' = bm) as -> by congruence. rewrite Hpid in Hc.
      exists root, rs, rm, (p :: l), cm. rewrite Hw, <- (assoc_L (++)).
      split_and!; try done.
      * rewrite reverse_cons, apply_diff_chain_app, Hap. cbn [result_bind].
        rewrite apply_diff_chain_cons, Hpa. done.
      * unfold len in *. cbn [length]. lia.
      * by eapply rooted_diff.
    + right. split; [done|]. intros Hr. inversion Hr as [|? p' Hp' Hr']; [congruence|].
      subst. rewrite Ep in Hp'. by injection Hp' as <-.
Qed.

Lemma chain_memory_spec m g id d broken missing :
  minv m g → find_diff m.(diff_buffer) id = Some d →
  (∃ cm, chain_memory m broken missing d = Some (Ok cm) ∧ g.(g_log) !! id = Some cm
     ∧ rooted m d.(base_id))
  ∨ (chain_memory m broken missing d = Some (Err broken) ∧ ¬ rooted m d.(base_id)).
Proof.
  intros Hm Hd. destruct (find_diff_index _ _ _ _ Hm Hd) as (Hid & i & Hdi & Hok).
  pose proof (lookup_lt_Some _ _ _ Hdi) as Hlt.
  unfold chain_memory.
  destruct (walk_spec m g Hm i d Hdi (S (length (diff_buffer m))) broken [d] ltac:(lia))
    as [(root & rs & rm & l & bm & -> & -> & Hrm & Hbm & Hap & _ & Hr)|[-> Hn]]; [left|by right].
  destruct (dok_apply _ _ _ _ Hok) as (bm' & cm & Hb' & Hc & Hpa).
  assert (bm' = bm) as -> by congruence.
  exists cm. split_and!; [|by rewrite <- Hid|done]. do 2 f_equal.
  cbn [ok_or result_bind app]. unfold decompress_memory. rewrite Hrm. cbn [ok_or result_bind].
  rewrite reverse_cons, apply_diff_chain_app, Hap. cbn [result_bind].
  rewrite apply_diff_chain_cons, Hpa. done.
Qed.

Lemma reconstruct_spec m g id :
  minv m g →
  (∃ mem, reconstruct_memory_for m id = Some (Ok mem) ∧ g.(g_log) !! id = Some mem ∧ rooted m id)
  ∨ (∃ e, reconstruct_memory_for m id = Some (Err e) ∧ ¬ rooted m id).
Proof.
  intros Hm. unfold reconstruct_memory_for.
  destruct (ring_get (buffer m) id) as [s|] eqn:Er.
  { left. destruct (ring_get_full _ _ _ _ Hm Er) as (_ & mem & Hl & Hd). exists mem.
    unfold decompress_memory. rewrite Hd. split_and!; [done|done|by eapply rooted_full]. }
  destruct (find_diff (diff_buffer m) id) as [d|] eqn:Ed.
  2:{ right. eexists. split; [done|]. intros Hr. inversion Hr; congruence. }
  destruct (chain_memory_spec m g id d (RollbackFailed (Fmt "Diff chain broken at {}" [AOpaque]))
    (RollbackFailed (Fmt "base snapshot {current_base} was evicted before diff reconstruction completed"
       [AOpaque])) Hm Ed) as [(cm & -> & Hc & Hr)|[-> Hn]].
  - left. exists cm. split_and!; [done|done|by eapply rooted_diff].
  - right. eexists. split; [done|]. intros Hr. inversion Hr as [|? d' Hd' Hr']; [congruence|].
    subst. rewrite Ed in Hd'. by injection Hd' as <-.
Qed.
End Spec.

(** ** Preservation *)

Section Preserve.
Context `{Zs : ZstdLib} `{L : !ZstdLaws Zs} `{Hi : HashIter} `{E : SnapEnv}.

(** Consuming a fresh identifier disturbs nothing recorded. *)
Lemma diff_ok_log m m' g id mem full i d :
  diff_ok m g i d → m'.(diff_buffer) !! i = m.(diff_buffer) !! i →
  (∀ j, (j < i)%nat → m'.(diff_buffer) !! j = m.(diff_buffer) !! j) →
  m'.(max_diff_depth) = m.(max_diff_depth) →
  g.(g_log) !! id = None → (∀ x, x ∈ ids full ↔ x ∈ ids g.(g_full) ∨ x = id ∧ x ∈ ids full) →
  diff_ok m' {| g_log := <[id := mem]> g.(g_log); g_full := full |} i d.
Proof.
  intros [Ha Hn Hb Hg] Hi' Hj Hdep Hfresh Hfull. constructor; cbn [g_log g_full].
  - destruct Ha as (bm & cm & H1 & H2 & H3). exists bm, cm.
    rewrite !lookup_insert_ne by congruence. done.
  - intros [Hx|[Hx _]]%Hfull; [done|]. destruct Ha as (bm & cm & _ & H2 & _). congruence.
  - destruct Hb as [[Hb ?]|(j & p & Hlt & Hp & ?)].
    + left. split; [|done]. apply Hfull. by left.
    + right. exists j, p. rewrite Hj by done. done.
  - by rewrite Hdep.
Qed.

Lemma create_snapshot_fields m memory fs st md id now el m' r :
  create_snapshot m memory fs st md id now el = (m', r) →
  m'.(diff_buffer) = m.(diff_buffer) ∧ m'.(max_diff_depth) = m.(max_diff_depth)
  ∧ m'.(buffer) = match snapshot_new sha256_hex memory fs st md id now with
                  | Ok s => ring_push m.(buffer) s
                  | Err _ => m.(buffer)
                  end.
Proof.
  unfold create_snapshot. destruct (snapshot_new sha256_hex memory fs st md id now) as [s|e]; [|naive_solver].
  destruct (persist_enabled _); [|by intros [= <- <-]].
  destruct (persist_snapshot _ s) as [m1 r1] eqn:Ep. intros [= <- _]. revert Ep. unfold persist_snapshot.
  repeat case_match; intros [= <- _]; done.
Qed.

Lemma minv_log_full m g memory fs st md id now el m' r :
  minv m g → g.(g_log) !! id = None → indexable memory →
  create_snapshot m memory fs st md id now el = (m', r) →
  minv m' (log_full g id memory (snapshot_new sha256_hex memory fs st md id now)).
Proof.
  intros Hm Hf Hix Hc. apply create_snapshot_fields in Hc as (Hdb & Hdep & Hb).
  assert (id ∉ ids (g_full g)) as Hnew.
  { intros (s & -> & Hs)%list_elem_of_fmap. destruct (mi_full _ _ Hm s Hs) as (? & ? & _). congruence. }
  unfold log_full. destruct (snapshot_new sha256_hex memory fs st md id now) as [s|e] eqn:Es.
  - assert (snap_id s = id ∧ copy_decode (snap_memory s) = Some memory) as [Hid Hdec].
    { revert Es. unfold snapshot_new. destruct (copy_encode memory 3) eqn:Ec; [|done].
      intros [= <-]. cbn. split; [done|]. by eapply zstd_roundtrip. }
    constructor; cbn [g_log g_full].
    + rewrite Hb. apply ring_ok_push, Hm.
    + rewrite fmap_app. apply NoDup_app. split_and!; [apply Hm| |apply NoDup_singleton].
      intros x Hx ->%list_elem_of_singleton. by rewrite Hid in Hx.
    + intros s' [Hs'| ->%list_elem_of_singleton]%elem_of_app.
      * destruct (mi_full _ _ Hm s' Hs') as (mem & ? & ?). exists mem.
        rewrite lookup_insert_ne by congruence. done.
      * exists memory. rewrite Hid, lookup_insert_eq. done.
    + intros id' mem. rewrite lookup_insert_Some. intros [[_ <-]|[_ ?]]; [done|]. by eapply mi_log.
    + intros i d Hd. rewrite Hdb in Hd. eapply diff_ok_log; try (by rewrite Hdb) || done.
      * by apply (mi_diffs _ _ Hm).
      * intros x. rewrite fmap_app, elem_of_app. cbn. rewrite Hid, list_elem_of_singleton. naive_solver.
    + rewrite Hdb. apply Hm.
    + rewrite Hdep. apply Hm.
  - constructor; cbn [g_log g_full]; rewrite ?Hb, ?Hdb, ?Hdep; try apply Hm.
    + intros s Hs. destruct (mi_full _ _ Hm s Hs) as (mem & ? & ?). exists mem.
      rewrite lookup_insert_ne by congruence. done.
    + intros id' mem. rewrite lookup_insert_Some. intros [[_ <-]|[_ ?]]; [done|]. by eapply mi_log.
    + intros i d Hd. eapply diff_ok_log; try (by rewrite Hdb) || done; [by apply (mi_diffs _ _ Hm)|].
      intros x. naive_solver.
Qed.

Lemma minv_log_diff m g id memory :
  minv m g → g.(g_log) !! id = None → indexable memory → minv m (log_diff g id memory).
Proof.
  intros Hm Hf Hix. constructor; cbn [log_diff g_log g_full]; try apply Hm.
  - intros s Hs. destruct (mi_full _ _ Hm s Hs) as (mem & ? & ?). exists mem.
    rewrite lookup_insert_ne by congruence. done.
  - intros id' mem. rewrite lookup_insert_Some. intros [[_ <-]|[_ ?]]; [done|]. by eapply mi_log.
  - intros i d Hd. eapply diff_ok_log; [by apply (mi_diffs _ _ Hm)|done..|]. intros x. naive_solver.
Qed.

(** The new diff of a non-promoting [create_diff_snapshot]. *)
Lemma new_diff_ok m g memory base st md id now mem d :
  minv m g → g.(g_log) !! id = None → promotes m base = false →
  g.(g_log) !! base = Some mem → rooted m base →
  diff_new base mem memory st md (next_generation m base) id now = Ok d →
  diff_ok (set_diffs m (m.(diff_buffer) ++ [d])) (log_diff g id memory) (length m.(diff_buffer)) d
  ∧ d.(diff_id) = id.
Proof.
  intros Hm Hf Hpr Hbase Hr Hd.
  pose proof (diff_new_apply _ _ _ _ _ _ _ _ _ (mi_log _ _ Hm _ _ Hbase) Hd) as Hap.
  unfold diff_new in Hd. apply result_bind_Ok in Hd as (dirty & _ & [= <-]).
  split; [|done]. apply Z.ltb_ge in Hpr.
  assert (∀ p, find_diff (diff_buffer m) base = Some p → next_generation m base = generation p + 1) as Hgen.
  { intros p Hp. unfold next_generation. rewrite Hp. apply wrap32_small.
    destruct (find_diff_index _ _ _ _ Hm Hp) as (_ & i & _ & Hok).
    pose proof (dok_gen _ _ _ _ Hok). pose proof (mi_depth _ _ Hm). unfold is_u32. lia. }
  assert (base ∈ ids (g_full g) ∧ next_generation m base = 1
          ∨ ∃ p, find_diff (diff_buffer m) base = Some p) as Hcase.
  { inversion Hr as [? s Hs|? p Hp _]; subst; [left|right; eauto].
    destruct (ring_get_full _ _ _ _ Hm Hs) as [Hfull _]. split; [done|].
    unfold next_generation. by rewrite (full_not_diff _ _ _ Hm Hfull). }
  constructor; cbn [base_id diff_id generation log_diff g_log g_full set_diffs diff_buffer max_diff_depth].
  - exists mem, memory. rewrite lookup_insert_eq, lookup_insert_ne by congruence. done.
  - intros (s & -> & Hs)%list_elem_of_fmap. destruct (mi_full _ _ Hm s Hs) as (? & ? & _). congruence.
  - destruct Hcase as [?|[p Hp]]; [by left|right].
    destruct (find_diff_index _ _ _ _ Hm Hp) as (Hpid & j & Hj & _).
    pose proof (lookup_lt_Some _ _ _ Hj). exists j, p. rewrite lookup_app_l by done. auto.
  - split; [|done]. destruct Hcase as [[_ ->]|[p Hp]]; [lia|].
    destruct (find_diff_index _ _ _ _ Hm Hp) as (_ & i & _ & Hok).
    rewrite (Hgen p Hp). pose proof (dok_gen _ _ _ _ Hok). lia.
Qed.

Lemma minv_diff m g memory base st md id now el m' r :
  minv m g → g.(g_log) !! id = None → indexable memory →
  create_diff_snapshot m memory base st md id now el = Some (m', r) →
  minv m' (if promotes m base
           then log_full g id memory (snapshot_new sha256_hex memory FilesystemDiff_new st md id now)
           else log_diff g id memory).
Proof.
  intros Hm Hf Hix. unfold create_diff_snapshot. destruct (promotes m base) eqn:Hpr.
  { destruct (create_snapshot m memory FilesystemDiff_new st md id now el) as [m1 r1] eqn:Ec.
    intros [= <- _]. by eapply minv_log_full. }
  destruct (reconstruct_spec m g base Hm) as [(mem & -> & Hbase & Hr)|(e & -> & _)].
  2:{ intros [= <- _]. by apply minv_log_diff. }
  destruct (diff_new _ _ _ _ _ _ _ _) as [d|e] eqn:Ed; intros [= <- _]; [|by apply minv_log_diff].
  destruct (new_diff_ok _ _ _ _ _ _ _ _ _ _ Hm Hf Hpr Hbase Hr Ed) as [Hok Hid].
  pose proof (minv_log_diff _ _ _ _ Hm Hf Hix) as Hm'.
  constructor; try apply Hm'.
  - intros i d'. cbn [set_diffs diff_buffer]. rewrite lookup_app_Some.
    intros [Hd'|[Hi' Hd']].
    + pose proof (lookup_lt_Some _ _ _ Hd'). apply (diff_ok_log m _ g id memory (g_full g)).
      * by apply (mi_diffs _ _ Hm).
      * cbn. by rewrite lookup_app_l.
      * intros j Hj. cbn. rewrite lookup_app_l; [done|lia].
      * done.
      * done.
      * intros x. naive_solver.
    + apply list_lookup_singleton_Some in Hd' as [Hi0 <-].
      by replace i with (length (diff_buffer m)) by lia.
  - cbn [set_diffs diff_buffer]. rewrite fmap_app. apply NoDup_app. split_and!; [apply Hm| |apply NoDup_singleton].
    intros x (d' & -> & [i Hd']%list_elem_of_lookup)%list_elem_of_fmap Hx%list_elem_of_singleton.
    destruct (dok_apply _ _ _ _ (mi_diffs _ _ Hm i d' Hd')) as (? & ? & _ & Hl & _). congruence.
Qed.

Lemma minv_count_rollback m g : minv m g → minv (count_rollback m) g.
Proof.
  intros Hm. constructor; try apply Hm. intros i d Hd.
  destruct (mi_diffs _ _ Hm i d Hd) as [Ha Hn Hb Hg]. constructor; [apply Ha|apply Hn|apply Hb|apply Hg].
Qed.

Lemma minv_step a b : minv a.1 a.2 → mstep a b → minv b.1 b.2.
Proof.
  intros Hm Hs.
  destruct Hs as [m g memory fs st md id now el m' r Hf Hix Hc|m g memory base st md id now el m' r Hf Hix Hc
                 |m g id now m' r Hc|m g id now m' r Hc]; cbn in *.
  - by eapply minv_log_full.
  - by eapply minv_diff.
  - revert Hc. unfold rollback_to. repeat case_match; intros [= <- _]; try done. by apply minv_count_rollback.
  - revert Hc. unfold rollback_to_diff. repeat case_match; intros [= <- _]; try done. by apply minv_count_rollback.
Qed.

Lemma minv_start k depth persist dir :
  depth < U32_MAX → minv (manager_with k depth persist dir) ghost_empty.
Proof.
  intros Hd. constructor; cbn; try done.
  - constructor.
  - intros s Hs. by apply elem_of_nil in Hs.
  - constructor.
Qed.

Lemma minv_reach k depth persist dir a :
  depth < U32_MAX → reach (manager_with k depth persist dir) a → minv a.1 a.2.
Proof.
  intros Hd. induction 1 as [|a b _ IH Hs]; [by apply minv_start|]. by eapply minv_step.
Qed.

(** A full snapshot just created can be rolled back to. *)
Lemma create_then_rollback m g memory fs st md id now el m' s now' :
  minv m g → g.(g_log) !! id = None → indexable memory →
  create_snapshot m memory fs st md id now el = (m', Ok s) →
  s.(snap_id) = id
  ∧ ∃ r, rollback_to m' id now' = (count_rollback m', Ok r)
      ∧ r.(rb_memory) = memory ∧ r.(rb_execution_state) = st.
Proof.
  intros Hm Hf Hix Hc. pose proof (minv_log_full _ _ _ _ _ _ _ _ _ _ _ Hm Hf Hix Hc) as Hm'.
  assert (snapshot_new sha256_hex memory fs st md id now = Ok s) as Hs.
  { revert Hc. unfold create_snapshot. destruct (snapshot_new sha256_hex memory fs st md id now) as [s'|e]; [|done].
    destruct (persist_enabled _); [|by intros [= _ <-]].
    destruct (persist_snapshot _ s') as [m1 [u|e]]; by intros [= _ <-]. }
  rewrite Hs in Hm'. unfold snapshot_new in Hs. destruct (copy_encode memory 3) as [comp|] eqn:Ec; [|done].
  injection Hs as <-. split; [done|]. set (s := {| snap_id := id |}) in *.
  assert (ring_get m'.(buffer) id = Some s) as Hg.
  { apply (ring_get_spec _ _ _ _ (mi_ring _ _ Hm') (mi_nodup _ _ Hm')). split; [|done]. cbn [log_full g_full].
    unfold window. rewrite length_app. cbn [length]. rewrite drop_app_le by lia.
    apply elem_of_app. right. left. }
  unfold rollback_to. rewrite Hg. unfold decompress_memory. cbn [s snap_memory].
  rewrite (zstd_roundtrip _ _ _ Ec). cbn [ok_or]. by eexists.
Qed.
End Preserve.

(** ** Properties *)

(** C23: rollback to a full snapshot returns the memory it was taken of, byte for byte,
    with its execution state and the revert operations of its file changes, and
    counts one rollback; it fails, changing nothing, exactly when the snapshot is
    not among the last [capacity] full ones. *)
Theorem rollback_restores `{Zs : ZstdLib} `{L : !ZstdLaws Zs} `{Hi : HashIter} `{E : SnapEnv}
    (k : nat) (depth : Z) (persist : bool) (dir : option string) (m : SnapshotManager)
    (g : Ghost) (id : Uuid) (now : DateTime) :
  depth < U32_MAX → reach (manager_with k depth persist dir) (m, g) →
  match rollback_to m id now with
  | (m', Ok r) => g.(g_log) !! id = Some r.(rb_memory)
      ∧ (∃ s, s ∈ window m.(buffer).(capacity) g.(g_full) ∧ s.(snap_id) = id
          ∧ r.(rb_execution_state) = s.(snap_execution_state)
          ∧ r.(rb_fs_operations) = revert s.(fs_changes))
      ∧ m' = count_rollback m
  | (m', Err _) => m' = m ∧ id ∉ ids (window m.(buffer).(capacity) g.(g_full))
  end.
Proof.
  intros Hd Hr. pose proof (minv_reach _ _ _ _ _ Hd Hr) as Hm. cbn in Hm. unfold rollback_to.
  pose proof (λ s, ring_get_spec _ _ id s (mi_ring _ _ Hm) (mi_nodup _ _ Hm)) as Hspec.
  destruct (ring_get (buffer m) id) as [s|] eqn:Es.
  - destruct (ring_get_full _ _ _ _ Hm Es) as (_ & mem & Hlog & Hdec).
    unfold decompress_memory. rewrite Hdec. cbn [ok_or]. split; [done|]. split; [|done].
    exists s. destruct (proj1 (Hspec s) eq_refl). done.
  - split; [done|]. intros (s & -> & Hs)%list_elem_of_fmap.
    discriminate (proj2 (Hspec s) (conj Hs eq_refl)).
Qed.

(** Rollback to a differential snapshot always terminates, and returns the memory
    the snapshot was taken of whenever its chain still ends in a retained full
    snapshot; otherwise it reports an error and changes nothing.  It never returns
    any other memory. *)
Theorem rollback_to_diff_restores `{Zs : ZstdLib} `{L : !ZstdLaws Zs} `{Hi : HashIter} `{E : SnapEnv}
    (k : nat) (depth : Z) (persist : bool) (dir : option string) (m : SnapshotManager)
    (g : Ghost) (id : Uuid) (now : DateTime) (d : DiffSnapshot) :
  depth < U32_MAX → reach (manager_with k depth persist dir) (m, g) →
  find_diff m.(diff_buffer) id = Some d →
  ∃ m' res, rollback_to_diff m id now = Some (m', res) ∧
    match res with
    | Ok r => g.(g_log) !! id = Some r.(rb_memory) ∧ rooted m d.(base_id) ∧ m' = count_rollback m
        ∧ r.(rb_execution_state) = d.(diff_execution_state)
    | Err _ => ¬ rooted m d.(base_id) ∧ m' = m
    end.
Proof.
  intros Hd Hr Hf. pose proof (minv_reach _ _ _ _ _ Hd Hr) as Hm. cbn in Hm.
  unfold rollback_to_diff. rewrite Hf.
  edestruct (chain_memory_spec m g id d) as [(cm & -> & Hc & Hroot)|[-> Hn]];
    [done|done|do 2 eexists; by split_and!..].
Qed.

(** A differential snapshot that was just created can be rolled back to, and gives
    the memory it was created from. *)
Theorem create_diff_then_rollback `{Zs : ZstdLib} `{L : !ZstdLaws Zs} `{Hi : HashIter} `{E : SnapEnv}
    (k : nat) (depth : Z) (persist : bool) (dir : option string) (m m' : SnapshotManager)
    (g : Ghost) (memory : list byte) (base id : Uuid) (st : ExecutionState) (md : SnapshotMetadata)
    (now el now' : Z) (d : DiffSnapshot) :
  depth < U32_MAX → reach (manager_with k depth persist dir) (m, g) →
  g.(g_log) !! id = None → indexable memory →
  create_diff_snapshot m memory base st md id now el = Some (m', Ok (Diff d)) →
  ∃ r, rollback_to_diff m' id now' = Some (count_rollback m', Ok r) ∧ r.(rb_memory) = memory
    ∧ r.(rb_execution_state) = st.
Proof.
  intros Hd Hr Hf Hix Hc. pose proof (minv_reach _ _ _ _ _ Hd Hr) as Hm. cbn in Hm.
  pose proof (minv_diff _ _ _ _ _ _ _ _ _ _ _ Hm Hf Hix Hc) as Hm'. revert Hc Hm'.
  unfold create_diff_snapshot. destruct (promotes m base) eqn:Hpr.
  { destruct (create_snapshot _ _ _ _ _ _ _) as [m1 [s|e]]; done. }
  destruct (reconstruct_spec m g base Hm) as [(mem & -> & Hbase & Hroot)|(e & -> & _)]; [|done].
  destruct (diff_new _ _ _ _ _ _ _ _) as [d'|e] eqn:Ed; [|done]. intros [= <- <-] Hm'.
  destruct (new_diff_ok _ _ _ _ _ _ _ _ _ _ Hm Hf Hpr Hbase Hroot Ed) as [_ Hid].
  assert (Hfind : ∀ x, x ∈ diff_buffer m ++ [d'] →
    find_diff (diff_buffer m ++ [d']) x.(diff_id) = Some x).
  { intros x Hx. apply find_diff_Some; [apply (mi_diff_nodup _ _ Hm')|done]. }
  unfold rollback_to_diff. cbn [set_diffs diff_buffer].
  assert (find_diff (diff_buffer m ++ [d']) id = Some d') as Hnew.
  { rewrite <- Hid. apply Hfind, elem_of_app. right. left. }
  rewrite Hnew.
  assert (base_id d' = base ∧ diff_execution_state d' = st) as [Hb Hst].
  { unfold diff_new in Ed. apply result_bind_Ok in Ed as (? & _ & [= <-]). done. }
  assert (Hroot' : rooted (set_diffs m (diff_buffer m ++ [d'])) base).
  { clear Hbase Hpr Ed Hb. induction Hroot as [x s Hs|x p Hp _ IH]; [by eapply rooted_full|].
    eapply rooted_diff; [|exact IH]. cbn.
    apply (find_diff_Some _ _ _ (mi_diff_nodup _ _ Hm)) in Hp as [Hp <-].
    apply Hfind, elem_of_app. by left. }
  edestruct (chain_memory_spec (set_diffs m (diff_buffer m ++ [d'])) (log_diff g id memory) id d')
    as [(cm & -> & Hcm & _)|[_ Hn]].
  - done.
  - exact Hnew.
  - eexists. split; [done|]. cbn in *. rewrite lookup_insert_eq in Hcm. by injection Hcm.
  - by rewrite Hb in Hn.
Qed.

(** Diff chains are bounded: in every reachable state a diff's generation lies
    between 1 and the configured depth and equals the number of diffs that a
    rollback to it applies; a snapshot that would exceed the depth is promoted to a
    full one. *)
Theorem diff_depth_bounded `{Zs : ZstdLib} `{L : !ZstdLaws Zs} `{Hi : HashIter} `{E : SnapEnv}
    (k : nat) (depth : Z) (persist : bool) (dir : option string) (m : SnapshotManager)
    (g : Ghost) :
  depth < U32_MAX → reach (manager_with k depth persist dir) (m, g) →
  (∀ d, d ∈ m.(diff_buffer) → 1 ≤ d.(generation) ≤ m.(max_diff_depth)
     ∧ ∀ broken root chain,
         walk (S (length m.(diff_buffer))) m broken d.(base_id) [d] = Some (Ok (root, chain)) →
         len chain = d.(generation))
  ∧ ∀ memory base st md id now el m' r,
      create_diff_snapshot m memory base st md id now el = Some (m', Ok r) →
      (∃ s, r = Promoted s) ↔ m.(max_diff_depth) < next_generation m base.
Proof.
  intros Hd Hr. pose proof (minv_reach _ _ _ _ _ Hd Hr) as Hm. cbn in Hm. split.
  - intros d [i Hi']%list_elem_of_lookup. pose proof (mi_diffs _ _ Hm i d Hi') as Hok.
    split; [apply Hok|]. intros broken root chain Hw. pose proof (lookup_lt_Some _ _ _ Hi').
    destruct (walk_spec m g Hm i d Hi' (S (length (diff_buffer m))) broken [d] ltac:(lia))
      as [(? & ? & ? & l & ? & Hw' & _ & _ & _ & _ & Hl & _)|[Hw' _]]; [|congruence].
    rewrite Hw in Hw'. injection Hw' as _ ->. unfold len in *. cbn [app length]. lia.
  - intros memory base st md id now el m' r. unfold create_diff_snapshot.
    rewrite <- Z.ltb_lt. fold (promotes m base). destruct (promotes m base).
    + destruct (create_snapshot _ _ _ _ _ _ _) as [m1 [s|e]]; cbn; intros [= _ <-]. naive_solver.
    + repeat case_match; intros [= _ <-]. naive_solver.
Qed.

(** A snapshot that persistence reported as written is read back unchanged, unless
    its file exceeds 256 MiB: writing has no such limit, so the larger file can
    never be loaded. *)
Theorem persist_then_load `{Zs : ZstdLib} `{E : SnapEnv} `{EL : !SnapEnvLaws E}
    (m m' : SnapshotManager) (memory : list byte) (fs : FilesystemDiff) (st : ExecutionState)
    (md : SnapshotMetadata) (id : Uuid) (now el : Z) (s : Snapshot) :
  m.(persist_enabled) = true → disk_readable id = true →
  create_snapshot m memory fs st md id now el = (m', Ok s) →
  ∃ bytes, snap_serialize s = Some bytes
    ∧ if MAX_SNAPSHOT_BYTES <? len bytes
      then ∃ e, load_snapshot m' id = Err e
      else load_snapshot m' id = Ok (Some s).
Proof.
  intros Hp Hread. unfold create_snapshot, snapshot_new.
  destruct (copy_encode memory 3) as [comp|]; [|done]. cbn [set_stats set_buffer persist_enabled].
  rewrite Hp. unfold persist_snapshot. cbn [persist_dir set_stats set_buffer].
  destruct (persist_dir m) as [dir|] eqn:Edir; [|by intros [=]].
  destruct (snap_serialize _) as [bytes|] eqn:Eser; [|by intros [=]].
  destruct (disk_writable _); [|by intros [=]]. intros [= <- <-]. exists bytes. split; [done|].
  unfold load_snapshot. cbn. rewrite Edir. cbn. rewrite lookup_insert_eq, Hread. cbn [negb].
  destruct (_ <? _); [eauto|]. by rewrite (snap_codec_roundtrip _ _ Eser).
Qed.

(** ** A concrete run *)

Module ToySnap.
(** The one snapshot this environment can serialize. *)
Definition stored : Snapshot :=
  match snapshot_new (Zs := ToyZstd.zstd) (λ _, "00") [x05] FilesystemDiff_new toy_state toy_meta 1 0 with
  | Ok s => s
  | Err _ => example_snapshot 1
  end.
#[export] Instance env : SnapEnv := {|
  sha256_hex _ := "00";
  snap_serialize s := if decide (s = stored) then Some [x01] else None;
  snap_deserialize b := if decide (b = [x01]) then Some stored else None;
  disk_writable _ := true;
  disk_readable _ := true;
|}.
#[export] Instance env_laws : SnapEnvLaws env.
Proof. constructor. intros s bytes. cbn. case_decide; [|done]. intros [= <-]. by subst. Qed.
End ToySnap.
#[local] Existing Instances ToyZstd.zstd ToyZstd.zstd_laws ToySnap.env ToySnap.env_laws.

(** A full snapshot 1 of [toy_mem 1], then the diff 2 of [toy_mem 2] against it. *)
Definition toy_m0 : SnapshotManager := with_max_diff_depth 2 3.
Definition toy_m1 : SnapshotManager :=
  (create_snapshot toy_m0 (toy_mem x01) FilesystemDiff_new toy_state toy_meta 1 0 5).1.
Definition toy_g1 : Ghost :=
  log_full ghost_empty 1 (toy_mem x01)
    (snapshot_new sha256_hex (toy_mem x01) FilesystemDiff_new toy_state toy_meta 1 0).
Definition toy_step2 := create_diff_snapshot toy_m1 (toy_mem x02) 1 toy_state toy_meta 2 0 5.
Definition toy_m2 : SnapshotManager := (default (toy_m1, Err (Timeout 0)) toy_step2).1.
Definition toy_g2 : Ghost := log_diff toy_g1 2 (toy_mem x02).

Lemma toy_reach1 : reach toy_m0 (toy_m1, toy_g1).
Proof.
  eapply reach_step; [apply reach_start|].
  eapply (ms_create toy_m0 ghost_empty (toy_mem x01) FilesystemDiff_new toy_state toy_meta 1 0 5).
  - reflexivity.
  - vm_compute. discriminate.
  - apply surjective_pairing.
Qed.

Lemma toy_step2_eq : ∃ d, toy_step2 = Some (toy_m2, Ok (Diff d)) ∧ find_diff toy_m2.(diff_buffer) 2%N = Some d.
Proof.
  unfold toy_m2. destruct toy_step2 as [[m [[d|s]|e]]|] eqn:Es; try (vm_compute in Es; discriminate Es).
  exists d. split; [reflexivity|]. vm_compute in Es. injection Es as <- <-. reflexivity.
Qed.

Lemma toy_reach2 : reach toy_m0 (toy_m2, toy_g2).
Proof.
  eapply reach_step; [apply toy_reach1|]. destruct toy_step2_eq as (d & Hs & _).
  assert (toy_g2 = if promotes toy_m1 1 then log_full toy_g1 2 (toy_mem x02)
            (snapshot_new sha256_hex (toy_mem x02) FilesystemDiff_new toy_state toy_meta 2 0)
          else log_diff toy_g1 2 (toy_mem x02)) as ->.
  { assert (promotes toy_m1 1 = false) as -> by (vm_compute; reflexivity). reflexivity. }
  eapply (ms_diff toy_m1 toy_g1 (toy_mem x02) 1 toy_state toy_meta 2 0 5).
  - vm_compute. reflexivity.
  - vm_compute. discriminate.
  - exact Hs.
Qed.

Lemma rollback_restores_witness :
  ∃ r, rollback_to toy_m2 1 9 = (count_rollback toy_m2, Ok r) ∧ r.(rb_memory) = toy_mem x01.
Proof.
  pose proof (rollback_restores 2 3 false None toy_m2 toy_g2 1 9 eq_refl toy_reach2) as H.
  destruct (rollback_to toy_m2 1 9) as [m' [r|e]] eqn:Er; [|vm_compute in Er; discriminate Er].
  destruct H as (Hl & _ & ->). exists r. split; [reflexivity|].
  assert (g_log toy_g2 !! 1%N = Some (toy_mem x01)) as Hg by (vm_compute; reflexivity).
  rewrite Hg in Hl. injection Hl as <-. reflexivity.
Defined.

Lemma rollback_to_diff_restores_witness :
  ∃ m' r, rollback_to_diff toy_m2 2 9 = Some (m', Ok r) ∧ r.(rb_memory) = toy_mem x02.
Proof.
  destruct toy_step2_eq as (d & _ & Hf).
  destruct (rollback_to_diff_restores 2 3 false None toy_m2 toy_g2 2 9 d eq_refl toy_reach2 Hf)
    as (m' & res & Hr & Hres).
  destruct res as [r|e]; [|vm_compute in Hr; discriminate Hr].
  exists m', r. split; [exact Hr|]. destruct Hres as [Hl _].
  assert (g_log toy_g2 !! 2%N = Some (toy_mem x02)) as Hg by (vm_compute; reflexivity).
  rewrite Hg in Hl. injection Hl as <-. reflexivity.
Defined.

Lemma create_diff_then_rollback_witness :
  ∃ r, rollback_to_diff toy_m2 2 9 = Some (count_rollback toy_m2, Ok r) ∧ r.(rb_memory) = toy_mem x02
    ∧ r.(rb_execution_state) = toy_state.
Proof.
  destruct toy_step2_eq as (d & Hs & _).
  apply (create_diff_then_rollback 2 3 false None toy_m1 toy_m2 toy_g1 (toy_mem x02) 1 2
           toy_state toy_meta 0 5 9 d eq_refl toy_reach1); [vm_compute; reflexivity|vm_compute; discriminate|exact Hs].
Defined.

Lemma diff_depth_bounded_witness :
  Forall (λ d, 1 ≤ d.(generation) ≤ 3) toy_m2.(diff_buffer).
Proof.
  apply Forall_forall. intros d Hd.
  exact (proj1 (proj1 (diff_depth_bounded 2 3 false None toy_m2 toy_g2 eq_refl toy_reach2) d Hd)).
Defined.

Lemma persist_then_load_witness :
  ∃ m', create_snapshot (with_persistence 2 "snaps") [x05] FilesystemDiff_new toy_state toy_meta 1 0 7
          = (m', Ok ToySnap.stored)
    ∧ ∃ bytes, snap_serialize ToySnap.stored = Some bytes
      ∧ if MAX_SNAPSHOT_BYTES <? len bytes
        then ∃ e, load_snapshot m' 1 = Err e
        else load_snapshot m' 1 = Ok (Some ToySnap.stored).
Proof.
  eexists. split; [vm_compute; reflexivity|].
  apply (persist_then_load (with_persistence 2 "snaps") _ [x05] FilesystemDiff_new toy_state toy_meta 1 0 7);
    vm_compute; reflexivity.
Defined.
