(* ===== verification/Digest.v ===== *)
(** * Content digests: [src/snapshot/sync/digest.rs]

    The canonical, length-prefixed encoding of a snapshot and its digest.  SHA-256
    is the interface [Sha256Lib].  A digest is its 32 bytes.  Signed WASM globals
    are integers in their signed range; floats are their bit patterns. *)

From S2P Require Import Prelude Errors Compression Snapshot.

Class Sha256Lib := { sha256 : list byte → list byte }.
Class Sha256Laws (Sh : Sha256Lib) : Prop := { sha256_length m : length (sha256 m) = 32%nat }.
(** These two inputs have one digest. *)
Definition sha256_clash `{Sh : Sha256Lib} (x y : list byte) : Prop := x ≠ y ∧ sha256 x = sha256 y.
Lemma sha256_same `{Sh : Sha256Lib} (x y : list byte) : sha256 x = sha256 y → x = y ∨ sha256_clash x y.
Proof. intros H. destruct (decide (x = y)); [by left|by right]. Qed.
Lemma sha256_same_text `{Sh : Sha256Lib} (x y : string) :
  sha256 (string_bytes x) = sha256 (string_bytes y) → x = y ∨ sha256_clash (string_bytes x) (string_bytes y).
Proof. intros [?%string_bytes_inj|?]%sha256_same; [by left|by right]. Qed.

Abbreviation SnapshotDigest := (list byte) (only parsing).

(** [b"NEXUS-SNAPSHOT-DIGEST-v1"] *)
Definition DIGEST_DOMAIN : list byte := string_bytes "NEXUS-SNAPSHOT-DIGEST-v1".
Definition SNAPSHOT_DIGEST_SCHEMA_VERSION : Z := 1.

(** ** Hexadecimal *)

Definition hex_digit (n : Z) : byte :=
  if n <? 10 then byte_of_Z (48 + n) else byte_of_Z (87 + n).
(** [format!("{:02x}", b)] *)
Definition hex_byte (b : byte) : list byte :=
  [hex_digit (Z_of_byte b / 16); hex_digit (Z_of_byte b mod 16)].
Definition to_hex (bytes : list byte) : string :=
  String.string_of_list_byte (bytes ≫= hex_byte).

Definition hex_val (b : byte) : result Z NexusError :=
  let c := Z_of_byte b in
  if (48 <=? c) && (c <=? 57) then Ok (c - 48)
  else if (97 <=? c) && (c <=? 102) then Ok (c - 97 + 10)
  else if (65 <=? c) && (c <=? 70) then Ok (c - 65 + 10)
  else Err (SerializationError (Fmt "invalid hex character: {:?}" [ANum c])).

(** The [chunks(2)] loop of [from_hex]; the length is even. *)
Fixpoint from_hex_bytes (bytes : list byte) : result (list byte) NexusError :=
  match bytes with
  | c0 :: c1 :: rest =>
      let? hi := hex_val c0 in
      let? lo := hex_val c1 in
      let? out := from_hex_bytes rest in
      Ok (byte_of_Z (Z.lor (Z.shiftl hi 4) lo) :: out)
  | _ => Ok []
  end.
Definition from_hex (s : string) : result (list byte) NexusError :=
  if negb (len (string_bytes s) mod 2 =? 0)
  then Err (SerializationError (Lit "hex string must have even length"))
  else from_hex_bytes (string_bytes s).

(** [SnapshotDigest::to_hex] and [SnapshotDigest::from_hex]. *)
Definition digest_to_hex (d : SnapshotDigest) : string := to_hex d.
Definition digest_from_hex (s : string) : result SnapshotDigest NexusError :=
  let? bytes := from_hex s in
  if decide (length bytes = 32%nat) then Ok bytes
  else Err (SerializationError (Lit "snapshot digest must be 32 bytes (64 hex chars)")).

(** [ct_eq]: accumulate the differences over the 32 positions. *)
Definition ct_eq (a b : SnapshotDigest) : bool :=
  fold_left (λ diff i, Z.lor diff (Z.lxor (Z_of_byte (nth i a x00)) (Z_of_byte (nth i b x00))))
    (seq 0 32) 0 =? 0.

(** ** Primitive encoders *)

Definition put_u32 (v : Z) : list byte := le_bytes 4 v.
Definition put_u64 (v : Z) : list byte := le_bytes 8 v.
Definition put_len_prefixed (b : list byte) : list byte := put_u32 (wrap32 (len b)) ++ b.
Definition put_str (s : string) : list byte := put_len_prefixed (string_bytes s).
Definition put_bytes (b : list byte) : list byte := put_len_prefixed b.

(** A counted sequence: [put_u32(len)], then each element. *)
Definition put_all {A} (enc : A → list byte) (l : list A) : list byte :=
  put_u32 (wrap32 (len l)) ++ (l ≫= enc).

(** ** Composite encoders *)

Definition encode_global_value (v : GlobalValue) : list byte :=
  match v with
  | I32 x => x00 :: le_bytes 4 x
  | I64 x => x01 :: le_bytes 8 x
  | F32 x => x02 :: le_bytes 4 x
  | F64 x => x03 :: le_bytes 8 x
  end.
Definition encode_global (g : GlobalSnapshot) : list byte :=
  put_str g.(gs_name) ++ encode_global_value g.(gs_value) ++ [if g.(gs_mutable) then x01 else x00].
Definition encode_table (t : TableSnapshot) : list byte :=
  put_str t.(ts_name) ++ put_u32 t.(ts_size).
Definition encode_execution_state (es : ExecutionState) : list byte :=
  put_all encode_global es.(captured_globals) ++ put_all encode_table es.(captured_tables).

Definition encode_old (old : option (list byte)) : list byte :=
  match old with None => [x00] | Some b => x01 :: put_bytes b end.
Definition encode_file_change (fc : FileChange) : list byte :=
  put_str fc.(fc_path) ++ put_bytes fc.(fc_content) ++ encode_old fc.(fc_old_content).
Definition encode_filesystem_diff (fs : FilesystemDiff) : list byte :=
  put_all encode_file_change fs.(created) ++ put_all encode_file_change fs.(modified)
  ++ put_all put_str fs.(deleted) ++ put_all put_str fs.(dirs_created)
  ++ put_all put_str fs.(dirs_deleted).

Definition encode_metadata (m : SnapshotMetadata) : list byte :=
  put_str m.(operation_name) ++ put_str m.(input_hash) ++ put_u64 m.(creation_time_us)
  ++ put_u32 m.(memory_pages) ++ put_all put_str m.(preconditions).

Definition canonical_encode_snapshot_tail (s : Snapshot) : list byte :=
  put_len_prefixed (encode_execution_state s.(snap_execution_state))
  ++ put_len_prefixed (encode_filesystem_diff s.(fs_changes))
  ++ put_len_prefixed (encode_metadata s.(snap_metadata)).

Section DigestOf.
Context `{Sh : Sha256Lib}.

(** The digest preimage, from the decoded memory checksum. *)
Definition preimage (raw_memory_hash : list byte) (s : Snapshot) : list byte :=
  DIGEST_DOMAIN ++ put_u32 SNAPSHOT_DIGEST_SCHEMA_VERSION ++ put_len_prefixed raw_memory_hash
  ++ put_u64 s.(original_size) ++ canonical_encode_snapshot_tail s.

Definition digest_of (snapshot : Snapshot) : result SnapshotDigest NexusError :=
  let? raw_memory_hash := from_hex snapshot.(memory_checksum) in
  if decide (length raw_memory_hash = 32%nat)
  then Ok (sha256 (preimage raw_memory_hash snapshot))
  else Err (SerializationError (Fmt "memory_checksum must decode to 32 bytes, got {}"
              [ANum (len raw_memory_hash)])).

Definition verify_snapshot_digest (snapshot : Snapshot) (expected : SnapshotDigest) : bool :=
  match digest_of snapshot with
  | Ok actual => ct_eq actual expected
  | Err _ => false
  end.
End DigestOf.

(** ** Prefix-free encodings

    [enc] is prefix-injective on [P] when the encodings of two values that start
    the same stream are the same value, and leave the same rest. *)

Definition prefix_inj {A} (P : A → Prop) (enc : A → list byte) : Prop :=
  ∀ a b r1 r2, P a → P b → enc a ++ r1 = enc b ++ r2 → a = b ∧ r1 = r2.

Lemma le_bytes_mod n z : le_bytes n z = le_bytes n (z mod 256 ^ Z.of_nat n).
Proof.
  revert z. induction n as [|n IH]; intros z; [done|]. cbn [le_bytes].
  rewrite Nat2Z.inj_succ, Z.pow_succ_r by lia.
  assert (0 < 256 ^ Z.of_nat n) by (apply Z.pow_pos_nonneg; lia).
  rewrite Z.rem_mul_r by lia. f_equal.
  - apply Z_of_byte_inj. rewrite !Z_of_byte_of_Z.
    rewrite Z.mul_comm, Z_mod_plus_full, Z.mod_mod by lia. done.
  - rewrite Z.mul_comm, Z.div_add, (Z.div_small (z mod 256)), Z.add_0_l by (lia || apply Z.mod_pos_bound; lia).
    apply IH.
Qed.

(** Integers of an unsigned or a signed [8 n]-bit range. *)
Lemma prefix_inj_int n lo :
  prefix_inj (λ z, lo ≤ z < lo + 256 ^ Z.of_nat n) (le_bytes n).
Proof.
  intros a b r1 r2 Ha Hb H.
  apply app_inj_1 in H as [H ->]; [|by rewrite !le_bytes_length]. split; [|done].
  rewrite (le_bytes_mod n a), (le_bytes_mod n b) in H.
  assert (0 < 256 ^ Z.of_nat n) by (apply Z.pow_pos_nonneg; lia).
  apply le_bytes_inj in H; [|by apply Z.mod_pos_bound..].
  pose proof (Z.div_mod a (256 ^ Z.of_nat n) ltac:(lia)).
  pose proof (Z.div_mod b (256 ^ Z.of_nat n) ltac:(lia)).
  destruct (Z.lt_trichotomy (a / 256 ^ Z.of_nat n) (b / 256 ^ Z.of_nat n)) as [|[|]]; nia.
Qed.

Definition short {A} (l : list A) : Prop := len l ≤ U32_MAX.

Lemma wrap32_short {A} (l : list A) : short l → wrap32 (len l) = len l.
Proof. intros H. apply wrap32_small. split; [apply len_nonneg|done]. Qed.

Lemma prefix_inj_weaken {A} (P Q : A → Prop) enc :
  (∀ a, P a → Q a) → prefix_inj Q enc → prefix_inj P enc.
Proof. intros HPQ H a b r1 r2 Ha Hb. apply H; auto. Qed.

Lemma prefix_inj_app {A B C} (P : A → Prop) (Q : B → Prop) (f : C → A) (g : C → B) ea eb :
  prefix_inj P ea → prefix_inj Q eb → (∀ c d, f c = f d → g c = g d → c = d) →
  prefix_inj (λ c, P (f c) ∧ Q (g c)) (λ c, ea (f c) ++ eb (g c)).
Proof.
  intros Ha Hb Hinj c d r1 r2 [Pc Qc] [Pd Qd] H. rewrite <- !(assoc_L (++)) in H.
  apply Ha in H as [Hf H]; [|done..]. apply Hb in H as [Hg H]; auto.
Qed.

Lemma prefix_inj_len_prefixed : prefix_inj short put_len_prefixed.
Proof.
  intros a b r1 r2 Ha Hb H. unfold put_len_prefixed in H. rewrite <- !(assoc_L (++)) in H.
  rewrite !wrap32_short in H by done.
  apply (prefix_inj_int 4 0) in H as [Hl H].
  - apply app_inj_1 in H; [done|]. unfold len in Hl. lia.
  - unfold short, U32_MAX in Ha. pose proof (len_nonneg a). change (256 ^ Z.of_nat 4) with 4294967296. lia.
  - unfold short, U32_MAX in Hb. pose proof (len_nonneg b). change (256 ^ Z.of_nat 4) with 4294967296. lia.
Qed.

Definition short_str (s : string) : Prop := short (string_bytes s).

#[local] Arguments wrap32 : simpl never.

Lemma prefix_inj_str : prefix_inj short_str put_str.
Proof.
  intros a b r1 r2 Ha Hb H. apply prefix_inj_len_prefixed in H as [H ->]; [|done..].
  split; [|done]. by apply string_bytes_inj.
Qed.

Lemma prefix_inj_all {A} (P : A → Prop) enc :
  prefix_inj P enc → prefix_inj (λ l, short l ∧ Forall P l) (put_all enc).
Proof.
  intros He a b r1 r2 [Sa Pa] [Sb Pb] H. unfold put_all in H. rewrite <- !(assoc_L (++)) in H.
  rewrite !wrap32_short in H by done.
  apply (prefix_inj_int 4 0) in H as [Hl H].
  2,3: unfold short, U32_MAX, len in *; change (256 ^ Z.of_nat 4) with 4294967296; lia.
  assert (length a = length b) as Hlen by (unfold len in Hl; lia). clear Hl Sa Sb.
  revert b Pb Hlen H. induction Pa as [|x a Px _ IH]; intros b Pb Hlen H; destruct b as [|y b]; try done.
  apply Forall_cons in Pb as [Py Pb]. cbn in H. rewrite <- !(assoc_L (++)) in H.
  apply He in H as [-> H]; [|done..]. apply IH in H as [-> ->]; [done|done|]. by injection Hlen.
Qed.

(** ** Encodable snapshots: every field fits its width and its length prefix *)

Definition value_ok (v : GlobalValue) : Prop :=
  match v with
  | I32 x => -2147483648 ≤ x < 2147483648
  | I64 x => -9223372036854775808 ≤ x < 9223372036854775808
  | F32 x => is_u32 x
  | F64 x => is_u64 x
  end.
Definition global_ok (g : GlobalSnapshot) : Prop := short_str g.(gs_name) ∧ value_ok g.(gs_value).
Definition table_ok (t : TableSnapshot) : Prop := short_str t.(ts_name) ∧ is_u32 t.(ts_size).
Definition all_ok {A} (P : A → Prop) (l : list A) : Prop := short l ∧ Forall P l.
Definition exec_ok (es : ExecutionState) : Prop :=
  all_ok global_ok es.(captured_globals) ∧ all_ok table_ok es.(captured_tables).
Definition change_ok (c : FileChange) : Prop :=
  short_str c.(fc_path) ∧ short c.(fc_content)
  ∧ match c.(fc_old_content) with Some b => short b | None => True end.
Definition fs_ok (fs : FilesystemDiff) : Prop :=
  all_ok change_ok fs.(created) ∧ all_ok change_ok fs.(modified) ∧ all_ok short_str fs.(deleted)
  ∧ all_ok short_str fs.(dirs_created) ∧ all_ok short_str fs.(dirs_deleted).
Definition meta_ok (m : SnapshotMetadata) : Prop :=
  short_str m.(operation_name) ∧ short_str m.(input_hash) ∧ is_u64 m.(creation_time_us)
  ∧ is_u32 m.(memory_pages) ∧ all_ok short_str m.(preconditions).

Definition encodable (s : Snapshot) : Prop :=
  exec_ok s.(snap_execution_state) ∧ fs_ok s.(fs_changes) ∧ meta_ok s.(snap_metadata)
  ∧ short (encode_execution_state s.(snap_execution_state))
  ∧ short (encode_filesystem_diff s.(fs_changes)) ∧ short (encode_metadata s.(snap_metadata))
  ∧ is_u64 s.(original_size).

#[export] Instance value_ok_dec v : Decision (value_ok v).
Proof. destruct v; unfold value_ok, is_u32, is_u64; apply _. Defined.
#[export] Instance change_ok_dec c : Decision (change_ok c).
Proof. unfold change_ok, short_str, short. destruct (fc_old_content c); apply _. Defined.
#[export] Instance encodable_dec s : Decision (encodable s).
Proof.
  unfold encodable, exec_ok, fs_ok, meta_ok, all_ok, global_ok, table_ok, short_str, short, is_u32, is_u64.
  apply _.
Defined.

(** Peel one prefix-injective field off both sides of an equation of streams. *)
Ltac peel H lem :=
  let E := fresh "E" in apply lem in H as [E H]; [|done..].

Lemma prefix_inj_u32 : prefix_inj is_u32 put_u32.
Proof.
  eapply prefix_inj_weaken, (prefix_inj_int 4 0). unfold is_u32, U32_MAX. intros a ?.
  change (256 ^ Z.of_nat 4) with 4294967296. lia.
Qed.
Lemma prefix_inj_u64 : prefix_inj is_u64 put_u64.
Proof.
  eapply prefix_inj_weaken, (prefix_inj_int 8 0). unfold is_u64, U64_MAX. intros a ?.
  change (256 ^ Z.of_nat 8) with 18446744073709551616. lia.
Qed.
Lemma prefix_inj_i32 : prefix_inj (λ x, -2147483648 ≤ x < 2147483648) (le_bytes 4).
Proof. apply (prefix_inj_int 4 (-2147483648)). Qed.
Lemma prefix_inj_i64 :
  prefix_inj (λ x, -9223372036854775808 ≤ x < 9223372036854775808) (le_bytes 8).
Proof. apply (prefix_inj_int 8 (-9223372036854775808)). Qed.

Lemma prefix_inj_value : prefix_inj value_ok encode_global_value.
Proof.
  intros [x|x|x|x] [y|y|y|y] r1 r2 Hx Hy H; cbn [encode_global_value app] in H;
    try discriminate H; cbn [value_ok] in *;
    apply (f_equal (@tail byte)) in H; cbn [tail] in H.
  - apply prefix_inj_i32 in H as [-> H]; done.
  - apply prefix_inj_i64 in H as [-> H]; done.
  - apply prefix_inj_u32 in H as [-> H]; done.
  - apply prefix_inj_u64 in H as [-> H]; done.
Qed.

Lemma prefix_inj_global : prefix_inj global_ok encode_global.
Proof.
  intros [n v m] [n' v' m'] r1 r2 [Hn Hv] [Hn' Hv'] H. unfold encode_global in H.
  cbn [gs_name gs_value gs_mutable] in *. rewrite <- !(assoc_L (++)) in H.
  peel H prefix_inj_str. peel H prefix_inj_value. cbn in H. injection H as H ->.
  split; [|done]. subst. destruct m, m'; congruence.
Qed.

Lemma prefix_inj_table : prefix_inj table_ok encode_table.
Proof.
  intros [n z] [n' z'] r1 r2 [Hn Hz] [Hn' Hz'] H. unfold encode_table in H.
  cbn [ts_name ts_size] in *. rewrite <- !(assoc_L (++)) in H.
  peel H prefix_inj_str. peel H prefix_inj_u32. by subst.
Qed.

Lemma prefix_inj_change : prefix_inj change_ok encode_file_change.
Proof.
  intros [p c o] [p' c' o'] r1 r2 (Hp & Hc & Ho) (Hp' & Hc' & Ho') H. unfold encode_file_change in H.
  cbn [fc_path fc_content fc_old_content] in *. rewrite <- !(assoc_L (++)) in H.
  peel H prefix_inj_str. unfold put_bytes in H. peel H prefix_inj_len_prefixed. subst.
  destruct o as [b|], o' as [b'|]; cbn [encode_old app] in H; try discriminate H;
    apply (f_equal (@tail byte)) in H; cbn [tail] in H; [|by subst].
  unfold put_bytes in H. peel H prefix_inj_len_prefixed. by subst.
Qed.

Lemma exec_inj a b : exec_ok a → exec_ok b → encode_execution_state a = encode_execution_state b → a = b.
Proof.
  destruct a as [g t], b as [g' t']. intros [Hg Ht] [Hg' Ht'] H. unfold encode_execution_state in H.
  cbn [captured_globals captured_tables] in *. rewrite <- (app_nil_r (put_all encode_table t)),
    <- (app_nil_r (put_all encode_table t')) in H.
  peel H (prefix_inj_all _ _ prefix_inj_global). peel H (prefix_inj_all _ _ prefix_inj_table). by subst.
Qed.

Lemma fs_inj a b : fs_ok a → fs_ok b → encode_filesystem_diff a = encode_filesystem_diff b → a = b.
Proof.
  destruct a as [c m d x y], b as [c' m' d' x' y'].
  intros (H1 & H2 & H3 & H4 & H5) (H1' & H2' & H3' & H4' & H5') H. unfold encode_filesystem_diff in H.
  cbn [created modified deleted dirs_created dirs_deleted] in *.
  rewrite <- (app_nil_r (put_all put_str y)), <- (app_nil_r (put_all put_str y')) in H.
  do 2 peel H (prefix_inj_all _ _ prefix_inj_change). do 3 peel H (prefix_inj_all _ _ prefix_inj_str).
  by subst.
Qed.

Lemma meta_inj a b : meta_ok a → meta_ok b → encode_metadata a = encode_metadata b → a = b.
Proof.
  destruct a as [o i t p l], b as [o' i' t' p' l'].
  intros (H1 & H2 & H3 & H4 & H5) (H1' & H2' & H3' & H4' & H5') H. unfold encode_metadata in H.
  cbn [operation_name input_hash creation_time_us memory_pages preconditions] in *.
  rewrite <- (app_nil_r (put_all put_str l)), <- (app_nil_r (put_all put_str l')) in H.
  do 2 peel H prefix_inj_str. peel H prefix_inj_u64. peel H prefix_inj_u32.
  peel H (prefix_inj_all _ _ prefix_inj_str). by subst.
Qed.

(** The content a digest binds. *)
Definition same_content (a b : Snapshot) : Prop :=
  a.(original_size) = b.(original_size) ∧ a.(snap_execution_state) = b.(snap_execution_state)
  ∧ a.(fs_changes) = b.(fs_changes) ∧ a.(snap_metadata) = b.(snap_metadata).

Lemma preimage_inj ha hb a b :
  length ha = 32%nat → length hb = 32%nat → encodable a → encodable b →
  preimage ha a = preimage hb b → ha = hb ∧ same_content a b.
Proof.
  intros Hha Hhb (A1 & A2 & A3 & A4 & A5 & A6 & A7) (B1 & B2 & B3 & B4 & B5 & B6 & B7) H.
  assert (∀ h : list byte, length h = 32%nat → short h) as Hshort.
  { intros h Hh. unfold short, len. rewrite Hh. done. }
  pose proof (Hshort _ Hha). pose proof (Hshort _ Hhb).
  unfold preimage, canonical_encode_snapshot_tail in H.
  apply app_inv_head in H. apply app_inv_head in H.
  peel H prefix_inj_len_prefixed. peel H prefix_inj_u64.
  rewrite <- (app_nil_r (put_len_prefixed (encode_metadata (snap_metadata a)))),
    <- (app_nil_r (put_len_prefixed (encode_metadata (snap_metadata b)))) in H.
  apply prefix_inj_len_prefixed in H as [He H]; [|exact A4|exact B4].
  apply prefix_inj_len_prefixed in H as [Hf H]; [|exact A5|exact B5].
  apply prefix_inj_len_prefixed in H as [Hm H]; [|exact A6|exact B6].
  split; [exact E|]. split; [exact E0|]. split_and!.
  - exact (exec_inj _ _ A1 B1 He).
  - exact (fs_inj _ _ A2 B2 Hf).
  - exact (meta_inj _ _ A3 B3 Hm).
Qed.

(** ** Hexadecimal and constant-time comparison *)

Lemma hex_val_digit n : 0 ≤ n < 16 → hex_val (hex_digit n) = Ok n.
Proof.
  intros Hn. unfold hex_val, hex_digit. destruct (Z.ltb_spec n 10).
  - rewrite Z_of_byte_of_Z, Z.mod_small by lia.
    destruct (Z.leb_spec 48 (48 + n)), (Z.leb_spec (48 + n) 57); try lia. cbn [andb]. f_equal. lia.
  - rewrite Z_of_byte_of_Z, Z.mod_small by lia.
    destruct (Z.leb_spec 48 (87 + n)), (Z.leb_spec (87 + n) 57); try lia.
    destruct (Z.leb_spec 97 (87 + n)), (Z.leb_spec (87 + n) 102); try lia. cbn [andb]. f_equal. lia.
Qed.

Lemma hex_combine b : Z.lor (Z.shiftl (Z_of_byte b / 16) 4) (Z_of_byte b mod 16) = Z_of_byte b.
Proof. destruct b; reflexivity. Qed.

Lemma from_hex_bytes_to_hex bs : from_hex_bytes (bs ≫= hex_byte) = Ok bs.
Proof.
  induction bs as [|b bs IH]; [done|]. pose proof (Z_of_byte_range b).
  change ((b :: bs) ≫= hex_byte) with (hex_byte b ++ (bs ≫= hex_byte)). unfold hex_byte at 1.
  cbn [app from_hex_bytes].
  rewrite !hex_val_digit by (split; [apply Z.div_pos; lia|apply Z.div_lt_upper_bound; lia] || apply Z.mod_pos_bound; lia).
  cbn [result_bind]. rewrite IH. cbn [result_bind]. by rewrite hex_combine, byte_of_Z_of_byte.
Qed.

Lemma from_hex_to_hex bs : from_hex (to_hex bs) = Ok bs.
Proof.
  unfold from_hex, to_hex, string_bytes. rewrite String.list_byte_of_string_of_list_byte.
  assert (len (bs ≫= hex_byte) mod 2 = 0) as ->.
  { assert (len (bs ≫= hex_byte) = len bs * 2) as ->; [|apply Z.mod_mul; lia].
    induction bs as [|b bs IH]; [done|]. cbn. unfold len in *. cbn [length]. lia. }
  apply from_hex_bytes_to_hex.
Qed.

Lemma fold_lor_zero (f : nat → Z) l acc :
  (∀ i, 0 ≤ f i) → 0 ≤ acc →
  fold_left (λ d i, Z.lor d (f i)) l acc = 0 ↔ acc = 0 ∧ ∀ i, i ∈ l → f i = 0.
Proof.
  intros Hf. revert acc. induction l as [|i l IH]; intros acc Hacc; cbn.
  - split; [intros ->; split; [done|]; intros i Hi; by apply elem_of_nil in Hi | by intros [-> _]].
  - rewrite IH by (apply Z.lor_nonneg; auto). rewrite Z.lor_eq_0_iff.
    setoid_rewrite elem_of_cons. naive_solver.
Qed.

Lemma ct_eq_spec a b : length a = 32%nat → length b = 32%nat → ct_eq a b = true ↔ a = b.
Proof.
  intros Ha Hb. unfold ct_eq. rewrite Z.eqb_eq, fold_lor_zero.
  - setoid_rewrite Z.lxor_eq_0_iff. split.
    + intros [_ H]. apply (nth_ext _ _ x00 x00); [congruence|]. intros i Hi.
      apply Z_of_byte_inj, H, elem_of_seq. lia.
    + intros ->. done.
  - intros i. apply Z.lxor_nonneg. split; intros; apply Z_of_byte_range.
  - lia.
Qed.

Section DigestLemmas.
Context `{Sh : Sha256Lib}.

Lemma digest_of_Ok s d :
  digest_of s = Ok d ↔
  ∃ h, from_hex s.(memory_checksum) = Ok h ∧ length h = 32%nat ∧ d = sha256 (preimage h s).
Proof.
  unfold digest_of. rewrite result_bind_Ok. split.
  - intros (h & Hh & H). exists h. case_decide; [|done]. by injection H as <-.
  - intros (h & Hh & Hl & ->). exists h. by rewrite decide_True.
Qed.

Lemma verify_snapshot_digest_spec `{L : !Sha256Laws Sh} s d :
  length d = 32%nat → verify_snapshot_digest s d = true ↔ digest_of s = Ok d.
Proof.
  intros Hd. unfold verify_snapshot_digest. destruct (digest_of s) as [a|e] eqn:E; [|done].
  apply digest_of_Ok in E as (h & _ & _ & ->). rewrite ct_eq_spec by (done || apply sha256_length).
  split; [by intros ->|]. by intros [= ->].
Qed.

Lemma digest_of_length `{L : !Sha256Laws Sh} s d : digest_of s = Ok d → length d = 32%nat.
Proof. intros (h & _ & _ & ->)%digest_of_Ok. apply sha256_length. Qed.
End DigestLemmas.

(** The same snapshot with other compressed bytes. *)
Definition with_memory (s : Snapshot) (bytes : list byte) : Snapshot :=
  {| snap_id := s.(snap_id); snap_timestamp := s.(snap_timestamp); snap_memory := bytes;
     memory_checksum := s.(memory_checksum); fs_changes := s.(fs_changes);
     snap_execution_state := s.(snap_execution_state); snap_metadata := s.(snap_metadata);
     original_size := s.(original_size); compressed_size := s.(compressed_size) |}.

Lemma digest_of_with_memory `{Sh : Sha256Lib} s bytes : digest_of (with_memory s bytes) = digest_of s.
Proof. done. Qed.

(** ** Properties *)

(** C24: the canonical encoding is injective: two encodable snapshots with the same
    digest were hashed from the memory hashes of their checksums, and unless their
    two preimages are a SHA-256 collision they agree on the memory hash, the size,
    the execution state, the file changes and the metadata. *)
Theorem digest_binds_content `{Sh : Sha256Lib} (s1 s2 : Snapshot) (d : SnapshotDigest) :
  encodable s1 → encodable s2 → digest_of s1 = Ok d → digest_of s2 = Ok d →
  ∃ h1 h2, from_hex s1.(memory_checksum) = Ok h1 ∧ from_hex s2.(memory_checksum) = Ok h2
    ∧ sha256 (preimage h1 s1) = sha256 (preimage h2 s2)
    ∧ (preimage h1 s1 = preimage h2 s2 → h1 = h2 ∧ same_content s1 s2).
Proof.
  intros H1 H2 (h1 & Hh1 & L1 & ->)%digest_of_Ok (h2 & Hh2 & L2 & Heq)%digest_of_Ok.
  exists h1, h2. split_and!; [done..|]. by apply preimage_inj.
Qed.

(** The hexadecimal form of a digest reads back as the digest, and only 64 digits do. *)
Theorem digest_hex_roundtrip (d : SnapshotDigest) :
  length d = 32%nat → digest_from_hex (digest_to_hex d) = Ok d.
Proof.
  intros Hd. unfold digest_from_hex, digest_to_hex. rewrite from_hex_to_hex. cbn [result_bind].
  by rewrite decide_True.
Qed.

(** ** A concrete hash: the first 32 bytes, padded *)

Module ToySha.
#[export] Instance sha : Sha256Lib := {| sha256 m := take 32 (reverse m ++ replicate 32 x00) |}.
#[export] Instance sha_laws : Sha256Laws sha.
Proof.
  constructor. intros m. change (length (take 32 (reverse m ++ replicate 32 x00)) = 32%nat).
  rewrite length_take, length_app, length_replicate. lia.
Qed.
Definition checksum : string := "000102030405060708090a0b0c0d0e0f101112131415161718191a1b1c1d1e1F".
Definition snap (name : string) : Snapshot :=
  {| snap_id := 1; snap_timestamp := 5; snap_memory := [x28; x01]; memory_checksum := checksum;
     fs_changes := record_create FilesystemDiff_new "f" [x01; x02];
     snap_execution_state := {| captured_globals := [{| gs_name := "g"; gs_value := I32 (-1); gs_mutable := true |}];
                                captured_tables := [{| ts_name := "t"; ts_size := 4 |}] |};
     snap_metadata := SnapshotMetadata_new name "hash"; original_size := 1; compressed_size := 2 |}.
End ToySha.
#[local] Existing Instances ToySha.sha ToySha.sha_laws.

Lemma toy_encodable : encodable (ToySha.snap "op").
Proof. apply (bool_decide_unpack _). vm_compute. exact I. Qed.

Lemma digest_binds_content_witness :
  ∃ d h1 h2, digest_of (ToySha.snap "op") = Ok d
    ∧ from_hex (ToySha.snap "op").(memory_checksum) = Ok h1
    ∧ from_hex (with_memory (ToySha.snap "op") [x07]).(memory_checksum) = Ok h2
    ∧ sha256 (preimage h1 (ToySha.snap "op")) = sha256 (preimage h2 (with_memory (ToySha.snap "op") [x07]))
    ∧ (preimage h1 (ToySha.snap "op") = preimage h2 (with_memory (ToySha.snap "op") [x07]) →
       h1 = h2 ∧ same_content (ToySha.snap "op") (with_memory (ToySha.snap "op") [x07])).
Proof.
  destruct (digest_of (ToySha.snap "op")) as [d|e] eqn:E; [|vm_compute in E; discriminate E].
  exists d.
  destruct (digest_binds_content (ToySha.snap "op") (with_memory (ToySha.snap "op") [x07]) d)
    as (h1 & h2 & H).
  - exact toy_encodable.
  - exact toy_encodable.
  - exact E.
  - exact E.
  - exists h1, h2. split; [reflexivity|exact H].
Defined.
