(* ===== verification/SyncProtocol.v ===== *)
(** * The snapshot-sync state machine: [src/snapshot/sync/protocol.rs] and
    [src/snapshot/sync/transport.rs]

    A node is its content-addressed store; [handle] is one transition.  The order in
    which the store yields its keys is the interface [KeyIter].  The in-memory
    transport is its two queues, and [replicate] is run on a fresh pair. *)

From S2P Require Import Prelude Errors Compression Snapshot Digest.

Inductive NackReason := DigestMismatch | Gone.

Inductive SyncMessage :=
| Advertise (digests : list SnapshotDigest)
| Want (digests : list SnapshotDigest)
| SnapshotMsg (digest : SnapshotDigest) (snapshot : Snapshot)
| Ack (digest : SnapshotDigest)
| Nack (digest : SnapshotDigest) (reason : NackReason).

(** [SyncNode]: the store. *)
Abbreviation SyncNode := (gmap SnapshotDigest Snapshot).

Class KeyIter := {
  key_iter : SyncNode → list SnapshotDigest;
  key_iter_perm m : key_iter m ≡ₚ (map_to_list m).*1;
}.

#[export] Instance result_digest_dec (r : result SnapshotDigest NexusError) d : Decision (r = Ok d).
Proof. destruct r as [d'|e]; [destruct (decide (d' = d)); [left|right]|right]; congruence. Defined.

Section Protocol.
Context `{Sh : Sha256Lib} `{K : KeyIter}.

Definition node_new : SyncNode := ∅.

Definition try_insert (n : SyncNode) (snapshot : Snapshot) : SyncNode * result SnapshotDigest NexusError :=
  match digest_of snapshot with
  | Err e => (n, Err e)
  | Ok d => (<[d := snapshot]> n, Ok d)
  end.
Definition has (n : SyncNode) (d : SnapshotDigest) : bool := bool_decide (is_Some (n !! d)).
Definition node_get (n : SyncNode) (d : SnapshotDigest) : option Snapshot := n !! d.
Definition node_len (n : SyncNode) : nat := size n.
Definition digests (n : SyncNode) : list SnapshotDigest := key_iter n.
Definition advertise (n : SyncNode) : SyncMessage := Advertise (digests n).

(** The answer to one wanted digest. *)
Definition answer_want (n : SyncNode) (d : SnapshotDigest) : SyncMessage :=
  match n !! d with
  | Some s => SnapshotMsg d s
  | None => Nack d Gone
  end.

Definition handle (n : SyncNode) (msg : SyncMessage) : SyncNode * list SyncMessage :=
  match msg with
  | Advertise ds =>
      let want := filter (λ d, has n d = false) ds in
      if decide (want = []) then (n, []) else (n, [Want want])
  | Want ds => (n, answer_want n <$> ds)
  | SnapshotMsg digest snapshot =>
      if negb (verify_snapshot_digest snapshot digest) then (n, [Nack digest DigestMismatch])
      else if has n digest then (n, [Ack digest])
      else match try_insert n snapshot with
           | (n', Ok d) => (n', [Ack d])
           | (n', Err _) => (n', [Nack digest DigestMismatch])
           end
  | Ack _ | Nack _ _ => (n, [])
  end.

Definition handle_all (n : SyncNode) (msgs : list SyncMessage) : SyncNode :=
  fold_left (λ n msg, (handle n msg).1) msgs n.

(** ** The in-memory transport *)

(** [while let Some(msg) = t.try_recv() { for out in n.handle(msg) { t.send(out) } }]:
    the inbound queue, the node, the outbound queue and whether anything arrived. *)
Fixpoint drain (inbound : list SyncMessage) (n : SyncNode) (outbound : list SyncMessage)
  : SyncNode * list SyncMessage :=
  match inbound with
  | [] => (n, outbound)
  | msg :: inbound' =>
      let '(n', outs) := handle n msg in
      drain inbound' n' (outbound ++ outs)
  end.

Record Pair := { node_a : SyncNode; node_b : SyncNode; a_to_b : list SyncMessage; b_to_a : list SyncMessage }.

(** One turn of the loop of [replicate]; the flag is [progressed]. *)
Definition pump (p : Pair) : Pair * bool :=
  let progressed1 := bool_decide (p.(a_to_b) ≠ []) in
  let '(b, out_b) := drain p.(a_to_b) p.(node_b) p.(b_to_a) in
  let progressed2 := bool_decide (out_b ≠ []) in
  let '(a, out_a) := drain out_b p.(node_a) [] in
  ({| node_a := a; node_b := b; a_to_b := out_a; b_to_a := [] |}, progressed1 || progressed2).

(** The loop, one unit of fuel per turn. *)
Fixpoint replicate_loop (fuel : nat) (max_steps steps : Z) (p : Pair) : option (Pair * result () NexusError) :=
  match fuel with
  | O => None
  | S fuel' =>
      let '(p, progressed) := pump p in
      if negb progressed then Some (p, Ok ())
      else
        let steps := steps + 1 in
        if max_steps <=? steps
        then Some (p, Err (ConfigError
               (Fmt "snapshot-sync replicate did not reach quiescence within {max_steps} steps"
                  [ANum max_steps])))
        else replicate_loop fuel' max_steps steps p
  end.

(** [replicate] on [InMemoryTransport::pair()]; [max_steps + 1] turns are enough. *)
Definition replicate (a b : SyncNode) (max_steps : Z) : option (Pair * result () NexusError) :=
  replicate_loop (S (Z.to_nat max_steps)) max_steps 0
    {| node_a := a; node_b := b; a_to_b := [advertise a]; b_to_a := [] |}.
End Protocol.

(** ** Content addressing *)

Section Spec.
Context `{Sh : Sha256Lib} `{L : !Sha256Laws Sh} `{K : KeyIter}.

(** Every snapshot sits under its own digest. *)
Definition addressed (n : SyncNode) : Prop := map_Forall (λ d s, digest_of s = Ok d) n.

Lemma has_spec n d : has n d = true ↔ is_Some (n !! d).
Proof. apply bool_decide_eq_true. Qed.

Lemma addressed_insert n d s : addressed n → digest_of s = Ok d → addressed (<[d := s]> n).
Proof. intros Hn Hs. by apply map_Forall_insert_2. Qed.

Lemma handle_snapshot n d s :
  length d = 32%nat →
  handle n (SnapshotMsg d s) =
  if decide (digest_of s = Ok d)
  then (match n !! d with Some _ => n | None => <[d := s]> n end, [Ack d])
  else (n, [Nack d DigestMismatch]).
Proof.
  intros Hd. unfold handle. pose proof (verify_snapshot_digest_spec s d Hd) as Hv.
  destruct (verify_snapshot_digest s d); cbn [negb]; case_decide as Hs.
  2:{ destruct Hs. by apply Hv. }
  2:{ by apply Hv in Hs. }
  2:{ done. }
  unfold has, try_insert. case_bool_decide as Hh.
  - by destruct Hh as [x ->].
  - rewrite Hs. apply eq_None_not_Some in Hh. by rewrite Hh.
Qed.

(** Digests have 32 bytes. *)
Definition msg_ok (msg : SyncMessage) : Prop :=
  match msg with SnapshotMsg d _ => length d = 32%nat | _ => True end.

(** The store only grows: what is held is never replaced. *)
Lemma handle_grows n msg : msg_ok msg → n ⊆ (handle n msg).1.
Proof.
  destruct msg as [ds|ds|d s|d|d r]; intros Hd; try done; [cbn; by case_decide|].
  rewrite handle_snapshot by done. case_decide; [|done]. cbn.
  destruct (n !! d) eqn:E; [done|]. by apply insert_subseteq.
Qed.

Lemma handle_addressed n msg : addressed n → addressed (handle n msg).1.
Proof.
  intros Hn. destruct msg as [ds|ds|d s|d|d r]; cbn; try done; [by case_decide|].
  destruct (verify_snapshot_digest s d); cbn [negb]; [|done].
  destruct (has n d); [done|]. unfold try_insert.
  destruct (digest_of s) as [d'|e] eqn:Ed; [|done]. cbn. by apply addressed_insert.
Qed.

(** ** Replication *)

Lemma drain_snapshots a n ks out :
  addressed a → NoDup ks → (∀ k, k ∈ ks → is_Some (a !! k) ∧ n !! k = None) →
  ∃ n', drain (answer_want a <$> ks) n out = (n', out ++ (Ack <$> ks))
    ∧ ∀ d, n' !! d = match n !! d with
                     | Some s => Some s
                     | None => if decide (d ∈ ks) then a !! d else None
                     end.
Proof.
  intros Ha. revert n out. induction ks as [|k ks IH]; intros n out Hnd Hks.
  { exists n. cbn. rewrite app_nil_r. split; [done|]. intros d. by destruct (n !! d). }
  apply NoDup_cons in Hnd as [Hk Hnd]. destruct (Hks k ltac:(left)) as [[s Hs] Hn].
  pose proof (Ha k s Hs) as Hdig. pose proof (digest_of_length _ _ Hdig) as Hlen.
  cbn [fmap list_fmap drain]. unfold answer_want at 1. rewrite Hs, handle_snapshot, decide_True, Hn by done.
  destruct (IH (<[k := s]> n) (out ++ [Ack k]) Hnd) as (n' & -> & Hn').
  { intros k' Hk'. destruct (Hks k' ltac:(by right)). split; [done|].
    rewrite lookup_insert_ne by congruence. done. }
  exists n'. split; [by rewrite <- (assoc_L (++))|]. intros d. rewrite Hn'.
  destruct (decide (d = k)) as [->|Hne].
  - rewrite lookup_insert_eq, Hn, decide_True by left. done.
  - rewrite lookup_insert_ne by done. destruct (n !! d); [done|].
    destruct (decide (d ∈ ks)); [rewrite decide_True by (by right); done|].
    rewrite decide_False; [done|]. rewrite elem_of_cons. tauto.
Qed.

Lemma drain_acks n ks out : drain (Ack <$> ks) n out = (n, out).
Proof. revert out. induction ks as [|k ks IH]; intros out; cbn; [done|]. by rewrite app_nil_r. Qed.

(** What the receiver asks for. *)
Definition missing (a b : SyncNode) : list SnapshotDigest := filter (λ d, has b d = false) (key_iter a).

Lemma elem_of_missing a b d : d ∈ missing a b ↔ is_Some (a !! d) ∧ b !! d = None.
Proof.
  unfold missing. rewrite list_elem_of_filter, key_iter_perm, list_elem_of_fmap.
  assert (has b d = false ↔ b !! d = None) as ->.
  { rewrite eq_None_not_Some, <- has_spec. by destruct (has b d). }
  split.
  - intros (? & [k s] & -> & Hs%elem_of_map_to_list). cbn in *. eauto.
  - intros ([s Hs] & ?). split; [done|]. exists (d, s). by rewrite elem_of_map_to_list.
Qed.

Lemma missing_NoDup a b : NoDup (missing a b).
Proof.
  apply NoDup_filter. rewrite key_iter_perm. apply NoDup_fst_map_to_list.
Qed.

Lemma pump_quiet a b :
  pump {| node_a := a; node_b := b; a_to_b := []; b_to_a := [] |}
  = ({| node_a := a; node_b := b; a_to_b := []; b_to_a := [] |}, false).
Proof. done. Qed.

Lemma pump_advertise a b :
  pump {| node_a := a; node_b := b; a_to_b := [advertise a]; b_to_a := [] |}
  = ({| node_a := a; node_b := b; a_to_b := answer_want a <$> missing a b; b_to_a := [] |}, true).
Proof.
  unfold pump, advertise, digests. cbn [a_to_b b_to_a node_a node_b drain handle].
  fold (missing a b). destruct (decide (missing a b = [])) as [->|Hne]; [done|]. cbn [app drain handle].
  done.
Qed.

Lemma pump_transfer a b :
  addressed a →
  pump {| node_a := a; node_b := b; a_to_b := answer_want a <$> missing a b; b_to_a := [] |}
  = ({| node_a := a; node_b := b ∪ a; a_to_b := []; b_to_a := [] |}, bool_decide (missing a b ≠ [])).
Proof.
  intros Ha. unfold pump. cbn [a_to_b b_to_a node_a node_b].
  destruct (drain_snapshots a b (missing a b) [] Ha (missing_NoDup a b)) as (b' & -> & Hb').
  { intros k Hk. by apply elem_of_missing. }
  cbn [app]. rewrite drain_acks.
  assert (b' = b ∪ a) as ->.
  { apply map_eq. intros d. rewrite Hb', lookup_union.
    destruct (b !! d) as [s|] eqn:Eb; [by destruct (a !! d)|].
    rewrite (left_id_L None _). case_decide as Hd; [done|].
    rewrite elem_of_missing in Hd. destruct (a !! d) eqn:Ea; [|done]. destruct Hd. eauto. }
  f_equal. by destruct (missing a b).
Qed.

Lemma missing_nil a b : missing a b = [] ↔ ∀ d, is_Some (a !! d) → is_Some (b !! d).
Proof.
  split.
  - intros Hm d Hd. destruct (b !! d) eqn:Eb; [done|].
    assert (d ∈ missing a b) as Hin by (by apply elem_of_missing). rewrite Hm in Hin.
    by apply elem_of_nil in Hin.
  - intros H. destruct (missing a b) as [|d l] eqn:Em; [done|].
    assert (d ∈ missing a b) as [Hd Hb]%elem_of_missing by (rewrite Em; left).
    destruct (H d Hd). congruence.
Qed.
End Spec.

(** ** Properties *)

(** C25: replication converges: on a fresh channel it terminates with the sender
    unchanged, the receiver holding exactly its own snapshots and the sender's
    missing ones, nothing in flight, and success when three turns were allowed (two
    when the receiver already had everything). *)
Theorem replicate_converges `{Sh : Sha256Lib} `{L : !Sha256Laws Sh} `{K : KeyIter}
    (a b : SyncNode) (max_steps : Z) :
  addressed a → 2 ≤ max_steps →
  ∃ res, replicate a b max_steps
    = Some ({| node_a := a; node_b := b ∪ a; a_to_b := []; b_to_a := [] |}, res)
  ∧ (res = Ok () ↔ 3 ≤ max_steps ∨ ∀ d, is_Some (a !! d) → is_Some (b !! d)).
Proof.
  intros Ha Hmax. unfold replicate.
  destruct (Z.to_nat max_steps) as [|[|n]] eqn:En; [lia..|]. setoid_rewrite <- (missing_nil a b).
  cbn [replicate_loop]. rewrite pump_advertise. cbn [negb].
  destruct (Z.leb_spec max_steps (0 + 1)); [lia|]. rewrite (pump_transfer a b Ha).
  case_bool_decide as Hm; cbn [negb].
  - destruct (Z.leb_spec max_steps (0 + 1 + 1)).
    + eexists. split; [done|]. split; [done|]. intros [?|?]; [lia|done].
    + destruct n as [|n]; [lia|]. rewrite pump_quiet. cbn [negb].
      eexists. split; [done|]. split; [|done]. left. lia.
  - eexists. split; [done|]. split; [|done]. right. by destruct (missing a b).
Qed.

(** A node's store is content-addressed and append-only: whatever messages arrive,
    in any order, every snapshot held sits under the digest it hashes to, and no
    entry is ever replaced or dropped. *)
Theorem store_content_addressed `{Sh : Sha256Lib} `{L : !Sha256Laws Sh} `{K : KeyIter}
    (n : SyncNode) (msgs : list SyncMessage) :
  addressed n → Forall msg_ok msgs →
  addressed (handle_all n msgs) ∧ n ⊆ handle_all n msgs.
Proof.
  intros Hn Hmsgs. unfold handle_all. revert n Hn.
  induction Hmsgs as [|msg msgs Hm _ IH]; intros n Hn; [done|]. cbn [fold_left].
  destruct (IH (handle n msg).1) as [H1 H2]; [by apply handle_addressed|].
  split; [done|]. etrans; [by apply handle_grows|done].
Qed.

(** A snapshot message is acknowledged exactly when the snapshot hashes to the
    advertised digest, a second copy is an idempotent success, and anything else is
    refused with the store untouched. *)
Theorem snapshot_message_iff `{Sh : Sha256Lib} `{L : !Sha256Laws Sh} `{K : KeyIter}
    (n : SyncNode) (d : SnapshotDigest) (s : Snapshot) :
  length d = 32%nat →
  (digest_of s = Ok d →
     let n' := match n !! d with Some _ => n | None => <[d := s]> n end in
     handle n (SnapshotMsg d s) = (n', [Ack d]) ∧ handle n' (SnapshotMsg d s) = (n', [Ack d]))
  ∧ (digest_of s ≠ Ok d → handle n (SnapshotMsg d s) = (n, [Nack d DigestMismatch])).
Proof.
  intros Hd. rewrite !handle_snapshot by done. split.
  - intros Hs. cbv zeta. rewrite decide_True by done. split; [done|].
    rewrite handle_snapshot, decide_True by done.
    destruct (n !! d) eqn:E; [by rewrite E|]. by rewrite lookup_insert_eq.
  - intros Hs. by rewrite decide_False.
Qed.

(** The digest covers the checksum a snapshot carries, not its memory bytes: a
    snapshot whose compressed memory was replaced by anything is acknowledged and
    stored under the original digest. *)
Theorem forged_memory_acknowledged `{Sh : Sha256Lib} `{L : !Sha256Laws Sh} `{K : KeyIter}
    (n : SyncNode) (d : SnapshotDigest) (s : Snapshot) (forged : list byte) :
  digest_of s = Ok d → n !! d = None →
  handle n (SnapshotMsg d (with_memory s forged)) = (<[d := with_memory s forged]> n, [Ack d]).
Proof.
  intros Hs Hn. rewrite handle_snapshot by (by eapply digest_of_length).
  by rewrite digest_of_with_memory, decide_True, Hn.
Qed.

(** ** Concrete nodes *)

#[export] Instance toy_key_iter : KeyIter.
Proof. refine {| key_iter m := (map_to_list m).*1 |}. intros m. reflexivity. Defined.
#[local] Existing Instances ToySha.sha ToySha.sha_laws.

Definition toy_digest (name : string) : SnapshotDigest :=
  match digest_of (ToySha.snap name) with Ok d => d | Err _ => [] end.
Definition toy_node (names : list string) : SyncNode :=
  list_to_map ((λ name, (toy_digest name, ToySha.snap name)) <$> names).

Lemma toy_addressed : addressed (toy_node ["a"; "b"]).
Proof. unfold addressed. apply (bool_decide_unpack _). vm_compute. exact I. Qed.

Lemma replicate_converges_witness :
  ∃ res, replicate (toy_node ["a"; "b"]) (toy_node ["b"; "c"]) 3
    = Some ({| node_a := toy_node ["a"; "b"];
               node_b := toy_node ["b"; "c"] ∪ toy_node ["a"; "b"]; a_to_b := []; b_to_a := [] |}, res)
  ∧ (res = Ok () ↔ 3 ≤ 3 ∨ ∀ d, is_Some (toy_node ["a"; "b"] !! d) → is_Some (toy_node ["b"; "c"] !! d)).
Proof.
  apply (replicate_converges (toy_node ["a"; "b"]) (toy_node ["b"; "c"]) 3 toy_addressed). lia.
Defined.

Lemma store_content_addressed_witness :
  let msgs := [SnapshotMsg (toy_digest "a") (ToySha.snap "a"); Want [toy_digest "c"]; Ack (toy_digest "a")] in
  addressed (handle_all ∅ msgs) ∧ ∅ ⊆ handle_all ∅ msgs.
Proof.
  apply (store_content_addressed ∅
    [SnapshotMsg (toy_digest "a") (ToySha.snap "a"); Want [toy_digest "c"]; Ack (toy_digest "a")]).
  - apply map_Forall_empty.
  - repeat constructor.
Defined.

Lemma snapshot_message_iff_witness :
  handle (Sh := ToySha.sha) ∅ (SnapshotMsg (le_bytes 32 0) (ToySha.snap "a"))
  = (∅, [Nack (le_bytes 32 0) DigestMismatch]).
Proof.
  refine (proj2 (snapshot_message_iff ∅ (le_bytes 32 0) (ToySha.snap "a") _) _).
  - reflexivity.
  - vm_compute. discriminate.
Defined.

Lemma forged_memory_acknowledged_witness :
  handle ∅ (SnapshotMsg (toy_digest "a") (with_memory (ToySha.snap "a") [xff]))
  = (<[toy_digest "a" := with_memory (ToySha.snap "a") [xff]]> ∅, [Ack (toy_digest "a")]).
Proof.
  apply (forged_memory_acknowledged ∅ (toy_digest "a") (ToySha.snap "a") [xff]);
    vm_compute; reflexivity.
Defined.
