(* ===== verification/DaemonFraming.v ===== *)
(** * Length-prefixed framing: [src/daemon/protocol.rs]

    A reader is the bytes that are still to come before the end of the stream, a
    writer the bytes written so far; waiting for more input is not modelled.
    serde_json is the pair of arguments [to_vec] and [from_slice]. *)

From S2P Require Import Prelude Errors.

Inductive IoErrorKind := UnexpectedEof | InvalidData (m : Msg).

Definition DEFAULT_MAX_PAYLOAD : Z := 64 * 1024 * 1024.

(** [read_exact]: at the end of the stream everything is consumed. *)
Definition read_exact (n : nat) (r : list byte) : list byte * result (list byte) IoErrorKind :=
  if (length r <? n)%nat then ([], Err UnexpectedEof) else (drop n r, Ok (take n r)).

Definition read_raw_frame_with_limit (r : list byte) (max_payload : Z)
  : list byte * result (list byte) IoErrorKind :=
  match read_exact 4 r with
  | (r, Err e) => (r, Err e)
  | (r, Ok len_buf) =>
      let n := be_value len_buf in
      if max_payload <? n
      then (r, Err (InvalidData (Fmt "frame too large: {len} > {max_payload}" [ANum n; ANum max_payload])))
      else read_exact (Z.to_nat n) r
  end.

Definition write_raw_frame (w : list byte) (body : list byte) : list byte * result () IoErrorKind :=
  if U32_MAX <? len body
  then (w, Err (InvalidData (Lit "payload exceeds u32 max")))
  else (w ++ be_bytes 4 (len body) ++ body, Ok ()).

Section Json.
Context {T : Type}.
Variable from_slice : list byte → option T.
Variable to_vec : T → option (list byte).

Definition read_frame_with_limit (r : list byte) (max_payload : Z) : list byte * result T IoErrorKind :=
  match read_raw_frame_with_limit r max_payload with
  | (r, Err e) => (r, Err e)
  | (r, Ok buf) => (r, ok_or (from_slice buf) (InvalidData (Fmt "JSON: {e}" [AOpaque])))
  end.
Definition read_frame (r : list byte) : list byte * result T IoErrorKind :=
  read_frame_with_limit r DEFAULT_MAX_PAYLOAD.

Definition write_frame (w : list byte) (msg : T) : list byte * result () IoErrorKind :=
  match to_vec msg with
  | None => (w, Err (InvalidData (Fmt "serialize: {e}" [AOpaque])))
  | Some body => write_raw_frame w body
  end.
End Json.

Lemma be_value_4 z : 0 ≤ z ≤ U32_MAX → be_value (be_bytes 4 z) = z.
Proof. intros. apply be_value_bytes. change (256 ^ Z.of_nat 4) with 4294967296. unfold U32_MAX in *. lia. Qed.

Lemma write_raw_frame_Ok w body w' :
  write_raw_frame w body = (w', Ok ()) ↔ len body ≤ U32_MAX ∧ w' = w ++ be_bytes 4 (len body) ++ body.
Proof. unfold write_raw_frame. destruct (Z.ltb_spec U32_MAX (len body)); naive_solver lia. Qed.

(** A frame read back from the front of a stream, with what follows left over. *)
Lemma read_frame_bytes body rest max :
  len body ≤ U32_MAX →
  read_raw_frame_with_limit (be_bytes 4 (len body) ++ body ++ rest) max =
  if max <? len body
  then (body ++ rest,
        Err (InvalidData (Fmt "frame too large: {len} > {max_payload}" [ANum (len body); ANum max])))
  else (rest, Ok body).
Proof.
  intros Hb. pose proof (len_nonneg body). unfold read_raw_frame_with_limit, read_exact at 1.
  destruct (Nat.ltb_spec (length (be_bytes 4 (len body) ++ body ++ rest)) 4) as [Hlt|_].
  { rewrite length_app, be_bytes_length in Hlt. lia. }
  rewrite drop_app_length', take_app_length', be_value_4 by (done || (by rewrite be_bytes_length)).
  destruct (max <? len body); [done|]. unfold read_exact.
  replace (Z.to_nat (len body)) with (length body) by (unfold len; lia).
  destruct (Nat.ltb_spec (length (body ++ rest)) (length body)) as [Hlt|_].
  { rewrite length_app in Hlt. lia. }
  by rewrite drop_app_length, take_app_length.
Qed.

(** A frame that was read is exactly the front of the stream. *)
Lemma read_raw_frame_Ok r max r' frame :
  read_raw_frame_with_limit r max = (r', Ok frame) → r = be_bytes 4 (len frame) ++ frame ++ r'.
Proof.
  unfold read_raw_frame_with_limit, read_exact at 1.
  destruct (Nat.ltb_spec (length r) 4) as [|H4]; [by intros [=]|].
  destruct (max <? be_value (take 4 r)); [by intros [=]|]. unfold read_exact.
  destruct (Nat.ltb_spec (length (drop 4 r)) (Z.to_nat (be_value (take 4 r)))) as [|Hn]; [by intros [=]|].
  intros [= <- <-].
  assert (length (take 4 r) = 4%nat) as Ht by (rewrite length_take; lia).
  pose proof (be_value_range (take 4 r)).
  assert (len (take (Z.to_nat (be_value (take 4 r))) (drop 4 r)) = be_value (take 4 r)) as ->.
  { unfold len. rewrite length_take. lia. }
  assert (be_bytes 4 (be_value (take 4 r)) = take 4 r) as ->.
  { unfold be_bytes, be_value. rewrite <- Ht at 1. rewrite <- (length_reverse (take 4 r)), le_bytes_value.
    apply reverse_involutive. }
  by rewrite !take_drop.
Qed.

(** Raw frames survive the stream, up to the reader's limit; the limit is checked
    before the payload is read. *)
Theorem raw_frame_roundtrip (w body rest : list byte) (max : Z) (w' : list byte) :
  write_raw_frame w body = (w', Ok ()) →
  ∃ frame, w' = w ++ frame ∧
    read_raw_frame_with_limit (frame ++ rest) max =
    if max <? len body
    then (body ++ rest,
          Err (InvalidData (Fmt "frame too large: {len} > {max_payload}" [ANum (len body); ANum max])))
    else (rest, Ok body).
Proof.
  intros [Hb ->]%write_raw_frame_Ok. exists (be_bytes 4 (len body) ++ body). split; [done|].
  rewrite <- (assoc_L (++)). by apply read_frame_bytes.
Qed.
