(* ===== verification/Framed.v ===== *)
(** * The authenticated sync transport: [src/snapshot/sync/framed.rs]

    HMAC-SHA256 is the interface [HmacLib] (its key may have any length, so
    [new_from_slice] does not fail), bincode of the wire messages is [WireCodec],
    base64 and the random nonces are arguments.  A transport's reader and writer are
    the byte streams of [DaemonFraming]; time-outs are not modelled. *)

From S2P Require Import Prelude Errors Compression Snapshot Digest SyncProtocol DaemonFraming.

Class HmacLib := { hmac_sha256 : list byte → list byte → list byte }.
Class HmacLaws (Hm : HmacLib) : Prop := { hmac_length k m : length (hmac_sha256 k m) = 32%nat }.

Definition FRAME_MAC_DOMAIN : list byte := string_bytes "NEXUS-SNAPSHOT-SYNC-FRAME-HMAC-v1".
Definition HANDSHAKE_MAGIC : list byte := string_bytes "NEXUS-SYNC-HELLO-v1".
Definition SESSION_DOMAIN : list byte := string_bytes "NEXUS-SYNC-v1".
Definition SYNC_FRAME_PROTO_VERSION : Z := 1.
Definition SYNC_FRAME_MAC_ALG_HMAC_SHA256 : Z := 1.
Definition SYNC_FRAME_SESSION_LEN : nat := 16.
Definition SYNC_FRAME_NONCE_LEN : nat := 32.
Definition SYNC_FRAME_MAC_LEN : nat := 32.
Definition FRAME_HEADER_LEN : nat := 2 + 1 + 2 + SYNC_FRAME_SESSION_LEN + 8 + 1 + 4.
Definition FRAME_MIN_LEN : nat := FRAME_HEADER_LEN + SYNC_FRAME_MAC_LEN.
Definition HANDSHAKE_LEN : nat := 19 + 2 + 2 + SYNC_FRAME_NONCE_LEN.

Record SyncAuthConfig := { node_key : list byte; key_id : Z; max_payload : Z }.
Definition auth_new (node_key : list byte) : SyncAuthConfig :=
  {| node_key := node_key; key_id := 0; max_payload := DEFAULT_MAX_PAYLOAD |}.
Definition with_key_id (a : SyncAuthConfig) (id : Z) : SyncAuthConfig :=
  {| node_key := a.(node_key); key_id := id; max_payload := a.(max_payload) |}.
Definition with_max_payload (a : SyncAuthConfig) (m : Z) : SyncAuthConfig :=
  {| node_key := a.(node_key); key_id := a.(key_id); max_payload := m |}.

(** [frame[a..b]] *)
Definition slice (a b : nat) (l : list byte) : list byte := take (b - a) (drop a l).

(** ** Frame kinds and wire messages *)

Inductive SyncFrameKind := KAdvertise | KWant | KSnapshot | KAck | KNack.
#[export] Instance SyncFrameKind_eq_dec : EqDecision SyncFrameKind.
Proof. solve_decision. Defined.

Definition kind_u8 (k : SyncFrameKind) : Z :=
  match k with KAdvertise => 1 | KWant => 2 | KSnapshot => 3 | KAck => 4 | KNack => 5 end.
Definition kind_from_u8 (v : Z) : result SyncFrameKind NexusError :=
  if v =? 1 then Ok KAdvertise else if v =? 2 then Ok KWant else if v =? 3 then Ok KSnapshot
  else if v =? 4 then Ok KAck else if v =? 5 then Ok KNack
  else Err (ConfigError (Fmt "unknown sync frame kind {v}" [ANum v])).

Inductive WireNackReason := WDigestMismatch | WGone.
Inductive WireSyncMessage :=
| WAdvertise (digests : list (list byte))
| WWant (digests : list (list byte))
| WSnapshot (digest : list byte) (snapshot : Snapshot)
| WAck (digest : list byte)
| WNack (digest : list byte) (reason : WireNackReason).

Definition wire_kind (w : WireSyncMessage) : SyncFrameKind :=
  match w with
  | WAdvertise _ => KAdvertise | WWant _ => KWant | WSnapshot _ _ => KSnapshot
  | WAck _ => KAck | WNack _ _ => KNack
  end.
Definition into_sync_message (w : WireSyncMessage) : SyncMessage :=
  match w with
  | WAdvertise ds => Advertise ds
  | WWant ds => Want ds
  | WSnapshot d s => SnapshotMsg d s
  | WAck d => Ack d
  | WNack d r => Nack d (match r with WDigestMismatch => DigestMismatch | WGone => Gone end)
  end.
Definition wire_from (m : SyncMessage) : WireSyncMessage :=
  match m with
  | Advertise ds => WAdvertise ds
  | Want ds => WWant ds
  | SnapshotMsg d s => WSnapshot d s
  | Ack d => WAck d
  | Nack d r => WNack d (match r with DigestMismatch => WDigestMismatch | Gone => WGone end)
  end.

Class WireCodec := {
  wire_serialize : WireSyncMessage → option (list byte);
  wire_deserialize : list byte → option WireSyncMessage;
}.
Class WireCodecLaws (W : WireCodec) : Prop := {
  wire_roundtrip w bytes : wire_serialize w = Some bytes → wire_deserialize bytes = Some w;
}.

(** ** Frames *)

Section Frames.
Context `{Sh : Sha256Lib} `{Hm : HmacLib}.

(** The fields before the body, as [encode_frame] and [mac_preimage] write them. *)
Definition frame_fields (key_id : Z) (session_id : list byte) (seq : Z) (kind : SyncFrameKind)
    (body_len : Z) : list byte :=
  be_bytes 2 SYNC_FRAME_PROTO_VERSION ++ [byte_of_Z SYNC_FRAME_MAC_ALG_HMAC_SHA256]
  ++ be_bytes 2 key_id ++ session_id ++ be_bytes 8 seq ++ [byte_of_Z (kind_u8 kind)]
  ++ be_bytes 4 body_len.

Definition mac_preimage (key_id : Z) (session_id : list byte) (seq : Z) (kind : SyncFrameKind)
    (body_len : Z) (body : list byte) : list byte :=
  FRAME_MAC_DOMAIN ++ frame_fields key_id session_id seq kind body_len ++ sha256 body.

Definition compute_mac (key : list byte) (key_id : Z) (session_id : list byte) (seq : Z)
    (kind : SyncFrameKind) (body_len : Z) (body : list byte) : list byte :=
  hmac_sha256 key (mac_preimage key_id session_id seq kind body_len body).

Definition encode_frame (key : list byte) (key_id : Z) (session_id : list byte) (seq : Z)
    (kind : SyncFrameKind) (body : list byte) : result (list byte) NexusError :=
  if U32_MAX <? len body
  then Err (ConfigError (Lit "sync frame body exceeds u32 length prefix"))
  else
    let body_len := len body in
    Ok (frame_fields key_id session_id seq kind body_len ++ body
        ++ compute_mac key key_id session_id seq kind body_len body).

Definition verify_frame (key : list byte) (expected_key_id : Z) (expected_session_id : list byte)
    (frame : list byte) : result (Z * SyncFrameKind * list byte) NexusError :=
  if (length frame <? FRAME_MIN_LEN)%nat
  then Err (ConfigError (Fmt "sync frame too short: {} < {FRAME_MIN_LEN}" [ANum (len frame)]))
  else
    let proto_version := be_value (slice 0 2 frame) in
    if negb (proto_version =? SYNC_FRAME_PROTO_VERSION)
    then Err (ConfigError (Fmt "unsupported sync frame proto_version {proto_version}" [ANum proto_version]))
    else
    let mac_alg := Z_of_byte (nth 2 frame x00) in
    if negb (mac_alg =? SYNC_FRAME_MAC_ALG_HMAC_SHA256)
    then Err (ConfigError (Fmt "unsupported sync frame mac_alg {mac_alg}" [ANum mac_alg]))
    else
    let key_id := be_value (slice 3 5 frame) in
    if negb (key_id =? expected_key_id)
    then Err (ConfigError (Fmt "sync frame key_id {key_id} did not match expected {expected_key_id}"
                [ANum key_id; ANum expected_key_id]))
    else
    let session_id := slice 5 21 frame in
    if negb (bool_decide (session_id = expected_session_id))
    then Err (ConfigError (Lit "sync frame session_id mismatch"))
    else
    let seq := be_value (slice 21 29 frame) in
    let? kind := kind_from_u8 (Z_of_byte (nth 29 frame x00)) in
    let body_len := be_value (slice 30 34 frame) in
    let body_start := FRAME_HEADER_LEN in
    let body_end := (body_start + Z.to_nat body_len)%nat in
    let mac_end := (body_end + SYNC_FRAME_MAC_LEN)%nat in
    if negb (mac_end =? length frame)%nat
    then Err (ConfigError (Fmt "sync frame body_len mismatch: body_len={body_len}, frame_len={}"
                [ANum body_len; ANum (len frame)]))
    else
    let body := slice body_start body_end frame in
    let received_mac := slice body_end mac_end frame in
    if bool_decide (received_mac = compute_mac key key_id session_id seq kind body_len body)
    then Ok (seq, kind, body)
    else Err (ConfigError (Lit "sync frame MAC verification failed")).
End Frames.

(** ** The transport *)

Record FramedSyncTransport := {
  reader : list byte;
  writer : list byte;
  auth : SyncAuthConfig;
  session_id : list byte;
  tx_seq : Z;
  expected_rx_seq : Z;
}.

Definition io_err (e : IoErrorKind) : NexusError := ConfigError (Fmt "sync framed I/O: {e}" [AOpaque]).

Definition set_tx (t : FramedSyncTransport) (w : list byte) (seq : Z) : FramedSyncTransport :=
  {| reader := t.(reader); writer := w; auth := t.(auth); session_id := t.(session_id);
     tx_seq := seq; expected_rx_seq := t.(expected_rx_seq) |}.
Definition set_rx (t : FramedSyncTransport) (r : list byte) (seq : Z) : FramedSyncTransport :=
  {| reader := r; writer := t.(writer); auth := t.(auth); session_id := t.(session_id);
     tx_seq := t.(tx_seq); expected_rx_seq := seq |}.

Section Transport.
Context `{Sh : Sha256Lib} `{Hm : HmacLib} `{W : WireCodec}.

Definition from_parts (r w : list byte) (auth : SyncAuthConfig) (session_id : list byte)
  : FramedSyncTransport :=
  {| reader := r; writer := w; auth := auth; session_id := session_id; tx_seq := 0;
     expected_rx_seq := 0 |}.

Definition send (t : FramedSyncTransport) (msg : SyncMessage) : FramedSyncTransport * result () NexusError :=
  let wire := wire_from msg in
  match wire_serialize wire with
  | None => (t, Err (SerializationError (Fmt "sync body serialize: {e}" [AOpaque])))
  | Some body =>
      match encode_frame t.(auth).(node_key) t.(auth).(key_id) t.(session_id) t.(tx_seq)
              (wire_kind wire) body with
      | Err e => (t, Err e)
      | Ok frame =>
          match write_raw_frame t.(writer) frame with
          | (w, Err e) => (set_tx t w t.(tx_seq), Err (io_err e))
          | (w, Ok _) =>
              match checked_add64 t.(tx_seq) 1 with
              | None => (set_tx t w t.(tx_seq), Err (ConfigError (Lit "sync tx sequence overflow")))
              | Some seq => (set_tx t w seq, Ok ())
              end
          end
      end
  end.

Definition recv (t : FramedSyncTransport) : FramedSyncTransport * result (option SyncMessage) NexusError :=
  match read_raw_frame_with_limit t.(reader) t.(auth).(max_payload) with
  | (r, Err UnexpectedEof) => (set_rx t r t.(expected_rx_seq), Ok None)
  | (r, Err e) => (set_rx t r t.(expected_rx_seq), Err (io_err e))
  | (r, Ok frame) =>
      let t := set_rx t r t.(expected_rx_seq) in
      match verify_frame t.(auth).(node_key) t.(auth).(key_id) t.(session_id) frame with
      | Err e => (t, Err e)
      | Ok (seq, kind, body) =>
          if negb (seq =? t.(expected_rx_seq))
          then (t, Err (ConfigError (Fmt "sync frame out of order: got seq {seq}, expected {}"
                     [ANum seq; ANum t.(expected_rx_seq)])))
          else
            match checked_add64 t.(expected_rx_seq) 1 with
            | None => (t, Err (ConfigError (Lit "sync rx sequence overflow")))
            | Some next =>
                let t := set_rx t t.(reader) next in
                match wire_deserialize body with
                | None => (t, Err (SerializationError (Fmt "sync body deserialize: {e}" [AOpaque])))
                | Some wire =>
                    if negb (bool_decide (wire_kind wire = kind))
                    then (t, Err (ConfigError (Fmt "sync frame kind mismatch: header={kind:?}, body={:?}"
                               [AOpaque; AOpaque])))
                    else (t, Ok (Some (into_sync_message wire)))
                end
            end
      end
  end.

(** ** Handshake *)

Definition write_handshake (w : list byte) (key_id : Z) (nonce : list byte)
  : list byte * result () NexusError :=
  let body := HANDSHAKE_MAGIC ++ be_bytes 2 SYNC_FRAME_PROTO_VERSION ++ be_bytes 2 key_id ++ nonce in
  let '(w, r) := write_raw_frame w body in (w, result_map_err io_err r).

Definition read_handshake (r : list byte) (expected_key_id : Z) (max_payload : Z)
  : list byte * result (list byte) NexusError :=
  match read_raw_frame_with_limit r max_payload with
  | (r, Err e) => (r, Err (io_err e))
  | (r, Ok body) =>
      (r,
       if negb (length body =? HANDSHAKE_LEN)%nat
          || negb (bool_decide (take (length HANDSHAKE_MAGIC) body = HANDSHAKE_MAGIC))
       then Err (ConfigError (Lit "invalid sync handshake frame"))
       else
         let offset := length HANDSHAKE_MAGIC in
         let proto_version := be_value (slice offset (offset + 2) body) in
         if negb (proto_version =? SYNC_FRAME_PROTO_VERSION)
         then Err (ConfigError (Fmt "unsupported sync handshake proto_version {proto_version}" [ANum proto_version]))
         else
           let key_id := be_value (slice (offset + 2) (offset + 4) body) in
           if negb (key_id =? expected_key_id)
           then Err (ConfigError (Fmt "sync handshake key_id {key_id} did not match expected {expected_key_id}"
                       [ANum key_id; ANum expected_key_id]))
           else Ok (slice (offset + 4) (offset + 4 + SYNC_FRAME_NONCE_LEN) body))
  end.

Definition derive_session_id (client_nonce server_nonce : list byte) : list byte :=
  take SYNC_FRAME_SESSION_LEN (sha256 (client_nonce ++ server_nonce ++ SESSION_DOMAIN)).

(** [accept]: read the client's nonce, answer with a fresh one. *)
Definition accept (r w : list byte) (auth : SyncAuthConfig) (fresh_nonce : list byte)
  : result FramedSyncTransport NexusError :=
  let '(r, client) := read_handshake r auth.(key_id) auth.(max_payload) in
  let? client_nonce := client in
  let '(w, written) := write_handshake w auth.(key_id) fresh_nonce in
  let? _ := written in
  Ok (from_parts r w auth (derive_session_id client_nonce fresh_nonce)).

(** [connect_initiator], with the peer's bytes [r] to come. *)
Definition connect_initiator (r w : list byte) (auth : SyncAuthConfig) (fresh_nonce : list byte)
  : result FramedSyncTransport NexusError :=
  let '(w, written) := write_handshake w auth.(key_id) fresh_nonce in
  let? _ := written in
  let '(r, server) := read_handshake r auth.(key_id) auth.(max_payload) in
  let? server_nonce := server in
  Ok (from_parts r w auth (derive_session_id fresh_nonce server_nonce)).
End Transport.

(** ** Keys *)

Definition framed_hex_val (b : byte) : result Z NexusError :=
  let c := Z_of_byte b in
  if (48 <=? c) && (c <=? 57) then Ok (c - 48)
  else if (97 <=? c) && (c <=? 102) then Ok (c - 97 + 10)
  else if (65 <=? c) && (c <=? 70) then Ok (c - 65 + 10)
  else Err (ConfigError (Lit "invalid hex digit in NEXUS_SYNC_NODE_KEY")).
Definition is_hexdigit (b : byte) : bool := is_ok (framed_hex_val b).

Fixpoint parse_key_hex (bytes : list byte) : result (list byte) NexusError :=
  match bytes with
  | c0 :: c1 :: rest =>
      let? hi := framed_hex_val c0 in
      let? lo := framed_hex_val c1 in
      let? out := parse_key_hex rest in
      Ok (byte_of_Z (Z.lor (Z.shiftl hi 4) lo) :: out)
  | _ => Ok []
  end.

(** [parse_key]; [base64] is the standard engine's decoder. *)
Definition parse_key (base64 : list byte → option (list byte)) (raw : string) : result (list byte) NexusError :=
  let trimmed := string_bytes (trim raw) in
  if (length trimmed =? 64)%nat && forallb is_hexdigit trimmed
  then parse_key_hex trimmed
  else
    let? bytes := ok_or (base64 trimmed) (ConfigError (Fmt "invalid NEXUS_SYNC_NODE_KEY: {e}" [AOpaque])) in
    if decide (length bytes = 32%nat) then Ok bytes
    else Err (ConfigError (Lit "NEXUS_SYNC_NODE_KEY must be 32 bytes")).

(** ** Slices and frames *)

Lemma slice_at pre x post a b :
  a = length pre → b = (a + length x)%nat → slice a b (pre ++ x ++ post) = x.
Proof.
  intros -> ->. unfold slice. rewrite drop_app_length, Nat.add_comm, Nat.add_sub. apply take_app_length.
Qed.

Lemma slice_drop a b l : (a ≤ b)%nat → slice a b l ++ drop b l = drop a l.
Proof.
  intros H. unfold slice. rewrite <- (take_drop (b - a) (drop a l)) at 2. f_equal.
  rewrite drop_drop. f_equal. lia.
Qed.

Lemma slice_length a b l : (b ≤ length l)%nat → length (slice a b l) = (b - a)%nat.
Proof. intros H. unfold slice. rewrite length_take, length_drop. lia. Qed.

Lemma slice_one i l : (i < length l)%nat → slice i (S i) l = [nth i l x00].
Proof.
  intros H. unfold slice. replace (S i - i)%nat with 1%nat by lia.
  destruct (lookup_lt_is_Some_2 l i H) as [b Hb]. rewrite (drop_S _ _ _ Hb). cbn.
  by rewrite (nth_lookup_Some _ _ _ _ Hb).
Qed.

Lemma be_bytes_value bs : be_bytes (length bs) (be_value bs) = bs.
Proof.
  unfold be_bytes, be_value. rewrite <- (length_reverse bs), le_bytes_value. apply reverse_involutive.
Qed.

Lemma be_bytes_of n bs z : length bs = n → be_value bs = z → bs = be_bytes n z.
Proof. intros <- <-. by rewrite be_bytes_value. Qed.

Lemma kind_from_u8_Ok v k : kind_from_u8 v = Ok k ↔ v = kind_u8 k.
Proof.
  unfold kind_from_u8.
  repeat match goal with |- context [v =? ?n] => destruct (Z.eqb_spec v n) as [->|] end;
    destruct k; cbn; split; intros; simplify_eq; try done; try congruence.
Qed.

Definition is_u16 (z : Z) : Prop := 0 ≤ z ≤ U16_MAX.

Lemma cons_length_inv {A} n (l : list A) : length l = S n → ∃ b l', l = b :: l' ∧ length l' = n.
Proof. destruct l as [|b l]; [done|]. intros [= H]. eauto. Qed.

(** A list of known length, element by element. *)
Ltac explode H :=
  lazymatch type of H with
  | length _ = S _ =>
      let b := fresh "b" in let l := fresh "l" in let H' := fresh "H" in
      destruct (cons_length_inv _ _ H) as (b & l & -> & H'); clear H; explode H'
  | length _ = 0%nat => apply nil_length_inv in H as ->
  end.

Section FrameLemmas.
Context `{Sh : Sha256Lib} `{Hm : HmacLib} `{HL : !HmacLaws Hm}.

Lemma frame_fields_length kid sess seq k n :
  length sess = SYNC_FRAME_SESSION_LEN → length (frame_fields kid sess seq k n) = FRAME_HEADER_LEN.
Proof.
  intros Hs. unfold frame_fields. rewrite !length_app, !be_bytes_length, Hs. reflexivity.
Qed.

Lemma verify_encode key kid sess seq k body :
  is_u16 kid → length sess = SYNC_FRAME_SESSION_LEN → is_u64 seq → len body ≤ U32_MAX →
  verify_frame key kid sess
    (frame_fields kid sess seq k (len body) ++ body
     ++ compute_mac key kid sess seq k (len body) body) = Ok (seq, k, body).
Proof.
  intros Hkid Hs Hseq Hb.
  set (mac := compute_mac key kid sess seq k (len body) body).
  assert (length mac = 32%nat) as Hmac by apply hmac_length.
  pose proof (frame_fields_length kid sess seq k (len body) Hs) as Hfl.
  set (f := frame_fields kid sess seq k (len body) ++ body ++ mac).
  assert (length f = (34 + length body + 32)%nat) as Hlf.
  { unfold f. rewrite !length_app, Hfl, Hmac. unfold FRAME_HEADER_LEN, SYNC_FRAME_SESSION_LEN. lia. }
  assert (Hfix : slice 0 2 f = be_bytes 2 1 ∧ nth 2 f x00 = x01 ∧ slice 3 5 f = be_bytes 2 kid
    ∧ slice 5 21 f = sess ∧ slice 21 29 f = be_bytes 8 seq ∧ nth 29 f x00 = byte_of_Z (kind_u8 k)
    ∧ slice 30 34 f = be_bytes 4 (len body)).
  { unfold f, frame_fields. rewrite <- !(assoc_L (++)). clear -Hs.
    generalize (be_bytes_length 2 kid), (be_bytes_length 8 seq), (be_bytes_length 4 (len body)).
    generalize (be_bytes 2 kid), (be_bytes 8 seq), (be_bytes 4 (len body)), (body ++ mac), (kind_u8 k).
    intros k2 s8 n4 tl kb H1 H2 H3. revert Hs. change SYNC_FRAME_SESSION_LEN with 16%nat. intros Hs.
    explode H1. explode H2. explode H3. explode Hs. repeat split; reflexivity. }
  destruct Hfix as (S1 & S2 & S3 & S4 & S5 & S6 & S7).
  assert (S8 : slice 34 (34 + length body) f = body) by (apply slice_at; [by rewrite Hfl|done]).
  assert (S9 : slice (34 + length body) (34 + length body + 32) f = mac).
  { unfold f. rewrite <- (app_nil_r mac), (assoc_L (++)) at 1.
    apply slice_at; rewrite ?length_app, ?Hfl, ?Hmac; done. }
  assert (V7 : be_value (be_bytes 4 (len body)) = len body).
  { apply be_value_4. split; [apply len_nonneg|done]. }
  assert (V3 : be_value (be_bytes 2 kid) = kid).
  { apply be_value_bytes. unfold is_u16, U16_MAX in Hkid. change (256 ^ Z.of_nat 2) with 65536. lia. }
  assert (V5 : be_value (be_bytes 8 seq) = seq).
  { apply be_value_bytes. unfold is_u64, U64_MAX in Hseq.
    change (256 ^ Z.of_nat 8) with 18446744073709551616. lia. }
  assert (V6 : Z_of_byte (byte_of_Z (kind_u8 k)) = kind_u8 k) by (by destruct k).
  unfold verify_frame. destruct (Nat.ltb_spec (length f) FRAME_MIN_LEN) as [Hlt|_].
  { unfold FRAME_MIN_LEN, FRAME_HEADER_LEN, SYNC_FRAME_SESSION_LEN, SYNC_FRAME_MAC_LEN in Hlt. lia. }
  rewrite S1, S2, S3, V3, S4, S5, V5, S6, V6, S7, V7. cbv zeta. cbn [Z.eqb negb be_value].
  rewrite Z.eqb_refl, bool_decide_eq_true_2 by done. cbn [negb].
  rewrite (proj2 (kind_from_u8_Ok (kind_u8 k) k) eq_refl). cbn [result_bind].
  replace (Z.to_nat (len body)) with (length body) by (unfold len; lia).
  change FRAME_HEADER_LEN with 34%nat. change SYNC_FRAME_MAC_LEN with 32%nat.
  rewrite Hlf, Nat.eqb_refl, S8, S9. cbn [negb].
  change (Z_of_byte x01 =? SYNC_FRAME_MAC_ALG_HMAC_SHA256) with true. cbn [negb].
  rewrite Z.eqb_refl. cbn [negb]. by rewrite bool_decide_eq_true_2.
Qed.

(** An accepted frame is, byte for byte, the one the key holder encodes. *)
Lemma verify_sound key kid sess f seq k body :
  verify_frame key kid sess f = Ok (seq, k, body) →
  is_u64 seq ∧ encode_frame key kid sess seq k body = Ok f.
Proof.
  unfold verify_frame. destruct (Nat.ltb_spec (length f) FRAME_MIN_LEN) as [|Hmin]; [done|].
  change FRAME_MIN_LEN with 66%nat in Hmin. cbv zeta.
  destruct (Z.eqb_spec (be_value (slice 0 2 f)) SYNC_FRAME_PROTO_VERSION) as [E1|]; [|done].
  destruct (Z.eqb_spec (Z_of_byte (nth 2 f x00)) SYNC_FRAME_MAC_ALG_HMAC_SHA256) as [E2|]; [|done].
  destruct (Z.eqb_spec (be_value (slice 3 5 f)) kid) as [E3|]; [|done].
  case_bool_decide as E4; [|done]. cbn [negb]. intros (k' & Ek & H)%result_bind_Ok.
  apply kind_from_u8_Ok in Ek. set (n := be_value (slice 30 34 f)) in *.
  change FRAME_HEADER_LEN with 34%nat in H. change SYNC_FRAME_MAC_LEN with 32%nat in H.
  destruct (Nat.eqb_spec (34 + Z.to_nat n + 32) (length f)) as [Elen|]; [|done]. cbn [negb] in H.
  case_bool_decide as Emac; [|done]. injection H as Eseq <- Ebody.
  change (slice 34 (34 + Z.to_nat n) f = body) in Ebody.
  assert (Hn : 0 ≤ n ≤ U32_MAX).
  { pose proof (be_value_range (slice 30 34 f)) as Hr. rewrite slice_length in Hr by lia.
    fold n in Hr. change (256 ^ Z.of_nat (34 - 30)) with 4294967296 in Hr. unfold U32_MAX. lia. }
  assert (Hlen : len body = n).
  { rewrite <- Ebody. unfold len. rewrite slice_length by lia. lia. }
  split.
  { pose proof (be_value_range (slice 21 29 f)) as Hr. rewrite slice_length, Eseq in Hr by lia.
    change (256 ^ Z.of_nat (29 - 21)) with 18446744073709551616 in Hr. unfold is_u64, U64_MAX. lia. }
  unfold encode_frame. rewrite Hlen. destruct (Z.ltb_spec U32_MAX n); [lia|]. f_equal.
  rewrite E3, E4, Eseq, Ebody in Emac. rewrite <- Emac, <- Ebody. unfold frame_fields.
  rewrite <- (be_bytes_of 2 (slice 0 2 f) SYNC_FRAME_PROTO_VERSION) by (done || (rewrite slice_length; lia)).
  rewrite <- (be_bytes_of 2 (slice 3 5 f) kid) by (done || (rewrite slice_length; lia)).
  rewrite <- (be_bytes_of 8 (slice 21 29 f) seq) by (done || (rewrite slice_length; lia)).
  rewrite <- (be_bytes_of 4 (slice 30 34 f) n) by (done || (rewrite slice_length; lia)).
  rewrite <- E2, byte_of_Z_of_byte, <- Ek, byte_of_Z_of_byte, <- E4.
  rewrite <- (slice_one 2), <- (slice_one 29) by lia.
  rewrite <- !(assoc_L (++)).
  assert (Hall : slice (34 + Z.to_nat n) (34 + Z.to_nat n + 32) f = drop (34 + Z.to_nat n) f).
  { unfold slice. apply take_ge. rewrite length_drop. lia. }
  rewrite Hall. rewrite !slice_drop by lia. done.
Qed.
End FrameLemmas.

(** ** Transport lemmas *)

Definition with_reader (t : FramedSyncTransport) (r : list byte) : FramedSyncTransport :=
  set_rx t r t.(expected_rx_seq).

(** The two ends of a session: same key, same session, valid widths. *)
Record peers (s r : FramedSyncTransport) : Prop := {
  peer_key : r.(auth).(node_key) = s.(auth).(node_key);
  peer_key_id : r.(auth).(key_id) = s.(auth).(key_id);
  peer_session : r.(session_id) = s.(session_id);
  peer_id_ok : is_u16 s.(auth).(key_id);
  peer_session_ok : length s.(session_id) = SYNC_FRAME_SESSION_LEN;
}.

Lemma into_wire_from m : into_sync_message (wire_from m) = m.
Proof. by destruct m as [| | | |d []]. Qed.

Section TransportLemmas.
Context `{Sh : Sha256Lib} `{Hm : HmacLib} `{HL : !HmacLaws Hm} `{W : WireCodec} `{WL : !WireCodecLaws W}.

Lemma encode_frame_Ok key kid sess seq k body frame :
  encode_frame key kid sess seq k body = Ok frame ↔
  len body ≤ U32_MAX ∧ frame = frame_fields kid sess seq k (len body) ++ body
                               ++ compute_mac key kid sess seq k (len body) body.
Proof. unfold encode_frame. destruct (Z.ltb_spec U32_MAX (len body)); naive_solver lia. Qed.

Lemma send_Ok t msg t' :
  send t msg = (t', Ok ()) →
  ∃ body frame, wire_serialize (wire_from msg) = Some body
    ∧ encode_frame t.(auth).(node_key) t.(auth).(key_id) t.(session_id) t.(tx_seq)
        (wire_kind (wire_from msg)) body = Ok frame
    ∧ len frame ≤ U32_MAX ∧ t.(tx_seq) + 1 ≤ U64_MAX
    ∧ t' = set_tx t (t.(writer) ++ be_bytes 4 (len frame) ++ frame) (t.(tx_seq) + 1).
Proof.
  unfold send. destruct (wire_serialize (wire_from msg)) as [body|]; [|by intros [=]].
  destruct (encode_frame _ _ _ _ _ _) as [frame|e] eqn:Ef; [|by intros [=]].
  destruct (write_raw_frame (writer t) frame) as [w [[]|e]] eqn:Ew; [|by intros [=]].
  unfold checked_add64. destruct (Z.leb_spec (tx_seq t + 1) U64_MAX); intros [= <-].
  apply write_raw_frame_Ok in Ew as [? ->]. eauto 10.
Qed.

Lemma send_fields t msg t' :
  send t msg = (t', Ok ()) →
  t'.(tx_seq) = t.(tx_seq) + 1 ∧ t'.(auth) = t.(auth) ∧ t'.(session_id) = t.(session_id).
Proof. intros (? & ? & _ & _ & _ & _ & ->)%send_Ok. done. Qed.

(** The length of the frame of a message. *)
Definition frame_size (msg : SyncMessage) : Z :=
  match wire_serialize (wire_from msg) with Some body => Z.of_nat FRAME_MIN_LEN + len body | None => 0 end.

(** What one [send] writes, one [recv] of the peer reads, up to its limit. *)
Lemma recv_sent t msg t' :
  send t msg = (t', Ok ()) → 0 ≤ t.(tx_seq) →
  ∃ frame, t'.(writer) = t.(writer) ++ be_bytes 4 (len frame) ++ frame
    ∧ ∀ r rest, peers t r → r.(expected_rx_seq) = t.(tx_seq) → r.(reader) = (be_bytes 4 (len frame) ++ frame) ++ rest →
       recv r = if r.(auth).(max_payload) <? frame_size msg
                then (set_rx r (frame ++ rest) t.(tx_seq),
                      Err (io_err (InvalidData (Fmt "frame too large: {len} > {max_payload}" [ANum (len frame); ANum r.(auth).(max_payload)]))))
                else (set_rx r rest (t.(tx_seq) + 1), Ok (Some msg)).
Proof.
  intros (body & frame & Hser & Henc & Hlen & Hseq & ->)%send_Ok H0.
  exists frame. split; [done|]. intros r rest [Hk Hkid Hs Hidok Hsok] Hexp Hr. apply encode_frame_Ok in Henc as [Hb ->].
  set (frame := frame_fields _ _ _ _ _ ++ _ ++ _) in *.
  assert (frame_size msg = len frame) as ->.
  { unfold frame_size, len, frame. rewrite Hser, !length_app, frame_fields_length by done. unfold compute_mac. rewrite hmac_length.
    unfold FRAME_MIN_LEN, SYNC_FRAME_MAC_LEN, len. lia. }
  unfold recv. rewrite Hr, <- (assoc_L (++)), read_frame_bytes by done.
  destruct (Z.ltb_spec (max_payload (auth r)) (len frame)); [by rewrite Hexp|].
  cbn [set_rx auth session_id expected_rx_seq reader]. rewrite Hk, Hkid, Hs, Hexp. unfold frame.
  rewrite verify_encode by (done || (split; lia)).
  rewrite Z.eqb_refl. cbn [negb]. unfold checked_add64. destruct (Z.leb_spec (tx_seq t + 1) U64_MAX); [|lia].
  rewrite (wire_roundtrip _ _ Hser), bool_decide_eq_true_2 by done. cbn [negb].
  by rewrite into_wire_from.
Qed.

Fixpoint send_all (t : FramedSyncTransport) (msgs : list SyncMessage) : FramedSyncTransport * result () NexusError :=
  match msgs with
  | [] => (t, Ok ())
  | m :: msgs' => match send t m with
                  | (t', Ok _) => send_all t' msgs'
                  | (t', Err e) => (t', Err e)
                  end
  end.

Fixpoint recv_many (n : nat) (t : FramedSyncTransport)
  : FramedSyncTransport * list (result (option SyncMessage) NexusError) :=
  match n with
  | O => (t, [])
  | S n' => let '(t', r) := recv t in let '(t'', rs) := recv_many n' t' in (t'', r :: rs)
  end.

Lemma send_all_prefix t msgs t' :
  send_all t msgs = (t', Ok ()) → ∃ stream, t'.(writer) = t.(writer) ++ stream.
Proof.
  revert t. induction msgs as [|m msgs IH]; intros t; cbn.
  - intros [= <-]. exists []. by rewrite app_nil_r.
  - destruct (send t m) as [t1 [[]|e]] eqn:Es; [|by intros [=]]. intros (s & ->)%IH.
    apply send_Ok in Es as (body & frame & _ & _ & _ & _ & ->). cbn. rewrite <- (assoc_L (++)). eauto.
Qed.

Lemma recv_eof t : t.(reader) = [] → recv t = (set_rx t [] t.(expected_rx_seq), Ok None).
Proof. intros H. unfold recv, read_raw_frame_with_limit, read_exact. by rewrite H. Qed.

Lemma send_all_app t msgs msgs' t' :
  send_all t (msgs ++ msgs') = (t', Ok ()) → ∃ t1, send_all t msgs = (t1, Ok ()) ∧ send_all t1 msgs' = (t', Ok ()).
Proof.
  revert t. induction msgs as [|m msgs IH]; intros t; cbn [send_all app]; [by eauto|].
  destruct (send t m) as [t1 [[]|e]]; [apply IH|by intros [=]].
Qed.
Lemma send_all_fields t msgs t' : send_all t msgs = (t', Ok ()) →
  t'.(tx_seq) = t.(tx_seq) + len msgs ∧ t'.(auth) = t.(auth) ∧ t'.(session_id) = t.(session_id).
Proof.
  revert t. induction msgs as [|m msgs IH]; intros t; cbn [send_all]; [intros [= <-]; unfold len; cbn; by rewrite Z.add_0_r|].
  destruct (send t m) as [t1 [[]|e]] eqn:Es; [|by intros [=]]. intros (H1 & H2 & H3)%IH.
  destruct (send_fields _ _ _ Es) as (Hq & Ha & Hs). rewrite H1, H2, H3, Hq, Ha, Hs. unfold len. cbn [length]. split_and!; [lia|done..].
Qed.

Lemma channel_stream msgs t t' r stream rest :
  send_all t msgs = (t', Ok ()) → t'.(writer) = t.(writer) ++ stream →
  peers t r → 0 ≤ t.(tx_seq) → r.(expected_rx_seq) = t.(tx_seq) →
  Forall (λ m, frame_size m ≤ r.(auth).(max_payload)) msgs → r.(reader) = stream ++ rest →
  recv_many (length msgs) r = (set_rx r rest (t.(tx_seq) + len msgs), (λ m, Ok (Some m)) <$> msgs).
Proof.
  revert t r stream. induction msgs as [|m msgs IH]; intros t r stream; cbn [send_all].
  - intros [= <-] Hw _ _ Hexp _ Hr. cbn. f_equal.
    rewrite <- (app_nil_r (writer t)) in Hw at 1. apply app_inv_head in Hw as <-. cbn in Hr.
    unfold set_rx, len. cbn. rewrite Z.add_0_r, <- Hexp, <- Hr. by destruct r.
  - destruct (send t m) as [t1 [[]|e]] eqn:Es; [|by intros [=]]. intros Hall Hw Hp H0 Hexp [Hfit Hmax]%Forall_cons Hr.
    destruct (send_all_prefix _ _ _ Hall) as [stream1 Hw1].
    destruct (recv_sent t m t1 Es H0) as (frame & Hc & Hrecv).
    rewrite Hc, Hw, <- (assoc_L (++)) in Hw1. apply app_inv_head in Hw1 as ->.
    cbn [length recv_many]. rewrite (Hrecv r (stream1 ++ rest)) by (done || by rewrite Hr, <- !(assoc_L (++))). apply Z.ltb_ge in Hfit as ->.
    destruct (send_fields _ _ _ Es) as (Hseq & Hauth & Hsess).
    rewrite (IH t1 _ stream1 Hall); cbn [set_rx auth expected_rx_seq reader]; try done; try lia.
    + cbn [fmap list_fmap]. unfold set_rx. cbn. do 2 f_equal. unfold len. cbn [length]. lia.
    + by rewrite Hc, Hw, <- !(assoc_L (++)).
    + destruct Hp. constructor; cbn [set_rx auth session_id]; congruence.
Qed.
(** The first message that is too long for the receiver ends the session. *)
Lemma channel_oversize before m after t t' r stream rest :
  send_all t (before ++ m :: after) = (t', Ok ()) → t'.(writer) = t.(writer) ++ stream →
  peers t r → 0 ≤ t.(tx_seq) → r.(expected_rx_seq) = t.(tx_seq) →
  Forall (λ m, frame_size m ≤ r.(auth).(max_payload)) before → r.(auth).(max_payload) < frame_size m → r.(reader) = stream ++ rest →
  ∃ r1 text, recv_many (length before) r = (r1, (λ m, Ok (Some m)) <$> before)
    ∧ r1.(expected_rx_seq) = t.(tx_seq) + len before
    ∧ (recv r1).2 = Err (io_err (InvalidData text)) ∧ (recv r1).1.(expected_rx_seq) = r1.(expected_rx_seq).
Proof.
  intros (t1 & Hb & Ht1)%send_all_app Hw Hp H0 He Hfit Hbig Hr. cbn [send_all] in Ht1.
  destruct (send t1 m) as [t2 [[]|e]] eqn:Es; [|by injection Ht1].
  destruct (send_all_prefix _ _ _ Hb) as [s1 Hs1]. destruct (send_all_prefix _ _ _ Ht1) as [s2 Hs2].
  destruct (send_all_fields _ _ _ Hb) as (Hq & Ha & Hs). pose proof (len_nonneg before).
  destruct (recv_sent t1 m t2 Es ltac:(lia)) as (frame & Hc & Hrecv).
  rewrite Hs2, Hc, Hs1, <- !(assoc_L (++)) in Hw. apply app_inv_head in Hw as <-.
  set (rest1 := frame ++ s2 ++ rest).
  assert (recv_many (length before) r = (set_rx r (be_bytes 4 (len frame) ++ rest1) (t.(tx_seq) + len before), (λ m, Ok (Some m)) <$> before)) as Hgot.
  { apply (channel_stream before t t1 r s1); [done..|]. subst rest1. by rewrite Hr, <- !(assoc_L (++)). }
  eexists _, _. split; [exact Hgot|]. split; [done|].
  rewrite (Hrecv _ (s2 ++ rest)); cbn [set_rx auth expected_rx_seq reader].
  - apply Z.ltb_lt in Hbig as ->. cbn [fst snd set_rx expected_rx_seq]. split; [done|lia].
  - destruct Hp. constructor; cbn [set_rx auth session_id]; congruence.
  - lia.
  - subst rest1. by rewrite <- !(assoc_L (++)).
Qed.

(** Everything [recv] hands out was framed with the key for the expected number. *)
Lemma recv_Some t t' m :
  recv t = (t', Ok (Some m)) →
  ∃ w body frame, wire_deserialize body = Some w ∧ m = into_sync_message w
    ∧ encode_frame t.(auth).(node_key) t.(auth).(key_id) t.(session_id) t.(expected_rx_seq)
        (wire_kind w) body = Ok frame
    ∧ t.(reader) = be_bytes 4 (len frame) ++ frame ++ t'.(reader)
    ∧ t'.(expected_rx_seq) = t.(expected_rx_seq) + 1.
Proof.
  unfold recv. destruct (read_raw_frame_with_limit _ _) as [r [frame|e]] eqn:Er; [|by destruct e; intros [=]].
  cbn [set_rx auth session_id expected_rx_seq reader].
  destruct (verify_frame _ _ _ frame) as [[[seq k] body]|e] eqn:Ev; [|by intros [=]].
  destruct (Z.eqb_spec seq (expected_rx_seq t)) as [->|]; [|by intros [=]]. cbn [negb].
  unfold checked_add64. destruct (Z.leb_spec (expected_rx_seq t + 1) U64_MAX); [|by intros [=]].
  destruct (wire_deserialize body) as [w|] eqn:Ew; [|by intros [=]].
  case_bool_decide as Hk; [|by intros [=]]. intros [= <- <-].
  apply verify_sound in Ev as [_ Henc]. rewrite <- Hk in Henc. exists w, body, frame.
  split_and!; try done. cbn [reader]. by apply read_raw_frame_Ok in Er.
Qed.
End TransportLemmas.

(** ** Properties *)

(** Frames are authenticated byte for byte: verification accepts a frame as
    [(seq, kind, body)] exactly when it is the very string the key holder encodes
    for them in this session, so no other version, algorithm, key id, session,
    number, kind, length, body or MAC passes. *)
Theorem verify_frame_iff `{Sh : Sha256Lib} `{Hm : HmacLib} `{HL : !HmacLaws Hm}
    (key session frame body : list byte) (kid seq : Z) (kind : SyncFrameKind) :
  is_u16 kid → length session = SYNC_FRAME_SESSION_LEN →
  verify_frame key kid session frame = Ok (seq, kind, body) ↔
  is_u64 seq ∧ encode_frame key kid session seq kind body = Ok frame.
Proof.
  intros Hk Hs. split; [apply verify_sound|]. intros [Hseq [Hb ->]%encode_frame_Ok].
  by apply verify_encode.
Qed.

(** C34: the channel delivers in order.  Of the messages that one end sends, the other end of
    the session receives those before the first whose frame exceeds its own limit, message
    for message, and its sequence number advances by their number.  If there is no such
    message it then receives the end of the stream; if there is one, [recv] refuses it with
    an I/O error and expects the same number still.  ([send] does not look at the limit.) *)
Theorem channel_in_order `{Sh : Sha256Lib} `{Hm : HmacLib} `{HL : !HmacLaws Hm} `{W : WireCodec}
    `{WL : !WireCodecLaws W} (msgs : list SyncMessage) (t t' r : FramedSyncTransport) :
  send_all t msgs = (t', Ok ()) → t.(writer) = [] → peers t r → 0 ≤ t.(tx_seq) →
  r.(expected_rx_seq) = t.(tx_seq) → r.(reader) = t'.(writer) →
  let fits m := frame_size m ≤ r.(auth).(max_payload) in
  (Forall fits msgs →
   recv_many (length msgs) r
     = (set_rx r [] (t.(tx_seq) + len msgs), (λ m, Ok (Some m)) <$> msgs)
   ∧ recv (set_rx r [] (t.(tx_seq) + len msgs))
     = (set_rx r [] (t.(tx_seq) + len msgs), Ok None))
  ∧ (∀ before m after, msgs = before ++ m :: after → Forall fits before → ¬ fits m →
     ∃ r1 text, recv_many (length before) r = (r1, (λ m, Ok (Some m)) <$> before)
       ∧ r1.(expected_rx_seq) = t.(tx_seq) + len before
       ∧ (recv r1).2 = Err (io_err (InvalidData text)) ∧ (recv r1).1.(expected_rx_seq) = r1.(expected_rx_seq)).
Proof.
  intros Hs Hw Hp H0 He Hr. split.
  - intros Hfit. split; [|by rewrite recv_eof].
    apply (channel_stream msgs t t' r (writer t') []); try done; [by rewrite Hw|by rewrite app_nil_r].
  - intros before m after -> Hfit Hbig. apply (channel_oversize before m after t t' r (writer t') []); try done;
      [by rewrite Hw|lia|by rewrite app_nil_r].
Qed.

(** A receiver only ever hands out the frame it expects next: a delivered message
    was framed with the session's key under exactly the expected number, which then
    advances, so a replayed, reordered, dropped or altered frame is never
    delivered. *)
Theorem recv_only_next_frame `{Sh : Sha256Lib} `{Hm : HmacLib} `{W : WireCodec}
    (t t' : FramedSyncTransport) (m : SyncMessage) :
  recv t = (t', Ok (Some m)) →
  ∃ w body frame, wire_deserialize body = Some w ∧ m = into_sync_message w
    ∧ encode_frame t.(auth).(node_key) t.(auth).(key_id) t.(session_id) t.(expected_rx_seq)
        (wire_kind w) body = Ok frame
    ∧ t.(reader) = be_bytes 4 (len frame) ++ frame ++ t'.(reader)
    ∧ t'.(expected_rx_seq) = t.(expected_rx_seq) + 1.
Proof. apply recv_Some. Qed.

(** The MAC does not bind the direction: both ends share the key, the session
    identifier and the numbering from 0, so a frame reflected to its own sender is
    accepted there as a message of the peer. *)
Theorem reflected_frame_accepted `{Sh : Sha256Lib} `{Hm : HmacLib} `{HL : !HmacLaws Hm} `{W : WireCodec}
    `{WL : !WireCodecLaws W} (key session : list byte) (kid max : Z) (m : SyncMessage)
    (t' : FramedSyncTransport) :
  is_u16 kid → length session = SYNC_FRAME_SESSION_LEN →
  let cfg := {| node_key := key; key_id := kid; max_payload := max |} in
  send (from_parts [] [] cfg session) m = (t', Ok ()) → frame_size m ≤ max →
  ∃ t'', recv (with_reader t' t'.(writer)) = (t'', Ok (Some m)).
Proof.
  intros Hk Hs cfg Hsend Hmax. pose proof (send_Ok _ _ _ Hsend) as (? & ? & _ & _ & _ & _ & Ht').
  destruct (recv_sent _ m t' Hsend) as (frame & Hc & Hrecv); [done|]. eexists. rewrite (Hrecv _ []).
  - assert (max_payload (auth (with_reader t' (writer t'))) = max) as -> by (by rewrite Ht'). apply Z.ltb_ge in Hmax as ->. done.
  - rewrite Ht'. by constructor.
  - by rewrite Ht'.
  - by rewrite app_nil_r.
Qed.

Lemma handshake_fields kid nonce (body := HANDSHAKE_MAGIC ++ be_bytes 2 SYNC_FRAME_PROTO_VERSION
    ++ be_bytes 2 kid ++ nonce) :
  length nonce = SYNC_FRAME_NONCE_LEN →
  length body = HANDSHAKE_LEN
  ∧ take (length HANDSHAKE_MAGIC) body = HANDSHAKE_MAGIC
  ∧ slice (length HANDSHAKE_MAGIC) (length HANDSHAKE_MAGIC + 2) body = be_bytes 2 SYNC_FRAME_PROTO_VERSION
  ∧ slice (length HANDSHAKE_MAGIC + 2) (length HANDSHAKE_MAGIC + 4) body = be_bytes 2 kid
  ∧ slice (length HANDSHAKE_MAGIC + 4) (length HANDSHAKE_MAGIC + 4 + SYNC_FRAME_NONCE_LEN) body = nonce.
Proof.
  intros Hn. subst body. split_and!.
  - by rewrite !length_app, !be_bytes_length, Hn.
  - apply take_app_length.
  - by apply slice_at.
  - rewrite (assoc_L (++)). apply slice_at; [done|]. by rewrite be_bytes_length.
  - rewrite <- (app_nil_r nonce) at 1. rewrite !(assoc_L (++)), <- (assoc_L (++) _ nonce []).
    apply slice_at; [|by rewrite Hn]. by rewrite !length_app, !be_bytes_length.
Qed.

Lemma handshake_read kid nonce max rest w :
  is_u16 kid → length nonce = SYNC_FRAME_NONCE_LEN → 55 ≤ max →
  ∃ hello, write_handshake w kid nonce = (w ++ hello, Ok ())
    ∧ read_handshake (hello ++ rest) kid max = (rest, Ok nonce).
Proof.
  intros Hk Hn Hmax.
  destruct (handshake_fields kid nonce Hn) as (Hb & Hmagic & Hver & Hkid & Hnonce).
  set (body := HANDSHAKE_MAGIC ++ _) in *.
  assert (len body = 55) as Hlb by (unfold len; by rewrite Hb).
  assert (len body ≤ U32_MAX) as Hu by (by rewrite Hlb).
  exists (be_bytes 4 (len body) ++ body). unfold write_handshake. fold body.
  unfold write_raw_frame. destruct (Z.ltb_spec U32_MAX (len body)); [lia|]. split; [done|].
  unfold read_handshake. rewrite <- (assoc_L (++)), (read_frame_bytes body rest max Hu).
  destruct (Z.ltb_spec max (len body)); [lia|]. rewrite Hb, Nat.eqb_refl, Hmagic.
  rewrite bool_decide_eq_true_2 by done. cbn [negb orb]. rewrite Hver, Hkid, Hnonce.
  assert (be_value (be_bytes 2 kid) = kid) as ->.
  { apply be_value_bytes. unfold is_u16, U16_MAX in Hk. change (256 ^ Z.of_nat 2) with 65536. lia. }
  change (be_value (be_bytes 2 SYNC_FRAME_PROTO_VERSION) =? SYNC_FRAME_PROTO_VERSION) with true.
  cbn [negb]. by rewrite Z.eqb_refl.
Qed.

(** The handshake agrees: when each end reads what the other wrote, both derive the
    same session identifier and start at sequence number 0 in both directions, with
    nothing else consumed from either stream. *)
Theorem handshake_agrees `{Sh : Sha256Lib} (cfg_a cfg_b : SyncAuthConfig)
    (client_nonce server_nonce : list byte) :
  is_u16 cfg_a.(key_id) → cfg_b.(key_id) = cfg_a.(key_id) →
  length client_nonce = SYNC_FRAME_NONCE_LEN → length server_nonce = SYNC_FRAME_NONCE_LEN →
  55 ≤ cfg_a.(max_payload) → 55 ≤ cfg_b.(max_payload) →
  ∃ hello_a hello_b session,
    accept hello_a [] cfg_b server_nonce = Ok (from_parts [] hello_b cfg_b session)
    ∧ connect_initiator hello_b [] cfg_a client_nonce = Ok (from_parts [] hello_a cfg_a session).
Proof.
  intros Hk He Hc Hs Ha Hb.
  destruct (handshake_read (key_id cfg_a) client_nonce (max_payload cfg_b) [] [] Hk Hc Hb) as (ha & Wa & Ra).
  destruct (handshake_read (key_id cfg_a) server_nonce (max_payload cfg_a) [] [] Hk Hs Ha) as (hb & Wb & Rb).
  rewrite app_nil_r in Ra, Rb. cbn [app] in Wa, Wb.
  exists ha, hb, (derive_session_id client_nonce server_nonce). split.
  - unfold accept. rewrite He, Ra. cbn [result_bind]. by rewrite Wb.
  - unfold connect_initiator. rewrite Wa. cbn [result_bind]. by rewrite Rb.
Qed.

(** ** Concrete instances *)

Module ToyChannel.
#[local] Existing Instances ToySha.sha.
#[export] Instance hmac : HmacLib := {| hmac_sha256 k m := take 32 (reverse m ++ k ++ le_bytes 32 0) |}.
#[export] Instance hmac_laws : HmacLaws hmac.
Proof.
  constructor. intros k m. change (length (take 32 (reverse m ++ k ++ le_bytes 32 0)) = 32%nat).
  rewrite length_take, !length_app, le_bytes_length. lia.
Qed.
Definition ser (w : WireSyncMessage) : option (list byte) :=
  match w with
  | WWant [] => Some [x02]
  | WAck d => Some (x04 :: d)
  | _ => None
  end.
Definition de (bs : list byte) : option WireSyncMessage :=
  match bs with
  | [x02] => Some (WWant [])
  | x04 :: d => Some (WAck d)
  | _ => None
  end.
#[export] Instance wire : WireCodec := {| wire_serialize := ser; wire_deserialize := de |}.
#[export] Instance wire_laws : WireCodecLaws wire.
Proof.
  constructor. intros [|[|]| |d|] bytes; cbn; intros H; simplify_eq; try done.
Qed.
Definition key : list byte := string_bytes "k".
Definition session : list byte := be_bytes 16 7.
Definition cfg : SyncAuthConfig := {| node_key := key; key_id := 5; max_payload := 4096 |}.
Definition sender : FramedSyncTransport := from_parts [] [] cfg session.
Definition msgs : list SyncMessage := [Ack (be_bytes 32 9); Want []].
Definition sent : FramedSyncTransport := (send_all sender msgs).1.
Definition receiver : FramedSyncTransport := from_parts sent.(writer) [] cfg session.
Definition frame : list byte :=
  match encode_frame key 5 session 3 KWant [x02] with Ok f => f | Err _ => [] end.
Definition nonce (n : Z) : list byte := be_bytes 32 n.
End ToyChannel.

#[local] Existing Instances ToySha.sha ToyChannel.hmac ToyChannel.hmac_laws ToyChannel.wire
  ToyChannel.wire_laws.

Lemma verify_frame_iff_witness :
  let ok := verify_frame ToyChannel.key 5 ToyChannel.session ToyChannel.frame = Ok (3, KWant, [x02]) in
  length ToyChannel.frame = 67%nat ∧ ok
  ∧ (ok ↔ is_u64 3 ∧ encode_frame ToyChannel.key 5 ToyChannel.session 3 KWant [x02] = Ok ToyChannel.frame).
Proof.
  split_and!; [vm_compute; reflexivity|vm_compute; reflexivity|].
  apply (verify_frame_iff ToyChannel.key ToyChannel.session ToyChannel.frame [x02] 5 3 KWant);
    [split; unfold U16_MAX; lia|reflexivity].
Defined.

Lemma channel_in_order_witness :
  recv_many 2 ToyChannel.receiver
    = (set_rx ToyChannel.receiver [] 2, (λ m, Ok (Some m)) <$> ToyChannel.msgs)
  ∧ recv (set_rx ToyChannel.receiver [] 2) = (set_rx ToyChannel.receiver [] 2, Ok None).
Proof.
  refine (proj1 (channel_in_order ToyChannel.msgs ToyChannel.sender ToyChannel.sent ToyChannel.receiver _ _ _ _ _ _) _);
    [vm_compute; reflexivity|reflexivity| |cbn; lia|reflexivity|reflexivity|repeat constructor; vm_compute; discriminate].
  constructor; try reflexivity. split; unfold U16_MAX; cbn; lia.
Defined.

Lemma recv_only_next_frame_witness :
  let r' := (recv ToyChannel.receiver).1 in
  (∃ w body frame, wire_deserialize body = Some w ∧ Ack (be_bytes 32 9) = into_sync_message w
    ∧ encode_frame ToyChannel.key 5 ToyChannel.session 0 (wire_kind w) body = Ok frame
    ∧ ToyChannel.receiver.(reader) = be_bytes 4 (len frame) ++ frame ++ r'.(reader)
    ∧ r'.(expected_rx_seq) = 0 + 1).
Proof.
  apply (recv_only_next_frame ToyChannel.receiver _ (Ack (be_bytes 32 9))). vm_compute. reflexivity.
Defined.

Lemma reflected_frame_accepted_witness :
  let t' := (send ToyChannel.sender (Want [])).1 in
  ∃ t'', recv (with_reader t' t'.(writer)) = (t'', Ok (Some (Want []))).
Proof.
  apply (reflected_frame_accepted ToyChannel.key ToyChannel.session 5 4096 (Want []));
    [split; unfold U16_MAX; lia|reflexivity|vm_compute; reflexivity|vm_compute; discriminate].
Defined.

Lemma handshake_agrees_witness :
  ∃ hello_a hello_b session,
    accept hello_a [] ToyChannel.cfg (ToyChannel.nonce 2)
      = Ok (from_parts [] hello_b ToyChannel.cfg session)
    ∧ connect_initiator hello_b [] ToyChannel.cfg (ToyChannel.nonce 1)
      = Ok (from_parts [] hello_a ToyChannel.cfg session).
Proof.
  apply (handshake_agrees ToyChannel.cfg ToyChannel.cfg (ToyChannel.nonce 1) (ToyChannel.nonce 2));
    [split; unfold U16_MAX; cbn; lia|reflexivity|reflexivity|reflexivity|cbn; lia|cbn; lia].
Defined.
