(* ===== verification/Lineage.v ===== *)
(** * Snapshot lineage: [src/snapshot/sync/lineage.rs]

    The hybrid logical clock and the parent-linked store of lineage heads.  The wall
    clock is an argument ([now]), the iteration order of a [HashSet] is the interface
    [SetIter], and the update identifier (a random UUID nobody reads) is left out.
    The ancestor walk has fuel: one step per known node and one more is enough,
    because its set of seen digests grows inside the known ones ([anc_walk_total]). *)

From stdpp Require Import sorting.
From S2P Require Import Prelude Errors Compression Snapshot Digest.

(** ** The hybrid logical clock *)

Record HlcTimestamp := { physical_millis : Z; logical : Z; hlc_node_id : string }.

Definition hlc_now (now : Z) (node_id : string) : HlcTimestamp :=
  {| physical_millis := now; logical := 0; hlc_node_id := node_id |}.
Definition from_parts (physical logical : Z) (node_id : string) : HlcTimestamp :=
  {| physical_millis := physical; logical := logical; hlc_node_id := node_id |}.

(** [physical_millis_now]: the clock's milliseconds, at most [u64::MAX]. *)
Definition physical_millis_now (millis : Z) : Z := Z.min millis U64_MAX.

Definition tick (now : Z) (t : HlcTimestamp) : HlcTimestamp :=
  if t.(physical_millis) <? now
  then {| physical_millis := now; logical := 0; hlc_node_id := t.(hlc_node_id) |}
  else {| physical_millis := t.(physical_millis); logical := saturating_add64 t.(logical) 1;
          hlc_node_id := t.(hlc_node_id) |}.

Definition update (now : Z) (t observed : HlcTimestamp) : HlcTimestamp :=
  let local_physical := t.(physical_millis) in
  let observed_physical := observed.(physical_millis) in
  let max_physical := Z.max (Z.max now local_physical) observed_physical in
  let logical :=
    if (max_physical =? local_physical) && (max_physical =? observed_physical)
    then saturating_add64 (Z.max t.(logical) observed.(logical)) 1
    else if max_physical =? local_physical then saturating_add64 t.(logical) 1
    else if max_physical =? observed_physical then saturating_add64 observed.(logical) 1
    else 0 in
  {| physical_millis := max_physical; logical := logical; hlc_node_id := t.(hlc_node_id) |}.

Definition cmp_then (a b : comparison) : comparison := match a with Eq => b | _ => a end.

(** [Ord for HlcTimestamp]: the triple, compared from the left. *)
Definition hlc_cmp (a b : HlcTimestamp) : comparison :=
  cmp_then (a.(physical_millis) ?= b.(physical_millis))
    (cmp_then (a.(logical) ?= b.(logical)) (String.compare a.(hlc_node_id) b.(hlc_node_id))).

Fixpoint bytes_cmp (a b : list byte) : comparison :=
  match a, b with
  | [], [] => Eq
  | [], _ => Lt
  | _, [] => Gt
  | x :: a, y :: b => cmp_then (Z_of_byte x ?= Z_of_byte y) (bytes_cmp a b)
  end.

(** ** Heads and the store *)

Record LineageHead := {
  agent_id : string;
  head_digest : SnapshotDigest;
  parent_digest : option SnapshotDigest;
  head_hlc : HlcTimestamp;
  head_node_id : string;
}.

Record LineageFork := { fork_agent : string; fork_left : SnapshotDigest; fork_right : SnapshotDigest }.

Inductive LineageUpdate :=
| InsertedRoot
| AlreadyKnown
| StaleAncestor (descendant : SnapshotDigest)
| FastForwarded (replaced : list SnapshotDigest)
| Forked (forks : list LineageFork).

Record LineageStore := {
  nodes : gmap SnapshotDigest LineageHead;
  heads_by_agent : gmap string (gset SnapshotDigest);
  forks : list LineageFork;
}.

Class SetIter := {
  set_iter : gset SnapshotDigest → list SnapshotDigest;
  set_iter_perm X : set_iter X ≡ₚ elements X;
}.

Definition lineage_new : LineageStore := {| nodes := ∅; heads_by_agent := ∅; forks := [] |}.
Definition lineage_contains (s : LineageStore) (d : SnapshotDigest) : bool :=
  bool_decide (is_Some (s.(nodes) !! d)).
Definition lineage_get (s : LineageStore) (d : SnapshotDigest) : option LineageHead := s.(nodes) !! d.

Section Lineage.
Context `{SI : SetIter}.

Definition agent_heads (s : LineageStore) (agent : string) : gset SnapshotDigest :=
  default ∅ (s.(heads_by_agent) !! agent).

Definition head_before (a b : LineageHead) : Prop :=
  cmp_then (hlc_cmp a.(head_hlc) b.(head_hlc)) (bytes_cmp a.(head_digest) b.(head_digest)) ≠ Gt.
#[export] Instance head_before_dec : RelDecision head_before.
Proof. unfold head_before. intros a b. apply _. Defined.

Definition heads_for (s : LineageStore) (agent : string) : list LineageHead :=
  merge_sort head_before (omap (λ d, s.(nodes) !! d) (set_iter (agent_heads s agent))).

Definition parent_of (m : gmap SnapshotDigest LineageHead) (d : SnapshotDigest) : option SnapshotDigest :=
  m !! d ≫= parent_digest.

(** The [while let] of [is_ancestor_digest]. *)
Fixpoint anc_walk (fuel : nat) (m : gmap SnapshotDigest LineageHead) (ancestor : SnapshotDigest)
    (cursor : option SnapshotDigest) (seen : gset SnapshotDigest) : option bool :=
  match cursor with
  | None => Some false
  | Some digest =>
      if decide (digest = ancestor) then Some true
      else if decide (digest ∈ seen) then Some false
      else match fuel with
           | O => None
           | S fuel => anc_walk fuel m ancestor (parent_of m digest) ({[digest]} ∪ seen)
           end
  end.

Definition is_ancestor_digest (m : gmap SnapshotDigest LineageHead)
    (ancestor descendant : SnapshotDigest) : bool :=
  default false (anc_walk (S (size m)) m ancestor (Some descendant) ∅).

(** The loop of [apply_head] over the current heads. *)
Definition classify (m : gmap SnapshotDigest LineageHead) (agent : string) (new : SnapshotDigest)
    (current_heads : list SnapshotDigest)
  : list SnapshotDigest * list SnapshotDigest * list LineageFork :=
  fold_left (λ '(replaced, descendants, forks) current,
    if is_ancestor_digest m current new then (replaced ++ [current], descendants, forks)
    else if is_ancestor_digest m new current then (replaced, descendants ++ [current], forks)
    else (replaced, descendants,
          forks ++ [{| fork_agent := agent; fork_left := current; fork_right := new |}]))
    current_heads ([], [], []).

Definition apply_head (s : LineageStore) (head : LineageHead) : LineageStore * LineageUpdate :=
  match s.(nodes) !! head.(head_digest) with
  | Some _ => (s, AlreadyKnown)
  | None =>
      let agent := head.(agent_id) in
      let new := head.(head_digest) in
      let m := <[new := head]> s.(nodes) in
      let heads := agent_heads s agent in
      match set_iter heads with
      | [] =>
          ({| nodes := m; heads_by_agent := <[agent := {[new]} ∪ heads]> s.(heads_by_agent);
              forks := s.(forks) |}, InsertedRoot)
      | current_heads =>
          let '(replaced, descendants, new_forks) := classify m agent new current_heads in
          match replaced, descendants, new_forks with
          | [], d0 :: _, [] =>
              ({| nodes := m; heads_by_agent := <[agent := heads]> s.(heads_by_agent);
                  forks := s.(forks) |}, StaleAncestor d0)
          | _, _, _ =>
              let kept := heads ∖ list_to_set replaced in
              let kept := match descendants with [] => {[new]} ∪ kept | _ => kept end in
              let by_agent := <[agent := kept]> s.(heads_by_agent) in
              match new_forks with
              | [] => ({| nodes := m; heads_by_agent := by_agent; forks := s.(forks) |},
                       FastForwarded replaced)
              | _ => ({| nodes := m; heads_by_agent := by_agent; forks := s.(forks) ++ new_forks |},
                      Forked new_forks)
              end
          end
      end
  end.

Definition apply_heads (s : LineageStore) (hs : list LineageHead) : LineageStore :=
  fold_left (λ s h, (apply_head s h).1) hs s.
End Lineage.

(** ** The ancestor walk *)

Section Walk.
Variable m : gmap SnapshotDigest LineageHead.

(** One parent link. *)
Definition link (d p : SnapshotDigest) : Prop := parent_of m d = Some p.

Lemma link_Some d p : link d p ↔ ∃ h, m !! d = Some h ∧ h.(parent_digest) = Some p.
Proof. unfold link, parent_of. rewrite bind_Some. naive_solver. Qed.

Lemma anc_walk_true fuel a cursor seen :
  anc_walk fuel m a cursor seen = Some true → ∃ d, cursor = Some d ∧ rtc link d a.
Proof.
  revert cursor seen. induction fuel as [|fuel IH]; intros [d|] seen; cbn; try done;
    destruct (decide (d = a)) as [->|]; try by (intros _; eexists; split; [done|apply rtc_refl]).
  - by case_decide.
  - case_decide; [done|]. intros (d' & Hd & Hp)%IH. exists d. split; [done|].
    eapply rtc_l; [exact Hd|done].
Qed.

(** A walk that says no leaves a set closed under links, without the ancestor. *)
Lemma anc_walk_false fuel a cursor seen :
  (∀ x, x ∈ seen → x ≠ a ∧ ∀ y, link x y → y ∈ seen ∨ cursor = Some y) →
  anc_walk fuel m a cursor seen = Some false →
  ∃ S : gset SnapshotDigest, (∀ d, cursor = Some d → d ∈ S) ∧ a ∉ S ∧ ∀ x y, x ∈ S → link x y → y ∈ S.
Proof.
  revert cursor seen. induction fuel as [|fuel IH]; intros [d|] seen Hinv; cbn.
  2, 4: by intros _; exists seen; split_and!; [done| |naive_solver]; intros Ha; by destruct (Hinv a Ha).
  all: destruct (decide (d = a)); [done|].
  all: destruct (decide (d ∈ seen)) as [Hin|Hin];
    [intros _; exists seen; split_and!; [naive_solver| |naive_solver]; intros Ha; by destruct (Hinv a Ha)|].
  - done.
  - intros (S & HS & Ha & Hc)%IH.
    2: { intros x [->%elem_of_singleton|Hx]%elem_of_union; [split; [done|]; intros y Hy; by right|].
         destruct (Hinv x Hx) as [Hxa Hy]. split; [done|]. intros y Hxy.
         destruct (Hy y Hxy) as [?|[= <-]]; left; set_solver. }
    exists ({[d]} ∪ S). split_and!; [set_solver|set_solver|].
    intros x y [->%elem_of_singleton|Hx]%elem_of_union Hxy; [|set_solver].
    apply elem_of_union_r. by apply HS.
Qed.

Lemma anc_walk_total fuel a cursor seen :
  (size (dom m ∖ seen) < fuel)%nat → is_Some (anc_walk fuel m a cursor seen).
Proof.
  revert cursor seen. induction fuel as [|fuel IH]; intros cursor seen Hf; [lia|].
  destruct cursor as [d|]; cbn; [|eauto]. destruct (decide (d = a)); [eauto|].
  case_decide as Hin; [eauto|]. unfold parent_of. destruct (m !! d) as [h|] eqn:Hd; cbn.
  - apply IH. enough (size (dom m ∖ ({[d]} ∪ seen)) < size (dom m ∖ seen))%nat by lia.
    apply subset_size. apply elem_of_dom_2 in Hd. set_solver.
  - destruct fuel; cbn; eauto.
Qed.

Lemma is_ancestor_iff a d : is_ancestor_digest m a d = true ↔ rtc link d a.
Proof.
  unfold is_ancestor_digest.
  destruct (anc_walk_total (S (size m)) a (Some d) ∅) as [[] Hw].
  - rewrite difference_empty_L, size_dom. lia.
  - rewrite Hw. cbn. apply anc_walk_true in Hw as (d' & [= <-] & ?). by split.
  - rewrite Hw. cbn. apply anc_walk_false in Hw as (S & HS & Ha & Hc); [|set_solver].
    split; [done|]. intros Hp. exfalso. apply Ha.
    assert (d ∈ S) as Hd by by apply HS. clear -Hp Hd Hc. induction Hp; eauto.
Qed.
End Walk.

(** ** The classification of the current heads *)

Lemma classify_spec m agent new heads :
  ∃ rep desc fk, classify m agent new heads = (rep, desc, fk)
    ∧ (∀ c, c ∈ rep ↔ c ∈ heads ∧ is_ancestor_digest m c new = true)
    ∧ (∀ c, c ∈ desc ↔ c ∈ heads ∧ is_ancestor_digest m c new = false ∧ is_ancestor_digest m new c = true)
    ∧ (∀ c, {| fork_agent := agent; fork_left := c; fork_right := new |} ∈ fk
            ↔ c ∈ heads ∧ is_ancestor_digest m c new = false ∧ is_ancestor_digest m new c = false)
    ∧ Forall (λ f, f.(fork_agent) = agent ∧ f.(fork_right) = new) fk.
Proof.
  induction heads as [|c heads (rep & desc & fk & Hc & Hr & Hd & Hf & Hall)] using rev_ind.
  - exists [], [], []. split_and!; try done; intros c; split; try (by intros []%elem_of_nil); by intros [[]%elem_of_nil _].
  - unfold classify in *. rewrite fold_left_app, Hc. cbn [fold_left].
    destruct (is_ancestor_digest m c new) eqn:E1; [|destruct (is_ancestor_digest m new c) eqn:E2];
      eexists _, _, _; (split; [reflexivity|]); split_and!; try done;
      try (intros x; rewrite ?elem_of_app, ?list_elem_of_singleton, ?Hr, ?Hd, ?Hf;
        split; intros; destruct_or?; destruct_and?; destruct_or?; simplify_eq;
        try congruence; auto).
    all: try (apply Forall_app; split; [done|]; by repeat constructor).
Qed.

(** ** Well-linked updates *)

(** Parent links stay inside an agent and a rank decreases along them, as it does
    for digests that cover their parent's digest. *)
Definition well_linked (rank : SnapshotDigest → nat) (hs : list LineageHead) : Prop :=
  ∀ h, h ∈ hs → ∀ p, h.(parent_digest) = Some p →
    (rank p < rank h.(head_digest))%nat ∧ ∀ h', h' ∈ hs → h'.(head_digest) = p → h'.(agent_id) = h.(agent_id).

(** A known node of the agent that no known node names as its parent. *)
Definition tip (m : gmap SnapshotDigest LineageHead) (agent : string) (d : SnapshotDigest) : Prop :=
  (∃ h, m !! d = Some h ∧ h.(agent_id) = agent) ∧ ∀ x, ¬ link m x d.

Section WellLinked.
Context `{SI : SetIter} (rank : SnapshotDigest → nat) (hs : list LineageHead).
Hypothesis Hwl : well_linked rank hs.

Definition drawn (m : gmap SnapshotDigest LineageHead) : Prop :=
  map_Forall (λ d h, h.(head_digest) = d ∧ h ∈ hs) m.

Lemma link_rank m d p : drawn m → link m d p → (rank p < rank d)%nat.
Proof.
  intros Hm (h & [<- Hin]%Hm & Hp)%link_Some. by destruct (Hwl h Hin p Hp).
Qed.

Lemma links_rank m d p : drawn m → rtc (link m) d p → (rank p ≤ rank d)%nat.
Proof. intros Hm. induction 1 as [|x y z Hxy _ IH]; [done|]. pose proof (link_rank m x y Hm Hxy). lia. Qed.

Lemma links_antisym m d p : drawn m → rtc (link m) d p → rtc (link m) p d → d = p.
Proof.
  intros Hm Hdp Hpd. apply rtc_inv in Hdp as [->|(x & Hdx & Hxp)]; [done|].
  pose proof (link_rank _ _ _ Hm Hdx). pose proof (links_rank _ _ _ Hm Hxp).
  pose proof (links_rank _ _ _ Hm Hpd). lia.
Qed.

Lemma link_agent m d p h h' :
  drawn m → m !! d = Some h → link m d p → m !! p = Some h' → h'.(agent_id) = h.(agent_id).
Proof.
  intros Hm Hd (h1 & Hd1 & Hp)%link_Some [<- Hin']%Hm. simplify_eq.
  apply Hm in Hd as [_ Hin]. by destruct (Hwl h Hin _ Hp) as [_ Ha]; apply Ha.
Qed.

Lemma rank_bounded (m : gmap SnapshotDigest LineageHead) :
  ∃ B, ∀ d, is_Some (m !! d) → (rank d ≤ B)%nat.
Proof.
  induction m as [|d h m Hd [B HB]] using map_ind; [exists 0%nat; intros d []; simplify_map_eq|].
  exists (Nat.max B (rank d)). intros x Hx. destruct (decide (x = d)) as [->|]; [lia|].
  rewrite lookup_insert_ne in Hx by done. specialize (HB x Hx). lia.
Qed.

Lemma has_child_dec (m : gmap SnapshotDigest LineageHead) d : {∃ x, link m x d} + {∀ x, ¬ link m x d}.
Proof.
  destruct (decide (map_Exists (λ _ h, h.(parent_digest) = Some d) m)) as [H|H]; [left|right].
  - destruct H as (x & h & Hx & Hp). exists x. apply link_Some. eauto.
  - intros x (h & Hx & Hp)%link_Some. apply H. by exists x, h.
Qed.

(** Above every known node lies a tip of its agent. *)
Lemma tip_above m d h :
  drawn m → m !! d = Some h → ∃ t, tip m h.(agent_id) t ∧ rtc (link m) t d.
Proof.
  intros Hm. destruct (rank_bounded m) as [B HB].
  remember (B - rank d)%nat as n eqn:Hn. revert d h Hn.
  induction n as [n IH] using lt_wf_ind; intros d h Hn Hd.
  destruct (has_child_dec m d) as [[x Hx]|Hno]; [|exists d; split; [split; eauto|apply rtc_refl]].
  pose proof (link_rank m x d Hm Hx). pose proof (proj1 (link_Some m x d) Hx) as (hx & Hxm & _).
  assert (rank x ≤ B)%nat by (apply HB; eauto).
  destruct (IH (B - rank x)%nat ltac:(lia) x hx eq_refl Hxm) as (t & Ht & Hp).
  exists t. rewrite (link_agent m x d hx h Hm Hxm Hx Hd). split; [done|]. by eapply rtc_r.
Qed.

(** *** The invariant: the heads of every agent are its tips *)

Definition lineage_inv (s : LineageStore) : Prop :=
  drawn s.(nodes) ∧ ∀ agent d, d ∈ agent_heads s agent ↔ tip s.(nodes) agent d.

Lemma drawn_insert m h :
  drawn m → h ∈ hs → drawn (<[h.(head_digest) := h]> m).
Proof. intros Hm Hin. by apply map_Forall_insert_2. Qed.

Lemma link_insert m h x y :
  m !! h.(head_digest) = None →
  link (<[h.(head_digest) := h]> m) x y
  ↔ (x = h.(head_digest) ∧ h.(parent_digest) = Some y) ∨ link m x y.
Proof.
  intros Hn. rewrite !link_Some. destruct (decide (x = head_digest h)) as [->|Hne].
  - setoid_rewrite lookup_insert_eq. naive_solver.
  - setoid_rewrite lookup_insert_ne; [|done]. naive_solver.
Qed.

Lemma links_insert m h x y :
  m !! h.(head_digest) = None → rtc (link m) x y → rtc (link (<[h.(head_digest) := h]> m)) x y.
Proof.
  intros Hn. induction 1 as [|x y z Hxy _ IH]; [apply rtc_refl|].
  eapply rtc_l; [|exact IH]. apply link_insert; [done|]. by right.
Qed.

Section Insert.
Variables (s : LineageStore) (h : LineageHead).
Hypothesis Hinv : lineage_inv s.
Hypothesis Hin : h ∈ hs.
Hypothesis Hnew : s.(nodes) !! h.(head_digest) = None.
Let n := h.(head_digest).
Let m' := <[n := h]> s.(nodes).

Lemma drawn_new : drawn m'.
Proof. apply drawn_insert; [apply Hinv|done]. Qed.

Lemma tip_known agent d : tip s.(nodes) agent d → d ≠ n.
Proof. intros [(h' & Hd & _) _] ->. unfold n in Hd. congruence. Qed.

(** Only the parent can be an old head below the new node. *)
Lemma replaced_iff agent c :
  tip s.(nodes) agent c → is_ancestor_digest m' c n = true ↔ h.(parent_digest) = Some c.
Proof.
  intros Ht. rewrite is_ancestor_iff. split.
  - intros [Heq|(x & _ & Hx)]%rtc_inv_r; [by destruct (tip_known _ _ Ht)|].
    apply link_insert in Hx as [[_ ?]|Hx]; [done| |done]. by destruct Ht as [_ Ht]; destruct (Ht x).
  - intros Hp. apply rtc_once, link_insert; [done|]. by left.
Qed.

Lemma descendant_iff :
  (∃ c, c ∈ agent_heads s h.(agent_id) ∧ is_ancestor_digest m' c n = false
        ∧ is_ancestor_digest m' n c = true) ↔ ∃ x, link s.(nodes) x n.
Proof.
  destruct Hinv as [Hd Hh]. split.
  - intros (c & Hc & _ & Hp). apply Hh in Hc. apply is_ancestor_iff in Hp.
    apply rtc_inv_r in Hp as [Heq|(x & _ & Hx)]; [by destruct (tip_known _ _ Hc)|].
    apply link_insert in Hx as [[-> Hp]|Hx]; [|by exists x|done].
    destruct (Hwl h Hin _ Hp) as [Hr _]. unfold n in Hr. lia.
  - intros (x & Hx). pose proof (proj1 (link_Some _ _ _) Hx) as (hx & Hxm & _).
    destruct (tip_above _ x hx Hd Hxm) as (t & Ht & Hp).
    assert (link m' x n) as Hx' by (apply link_insert; [done|by right]).
    assert (m' !! x = Some hx) as Hxm'.
    { unfold m'. rewrite lookup_insert_ne; [done|]. unfold n. congruence. }
    rewrite <- (link_agent m' x n hx h drawn_new Hxm' Hx') in Ht by (unfold m'; by rewrite lookup_insert_eq).
    assert (rtc (link m') t n) as Htn by (eapply rtc_r; [by apply links_insert|done]).
    exists t. split_and!; [by apply Hh| |by apply is_ancestor_iff].
    apply not_true_iff_false. rewrite is_ancestor_iff. intros Hnt.
    apply (tip_known _ _ Ht). by eapply links_antisym; [apply drawn_new| |].
Qed.

(** A new head set that drops the parent and takes the new node in when nothing
    known descends from it restores the invariant. *)
Lemma inv_insert (X : gset SnapshotDigest) (fk : list LineageFork) :
  (∀ d, d ∈ X ↔ (d = n ∧ ∀ x, ¬ link s.(nodes) x n)
        ∨ (d ∈ agent_heads s h.(agent_id) ∧ h.(parent_digest) ≠ Some d)) →
  lineage_inv {| nodes := m'; heads_by_agent := <[h.(agent_id) := X]> s.(heads_by_agent); forks := fk |}.
Proof.
  intros HX. destruct Hinv as [Hd Hh]. split; [apply drawn_new|]. intros agent d. cbn [nodes].
  assert (tip m' agent d ↔ (d = n ∧ h.(agent_id) = agent ∧ ∀ x, ¬ link s.(nodes) x n)
    ∨ (tip s.(nodes) agent d ∧ h.(parent_digest) ≠ Some d)) as ->.
  { assert (∀ x y, link m' x y ↔ (x = n ∧ h.(parent_digest) = Some y) ∨ link s.(nodes) x y) as Hl
      by (intros x y; by apply link_insert).
    unfold tip. setoid_rewrite Hl. unfold m'. split.
    - intros [(h' & Hh' & Ha) Hno]. destruct (decide (d = n)) as [->|Hne].
      + rewrite lookup_insert_eq in Hh'. simplify_eq. left. split; [done|]. split; [done|].
        intros x Hx. apply (Hno x). by right.
      + rewrite lookup_insert_ne in Hh' by done. right. split; [split; [by exists h'|]|].
        * intros x Hx. apply (Hno x). by right.
        * intros Hp. apply (Hno n). by left.
    - intros [(-> & Ha & Hno)|[[(h' & Hh' & Ha) Hno] Hp]].
      + split; [exists h; by rewrite lookup_insert_eq|]. intros x [[-> Hp]|Hx]; [|by apply (Hno x)].
        destruct (Hwl h Hin _ Hp) as [Hr _]. unfold n in Hr. lia.
      + split; [exists h'; rewrite lookup_insert_ne; [done|unfold n; congruence]|].
        intros x [[_ ?]|Hx]; [done|by apply (Hno x)]. }
  unfold agent_heads. cbn [heads_by_agent]. destruct (decide (agent = h.(agent_id))) as [->|Hne].
  - rewrite lookup_insert_eq. cbn [default]. rewrite HX, Hh. naive_solver.
  - rewrite lookup_insert_ne by done. fold (agent_heads s agent). rewrite Hh.
    split; [|intros [(_ & ? & _)|[? _]]; [congruence|done]]. intros Ht. right. split; [done|]. intros Hp.
    destruct Ht as [(h' & Hh' & Ha) _]. apply Hne. rewrite <- Ha.
    apply (link_agent m' n d h h' drawn_new); [unfold m'; by rewrite lookup_insert_eq| |].
    + apply link_insert; [done|]. by left.
    + unfold m'. rewrite lookup_insert_ne; [done|]. unfold n. congruence.
Qed.
End Insert.

Lemma apply_head_inv s h : lineage_inv s → h ∈ hs → lineage_inv (apply_head s h).1.
Proof.
  intros Hinv Hin. unfold apply_head. destruct (nodes s !! head_digest h) eqn:Hnew; [done|].
  assert (Hiter : ∀ c, c ∈ set_iter (agent_heads s (agent_id h)) ↔ c ∈ agent_heads s (agent_id h))
    by (intros c; by rewrite set_iter_perm, elem_of_elements).
  destruct (set_iter (agent_heads s (agent_id h))) as [|c0 cs] eqn:Hs.
  - apply inv_insert; [done..|]. intros d. rewrite elem_of_union, elem_of_singleton.
    assert (∀ x, ¬ link (nodes s) x (head_digest h)) as Hno.
    { intros x Hx. destruct (proj2 (descendant_iff s h Hinv Hin Hnew)) as (c & Hc & _); [by exists x|].
      apply Hiter in Hc. set_solver. }
    split; [intros [?|Hd]; [by left|]|intros [[? _]|[Hd _]]; [by left|]]; apply Hiter in Hd; set_solver.
  - rewrite <- Hs in *. set (m' := <[head_digest h := h]> (nodes s)).
    destruct (classify_spec m' (agent_id h) (head_digest h) (set_iter (agent_heads s (agent_id h))))
      as (rep & desc & fk & -> & Hr & Hd & Hf & Hfk).
    setoid_rewrite Hiter in Hr. setoid_rewrite Hiter in Hd. setoid_rewrite Hiter in Hf.
    assert (∀ c, c ∈ rep ↔ c ∈ agent_heads s (agent_id h) ∧ parent_digest h = Some c) as Hr'.
    { intros c. rewrite Hr. split; intros [Hc Hp]; (split; [done|]);
        apply (proj2 Hinv) in Hc; by eapply replaced_iff. }
    assert ((∃ c, c ∈ desc) ↔ ∃ x, link (nodes s) x (head_digest h)) as Hd'.
    { rewrite <- (descendant_iff s h Hinv Hin Hnew). by setoid_rewrite Hd. }
    clear Hr Hd Hiter.
    assert (∀ fk', lineage_inv {| nodes := m'; heads_by_agent := <[agent_id h :=
        match desc with
        | [] => {[head_digest h]} ∪ agent_heads s (agent_id h) ∖ list_to_set rep
        | _ => agent_heads s (agent_id h) ∖ list_to_set rep
        end]> (heads_by_agent s); forks := fk' |}) as Hgen.
    { intros fk'. apply inv_insert; [done..|]. intros d.
      assert (d ∈ agent_heads s (agent_id h) ∖ list_to_set rep
        ↔ d ∈ agent_heads s (agent_id h) ∧ parent_digest h ≠ Some d) as Hk.
      { rewrite elem_of_difference, elem_of_list_to_set, Hr'. tauto. }
      destruct desc as [|c desc].
      - rewrite elem_of_union, elem_of_singleton, Hk.
        enough (∀ x, ¬ link (nodes s) x (head_digest h)) by naive_solver.
        intros x Hx. destruct (proj2 Hd') as [c Hc]; [by exists x|]. by apply elem_of_nil in Hc.
      - rewrite Hk. destruct (proj1 Hd') as [x Hx]; [exists c; left|]. naive_solver. }
    assert (lineage_inv {| nodes := m'; heads_by_agent := <[agent_id h := agent_heads s (agent_id h)]>
      (heads_by_agent s); forks := forks s |} ∨ rep ≠ [] ∨ desc = []) as Hstale.
    { destruct rep; [|by right; left]. destruct desc as [|c desc]; [by right; right|]. left. specialize (Hgen (forks s)).
      cbn [list_to_set] in Hgen. by rewrite difference_empty_L in Hgen. }
    destruct rep, desc, fk; cbn [fst]; try apply Hgen; by destruct Hstale as [?|[]].
Qed.

Lemma apply_heads_inv s l : lineage_inv s → l ⊆ hs → lineage_inv (apply_heads s l).
Proof.
  unfold apply_heads. revert s. induction l as [|h l IH]; intros s Hinv Hl; [done|]. cbn.
  apply IH; [|set_solver]. apply apply_head_inv; [done|set_solver].
Qed.

Lemma lineage_new_inv : lineage_inv lineage_new.
Proof.
  split; [apply map_Forall_empty|]. intros agent d. unfold agent_heads. cbn. rewrite lookup_empty. cbn.
  split; [set_solver|]. intros [(h & Hh & _) _]. by rewrite lookup_empty in Hh.
Qed.
End WellLinked.

(** ** What the store knows *)

Lemma apply_head_nodes `{SI : SetIter} s h d :
  (apply_head s h).1.(nodes) !! d
  = match s.(nodes) !! d with
    | Some h' => Some h'
    | None => if decide (d = h.(head_digest)) then Some h else None
    end.
Proof.
  assert (nodes s !! head_digest h = None →
    <[head_digest h := h]> (nodes s) !! d = match s.(nodes) !! d with
      | Some h' => Some h' | None => if decide (d = h.(head_digest)) then Some h else None end) as Hins.
  { intros Hn. destruct (decide (d = head_digest h)) as [->|]; [by rewrite lookup_insert_eq, Hn|].
    rewrite lookup_insert_ne by done. by destruct (nodes s !! d). }
  unfold apply_head. destruct (nodes s !! head_digest h) eqn:Hn.
  - cbn. destruct (nodes s !! d) eqn:Hd; [done|]. case_decide; congruence.
  - destruct (set_iter _); [by apply Hins|].
    destruct (classify _ _ _ _) as [[[] []] []]; cbn [nodes fst]; by apply Hins.
Qed.

(** The first update that names a digest is the one kept. *)
Lemma apply_heads_nodes `{SI : SetIter} s l d :
  (apply_heads s l).(nodes) !! d
  = match s.(nodes) !! d with
    | Some h => Some h
    | None => list_find (λ h, d = h.(head_digest)) l ≫= Some ∘ snd
    end.
Proof.
  revert s. unfold apply_heads. induction l as [|h l IH]; intros s; cbn; [by destruct (nodes s !! d)|].
  rewrite IH, apply_head_nodes. destruct (nodes s !! d); [done|].
  destruct (decide (d = head_digest h)); [done|].
  by destruct (list_find _ l) as [[]|].
Qed.

Lemma apply_heads_from_new `{SI : SetIter} hs d h :
  NoDup (head_digest <$> hs) →
  (apply_heads lineage_new hs).(nodes) !! d = Some h ↔ h ∈ hs ∧ h.(head_digest) = d.
Proof.
  intros Hnd. rewrite apply_heads_nodes. cbn [lineage_new nodes]. rewrite lookup_empty, bind_Some. split.
  - intros ([i x] & (Hi & Hd & _)%list_find_Some & [= ->]). split; [by eapply list_elem_of_lookup_2|done].
  - intros [[i Hi]%list_elem_of_lookup_1 Hd].
    exists (i, h). split; [|done]. apply list_find_Some. split_and!; [done|done|].
    intros j y Hj Hlt Hy. enough (j = i) by lia. eapply NoDup_lookup; [exact Hnd| |];
      rewrite list_lookup_fmap; [rewrite Hj|rewrite Hi]; cbn; by rewrite ?Hd, <- ?Hy.
Qed.

Definition hlc_lt (a b : HlcTimestamp) : Prop :=
  a.(physical_millis) < b.(physical_millis)
  ∨ a.(physical_millis) = b.(physical_millis) ∧ a.(logical) < b.(logical).

(** The counter is at its end and the clock can no longer move past [a]. *)
Definition hlc_saturated (a b : HlcTimestamp) : Prop :=
  a.(physical_millis) = b.(physical_millis) ∧ a.(logical) = U64_MAX ∧ b.(logical) = U64_MAX.

Definition hlc_u64 (t : HlcTimestamp) : Prop := is_u64 t.(physical_millis) ∧ is_u64 t.(logical).

Lemma cmp_then_opp a b : CompOpp (cmp_then a b) = cmp_then (CompOpp a) (CompOpp b).
Proof. by destruct a. Qed.

Lemma hlc_cmp_antisym a b : hlc_cmp a b = CompOpp (hlc_cmp b a).
Proof.
  unfold hlc_cmp. rewrite !cmp_then_opp, <- !Z.compare_antisym. by rewrite <- String.compare_antisym.
Qed.

Lemma bytes_cmp_antisym a b : bytes_cmp a b = CompOpp (bytes_cmp b a).
Proof.
  revert b. induction a as [|x a IH]; intros [|y b]; cbn; try done.
  by rewrite cmp_then_opp, <- IH, <- Z.compare_antisym.
Qed.

#[export] Instance head_before_total : Total head_before.
Proof.
  intros a b. unfold head_before. rewrite (hlc_cmp_antisym (head_hlc b)), (bytes_cmp_antisym (head_digest b)).
  rewrite <- cmp_then_opp. destruct (cmp_then _ _); cbn; [left|left|right]; done.
Qed.

(** ** Properties *)

(** The hybrid clock never runs back and stays in its 64-bit fields: after a local
    event it is past its old value, after a receive event past both its old value and
    the observed one, unless the logical counter sits at [u64::MAX], where it sticks. *)
Theorem hlc_advances (now : Z) (t observed : HlcTimestamp) :
  is_u64 now → hlc_u64 t → hlc_u64 observed →
  let ticked := tick now t in
  let updated := update now t observed in
  hlc_u64 ticked ∧ hlc_u64 updated
  ∧ (hlc_lt t ticked ∨ hlc_saturated t ticked)
  ∧ (hlc_lt t updated ∨ hlc_saturated t updated)
  ∧ (hlc_lt observed updated ∨ hlc_saturated observed updated).
Proof.
  destruct t as [tp tl tn], observed as [op ol on].
  unfold hlc_u64, hlc_lt, hlc_saturated, tick, update, saturating_add64, is_u64. cbn. intros Hnow Ht Ho.
  destruct (Z.ltb_spec tp now); destruct (Z.eqb_spec (Z.max (Z.max now tp) op) tp);
    destruct (Z.eqb_spec (Z.max (Z.max now tp) op) op); cbn; lia.
Qed.

(** The ancestor walk always answers, cycles included, within one step per known
    node and one more, and says yes exactly when the parent links lead from the
    descendant to the ancestor. *)
Theorem ancestor_walk_decides (m : gmap SnapshotDigest LineageHead) (ancestor descendant : SnapshotDigest) :
  is_Some (anc_walk (S (size m)) m ancestor (Some descendant) ∅)
  ∧ (is_ancestor_digest m ancestor descendant = true ↔ rtc (link m) descendant ancestor).
Proof.
  split; [|apply is_ancestor_iff]. apply anc_walk_total. rewrite difference_empty_L, size_dom. lia.
Qed.

(** The surfaced heads of an agent are exactly its tips: after any sequence of
    well-linked updates, a digest is a head exactly when it is a known node of the
    agent that no known node names as its parent. *)
Theorem heads_are_tips `{SI : SetIter} (rank : SnapshotDigest → nat) (hs : list LineageHead)
    (agent : string) (d : SnapshotDigest) :
  well_linked rank hs →
  let s := apply_heads lineage_new hs in
  d ∈ agent_heads s agent
  ↔ (∃ h, s.(nodes) !! d = Some h ∧ h.(agent_id) = agent) ∧ ∀ x, ¬ link s.(nodes) x d.
Proof.
  intros Hwl s. apply (apply_heads_inv rank hs Hwl lineage_new hs); [|done].
  by apply (lineage_new_inv rank).
Qed.

(** Lineage is order-independent: two nodes that received the same updates in any
    two orders know the same nodes and surface the same heads for every agent. *)
Theorem heads_order_independent `{SI : SetIter} (rank : SnapshotDigest → nat) (hs hs' : list LineageHead)
    (agent : string) :
  well_linked rank hs → NoDup (head_digest <$> hs) → hs ≡ₚ hs' →
  let s := apply_heads lineage_new hs in
  let s' := apply_heads lineage_new hs' in
  s.(nodes) = s'.(nodes) ∧ agent_heads s agent = agent_heads s' agent.
Proof.
  intros Hwl Hnd Hp s s'.
  assert (s.(nodes) = s'.(nodes)) as Hn.
  { apply map_eq. intros d. apply option_eq. intros h. unfold s, s'.
    rewrite !apply_heads_from_new by (by rewrite <- ?Hp). by rewrite Hp. }
  split; [done|]. apply set_eq. intros d.
  assert (well_linked rank hs') as Hwl' by (unfold well_linked; by setoid_rewrite <- Hp).
  destruct (apply_heads_inv rank hs Hwl lineage_new hs) as [_ H1]; [by apply (lineage_new_inv rank)|done|].
  destruct (apply_heads_inv rank hs' Hwl' lineage_new hs') as [_ H2]; [by apply (lineage_new_inv rank)|done|].
  fold s in H1. fold s' in H2. by rewrite H1, H2, Hn.
Qed.

(** The presented heads are the surfaced ones, in clock order. *)
Theorem heads_for_sorted `{SI : SetIter} (s : LineageStore) (agent : string) :
  Sorted head_before (heads_for s agent)
  ∧ heads_for s agent ≡ₚ omap (λ d, s.(nodes) !! d) (elements (agent_heads s agent)).
Proof.
  unfold heads_for. split; [apply Sorted_merge_sort, _|].
  by rewrite merge_sort_Permutation, set_iter_perm.
Qed.

(** ** Concrete instances *)

Module ToyLineage.
#[export] Instance iter : SetIter := {| set_iter := elements; set_iter_perm X := reflexivity _ |}.
Definition at_ms (n : Z) : HlcTimestamp := from_parts n 0 "node".
Definition head (d : byte) (parent : option byte) (n : Z) : LineageHead :=
  {| agent_id := "agent"; head_digest := [d]; parent_digest := (λ p, [p]) <$> parent;
     head_hlc := at_ms n; head_node_id := "node" |}.
(** [x02] and [x03] fork [x01]; [x04] extends [x03] and arrives before it. *)
Definition updates : list LineageHead :=
  [head x01 None 1; head x04 (Some x03) 4; head x02 (Some x01) 2; head x03 (Some x01) 3].
Definition updates' : list LineageHead := reverse updates.
Definition rank (d : SnapshotDigest) : nat := match d with b :: _ => Z.to_nat (Z_of_byte b) | [] => 0 end.
Definition store : LineageStore := apply_heads lineage_new updates.
End ToyLineage.
#[local] Existing Instances ToyLineage.iter.

Lemma toy_well_linked : well_linked ToyLineage.rank ToyLineage.updates.
Proof.
  assert (Forall (λ h, match h.(parent_digest) with
    | Some p => (ToyLineage.rank p < ToyLineage.rank h.(head_digest))%nat | None => True end
    ∧ h.(agent_id) = "agent") ToyLineage.updates) as Hall
    by (repeat constructor; vm_compute; repeat constructor).
  rewrite Forall_forall in Hall. intros h Hh p Hp. destruct (Hall h Hh) as [Hr Ha]. rewrite Hp in Hr.
  split; [done|]. intros h' Hh' _. destruct (Hall h' Hh') as [_ Ha']. congruence.
Qed.

Lemma hlc_advances_witness :
  let t := from_parts 10 5 "a" in
  let o := from_parts 10 9 "b" in
  update 7 t o = from_parts 10 10 "a"
  ∧ hlc_u64 (tick 7 t) ∧ hlc_u64 (update 7 t o)
  ∧ (hlc_lt t (tick 7 t) ∨ hlc_saturated t (tick 7 t))
  ∧ (hlc_lt t (update 7 t o) ∨ hlc_saturated t (update 7 t o))
  ∧ (hlc_lt o (update 7 t o) ∨ hlc_saturated o (update 7 t o)).
Proof.
  split; [reflexivity|].
  apply (hlc_advances 7 (from_parts 10 5 "a") (from_parts 10 9 "b")); repeat split; cbn; unfold U64_MAX; lia.
Defined.

Lemma heads_are_tips_witness :
  let s := ToyLineage.store in
  agent_heads s "agent" = {[ [x02]; [x04] ]}
  ∧ ([x04] ∈ agent_heads s "agent"
     ↔ (∃ h, s.(nodes) !! [x04] = Some h ∧ h.(agent_id) = "agent") ∧ ∀ x, ¬ link s.(nodes) x [x04]).
Proof.
  split; [apply (bool_decide_eq_true_1 _); vm_compute; reflexivity|].
  apply (heads_are_tips ToyLineage.rank ToyLineage.updates "agent" [x04] toy_well_linked).
Defined.

Lemma heads_order_independent_witness :
  let s := ToyLineage.store in
  let s' := apply_heads lineage_new ToyLineage.updates' in
  length s.(forks) = 3%nat ∧ length s'.(forks) = 2%nat
  ∧ s.(nodes) = s'.(nodes) ∧ agent_heads s "agent" = agent_heads s' "agent".
Proof.
  split; [vm_compute; reflexivity|]. split; [vm_compute; reflexivity|].
  apply (heads_order_independent ToyLineage.rank ToyLineage.updates ToyLineage.updates' "agent" toy_well_linked).
  - vm_compute. repeat (constructor; [by intros H; repeat (apply elem_of_cons in H as [H|H]; [discriminate|]); inversion H|]).
    constructor.
  - unfold ToyLineage.updates'. symmetry. apply reverse_Permutation.
Defined.
