(* ===== verification/DaemonPool.v ===== *)
(** * The hypervisor pool: [src/daemon/pool.rs]

    Clients interleave with the detached tasks that give instances back.  A state
    holds the queue of available instances, the free permits of the semaphore, how
    many clients hold a permit but have not popped yet, the borrowed instances and
    the spawned returns that have not run.  [acquire] is two steps (the permit, then
    the pop under the mutex), as is giving back: the guard's [drop] spawns the return
    and then releases the permit. *)

From S2P Require Import Prelude Errors.

(** An instance is a number. *)
Record HypervisorPool := {
  available : list nat;
  permits : nat;
  waiting : nat;
  borrowed : list nat;
  returning : list nat;
  pool_size : nat;
}.

(** [HypervisorPool::new]. *)
Definition pool_new (size : nat) : HypervisorPool :=
  {| available := seq 0 size; permits := size; waiting := 0; borrowed := []; returning := [];
     pool_size := size |}.

(** [acquire], first await: a permit. *)
Definition acquire_permit (p : HypervisorPool) : option HypervisorPool :=
  match p.(permits) with
  | O => None
  | S n => Some {| available := p.(available); permits := n; waiting := S p.(waiting);
                   borrowed := p.(borrowed); returning := p.(returning); pool_size := p.(pool_size) |}
  end.

(** [acquire], under the mutex: [q.pop_front().expect(...)]; [None] is the panic. *)
Definition pop_instance (p : HypervisorPool) : option HypervisorPool :=
  match p.(available) with
  | [] => None
  | hv :: q => Some {| available := q; permits := p.(permits); waiting := pred p.(waiting);
                       borrowed := hv :: p.(borrowed); returning := p.(returning);
                       pool_size := p.(pool_size) |}
  end.

(** [drop]: take the instance out of the guard, spawn its return, release the permit. *)
Definition drop_guard (p : HypervisorPool) (l1 : list nat) (hv : nat) (l2 : list nat) : HypervisorPool :=
  {| available := p.(available); permits := S p.(permits); waiting := p.(waiting);
     borrowed := l1 ++ l2; returning := p.(returning) ++ [hv]; pool_size := p.(pool_size) |}.

(** A spawned return runs: [q.push_back(hv)]. *)
Definition run_return (p : HypervisorPool) (l1 : list nat) (hv : nat) (l2 : list nat) : HypervisorPool :=
  {| available := p.(available) ++ [hv]; permits := p.(permits); waiting := p.(waiting);
     borrowed := p.(borrowed); returning := l1 ++ l2; pool_size := p.(pool_size) |}.

Inductive pool_step : HypervisorPool → HypervisorPool → Prop :=
| ps_permit p p' : acquire_permit p = Some p' → pool_step p p'
| ps_pop p p' : (0 < p.(waiting))%nat → pop_instance p = Some p' → pool_step p p'
| ps_drop p l1 hv l2 : p.(borrowed) = l1 ++ hv :: l2 → pool_step p (drop_guard p l1 hv l2)
| ps_return p l1 hv l2 : p.(returning) = l1 ++ hv :: l2 → pool_step p (run_return p l1 hv l2).

Inductive pool_reach (size : nat) : HypervisorPool → Prop :=
| pr_new : pool_reach size (pool_new size)
| pr_step p p' : pool_reach size p → pool_step p p' → pool_reach size p'.

(** A client that holds a permit finds the queue empty: [expect] panics. *)
Definition panics (p : HypervisorPool) : Prop := (0 < p.(waiting))%nat ∧ pop_instance p = None.

(** ** Invariants *)

Record pool_ok (size : nat) (p : HypervisorPool) : Prop := {
  po_instances : p.(available) ++ p.(borrowed) ++ p.(returning) ≡ₚ seq 0 size;
  po_permits : (p.(permits) + p.(waiting) + length p.(borrowed) = size)%nat;
  po_size : p.(pool_size) = size;
}.

Lemma pool_ok_new size : pool_ok size (pool_new size).
Proof. constructor; cbn; [by rewrite app_nil_r|lia|done]. Qed.

Lemma pool_ok_step size p p' : pool_ok size p → pool_step p p' → pool_ok size p'.
Proof.
  intros Hok Hst. destruct Hst as [q q' H|q q' Hw H|q l1 hv l2 H|q l1 hv l2 H]; destruct Hok as [Hi Hp Hs].
  - unfold acquire_permit in H. destruct (permits q) eqn:E; [done|]. injection H as <-.
    constructor; cbn; [exact Hi|lia|exact Hs].
  - unfold pop_instance in H. destruct (available q) as [|hv rest] eqn:E; [done|]. injection H as <-.
    constructor; cbn; [|lia|done]. rewrite <- Hi. solve_Permutation.
  - constructor; cbn; [|rewrite H, length_app in Hp; cbn in Hp; rewrite length_app; lia|done].
    rewrite <- Hi, H. solve_Permutation.
  - constructor; cbn; [|done..]. rewrite <- Hi, H. solve_Permutation.
Qed.

Lemma pool_ok_reach size p : pool_reach size p → pool_ok size p.
Proof. induction 1; [apply pool_ok_new|by eapply pool_ok_step]. Qed.

(** ** Properties *)

(** Instances are never duplicated or lost: in every interleaving the available,
    borrowed and returning instances are together exactly the ones the pool was
    built with, each once, so no hypervisor serves two clients, and at most [size]
    clients hold one. *)
Theorem pool_conserves_instances (size : nat) (p : HypervisorPool) :
  pool_reach size p →
  p.(available) ++ p.(borrowed) ++ p.(returning) ≡ₚ seq 0 size
  ∧ NoDup p.(borrowed) ∧ (length p.(borrowed) ≤ size)%nat.
Proof.
  intros [Hi Hp _]%pool_ok_reach. split; [done|]. split; [|lia].
  assert (NoDup (p.(available) ++ p.(borrowed) ++ p.(returning))) as Hnd
    by (rewrite Hi; apply NoDup_seq).
  apply NoDup_app in Hnd as (_ & _ & Hnd). by apply NoDup_app in Hnd as (? & _ & _).
Qed.

(** The pool's own invariant, that a permit implies an available instance, holds
    exactly as long as no return is still pending: a client panics only in a state
    where an instance is on its way back, and with every spawned return run it
    always finds one. *)
Theorem pool_panics_only_while_returning (size : nat) (p : HypervisorPool) :
  pool_reach size p → panics p → p.(returning) ≠ [].
Proof.
  intros [Hi Hp _]%pool_ok_reach [Hw Hpop] Hret. unfold pop_instance in Hpop.
  destruct (available p) eqn:Ea; [|done]. rewrite Hret, app_nil_r in Hi. cbn in Hi.
  apply Permutation_length in Hi. rewrite length_seq in Hi. lia.
Qed.

(** That window is reachable: dropping a guard releases its permit before the
    detached task has returned the instance, so the next client of a fully borrowed
    pool can hold a permit, find the queue empty and panic. *)
Theorem pool_panic_reachable (size : nat) :
  (0 < size)%nat → ∃ p, pool_reach size p ∧ panics p.
Proof.
  intros Hs.
  assert (∀ n, (n ≤ size)%nat → ∃ p, pool_reach size p ∧ p.(permits) = (size - n)%nat ∧ p.(waiting) = 0%nat
            ∧ p.(available) = drop n (seq 0 size) ∧ length p.(borrowed) = n) as Hall.
  { induction n as [|n IH]; intros Hn.
    - exists (pool_new size). split; [constructor|]. cbn. repeat split; try done; lia.
    - destruct (IH ltac:(lia)) as (p & Hr & Hperm & Hw & Ha & Hb).
      assert (available p = n :: drop (S n) (seq 0 size)) as Ha'.
      { rewrite Ha. apply drop_S. rewrite lookup_seq. lia. }
      eexists. split.
      + eapply pr_step; [eapply pr_step; [exact Hr|]|].
        * apply ps_permit. unfold acquire_permit. rewrite Hperm.
          replace (size - n)%nat with (S (size - S n)) by lia. reflexivity.
        * apply ps_pop; [cbn; lia|]. unfold pop_instance. cbn. rewrite Ha'. reflexivity.
      + cbn. rewrite Hw, Hb. done. }
  destruct (Hall size ltac:(lia)) as (p & Hr & Hperm & Hw & Ha & Hb).
  destruct (borrowed p) as [|hv rest] eqn:Eb; [cbn in Hb; lia|].
  eexists. split.
  - eapply pr_step; [eapply pr_step; [exact Hr|]|].
    + apply (ps_drop _ [] hv rest). by rewrite Eb.
    + apply ps_permit. cbn. reflexivity.
  - split; [cbn; lia|]. unfold pop_instance. cbn. rewrite Ha, drop_ge; [done|]. by rewrite length_seq.
Qed.

Definition toy_pool : HypervisorPool :=
  {| available := [1%nat]; permits := 1; waiting := 0; borrowed := [0%nat]; returning := []; pool_size := 2 |}.

Lemma toy_pool_reach : pool_reach 2 toy_pool.
Proof.
  eapply pr_step; [eapply pr_step; [apply pr_new|]|].
  - apply ps_permit. reflexivity.
  - apply ps_pop; [cbn; lia|reflexivity].
Qed.

Lemma pool_conserves_instances_witness :
  toy_pool.(available) ++ toy_pool.(borrowed) ++ toy_pool.(returning) ≡ₚ seq 0 2
  ∧ NoDup toy_pool.(borrowed) ∧ (length toy_pool.(borrowed) ≤ 2)%nat.
Proof. apply (pool_conserves_instances 2 toy_pool toy_pool_reach). Defined.

Lemma pool_panic_reachable_witness : ∃ p, pool_reach 4 p ∧ panics p.
Proof. apply (pool_panic_reachable 4). lia. Defined.
