(* ===== verification/Fuel.v ===== *)
(** * Fuel: [src/sandbox/fuel_meter.rs] and [src/sandbox/fuel_budget.rs]

    Section [Meter] is the meter as one thread sees it, Module [Shared] its
    compare-and-swap loop run by any number of threads, and Section [Budget] the
    adaptive budgets.  Elapsed seconds and time stamps are arguments. *)

From stdpp Require Import sorting.
From S2P Require Import Prelude Errors Floats.

(** ** The meter *)

Record FuelStats := { total_fuel : Z; consumed : Z; stats_remaining : Z; percentage : f64; last_update : Z }.

Definition FuelStats_new (now total consumed : Z) : FuelStats :=
  {| total_fuel := total; consumed := consumed; stats_remaining := saturating_sub total consumed;
     percentage :=
       if 0 <? total then f64_mul (f64_div (f64_of_Z consumed) (f64_of_Z total)) (f64_of_Z 100)
       else f64_of_Z 0;
     last_update := now |}.

Record FuelMeter := {
  total : Z;
  remaining : Z;
  consumption_rate : Z;
  start_time : Z;
  operations : Z;
}.

Definition FuelMeter_new (now total_fuel : Z) : FuelMeter :=
  {| total := total_fuel; remaining := total_fuel; consumption_rate := 0; start_time := now; operations := 0 |}.

(** [consume] with no other thread: the exchange succeeds at once.  [elapsed] is the
    whole seconds since [start_time]. *)
Definition consume (m : FuelMeter) (elapsed amount : Z) : FuelMeter * bool :=
  if m.(remaining) <? amount then (m, false)
  else
    let operations := wrap64 (m.(operations) + 1) in
    ({| total := m.(total); remaining := m.(remaining) - amount;
        consumption_rate := if elapsed =? 0 then m.(consumption_rate) else operations / elapsed;
        start_time := m.(start_time); operations := operations |}, true).

Definition has_fuel (m : FuelMeter) (amount : Z) : bool := amount <=? m.(remaining).
Definition stats (m : FuelMeter) (now : Z) : FuelStats :=
  FuelStats_new now m.(total) (wrap64 (m.(total) - m.(remaining))).
Definition meter_reset (m : FuelMeter) (now : Z) : FuelMeter :=
  {| total := m.(total); remaining := m.(total); consumption_rate := m.(consumption_rate);
     start_time := now; operations := 0 |}.
(** In whole seconds. *)
Definition predict_remaining_time (m : FuelMeter) : option Z :=
  if m.(consumption_rate) =? 0 then None else Some (m.(remaining) / m.(consumption_rate)).
Definition warning_level (m : FuelMeter) (now : Z) : Z :=
  let p := (stats m now).(percentage) in
  if f_le (f64_of_Z 90) p then 100
  else if f_le (f64_of_Z 75) p then 75
  else if f_le (f64_of_Z 50) p then 50
  else if f_le (f64_of_Z 25) p then 25
  else 0.

Definition quick : Z := 100000.
Definition normal : Z := 10000000.
Definition heavy : Z := 100000000.
Definition code_gen : Z := 50000000.
Definition strict : Z := 10000.

(** ** The same meter under concurrency

    A thread inside [consume] holds the value it last read; a step is one atomic
    access to [remaining]. *)

Module Shared.
Inductive Thread := Idle | Holding (read amount : Z).

Record Meter := { left : Z; threads : gmap nat Thread; granted : list Z }.

Definition new (total : Z) : Meter := {| left := total; threads := ∅; granted := [] |}.
Definition set_thread (m : Meter) (i : nat) (t : Thread) : Meter :=
  {| left := m.(left); threads := <[i := t]> m.(threads); granted := m.(granted) |}.

(** [load]: a call of [consume] starts. *)
Definition load (m : Meter) (i : nat) (amount : Z) : Meter := set_thread m i (Holding m.(left) amount).

(** One turn of the loop: give up, exchange, or take the current value and retry.
    The answer is [Some granted?] when [consume] gets past the loop. *)
Definition turn (m : Meter) (i : nat) : option (Meter * option bool) :=
  match m.(threads) !! i with
  | Some (Holding read amount) =>
      if read <? amount then Some (set_thread m i Idle, Some false)
      else if m.(left) =? read
      then Some ({| left := read - amount; threads := <[i := Idle]> m.(threads);
                    granted := amount :: m.(granted) |}, Some true)
      else Some (set_thread m i (Holding m.(left) amount), None)
  | _ => None
  end.

Inductive step : Meter → Meter → Prop :=
| step_load m i amount : is_u64 amount → step m (load m i amount)
| step_turn m m' i answer : turn m i = Some (m', answer) → step m m'.

Inductive reach (total : Z) : Meter → Prop :=
| reach_new : reach total (new total)
| reach_step m m' : reach total m → step m m' → reach total m'.

Definition sum (l : list Z) : Z := foldr Z.add 0 l.
End Shared.

(** ** Budgets *)

Definition DEFAULT_HEADROOM_FACTOR : f64 := f64_lit 15 10.
Definition MIN_SAMPLES : nat := 5.
Definition MAX_SAMPLES : nat := 100.
Definition MIN_FUEL_FLOOR : Z := 100000.

Record FuelProfile := { samples : list Z; p50 : Z; p95 : Z; p99 : Z; max_observed : Z }.

Definition FuelProfile_new : FuelProfile := {| samples := []; p50 := 0; p95 := 0; p99 := 0; max_observed := 0 |}.

Definition percentile (sorted : list Z) (pct : Z) : Z :=
  if (length sorted =? 1)%nat then nth 0 sorted 0
  else
    let rank := f64_ceil_u64 (f64_mul (f64_div (f64_of_Z pct) (f64_of_Z 100)) (f64_of_Z (len sorted))) in
    let idx := Z.min (saturating_sub rank 1) (len sorted - 1) in
    nth (Z.to_nat idx) sorted 0.

Definition recompute (p : FuelProfile) : FuelProfile :=
  match p.(samples) with
  | [] => {| samples := []; p50 := 0; p95 := 0; p99 := 0; max_observed := 0 |}
  | _ =>
      let sorted := merge_sort Z.le p.(samples) in
      {| samples := p.(samples); p50 := percentile sorted 50; p95 := percentile sorted 95;
         p99 := percentile sorted 99; max_observed := nth (length sorted - 1) sorted 0 |}
  end.

Definition with_samples (p : FuelProfile) (l : list Z) : FuelProfile :=
  {| samples := l; p50 := p.(p50); p95 := p.(p95); p99 := p.(p99); max_observed := p.(max_observed) |}.

Definition profile_push (p : FuelProfile) (fuel_consumed : Z) : FuelProfile :=
  let kept := if (MAX_SAMPLES <=? length p.(samples))%nat then tail p.(samples) else p.(samples) in
  recompute (with_samples p (kept ++ [fuel_consumed])).

Definition sample_count (p : FuelProfile) : nat := length p.(samples).

Record FuelBudgetPolicy := {
  profiles : gmap string FuelProfile;
  headroom_factor : f64;
  fallback_budget : Z;
}.

Definition policy_new (fallback : Z) : FuelBudgetPolicy :=
  {| profiles := ∅; headroom_factor := DEFAULT_HEADROOM_FACTOR; fallback_budget := fallback |}.
Definition with_headroom (p : FuelBudgetPolicy) (factor : f64) : FuelBudgetPolicy :=
  {| profiles := p.(profiles); headroom_factor := factor; fallback_budget := p.(fallback_budget) |}.

Definition budget_for (p : FuelBudgetPolicy) (tool_name : string) : Z :=
  match p.(profiles) !! tool_name with
  | Some profile =>
      if (MIN_SAMPLES <=? sample_count profile)%nat
      then Z.max (f64_to_u64 (f64_mul (f64_of_Z profile.(p95)) p.(headroom_factor))) MIN_FUEL_FLOOR
      else p.(fallback_budget)
  | None => p.(fallback_budget)
  end.

Definition record (p : FuelBudgetPolicy) (tool_name : string) (fuel_consumed : Z) : FuelBudgetPolicy :=
  {| profiles := <[tool_name := profile_push (default FuelProfile_new (p.(profiles) !! tool_name)) fuel_consumed]>
                   p.(profiles);
     headroom_factor := p.(headroom_factor); fallback_budget := p.(fallback_budget) |}.

(** The product wraps, as in a release build. *)
Definition is_anomalous (p : FuelBudgetPolicy) (tool_name : string) (fuel_consumed : Z) : bool :=
  match p.(profiles) !! tool_name with
  | Some profile =>
      if (MIN_SAMPLES <=? sample_count profile)%nat && (0 <? profile.(p95))
      then wrap64 (3 * profile.(p95)) <? fuel_consumed
      else false
  | None => false
  end.

Definition profile_for (p : FuelBudgetPolicy) (tool_name : string) : option FuelProfile :=
  p.(profiles) !! tool_name.
Definition records (p : FuelBudgetPolicy) (l : list (string * Z)) : FuelBudgetPolicy :=
  fold_left (λ p kv, record p kv.1 kv.2) l p.

(** ** The meter never overspends *)

Lemma shared_sum_inv tot m :
  is_u64 tot → Shared.reach tot m →
  m.(Shared.left) + Shared.sum m.(Shared.granted) = tot ∧ 0 ≤ m.(Shared.left)
  ∧ Forall (λ a, 0 ≤ a) m.(Shared.granted)
  ∧ map_Forall (λ _ t, match t with Shared.Holding r a => r ≤ tot ∧ is_u64 a | _ => True end) m.(Shared.threads).
Proof.
  intros Ht. induction 1 as [|m m' Hr (Hs & H0 & Hg & Hth) Hstep].
  - cbn. unfold is_u64 in Ht. split_and!; [lia|lia|constructor|apply map_Forall_empty].
  - assert (m.(Shared.left) ≤ tot) as Hle.
    { enough (0 ≤ Shared.sum (Shared.granted m)) by lia.
      clear -Hg. induction Hg; cbn; [done|]. fold (Shared.sum l) in *. lia. }
    destruct Hstep as [m i a Ha|m m' i ans Hturn].
    + cbn. split_and!; try done. by apply map_Forall_insert_2.
    + unfold Shared.turn in Hturn. destruct (Shared.threads m !! i) as [[|r a]|] eqn:Hi; try done.
      destruct (Hth _ _ Hi) as [Hra Ha].
      destruct (Z.ltb_spec r a); [|destruct (Z.eqb_spec (Shared.left m) r) as [<-|]]; simplify_eq; cbn;
        fold (Shared.sum (Shared.granted m)).
      * split_and!; try done. by apply map_Forall_insert_2.
      * unfold is_u64 in Ha. split_and!; [lia|lia|constructor; [lia|done]|by apply map_Forall_insert_2].
      * split_and!; try done. by apply map_Forall_insert_2.
Qed.

(** ** Percentiles *)

(** The nearest-rank index for [n] samples, in exact arithmetic. *)
Definition nearest_rank (pct n : Z) : Z := (pct * n + 99) / 100 - 1.

Definition rank_ok (pct n : Z) : bool :=
  Z.min (saturating_sub (f64_ceil_u64 (f64_mul (f64_div (f64_of_Z pct) (f64_of_Z 100)) (f64_of_Z n))) 1) (n - 1)
  =? nearest_rank pct n.

Lemma rank_ok_all : forallb (λ pct, forallb (λ n, rank_ok pct (Z.of_nat n)) (seq 1 100)) [50; 95; 99] = true.
Proof. vm_compute. reflexivity. Qed.

Definition rank_value (pct : Z) (w : list Z) : Z := nth (Z.to_nat (nearest_rank pct (len w))) (merge_sort Z.le w) 0.

Lemma merge_sort_len w : len (merge_sort Z.le w) = len w.
Proof. unfold len. by rewrite (Permutation_length (merge_sort_Permutation Z.le w)). Qed.

Lemma percentile_rank pct w :
  pct ∈ [50; 95; 99] → (0 < length w ≤ MAX_SAMPLES)%nat →
  percentile (merge_sort Z.le w) pct = rank_value pct w.
Proof.
  intros Hp Hw. unfold percentile, rank_value. rewrite !merge_sort_len.
  assert (rank_ok pct (len w) = true) as Hr.
  { pose proof rank_ok_all as Hall. rewrite forallb_forall in Hall.
    specialize (Hall pct (proj1 (list_elem_of_In _ _) Hp)). rewrite forallb_forall in Hall.
    apply (Hall (length w)). apply in_seq. unfold MAX_SAMPLES in Hw. lia. }
  apply Z.eqb_eq in Hr. destruct (Nat.eqb_spec (length (merge_sort Z.le w)) 1) as [H1|_]; [|by rewrite Hr].
  pose proof (merge_sort_len w) as Hl. unfold len in Hl. rewrite H1 in Hl.
  rewrite <- Hr. unfold len. f_equal. unfold saturating_sub. lia.
Qed.

(** The profile of a window of samples. *)
Definition of_window (w : list Z) : FuelProfile :=
  match w with
  | [] => FuelProfile_new
  | _ => {| samples := w; p50 := rank_value 50 w; p95 := rank_value 95 w; p99 := rank_value 99 w;
            max_observed := nth (length w - 1) (merge_sort Z.le w) 0 |}
  end.

Definition last_samples (l : list Z) : list Z := drop (length l - MAX_SAMPLES) l.

Lemma last_samples_length l : length (last_samples l) = Nat.min (length l) MAX_SAMPLES.
Proof. unfold last_samples. rewrite length_drop. lia. Qed.

Lemma recompute_window p : (length p.(samples) ≤ MAX_SAMPLES)%nat → recompute p = of_window p.(samples).
Proof.
  intros Hl. unfold recompute, of_window. destruct (samples p) as [|x w] eqn:Hs; [done|].
  assert (0 < length (x :: w) ≤ MAX_SAMPLES)%nat as Hw by (cbn [length] in *; lia).
  rewrite !percentile_rank by (done || set_solver). do 2 f_equal.
  by rewrite (Permutation_length (merge_sort_Permutation Z.le (x :: w))).
Qed.

Lemma samples_of_window w : (of_window w).(samples) = w.
Proof. by destruct w. Qed.

Lemma tail_drop_S {A} n (l : list A) : tail (drop n l) = drop (S n) l.
Proof.
  revert l. induction n as [|n IH]; intros [|a l]; try done. cbn [drop]. rewrite IH. by destruct l.
Qed.

Lemma profile_push_window l x :
  profile_push (of_window (last_samples l)) x = of_window (last_samples (l ++ [x])).
Proof.
  assert ((if (MAX_SAMPLES <=? length (last_samples l))%nat then tail (last_samples l) else last_samples l) ++ [x]
    = last_samples (l ++ [x])) as Hk.
  { rewrite last_samples_length. unfold last_samples. rewrite length_app. cbn [length].
    destruct (Nat.leb_spec MAX_SAMPLES (Nat.min (length l) MAX_SAMPLES)).
    - replace (length l + 1 - MAX_SAMPLES)%nat with (S (length l - MAX_SAMPLES)) by lia.
      rewrite drop_app_le by (unfold MAX_SAMPLES in *; lia). f_equal.
      apply tail_drop_S.
    - replace (length l - MAX_SAMPLES)%nat with 0%nat by lia.
      by replace (length l + 1 - MAX_SAMPLES)%nat with 0%nat by lia. }
  unfold profile_push. rewrite samples_of_window, Hk.
  rewrite recompute_window; [done|]. cbn [with_samples samples]. rewrite last_samples_length. lia.
Qed.

(** The samples recorded for a tool. *)
Definition samples_of (tool : string) (l : list (string * Z)) : list Z := (filter (λ kv, kv.1 = tool) l).*2.

Lemma records_profile p l tool old :
  p.(profiles) !! tool = (match old with [] => None | _ => Some (of_window (last_samples old)) end) →
  (records p l).(profiles) !! tool
  = match old ++ samples_of tool l with
    | [] => None | all => Some (of_window (last_samples all)) end.
Proof.
  revert p old. induction l as [|[k v] l IH]; intros p old Hp.
  - cbn. rewrite app_nil_r. by rewrite Hp; destruct old.
  - change (records p ((k, v) :: l)) with (records (record p k v) l).
    unfold samples_of. rewrite filter_cons. cbn [fst]. case_decide as Hk.
    + subst k. cbn [fmap list_fmap snd].
      rewrite (IH (record p tool v) (old ++ [v])).
      * rewrite <- (assoc_L (++)). cbn [app]. by fold (samples_of tool l).
      * cbn [record profiles]. rewrite lookup_insert_eq, Hp.
        assert (profile_push (default FuelProfile_new match old with [] => None
          | _ => Some (of_window (last_samples old)) end) v = of_window (last_samples (old ++ [v]))) as ->.
        { rewrite <- profile_push_window. by destruct old. }
        by destruct old.
    + apply IH. cbn [record profiles]. by rewrite lookup_insert_ne.
Qed.

Lemma records_config p l :
  (records p l).(headroom_factor) = p.(headroom_factor) ∧ (records p l).(fallback_budget) = p.(fallback_budget).
Proof. revert p. induction l as [|kv l IH]; intros p; [done|]. apply (IH (record p kv.1 kv.2)). Qed.

(** ** Properties *)

(** C26: fuel is never overspent, however threads interleave inside the
    compare-and-swap loop: what was granted and what is left always add up to the
    allocation, the difference [stats] takes never underflows, and a thread that is
    not disturbed gets the answer of [consume]. *)
Theorem meter_never_overspends (tot : Z) (m : Shared.Meter) :
  is_u64 tot → Shared.reach tot m →
  m.(Shared.left) + Shared.sum m.(Shared.granted) = tot ∧ 0 ≤ m.(Shared.left) ≤ tot
  ∧ ∀ i amount meter elapsed, meter.(remaining) = m.(Shared.left) →
      ∃ m', Shared.turn (Shared.load m i amount) i = Some (m', Some (consume meter elapsed amount).2)
        ∧ m'.(Shared.left) = (consume meter elapsed amount).1.(remaining).
Proof.
  intros Ht Hr. destruct (shared_sum_inv tot m Ht Hr) as (Hs & H0 & Hg & _).
  assert (0 ≤ Shared.sum m.(Shared.granted)).
  { clear -Hg. induction Hg; cbn; [done|]. fold (Shared.sum l). lia. }
  split; [done|]. split; [lia|]. intros i amount meter elapsed Hm.
  unfold Shared.turn, consume. rewrite Hm. cbn. rewrite lookup_insert_eq.
  destruct (Z.ltb_spec (Shared.left m) amount); [by eexists|]. rewrite Z.eqb_refl. by eexists.
Qed.

(** A tool's profile is that of its last hundred samples: whatever was recorded, the
    floating-point ranks pick exactly the nearest-rank percentiles of the sorted
    window, a tool without samples has no profile, and a budget falls back below five
    samples and never goes under the floor from five on. *)
Theorem profile_of_history (fallback : Z) (history : list (string * Z)) (tool : string) :
  let p := records (policy_new fallback) history in
  let all := samples_of tool history in
  let w := last_samples all in
  profile_for p tool =
    (if (length all =? 0)%nat then None
     else Some {| samples := w; p50 := rank_value 50 w; p95 := rank_value 95 w; p99 := rank_value 99 w;
                  max_observed := nth (length w - 1) (merge_sort Z.le w) 0 |})
  ∧ (if (length all <? 5)%nat then budget_for p tool = fallback
     else MIN_FUEL_FLOOR ≤ budget_for p tool ≤ U64_MAX).
Proof.
  intros p all w.
  assert (profile_for p tool = match all with [] => None | _ => Some (of_window w) end) as Hp.
  { pose proof (records_profile (policy_new fallback) history tool [] eq_refl) as Hp. cbn [app] in Hp.
    unfold profile_for, p, w. rewrite Hp. fold all. by destruct all. }
  destruct (records_config (policy_new fallback) history) as [_ Hf]. fold p in Hf. cbn in Hf.
  assert (length w = Nat.min (length all) 100) as Hw by apply last_samples_length.
  unfold budget_for. unfold profile_for in *. rewrite Hp. destruct all as [|x all'] eqn:Ha; [done|].
  split; [unfold of_window; by destruct w|]. unfold sample_count. rewrite samples_of_window, Hw.
  generalize (length (x :: all')). intros n. change MIN_SAMPLES with 5%nat.
  destruct (Nat.ltb_spec n 5); destruct (Nat.leb_spec 5 (n `min` 100)); try lia.
  match goal with |- context [f64_to_u64 ?f] => pose proof (f64_to_u64_range f) as Hr end.
  unfold is_u64, U64_MAX, MIN_FUEL_FLOOR in *. lia.
Qed.

(** A spike is more than three times the 95th percentile, while that product fits. *)
Theorem anomalous_iff (p : FuelBudgetPolicy) (tool : string) (profile : FuelProfile) (fuel : Z) :
  p.(profiles) !! tool = Some profile → 0 ≤ profile.(p95) → 3 * profile.(p95) ≤ U64_MAX →
  is_anomalous p tool fuel = true
  ↔ (5 ≤ sample_count profile)%nat ∧ 0 < profile.(p95) ∧ 3 * profile.(p95) < fuel.
Proof.
  intros Hp H0 Hu. unfold is_anomalous. rewrite Hp, wrap64_small by (unfold is_u64; lia).
  unfold MIN_SAMPLES. destruct (Nat.leb_spec 5 (sample_count profile)); destruct (Z.ltb_spec 0 (p95 profile)); cbn;
    rewrite ?Z.ltb_lt; lia.
Qed.

(** ** Concrete instances *)

Lemma meter_never_overspends_witness :
  let m := {| Shared.left := 4; Shared.threads := <[1%nat := Shared.Idle]> ∅; Shared.granted := [6] |} in
  Shared.reach 10 m
  ∧ (m.(Shared.left) + Shared.sum m.(Shared.granted) = 10 ∧ 0 ≤ m.(Shared.left) ≤ 10
     ∧ ∀ i amount meter elapsed, meter.(remaining) = m.(Shared.left) →
        ∃ m', Shared.turn (Shared.load m i amount) i = Some (m', Some (consume meter elapsed amount).2)
          ∧ m'.(Shared.left) = (consume meter elapsed amount).1.(remaining)).
Proof.
  set (m := {| Shared.left := 4; Shared.threads := <[1%nat := Shared.Idle]> ∅; Shared.granted := [6] |}).
  assert (Shared.reach 10 m) as Hr.
  { eapply Shared.reach_step; [eapply Shared.reach_step; [apply Shared.reach_new|]|].
    - apply (Shared.step_load _ 1 6). split; unfold U64_MAX; lia.
    - apply (Shared.step_turn _ _ 1 (Some true)). vm_compute. reflexivity. }
  split; [exact Hr|]. apply (meter_never_overspends 10 m); [split; unfold U64_MAX; lia|exact Hr].
Defined.
