(* ===== verification/ModuleCache.v ===== *)
(** * The compiled-module cache: [src/sandbox/module_cache.rs]

    A compiled module is a value of the parameter [Mod] and [Module::from_binary] the
    parameter [compile].  [get_or_compile] takes the lock twice, so it is two atomic
    parts, [lookup_fast] and [insert_compiled], with the compilation between them;
    [cache_step] interleaves them.  Counters do not overflow in 2^64 calls. *)

From S2P Require Import Prelude Errors Floats Compression Snapshot Digest.

Section Cache.
Context `{Sh : Sha256Lib} {Mod : Type}.

Record CacheInner := {
  cache_map : gmap (list byte) Mod;
  order : list (list byte);
  max_entries : nat;
  hits : Z;
  misses : Z;
}.

Definition with_capacity (max_entries : nat) : CacheInner :=
  {| cache_map := ∅; order := []; max_entries := max_entries; hits := 0; misses := 0 |}.
Definition cache_new : CacheInner := with_capacity 256.

(** Remove the first occurrence, as [position] and [remove] do. *)
Fixpoint remove_first (h : list byte) (l : list (list byte)) : list (list byte) :=
  match l with
  | [] => []
  | x :: l => if decide (x = h) then l else x :: remove_first h l
  end.

(** The first critical section of [get_or_compile]. *)
Definition lookup_fast (c : CacheInner) (hash : list byte) : CacheInner * option Mod :=
  match c.(cache_map) !! hash with
  | Some m =>
      ({| cache_map := c.(cache_map); order := remove_first hash c.(order) ++ [hash];
          max_entries := c.(max_entries); hits := c.(hits) + 1; misses := c.(misses) |}, Some m)
  | None =>
      ({| cache_map := c.(cache_map); order := c.(order); max_entries := c.(max_entries);
          hits := c.(hits); misses := c.(misses) + 1 |}, None)
  end.

(** The eviction loop. *)
Fixpoint evict (max : nat) (m : gmap (list byte) Mod) (order : list (list byte))
  : gmap (list byte) Mod * list (list byte) :=
  match order with
  | [] => (m, [])
  | evicted :: rest => if (max <=? size m)%nat then evict max (delete evicted m) rest else (m, order)
  end.

(** The second critical section. *)
Definition insert_compiled (c : CacheInner) (hash : list byte) (compiled : Mod) : CacheInner :=
  let '(m, o) := evict c.(max_entries) c.(cache_map) c.(order) in
  {| cache_map := <[hash := compiled]> m; order := o ++ [hash]; max_entries := c.(max_entries);
     hits := c.(hits); misses := c.(misses) |}.

Definition cache_clear (c : CacheInner) : CacheInner :=
  {| cache_map := ∅; order := []; max_entries := c.(max_entries); hits := c.(hits); misses := c.(misses) |}.
Definition cache_len (c : CacheInner) : nat := size c.(cache_map).
Definition cache_is_empty (c : CacheInner) : bool := (size c.(cache_map) =? 0)%nat.

Variable compile : list byte → option Mod.

(** [get_or_compile] with no other thread in between; [None] is a compile error. *)
Definition get_or_compile (c : CacheInner) (bytes : list byte) : CacheInner * option Mod :=
  let hash := sha256 bytes in
  match lookup_fast c hash with
  | (c, Some m) => (c, Some m)
  | (c, None) =>
      match compile bytes with
      | None => (c, None)
      | Some compiled => (insert_compiled c hash compiled, Some compiled)
      end
  end.

(** Any number of threads inside [get_or_compile] or [clear]. *)
Inductive cache_step : CacheInner → CacheInner → Prop :=
| cs_lookup c bytes : cache_step c (lookup_fast c (sha256 bytes)).1
| cs_insert c bytes m : compile bytes = Some m → cache_step c (insert_compiled c (sha256 bytes) m)
| cs_clear c : cache_step c (cache_clear c).

(** A run of requests, with the hashes of those that got a module, latest first. *)
Fixpoint run (c : CacheInner) (reqs : list (list byte)) (served : list (list byte))
  : CacheInner * list (list byte) :=
  match reqs with
  | [] => (c, served)
  | bytes :: reqs =>
      match get_or_compile c bytes with
      | (c, Some _) => run c reqs (sha256 bytes :: served)
      | (c, None) => run c reqs served
      end
  end.

(** The reference: the distinct hashes served, most recent first. *)
Fixpoint recency (served : list (list byte)) : list (list byte) :=
  match served with
  | [] => []
  | h :: served => h :: filter (λ x, x ≠ h) (recency served)
  end.

(** ** Every interleaving *)

Definition capacity (c : CacheInner) : nat := Nat.max 1 c.(max_entries).

Record cache_ok (c : CacheInner) : Prop := {
  ok_order h : is_Some (c.(cache_map) !! h) → h ∈ c.(order);
  ok_size : (size c.(cache_map) ≤ capacity c)%nat;
  ok_sound : map_Forall (λ h m, ∃ bytes, sha256 bytes = h ∧ compile bytes = Some m) c.(cache_map);
}.

Lemma elem_of_remove_first h x l : x ∈ l → x ≠ h → x ∈ remove_first h l.
Proof using Type.
  intros Hx Hne. induction Hx as [l|x y l Hx IH]; cbn; case_decide; subst; try done; [left|by right; apply IH].
Qed.

Lemma evict_props max m o :
  (∀ h, is_Some (m !! h) → h ∈ o) →
  ∃ m' o', evict max m o = (m', o') ∧ m' ⊆ m ∧ (∀ h, is_Some (m' !! h) → h ∈ o')
    ∧ (size m' < Nat.max 1 max)%nat.
Proof using Type.
  revert m. induction o as [|x o IH]; intros m Hm; cbn.
  - exists m, []. split_and!; try done. enough (m = ∅) as -> by (rewrite map_size_empty; lia).
    apply map_eq. intros h. rewrite lookup_empty. apply eq_None_not_Some. intros Hh.
    by apply Hm, elem_of_nil in Hh.
  - destruct (Nat.leb_spec max (size m)).
    + destruct (IH (delete x m)) as (m' & o' & He & Hsub & Ho & Hs).
      { intros h Hh. rewrite lookup_delete in Hh. case_decide; [by destruct Hh|].
        apply Hm in Hh. by apply elem_of_cons in Hh as [->|]. }
      exists m', o'. split_and!; try done. etrans; [exact Hsub|apply delete_subseteq].
    + exists m, (x :: o). split_and!; try done. lia.
Qed.

Lemma cache_step_ok c c' : cache_ok c → cache_step c c' → cache_ok c' ∧ c'.(max_entries) = c.(max_entries).
Proof.
  intros [Ho Hs Hsound] Hstep. destruct Hstep as [c bytes|c bytes m Hm|c].
  - unfold lookup_fast. destruct (cache_map c !! sha256 bytes) as [m|] eqn:Hl; cbn; (split; [|done]); split; cbn; try done.
    intros h Hh. apply elem_of_app. destruct (decide (h = sha256 bytes)) as [->|Hne]; [right; by left|].
    left. apply elem_of_remove_first; [by apply Ho|done].
  - unfold insert_compiled. destruct (evict_props (max_entries c) _ _ Ho) as (m' & o' & -> & Hsub & Ho' & Hs').
    split; [|done]. split; cbn.
    + intros h Hh. apply elem_of_app. destruct (decide (h = sha256 bytes)) as [->|Hne]; [right; by left|].
      left. apply Ho'. by rewrite lookup_insert_ne in Hh.
    + unfold capacity in *. cbn [max_entries]. rewrite map_size_insert. destruct (m' !! sha256 bytes); unfold id. all: lia.
    + apply map_Forall_insert_2; [eauto|]. intros h x Hx. apply Hsound. by eapply lookup_weaken.
  - split; [|done]. split; cbn [cache_clear cache_map order]; [|rewrite map_size_empty; lia|apply map_Forall_empty].
    intros h [? Hh]. by rewrite lookup_empty in Hh.
Qed.

(** ** Runs of one thread *)

Lemma filter_ne_notin h (l : list (list byte)) : h ∉ l → filter (λ x, x ≠ h) l = l.
Proof using Type.
  intros Hh. induction l as [|x l IH]; [done|]. apply not_elem_of_cons in Hh as [Hx Hh]. rewrite filter_cons.
  case_decide as Hd; [|by destruct Hd]. f_equal. by apply IH.
Qed.

Lemma remove_first_filter h l : NoDup l → remove_first h l = filter (λ x, x ≠ h) l.
Proof using Type.
  induction 1 as [|x l Hx Hnd IH]; [done|]. cbn [remove_first]. rewrite filter_cons.
  destruct (decide (x = h)) as [->|]; case_decide; try done; [by rewrite filter_ne_notin|by rewrite IH].
Qed.

Lemma take_filter_hit n h (l : list (list byte)) :
  NoDup l → h ∈ take (S n) l → take n (filter (λ x, x ≠ h) l) = filter (λ x, x ≠ h) (take (S n) l).
Proof using Type.
  intros Hnd. revert n. induction Hnd as [|x l Hx Hnd IH]; intros n Hh; [rewrite filter_nil, !take_nil; done|].
  cbn [take] in *. rewrite !filter_cons. case_decide as Hne.
  - apply elem_of_cons in Hh as [->|Hh]; [done|]. destruct n as [|n]; [by apply elem_of_nil in Hh|].
    cbn [take]. f_equal. by apply IH.
  - destruct (decide (x = h)) as [->|]; [|done]. rewrite !filter_ne_notin; [done| |done].
    intros Hin. apply Hx. eapply list_elem_of_lookup in Hin as [i Hi].
    apply lookup_take_Some in Hi as [Hi _]. by eapply list_elem_of_lookup_2.
Qed.

Lemma take_filter_miss n h (l : list (list byte)) :
  h ∉ take (S n) l → take n (filter (λ x, x ≠ h) l) = take n l.
Proof using Type.
  revert n. induction l as [|x l IH]; intros n Hh; [done|]. cbn [take] in Hh.
  apply not_elem_of_cons in Hh as [Hx Hh]. rewrite filter_cons.
  case_decide as Hne; [|by destruct Hne]. destruct n as [|n]; [done|]. cbn [take]. f_equal. by apply IH.
Qed.

Lemma recency_NoDup served : NoDup (recency served).
Proof using Type.
  induction served as [|h served IH]; [constructor|]. constructor; [|by apply NoDup_filter].
  intros [? _]%list_elem_of_filter. done.
Qed.

(** The state after a run: the queue, latest first, is the start of the recency list. *)
Record lru (c : CacheInner) (served : list (list byte)) : Prop := {
  lru_order : reverse c.(order) = take (capacity c) (recency served);
  lru_map h : is_Some (c.(cache_map) !! h) ↔ h ∈ c.(order);
  lru_size : size c.(cache_map) = length c.(order);
}.

Lemma lru_NoDup c served : lru c served → NoDup c.(order).
Proof.
  intros [Ho _ _]. rewrite <- reverse_Permutation, Ho.
  eapply sublist_NoDup; [apply recency_NoDup|apply sublist_take].
Qed.

Lemma lru_length c served : lru c served → (length c.(order) ≤ capacity c)%nat.
Proof. intros [Ho _ _]. rewrite <- length_reverse, Ho, length_take. lia. Qed.

Lemma evict_drop max m o :
  NoDup o → (∀ h, is_Some (m !! h) ↔ h ∈ o) → size m = length o →
  ∃ m', evict max m o = (m', drop (length o + 1 - max) o)
    ∧ (∀ h, is_Some (m' !! h) ↔ h ∈ drop (length o + 1 - max) o)
    ∧ size m' = length (drop (length o + 1 - max) o).
Proof using Type.
  intros Hnd. revert m. induction Hnd as [|x o Hx Hnd IH]; intros m Hm Hs; cbn [evict].
  - exists m. rewrite drop_nil. by split_and!.
  - rewrite Hs. cbn [length]. destruct (Nat.leb_spec max (S (length o))).
    + destruct (IH (delete x m)) as (m' & He & Hm' & Hs').
      * intros h. rewrite lookup_delete. case_decide as Hxh; [subst h; split; [by intros []|done]|].
        rewrite Hm, elem_of_cons. split; [by intros [->|?]|by right].
      * rewrite map_size_delete_Some by (apply Hm; left). rewrite Hs. done.
      * exists m'. replace (S (length o) + 1 - max)%nat with (S (length o + 1 - max)) by lia. done.
    + exists m. replace (S (length o) + 1 - max)%nat with 0%nat by lia. by split_and!.
Qed.

Lemma lookup_fast_lru c served h :
  lru c served →
  match lookup_fast c h with
  | (c', Some _) => lru c' (h :: served)
  | (c', None) => lru c' served ∧ c'.(max_entries) = c.(max_entries) ∧ h ∉ c'.(order)
  end.
Proof.
  intros Hl. pose proof (lru_NoDup _ _ Hl) as Hnd. destruct Hl as [Ho Hm Hs]. unfold lookup_fast.
  destruct (cache_map c !! h) as [m|] eqn:Hh.
  - assert (h ∈ order c) as Hin by (apply Hm; by eexists).
    rewrite remove_first_filter by done. split; cbn [cache_map order].
    + unfold capacity in *. cbn [max_entries]. rewrite reverse_snoc. cbn [recency].
      destruct (Nat.max 1 (max_entries c)) as [|n] eqn:En; [lia|]. cbn [take]. f_equal.
      rewrite take_filter_hit by (apply recency_NoDup || (rewrite <- Ho; by apply elem_of_reverse)).
      rewrite <- Ho. clear. induction (order c) as [|x l IH]; [done|].
      rewrite filter_cons, (reverse_cons l), filter_app, filter_cons, filter_nil, <- IH.
      case_decide; [by rewrite reverse_cons|by rewrite app_nil_r].
    + intros x. rewrite Hm, elem_of_app, list_elem_of_filter. destruct (decide (x = h)); set_solver.
    + rewrite Hs, length_app. cbn. clear -Hnd Hin. induction Hnd as [|x l Hx Hnd IH]; [set_solver|].
      rewrite filter_cons. case_decide as Hne.
      * cbn. rewrite IH; [done|set_solver].
      * destruct (decide (x = h)) as [->|]; [|done]. rewrite filter_ne_notin by done. cbn. lia.
  - split; [by split|]. split; [done|]. cbn. intros Hin%Hm. rewrite Hh in Hin. by destruct Hin.
Qed.

Lemma insert_compiled_lru c served h m :
  lru c served → h ∉ c.(order) → lru (insert_compiled c h m) (h :: served).
Proof.
  intros Hl Hh. pose proof (lru_NoDup _ _ Hl) as Hnd. pose proof (lru_length _ _ Hl) as Hlen.
  destruct Hl as [Ho Hm Hs]. unfold insert_compiled.
  destruct (evict_drop (max_entries c) _ _ Hnd Hm Hs) as (m' & -> & Hm' & Hs').
  set (k := (length (order c) + 1 - max_entries c)%nat) in *.
  assert (h ∉ drop k (order c)) as Hhd.
  { intros Hin. apply Hh. rewrite <- (take_drop k (order c)). apply elem_of_app. by right. }
  split; cbn [cache_map order max_entries].
  - unfold capacity in *. cbn [max_entries]. rewrite reverse_snoc. cbn [recency].
    destruct (Nat.max 1 (max_entries c)) as [|n] eqn:En; [lia|]. cbn [take]. f_equal.
    rewrite take_filter_miss by (rewrite <- Ho; by rewrite elem_of_reverse).
    transitivity (take n (reverse (order c))).
    + rewrite take_reverse. f_equal. subst k. destruct (decide (max_entries c = 0%nat)) as [H0|].
      * by rewrite !drop_ge by lia.
      * f_equal. lia.
    + rewrite Ho, take_take. f_equal. lia.
  - intros x. destruct (decide (x = h)) as [->|Hne].
    + rewrite lookup_insert_eq. split; [intros _; set_solver|by eexists].
    + rewrite lookup_insert_ne, Hm' by done. set_solver.
  - rewrite map_size_insert_None, Hs', length_app by (apply eq_None_not_Some; by rewrite Hm'). cbn. lia.
Qed.

Lemma run_lru c reqs served : lru c served → lru (run c reqs served).1 (run c reqs served).2.
Proof.
  revert c served. induction reqs as [|bytes reqs IH]; intros c served Hl; [done|]. cbn [run].
  unfold get_or_compile. pose proof (lookup_fast_lru c served (sha256 bytes) Hl) as Hf.
  destruct (lookup_fast c (sha256 bytes)) as [c' [m|]]; [by apply IH|]. destruct Hf as (Hf & _ & Hn).
  destruct (compile bytes) as [m|]; apply IH; [|done]. by apply insert_compiled_lru.
Qed.
End Cache.

(** ** Properties *)

(** C27: the cache is least-recently-used: after any run of requests by one thread it
    holds exactly the first [capacity] of the distinct modules served, counted back
    from the latest, and its queue lists them in that order.  (Two threads that miss the
    same module at the same time break this: [concurrent_misses_break_lru].) *)
Theorem cache_is_lru `{Sh : Sha256Lib} {Mod : Type} (compile : list byte → option Mod) (max : nat)
    (reqs : list (list byte)) :
  let '(c, served) := run compile (with_capacity max) reqs [] in
  reverse c.(order) = take (Nat.max 1 max) (recency served)
  ∧ (∀ h, is_Some (c.(cache_map) !! h) ↔ h ∈ take (Nat.max 1 max) (recency served))
  ∧ (cache_len c ≤ Nat.max 1 max)%nat.
Proof.
  assert (lru (Mod := Mod) (with_capacity max) []) as H0.
  { split; cbn [with_capacity order cache_map recency]; [by rewrite take_nil| |by rewrite map_size_empty].
    intros h. rewrite lookup_empty, elem_of_nil. split; [by intros []|done]. }
  assert (∀ c served, capacity (run compile c reqs served).1 = capacity c) as Hcap.
  { clear. induction reqs as [|b reqs IH]; intros c served; [done|]. cbn [run].
    unfold get_or_compile, lookup_fast. destruct (cache_map c !! sha256 b); [by rewrite IH|].
    destruct (compile b); rewrite IH; [|done]. unfold insert_compiled. by destruct (evict _ _ _). }
  specialize (Hcap (with_capacity max) []). pose proof (run_lru compile _ reqs [] H0) as Hl.
  destruct (run compile (with_capacity max) reqs []) as [c served]. cbn [fst snd] in *.
  pose proof (lru_length _ _ Hl) as Hlen. destruct Hl as [Ho Hm Hs]. rewrite Hcap in *.
  change (capacity (with_capacity max)) with (Nat.max 1 max) in *.
  split; [done|]. split; [|unfold cache_len; lia]. intros h. by rewrite Hm, <- Ho, elem_of_reverse.
Qed.

(** Whatever threads do inside the cache, it never holds more than [max_entries]
    modules (one when that is zero), and a hit only returns a module compiled from
    bytes with the requested hash. *)
Theorem cache_bounded_and_sound `{Sh : Sha256Lib} {Mod : Type} (compile : list byte → option Mod) (max : nat)
    (c : CacheInner) :
  rtc (cache_step compile) (with_capacity max) c →
  (cache_len c ≤ Nat.max 1 max)%nat
  ∧ ∀ bytes c' m, lookup_fast c (sha256 bytes) = (c', Some m) →
      ∃ bytes', sha256 bytes' = sha256 bytes ∧ compile bytes' = Some m.
Proof.
  intros Hr.
  assert (cache_ok compile c ∧ c.(max_entries) = max) as [Hok Hmax].
  { revert Hr. apply (rtc_ind_r (λ c, cache_ok compile c ∧ c.(max_entries) = max)).
    - split; [|done]. split; cbn [with_capacity order cache_map]; [|rewrite map_size_empty; lia|apply map_Forall_empty].
      intros h [? Hh]. by rewrite lookup_empty in Hh.
    - intros c1 c2 _ Hs [H1 <-]. by apply cache_step_ok in Hs. }
  destruct Hok as [_ Hsize Hsound]. unfold capacity in Hsize. rewrite Hmax in Hsize. split; [done|].
  intros bytes c' m. unfold lookup_fast. destruct (cache_map c !! sha256 bytes) eqn:Hl; [|done].
  intros [= _ <-]. by apply Hsound in Hl.
Qed.

(** ** Concrete instances *)

Module ToyCache.
#[local] Existing Instances ToySha.sha.
Definition compile (b : list byte) : option nat := match b with [] => None | _ => Some (length b) end.
Definition key (b : list byte) : list byte := sha256 b.
Definition c0 : CacheInner (Mod := nat) := with_capacity 2.
Definition c1 : CacheInner := insert_compiled (lookup_fast c0 (key [x01])).1 (key [x01]) 1%nat.
Definition c2 : CacheInner := insert_compiled c1 (key [x01]) 1%nat.
Definition c3 : CacheInner := insert_compiled c2 (key [x02]) 1%nat.
Definition c4 : CacheInner := (lookup_fast c3 (key [x01])).1.
Definition c5 : CacheInner := insert_compiled c4 (key [x03]) 1%nat.
End ToyCache.
#[local] Existing Instances ToySha.sha.

Lemma toy_race : rtc (cache_step ToyCache.compile) (with_capacity 2) ToyCache.c4.
Proof.
  eapply rtc_l; [apply (cs_lookup _ _ [x01])|]. eapply rtc_l; [by apply (cs_insert _ _ [x01] 1%nat)|].
  eapply rtc_l; [by apply (cs_insert _ _ [x01] 1%nat)|]. eapply rtc_l; [by apply (cs_insert _ _ [x02] 1%nat)|].
  eapply rtc_l; [apply (cs_lookup _ _ [x01])|]. apply rtc_refl.
Qed.

(** Two threads that miss on the same bytes queue their hash twice, and the next
    eviction then drops the module that was used last and keeps an older one. *)
Theorem concurrent_misses_break_lru :
  ∃ c, rtc (cache_step ToyCache.compile) (with_capacity 2) c
    ∧ last c.(order) = Some (ToyCache.key [x01])
    ∧ let c' := insert_compiled c (ToyCache.key [x03]) 1%nat in
      c'.(cache_map) !! ToyCache.key [x01] = None
      ∧ is_Some (c'.(cache_map) !! ToyCache.key [x02]).
Proof.
  exists ToyCache.c4. split; [apply toy_race|]. split; [vm_compute; reflexivity|].
  split; [vm_compute; reflexivity|]. eexists. vm_compute. reflexivity.
Qed.

Lemma cache_bounded_and_sound_witness :
  let c := ToyCache.c4 in
  (cache_len c ≤ Nat.max 1 2)%nat
  ∧ ∀ bytes c' m, lookup_fast c (sha256 bytes) = (c', Some m) →
      ∃ bytes', sha256 bytes' = sha256 bytes ∧ ToyCache.compile bytes' = Some m.
Proof. apply (cache_bounded_and_sound ToyCache.compile 2 ToyCache.c4 toy_race). Defined.
