(* ===== verification/Failure.v ===== *)
(** * Failures and advice

    [src/hypervisor/failure_mode.rs] (the taxonomy), [src/hypervisor/recovery.rs] (the
    advice), the status type of [src/hypervisor/validator/health.rs] and
    [failure_mode_from_category] of [src/bin/nexus_mcp.rs].  A [wasmtime::Trap] is the
    type [Trap], with one constructor for the traps the program does not name, which
    carries its [Debug] text.  UUIDs are numbers. *)

From S2P Require Import Prelude Errors Floats.

(** ** Health status *)

Inductive HealthStatus := Healthy | Corrupted | HTimeout | HResourceExhausted | HFuelExhausted | Trapped | HInvalidModule.
#[export] Instance HealthStatus_eq_dec : EqDecision HealthStatus.
Proof. solve_decision. Defined.

Definition is_healthy (h : HealthStatus) : bool := match h with Healthy => true | _ => false end.
Definition status_requires_rollback (h : HealthStatus) : bool :=
  match h with Healthy | HInvalidModule => false | _ => true end.
Definition status_category (h : HealthStatus) : string :=
  match h with
  | Healthy => "SUCCESS"
  | Corrupted => "STATE_CORRUPTION"
  | HTimeout => "TIMEOUT"
  | HResourceExhausted => "RESOURCE_EXHAUSTED"
  | HFuelExhausted => "INFINITE_LOOP_PREVENTED"
  | Trapped => "WASM_TRAP"
  | HInvalidModule => "INVALID_MODULE"
  end.

(** ** Failure modes *)

Inductive FailureMode :=
| FTimeout (limit_ms observed_ms : Z)
| FFuelExhausted (limit : Z)
| TrapUnreachable
| TrapDivByZero
| TrapIntegerOverflow
| TrapBadConversionToInteger
| TrapStackOverflow
| TrapMemoryOutOfBounds
| TrapHeapMisaligned
| TrapTableOutOfBounds
| TrapIndirectCallToNull
| TrapBadSignature
| TrapNullReference
| TrapCastFailure
| TrapOther (s : string)
| FMemoryLimitExceeded (pages limit_pages : Z)
| InvalidModule (s : string)
| MissingEntrypoint (expected : string)
| HostError (s : string).
#[export] Instance FailureMode_eq_dec : EqDecision FailureMode.
Proof. solve_decision. Defined.

Definition mode_category (m : FailureMode) : string :=
  match m with
  | FTimeout _ _ => "TIMEOUT"
  | FFuelExhausted _ => "FUEL_EXHAUSTED"
  | TrapUnreachable => "TRAP_UNREACHABLE"
  | TrapDivByZero => "TRAP_DIV_BY_ZERO"
  | TrapIntegerOverflow => "TRAP_INTEGER_OVERFLOW"
  | TrapBadConversionToInteger => "TRAP_BAD_FLOAT_TO_INT"
  | TrapStackOverflow => "TRAP_STACK_OVERFLOW"
  | TrapMemoryOutOfBounds => "TRAP_MEMORY_OOB"
  | TrapHeapMisaligned => "TRAP_HEAP_MISALIGNED"
  | TrapTableOutOfBounds => "TRAP_TABLE_OOB"
  | TrapIndirectCallToNull => "TRAP_INDIRECT_NULL"
  | TrapBadSignature => "TRAP_BAD_SIGNATURE"
  | TrapNullReference => "TRAP_NULL_REFERENCE"
  | TrapCastFailure => "TRAP_CAST_FAILURE"
  | TrapOther _ => "TRAP_OTHER"
  | FMemoryLimitExceeded _ _ => "MEMORY_LIMIT_EXCEEDED"
  | InvalidModule _ => "INVALID_MODULE"
  | MissingEntrypoint _ => "MISSING_ENTRYPOINT"
  | HostError _ => "HOST_ERROR"
  end.

Definition describe (m : FailureMode) : string :=
  match m with
  | FTimeout limit_ms observed_ms =>
      "Execution exceeded " +:+ fmt_u limit_ms +:+ "ms (observed " +:+ fmt_u observed_ms +:+ "ms)"
  | FFuelExhausted limit => "Fuel budget of " +:+ fmt_u limit +:+ " instructions exhausted"
  | TrapUnreachable => "WASM `unreachable` instruction reached"
  | TrapDivByZero => "Integer division by zero"
  | TrapIntegerOverflow => "Integer overflow"
  | TrapBadConversionToInteger => "Invalid float-to-integer conversion"
  | TrapStackOverflow => "Call stack exhausted (recursion / stack budget)"
  | TrapMemoryOutOfBounds => "Out-of-bounds linear memory access"
  | TrapHeapMisaligned => "Unaligned atomic access"
  | TrapTableOutOfBounds => "Out-of-bounds table access"
  | TrapIndirectCallToNull => "Indirect call to a null table entry"
  | TrapBadSignature => "Indirect call signature mismatch"
  | TrapNullReference => "Null reference dereferenced"
  | TrapCastFailure => "Type cast failure on a reference"
  | TrapOther s => "WASM trap: " +:+ s
  | FMemoryLimitExceeded pages limit_pages =>
      "WASM memory grew to " +:+ fmt_u pages +:+ " pages; limit is " +:+ fmt_u limit_pages
  | InvalidModule s => "Invalid WASM module: " +:+ s
  | MissingEntrypoint expected => "Module has no exported `" +:+ expected +:+ "` function"
  | HostError s => "Host error: " +:+ s
  end.

Definition is_deterministic (m : FailureMode) : bool :=
  match m with
  | TrapUnreachable | TrapDivByZero | TrapIntegerOverflow | TrapBadConversionToInteger
  | TrapMemoryOutOfBounds | TrapHeapMisaligned | TrapTableOutOfBounds | TrapIndirectCallToNull
  | TrapBadSignature | TrapNullReference | TrapCastFailure | TrapOther _ | InvalidModule _
  | MissingEntrypoint _ => true
  | _ => false
  end.

Definition requires_rollback (m : FailureMode) : bool :=
  match m with InvalidModule _ | MissingEntrypoint _ => false | _ => true end.

(** [impl From<&FailureMode> for HealthStatus]. *)
Definition health_of_mode (m : FailureMode) : HealthStatus :=
  match m with
  | FTimeout _ _ => HTimeout
  | FFuelExhausted _ => HFuelExhausted
  | FMemoryLimitExceeded _ _ => HResourceExhausted
  | TrapStackOverflow => HResourceExhausted
  | TrapUnreachable | TrapDivByZero | TrapIntegerOverflow | TrapBadConversionToInteger
  | TrapMemoryOutOfBounds | TrapHeapMisaligned | TrapTableOutOfBounds | TrapIndirectCallToNull
  | TrapBadSignature | TrapNullReference | TrapCastFailure | TrapOther _ => Trapped
  | InvalidModule _ | MissingEntrypoint _ => HInvalidModule
  | HostError _ => Corrupted
  end.

(** ** Traps *)

Inductive Trap :=
| UnreachableCodeReached | IntegerDivisionByZero | IntegerOverflow | BadConversionToInteger
| StackOverflow | MemoryOutOfBounds | HeapMisaligned | TableOutOfBounds | IndirectCallToNull
| BadSignature | NullReference | CastFailure | OutOfFuel | Interrupt | OtherTrap (debug : string).

Definition from_wasmtime_trap (t : Trap) : FailureMode :=
  match t with
  | UnreachableCodeReached => TrapUnreachable
  | IntegerDivisionByZero => TrapDivByZero
  | IntegerOverflow => TrapIntegerOverflow
  | BadConversionToInteger => TrapBadConversionToInteger
  | StackOverflow => TrapStackOverflow
  | MemoryOutOfBounds => TrapMemoryOutOfBounds
  | HeapMisaligned => TrapHeapMisaligned
  | TableOutOfBounds => TrapTableOutOfBounds
  | IndirectCallToNull => TrapIndirectCallToNull
  | BadSignature => TrapBadSignature
  | NullReference => TrapNullReference
  | CastFailure => TrapCastFailure
  | OutOfFuel => FFuelExhausted 0
  | Interrupt => TrapOther "Interrupt"
  | OtherTrap debug => TrapOther debug
  end.

(** A [wasmtime::Error]: its own downcast to a trap and those of its causes. *)
Record WasmtimeError := { err_trap : option Trap; err_chain : list (option Trap); err_text : string }.

Fixpoint first_trap (chain : list (option Trap)) : option FailureMode :=
  match chain with
  | [] => None
  | Some t :: _ => Some (from_wasmtime_trap t)
  | None :: chain => first_trap chain
  end.

Definition from_anyhow_error (err : WasmtimeError) : option FailureMode :=
  match err.(err_trap) with
  | Some t => Some (from_wasmtime_trap t)
  | None => first_trap err.(err_chain)
  end.

(** [nexus_mcp::failure_mode_from_category]; [None] is the error. *)
Definition failure_mode_from_category (category : string) : option FailureMode :=
  if decide (category = "TIMEOUT") then Some (FTimeout 0 0)
  else if decide (category = "FUEL_EXHAUSTED") then Some (FFuelExhausted 0)
  else if decide (category = "TRAP_UNREACHABLE") then Some TrapUnreachable
  else if decide (category = "TRAP_DIV_BY_ZERO") then Some TrapDivByZero
  else if decide (category = "TRAP_INTEGER_OVERFLOW") then Some TrapIntegerOverflow
  else if decide (category = "TRAP_BAD_FLOAT_TO_INT") then Some TrapBadConversionToInteger
  else if decide (category = "TRAP_STACK_OVERFLOW") then Some TrapStackOverflow
  else if decide (category = "TRAP_MEMORY_OOB") then Some TrapMemoryOutOfBounds
  else if decide (category = "TRAP_HEAP_MISALIGNED") then Some TrapHeapMisaligned
  else if decide (category = "TRAP_TABLE_OOB") then Some TrapTableOutOfBounds
  else if decide (category = "TRAP_INDIRECT_NULL") then Some TrapIndirectCallToNull
  else if decide (category = "TRAP_BAD_SIGNATURE") then Some TrapBadSignature
  else if decide (category = "TRAP_NULL_REFERENCE") then Some TrapNullReference
  else if decide (category = "TRAP_CAST_FAILURE") then Some TrapCastFailure
  else if decide (category = "TRAP_OTHER") then Some (TrapOther "TRAP_OTHER")
  else if decide (category = "MEMORY_LIMIT_EXCEEDED") then Some (FMemoryLimitExceeded 0 0)
  else if decide (category = "INVALID_MODULE") then Some (InvalidModule "")
  else if decide (category = "MISSING_ENTRYPOINT") then Some (MissingEntrypoint "")
  else if decide (category = "HOST_ERROR") then Some (HostError "")
  else None.

(** ** Recovery actions and policies *)

Inductive RecoverySource := Static | Instinct | Llm.

Record RecoveryAction := {
  description : string;
  confidence : f32;
  source : RecoverySource;
  non_retryable : bool;
  instinct_id : option Z;
}.

Definition RecoveryAction_new (description : string) (source : RecoverySource) : RecoveryAction :=
  {| description := description; confidence := f32_of_Z 1; source := source; non_retryable := false;
     instinct_id := None |}.
Definition with_confidence (a : RecoveryAction) (c : f32) : RecoveryAction :=
  {| description := a.(description); confidence := f_clamp (f32_of_Z 0) (f32_of_Z 1) c; source := a.(source);
     non_retryable := a.(non_retryable); instinct_id := a.(instinct_id) |}.
Definition with_non_retryable (a : RecoveryAction) (nr : bool) : RecoveryAction :=
  {| description := a.(description); confidence := a.(confidence); source := a.(source);
     non_retryable := nr; instinct_id := a.(instinct_id) |}.
Definition with_instinct_id (a : RecoveryAction) (id : Z) : RecoveryAction :=
  {| description := a.(description); confidence := a.(confidence); source := a.(source);
     non_retryable := a.(non_retryable); instinct_id := Some id |}.

(** The trait [RecoveryPolicy]. *)
Abbreviation RecoveryPolicy := (FailureMode → string → list RecoveryAction).

(** [StaticPolicy]. *)
Definition mk (s : string) : RecoveryAction := RecoveryAction_new s Static.
Definition static_recover (mode : FailureMode) (_operation : string) : list RecoveryAction :=
  match mode with
  | FTimeout limit_ms _ =>
      [ mk ("Watchdog fired at " +:+ fmt_u limit_ms +:+ " ms; the sandbox guard already contained the run.")
      ; with_confidence (mk "Add a per-tool fuel cap or iteration bound; convert any unbounded loop to a bounded/streaming algorithm with cooperative yield points.") (f32_lit 9 10)
      ; with_confidence (mk "Only raise the timeout / fuel budget if profiling shows progress is being made.") (f32_lit 7 10) ]
  | FFuelExhausted limit =>
      [ mk ("Fuel budget of " +:+ fmt_u limit +:+ " instructions was consumed; the guard worked as designed.")
      ; with_confidence (mk "Profile the WASM to find the hot loop, then either reduce its iteration count or raise the per-tool fuel cap with an explicit business rationale.") (f32_lit 9 10)
      ; with_confidence (mk "Consider iterative or memoized algorithms instead of naive recursion/iteration over large inputs.") (f32_lit 7 10) ]
  | TrapUnreachable =>
      [ with_non_retryable (mk "Deterministic `unreachable` instruction reached — likely an assertion failure or unhandled enum arm in the guest module.") true
      ; with_non_retryable (with_confidence (mk "Locate the failing instruction via the wasm backtrace (function index + offset). Fix the guest code or the invariant it expected.") (f32_lit 9 10)) true
      ; with_non_retryable (with_confidence (mk "Do NOT auto-retry with identical inputs; this failure is deterministic.") (f32_lit 10 10)) true ]
  | TrapDivByZero =>
      [ with_non_retryable (mk "Integer divide-by-zero — guard the divisor (`if denom == 0 { return … }`) or use checked-division at the call site.") true
      ; with_non_retryable (with_confidence (mk "Audit the input contract that allowed a zero divisor through; validation at the boundary is the right fix.") (f32_lit 9 10)) true
      ; with_non_retryable (with_confidence (mk "Do NOT auto-retry with identical inputs; this failure is deterministic.") (f32_lit 10 10)) true ]
  | TrapIntegerOverflow =>
      [ with_non_retryable (mk "Integer overflow trap — switch to wrapping/saturating arithmetic at the offending op, or widen the type.") true
      ; with_non_retryable (with_confidence (mk "Add a range check at the input boundary so out-of-range values are rejected before they reach the arithmetic.") (f32_lit 85 100)) true ]
  | TrapBadConversionToInteger =>
      [ with_non_retryable (mk "Float-to-int conversion produced an out-of-range or NaN value; use a saturating-conversion variant or clamp the input.") true
      ; with_non_retryable (with_confidence (mk "If the source float is NaN, treat that case explicitly instead of converting.") (f32_lit 85 100)) true ]
  | TrapStackOverflow =>
      [ with_non_retryable (mk "Call stack exhausted — convert the recursive function to iteration, add an explicit depth bound, or restructure into trampolines.") true
      ; with_non_retryable (with_confidence (mk "Reject modules with unbounded recursion at validation; only legitimately deep, bounded workloads should raise the stack limit.") (f32_lit 85 100)) true ]
  | TrapMemoryOutOfBounds =>
      [ with_non_retryable (mk "Out-of-bounds linear-memory access — bounds-check the index before the load/store or use a memory.size guard.") true
      ; with_non_retryable (with_confidence (mk "Inspect the guest allocator for an off-by-one; ensure memory.grow happens before any access beyond the original heap.") (f32_lit 85 100)) true ]
  | TrapHeapMisaligned =>
      [ with_non_retryable (mk "Atomic operation on a non-shared / misaligned address — ensure the memory is shared and the address is naturally aligned for the atomic width.") true ]
  | TrapTableOutOfBounds =>
      [ with_non_retryable (mk "Out-of-bounds table access — check the index against `table.size` before `call_indirect`.") true ]
  | TrapIndirectCallToNull =>
      [ with_non_retryable (mk "Indirect call to a null table slot — populate the table entry with `table.set` before the call, or guard the slot at the call site.") true ]
  | TrapBadSignature =>
      [ with_non_retryable (mk "Indirect-call signature mismatch — make the callee's actual signature match the `call_indirect` signature.") true ]
  | TrapNullReference =>
      [ with_non_retryable (mk "Null reference dereferenced — null-check before use, or initialize the ref before passing it to the trapping op.") true ]
  | TrapCastFailure =>
      [ with_non_retryable (mk "Reference cast failed — guard with `ref.test` before `ref.cast`, or fix the upstream type.") true ]
  | TrapOther detail =>
      [ with_non_retryable (mk ("Deterministic WASM trap (subtype not yet classified): " +:+ detail +:+ ". Treat as non-retryable; classify the subtype before deciding on remediation.")) true ]
  | FMemoryLimitExceeded pages limit_pages =>
      [ mk ("WASM memory grew to " +:+ fmt_u pages +:+ " pages but the per-tool limit is " +:+ fmt_u limit_pages +:+ "; raise `max_memory_pages` or fix the guest allocator.")
      ; with_confidence (mk "Stream large inputs rather than buffering them in linear memory; release no-longer-needed regions.") (f32_lit 85 100) ]
  | InvalidModule detail =>
      [ with_non_retryable (mk ("Module failed to load: " +:+ detail +:+ ". Re-validate the WASM bytes and the toolchain output before retrying.")) true
      ; with_non_retryable (with_confidence (mk "Do NOT roll back; no execution occurred and no state was mutated.") (f32_lit 10 10)) true ]
  | MissingEntrypoint expected =>
      [ with_non_retryable (mk ("Module exports no `" +:+ expected +:+ "` (or fallback `main`) function. Verify entrypoint at build time, or configure the executor to call the correct export explicitly.")) true
      ; with_non_retryable (with_confidence (mk "Do NOT roll back; nothing executed.") (f32_lit 10 10)) true ]
  | HostError detail =>
      [ mk ("Host-side error during execution plumbing: " +:+ detail +:+ ". This indicates a Nexus bug or a configuration issue, not a guest problem; capture full logs and file an issue.") ]
  end.

(** [LayeredPolicy]: the inner loop over one layer's actions, then the layers. *)
Fixpoint add_layer (actions : list RecoveryAction) (out : list RecoveryAction) (seen : gset string)
  : list RecoveryAction * gset string :=
  match actions with
  | [] => (out, seen)
  | action :: actions =>
      if decide (action.(description) ∈ seen) then add_layer actions out seen
      else add_layer actions (out ++ [action]) ({[action.(description)]} ∪ seen)
  end.
Definition layered_recover (layers : list RecoveryPolicy) (mode : FailureMode) (operation : string)
  : list RecoveryAction :=
  (fold_left (λ '(out, seen) layer, add_layer (layer mode operation) out seen) layers ([], ∅)).1.

(** The reference: of each description, the first action. *)
Fixpoint first_of_each (l : list RecoveryAction) : list RecoveryAction :=
  match l with
  | [] => []
  | a :: l => a :: filter (λ b, b.(description) ≠ a.(description)) (first_of_each l)
  end.

(** ** Layering *)

Lemma add_layer_app l1 l2 out seen :
  add_layer (l1 ++ l2) out seen = let '(out, seen) := add_layer l1 out seen in add_layer l2 out seen.
Proof.
  revert out seen. induction l1 as [|a l1 IH]; intros out seen; [done|]. cbn [app add_layer].
  destruct (decide (description a ∈ seen)); apply IH.
Qed.

Lemma add_layer_spec l out seen :
  (add_layer l out seen).1 = out ++ filter (λ a, a.(description) ∉ seen) (first_of_each l).
Proof.
  revert out seen. induction l as [|a l IH]; intros out seen; [cbn; by rewrite app_nil_r|].
  cbn [add_layer first_of_each]. rewrite filter_cons, list_filter_filter.
  destruct (decide (description a ∈ seen)) as [Ha|Ha]; rewrite IH.
  - case_decide; [done|]. f_equal. apply list_filter_iff. intros b. split; [|by intros [? _]].
    intros Hb. split; [done|]. intros Heq. apply Hb. by rewrite Heq.
  - case_decide; [|done]. rewrite <- (assoc_L (++)). cbn [app]. do 2 f_equal.
    apply list_filter_iff. intros b. rewrite not_elem_of_union, elem_of_singleton. tauto.
Qed.

Lemma layered_concat layers mode op :
  layered_recover layers mode op = first_of_each (concat ((λ layer, layer mode op) <$> layers)).
Proof.
  unfold layered_recover.
  assert (∀ out seen, fold_left (λ '(out, seen) layer, add_layer (layer mode op) out seen) layers (out, seen)
    = add_layer (concat ((λ layer, layer mode op) <$> layers)) out seen) as ->.
  { induction layers as [|layer layers IH]; intros out seen; [done|]. cbn [fold_left fmap list_fmap concat].
    rewrite add_layer_app. destruct (add_layer _ out seen) as [out' seen']. apply IH. }
  rewrite add_layer_spec. cbn [app]. induction (first_of_each _) as [|a l IH]; [done|].
  rewrite filter_cons. case_decide as Ha; [by rewrite IH|]. exfalso. by apply not_elem_of_empty in Ha.
Qed.

Lemma first_of_each_NoDup l : NoDup (description <$> first_of_each l).
Proof.
  induction l as [|a l IH]; [constructor|]. cbn. constructor.
  - intros (b & Hb & [Hne _]%list_elem_of_filter)%list_elem_of_fmap. congruence.
  - eapply sublist_NoDup; [exact IH|]. apply fmap_sublist. clear.
    induction (first_of_each l) as [|b k IH]; [done|]. rewrite filter_cons.
    case_decide; [by apply sublist_skip|by apply sublist_cons].
Qed.

(** ** Properties *)

(** The taxonomy and the health status agree on every failure: both ask for a
    rollback in the same cases, no failure reads as healthy, only host errors read as
    corruption, and a failure is deterministic exactly when its status is a trap or
    an invalid module. *)
Theorem status_agrees_with_mode (m : FailureMode) :
  status_requires_rollback (health_of_mode m) = requires_rollback m
  ∧ is_healthy (health_of_mode m) = false
  ∧ (health_of_mode m = Corrupted ↔ ∃ s, m = HostError s)
  ∧ (is_deterministic m = true ↔ health_of_mode m = Trapped ∨ health_of_mode m = HInvalidModule).
Proof. destruct m; cbn; split_and!; try done; naive_solver. Qed.

(** A category names one kind of failure: parsing the category of a failure gives
    back a failure of that category, with the same status and the same rollback
    decision, and any other text is refused. *)
Theorem category_roundtrip (m : FailureMode) (category : string) :
  (∃ m', failure_mode_from_category (mode_category m) = Some m' ∧ mode_category m' = mode_category m
     ∧ health_of_mode m' = health_of_mode m ∧ requires_rollback m' = requires_rollback m)
  ∧ (failure_mode_from_category category = None ↔ ∀ m', mode_category m' ≠ category).
Proof.
  split; [destruct m; cbn; by eexists|]. split.
  - intros H m' <-. by destruct m'.
  - intros H. unfold failure_mode_from_category.
    repeat match goal with |- context [decide (?c = ?s)] =>
      destruct (decide (c = s)) as [->|]; [exfalso|] end; try done.
    all: match goal with H : ∀ _, mode_category _ ≠ ?s |- False =>
      let r := eval vm_compute in (failure_mode_from_category s) in
      match r with Some ?m => by apply (H m) end end.
Qed.

(** Every failure gets advice, always from the static source with a confidence in
    [0, 1], and it is marked non-retryable exactly for the deterministic failures and
    for a stack overflow. *)
Theorem advice_matches_mode (m : FailureMode) (op : string) :
  static_recover m op ≠ []
  ∧ Forall (λ a, a.(source) = Static ∧ a.(instinct_id) = None
      ∧ f_le (f32_of_Z 0) a.(confidence) = true ∧ f_le a.(confidence) (f32_of_Z 1) = true
      ∧ a.(non_retryable) = (is_deterministic m || bool_decide (m = TrapStackOverflow)))
      (static_recover m op).
Proof. destruct m; cbn [static_recover]; (split; [done|]); repeat constructor. Qed.

(** A layered policy answers with the advice of its layers in priority order, each
    description once, in the words and with the provenance of the first layer that
    gave it. *)
Theorem layered_first_wins (layers : list RecoveryPolicy) (m : FailureMode) (op : string) :
  layered_recover layers m op = first_of_each (concat ((λ layer, layer m op) <$> layers))
  ∧ NoDup (description <$> layered_recover layers m op).
Proof. rewrite layered_concat. split; [done|]. apply first_of_each_NoDup. Qed.
