(* ===== verification/Telemetry.v ===== *)
(** * Telemetry and error logs

    [src/telemetry/mod.rs] (execution records, learned patterns, statistics),
    [src/hypervisor/validator/error_log.rs] (the structured error log, without its
    rendering as a prompt) and the data of [src/telemetry/call_stack.rs].  The sink's
    locks are not modelled; new identifiers and the clock are arguments. *)

From S2P Require Import Prelude Errors Floats Failure.

(** ** Diagnostic call stacks *)

Inductive CaptureSite := CTrap | CCheckpoint.
Record StackFrame := {
  module_name : option string;
  func_index : Z;
  func_name : option string;
  module_offset : option Z;
  func_offset : option Z;
}.
Record CapturedCallStack := { frames : list StackFrame; captured_at : CaptureSite }.
Definition stack_is_empty (s : CapturedCallStack) : bool := bool_decide (length s.(frames) = 0%nat).
Definition top_frames (s : CapturedCallStack) (limit : nat) : list StackFrame := take limit s.(frames).

(** ** Error logs *)

Record ResourceSnapshot := { cpu_usage : f32; memory_used_mb : Z; memory_limit_mb : Z; res_timestamp : Z }.

Definition memory_usage_percent (r : ResourceSnapshot) : f64 :=
  if r.(memory_limit_mb) =? 0 then f64_of_Z 0
  else f64_mul (f64_div (f64_of_Z r.(memory_used_mb)) (f64_of_Z r.(memory_limit_mb))) (f64_of_Z 100).

Record SystemState := {
  files_affected : list string;
  reverted : bool;
  ss_snapshot_id : option string;
  execution_time_ms : Z;
}.
Definition SystemState_default : SystemState :=
  {| files_affected := []; reverted := false; ss_snapshot_id := None; execution_time_ms := 0 |}.

Record ErrorLog := {
  log_id : string;
  error_type : string;
  log_timestamp : Z;
  log_operation : string;
  log_description : string;
  system_state : SystemState;
  failure_mode : FailureMode;
  recovery_actions : list RecoveryAction;
  successful_patterns : list string;
  call_stack : option CapturedCallStack;
  trigger_status : HealthStatus;
  log_resources : ResourceSnapshot;
}.

Definition ErrorLog_new (id : string) (now : Z) (operation : string) (mode : FailureMode)
    (resources : ResourceSnapshot) : ErrorLog :=
  {| log_id := id; error_type := mode_category mode; log_timestamp := now; log_operation := operation;
     log_description := describe mode; system_state := SystemState_default; failure_mode := mode;
     recovery_actions := []; successful_patterns := []; call_stack := None;
     trigger_status := health_of_mode mode; log_resources := resources |}.

Definition with_recovery (l : ErrorLog) (actions : list RecoveryAction) : ErrorLog :=
  {| log_id := l.(log_id); error_type := l.(error_type); log_timestamp := l.(log_timestamp);
     log_operation := l.(log_operation); log_description := l.(log_description);
     system_state := l.(system_state); failure_mode := l.(failure_mode); recovery_actions := actions;
     successful_patterns := l.(successful_patterns); call_stack := l.(call_stack);
     trigger_status := l.(trigger_status); log_resources := l.(log_resources) |}.
Definition with_patterns (l : ErrorLog) (patterns : list string) : ErrorLog :=
  {| log_id := l.(log_id); error_type := l.(error_type); log_timestamp := l.(log_timestamp);
     log_operation := l.(log_operation); log_description := l.(log_description);
     system_state := l.(system_state); failure_mode := l.(failure_mode);
     recovery_actions := l.(recovery_actions); successful_patterns := patterns;
     call_stack := l.(call_stack); trigger_status := l.(trigger_status); log_resources := l.(log_resources) |}.
Definition with_system_state (l : ErrorLog) (s : SystemState) : ErrorLog :=
  {| log_id := l.(log_id); error_type := l.(error_type); log_timestamp := l.(log_timestamp);
     log_operation := l.(log_operation); log_description := l.(log_description); system_state := s;
     failure_mode := l.(failure_mode); recovery_actions := l.(recovery_actions);
     successful_patterns := l.(successful_patterns); call_stack := l.(call_stack);
     trigger_status := l.(trigger_status); log_resources := l.(log_resources) |}.
Definition with_call_stack (l : ErrorLog) (cs : option CapturedCallStack) : ErrorLog :=
  {| log_id := l.(log_id); error_type := l.(error_type); log_timestamp := l.(log_timestamp);
     log_operation := l.(log_operation); log_description := l.(log_description);
     system_state := l.(system_state); failure_mode := l.(failure_mode);
     recovery_actions := l.(recovery_actions); successful_patterns := l.(successful_patterns);
     call_stack := cs; trigger_status := l.(trigger_status); log_resources := l.(log_resources) |}.

(** ** Execution records *)

Record ExecutionRecord := {
  rec_id : string;
  rec_timestamp : Z;
  operation : string;
  success : bool;
  duration_ms : Z;
  rec_fuel_consumed : Z;
  health_status : HealthStatus;
  rec_error : option ErrorLog;
  rec_resources : ResourceSnapshot;
}.

Definition record_of_success (id : string) (now : Z) (operation : string) (duration fuel : Z)
    (resources : ResourceSnapshot) : ExecutionRecord :=
  {| rec_id := id; rec_timestamp := now; operation := operation; success := true; duration_ms := duration;
     rec_fuel_consumed := fuel; health_status := Healthy; rec_error := None; rec_resources := resources |}.
Definition record_of_failure (id : string) (now : Z) (operation : string) (error : ErrorLog)
    (duration fuel : Z) : ExecutionRecord :=
  {| rec_id := id; rec_timestamp := now; operation := operation; success := false; duration_ms := duration;
     rec_fuel_consumed := fuel; health_status := error.(trigger_status); rec_error := Some error;
     rec_resources := error.(log_resources) |}.

(** ** The sink *)

Record TelemetryStats := {
  total_executions : Z;
  successful_executions : Z;
  failed_executions : Z;
  total_rollbacks : Z;
  avg_duration_ms : f64;
  avg_fuel_per_execution : f64;
  success_rate : f64;
}.
Definition TelemetryStats_default : TelemetryStats :=
  {| total_executions := 0; successful_executions := 0; failed_executions := 0; total_rollbacks := 0;
     avg_duration_ms := f64_of_Z 0; avg_fuel_per_execution := f64_of_Z 0; success_rate := f64_of_Z 0 |}.

Record LearnedPattern := { pat_operation : string; pattern : string; success_count : Z; last_used : Z }.

Record TelemetrySink := {
  history : list ExecutionRecord;
  max_history : nat;
  patterns : list LearnedPattern;
  tele_stats : TelemetryStats;
}.

Definition TelemetrySink_new (max_history : nat) : TelemetrySink :=
  {| history := []; max_history := max_history; patterns := []; tele_stats := TelemetryStats_default |}.

Definition add_to_history (max : nat) (h : list ExecutionRecord) (r : ExecutionRecord) : list ExecutionRecord :=
  (if (max <=? length h)%nat then tail h else h) ++ [r].

(** [update_pattern]: the first pattern of the operation, or a new one on success. *)
Fixpoint bump_pattern (now : Z) (operation : string) (success : bool) (l : list LearnedPattern)
  : option (list LearnedPattern) :=
  match l with
  | [] => None
  | p :: l =>
      if decide (p.(pat_operation) = operation)
      then Some ({| pat_operation := p.(pat_operation); pattern := p.(pattern);
                    success_count := if success then saturating_add64 p.(success_count) 1
                                     else saturating_sub p.(success_count) 1;
                    last_used := now |} :: l)
      else (cons p) <$> bump_pattern now operation success l
  end.
Definition update_pattern (now : Z) (operation : string) (success : bool) (l : list LearnedPattern)
  : list LearnedPattern :=
  match bump_pattern now operation success l with
  | Some l => l
  | None => if success
            then l ++ [{| pat_operation := operation; pattern := "initial_success"; success_count := 1;
                          last_used := now |}]
            else l
  end.

Definition running_avg (avg : f64) (n sample : Z) : f64 :=
  f64_div (f64_add (f64_mul avg (f64_of_Z (wrap64 (n - 1)))) (f64_of_Z sample)) (f64_of_Z n).

Definition stats_success (s : TelemetryStats) (r : ExecutionRecord) : TelemetryStats :=
  let n := wrap64 (s.(total_executions) + 1) in
  let ok := wrap64 (s.(successful_executions) + 1) in
  {| total_executions := n; successful_executions := ok; failed_executions := s.(failed_executions);
     total_rollbacks := s.(total_rollbacks);
     avg_duration_ms := running_avg s.(avg_duration_ms) n r.(duration_ms);
     avg_fuel_per_execution := running_avg s.(avg_fuel_per_execution) n r.(rec_fuel_consumed);
     success_rate := f64_div (f64_of_Z ok) (f64_of_Z n) |}.

Definition stats_failure (s : TelemetryStats) (r : ExecutionRecord) : TelemetryStats :=
  let n := wrap64 (s.(total_executions) + 1) in
  {| total_executions := n; successful_executions := s.(successful_executions);
     failed_executions := wrap64 (s.(failed_executions) + 1);
     total_rollbacks :=
       match r.(rec_error) with Some _ => wrap64 (s.(total_rollbacks) + 1) | None => s.(total_rollbacks) end;
     avg_duration_ms := running_avg s.(avg_duration_ms) n r.(duration_ms);
     avg_fuel_per_execution := s.(avg_fuel_per_execution);
     success_rate := f64_div (f64_of_Z s.(successful_executions)) (f64_of_Z n) |}.

Definition record_success (t : TelemetrySink) (now : Z) (r : ExecutionRecord) : TelemetrySink :=
  {| history := add_to_history t.(max_history) t.(history) r; max_history := t.(max_history);
     patterns := update_pattern now r.(operation) true t.(patterns);
     tele_stats := stats_success t.(tele_stats) r |}.
Definition record_failure (t : TelemetrySink) (now : Z) (r : ExecutionRecord) : TelemetrySink :=
  {| history := add_to_history t.(max_history) t.(history) r; max_history := t.(max_history);
     patterns := update_pattern now r.(operation) false t.(patterns);
     tele_stats := stats_failure t.(tele_stats) r |}.

Definition get_history (t : TelemetrySink) (limit : option nat) : list ExecutionRecord :=
  take (default (length t.(history)) limit) (reverse t.(history)).
Definition get_patterns (t : TelemetrySink) (operation : string) : list string :=
  pattern <$> filter (λ p, p.(pat_operation) = operation ∧ 0 < p.(success_count)) t.(patterns).
Definition clear_history (t : TelemetrySink) : TelemetrySink :=
  {| history := []; max_history := t.(max_history); patterns := t.(patterns); tele_stats := t.(tele_stats) |}.
Definition all_patterns (t : TelemetrySink) : list LearnedPattern := t.(patterns).

(** [record_success] for a record of a success, [record_failure] for one of a failure. *)
Definition record_execution (t : TelemetrySink) (nr : Z * ExecutionRecord) : TelemetrySink :=
  if nr.2.(success) then record_success t nr.1 nr.2 else record_failure t nr.1 nr.2.

(** ** Reference definitions *)

(** The success count of an operation after its outcomes, oldest first: it starts at
    the first success and is eroded by failures. *)
Fixpoint count_outcomes (c : option Z) (outcomes : list bool) : option Z :=
  match outcomes with
  | [] => c
  | b :: outcomes =>
      count_outcomes
        match c with
        | None => if b then Some 1 else None
        | Some n => Some (if b then saturating_add64 n 1 else saturating_sub n 1)
        end outcomes
  end.
Definition outcomes_of (op : string) (rs : list (Z * ExecutionRecord)) : list bool :=
  (λ nr, nr.2.(success)) <$> filter (λ nr, nr.2.(operation) = op) rs.

Definition count_of (op : string) (l : list LearnedPattern) : option Z :=
  success_count ∘ snd <$> list_find (λ p, p.(pat_operation) = op) l.

(** ** The sink against its reference *)

Lemma count_of_cons op p l :
  count_of op (p :: l) = if decide (p.(pat_operation) = op) then Some p.(success_count) else count_of op l.
Proof.
  unfold count_of. cbn. destruct (decide (pat_operation p = op)); [done|]. by destruct (list_find _ l) as [[]|].
Qed.

Lemma bump_pattern_count now op b l op' :
  match bump_pattern now op b l with
  | Some l' => (∃ n, count_of op l = Some n
                 ∧ count_of op l' = Some (if b then saturating_add64 n 1 else saturating_sub n 1))
               ∧ (op' ≠ op → count_of op' l' = count_of op' l)
  | None => count_of op l = None
  end.
Proof.
  induction l as [|p l IH]; [done|]. cbn [bump_pattern]. destruct (decide (pat_operation p = op)) as [He|Hne].
  - rewrite !count_of_cons. cbn [pat_operation success_count]. rewrite !decide_True by done.
    split; [by eexists|]. intros Hop. by rewrite !decide_False by congruence.
  - destruct (bump_pattern now op b l) as [l'|]; cbn [fmap option_fmap option_map];
      rewrite !count_of_cons, !(decide_False (P := pat_operation p = op)) by done; [|done].
    destruct IH as [IH1 IH2]. split; [done|]. intros Hop. by rewrite IH2.
Qed.

Lemma count_of_app op l k :
  count_of op (l ++ k) = match count_of op l with Some n => Some n | None => count_of op k end.
Proof.
  induction l as [|p l IH]; [done|]. cbn [app]. rewrite !count_of_cons, IH.
  by destruct (decide (pat_operation p = op)).
Qed.

Lemma update_pattern_count now op b l op' :
  count_of op' (update_pattern now op b l)
  = if decide (op' = op) then count_outcomes (count_of op l) [b] else count_of op' l.
Proof.
  unfold update_pattern. pose proof (bump_pattern_count now op b l op') as H.
  destruct (bump_pattern now op b l) as [l'|].
  - destruct H as ((n & Hn & Hn') & Hne). case_decide as Hop; [subst; by rewrite Hn, Hn'|by apply Hne].
  - case_decide as Hop.
    + subst op'. rewrite H. cbn. destruct b; [|done]. rewrite count_of_app, H.
      unfold count_of. cbn. by rewrite decide_True.
    + destruct b; [|done]. rewrite count_of_app. destruct (count_of op' l); [done|].
      unfold count_of. cbn. by rewrite decide_False by congruence.
Qed.

Definition last_records (k : nat) (rs : list ExecutionRecord) : list ExecutionRecord :=
  drop (length rs - Nat.max 1 k) rs.

Lemma tail_drop {A} n (l : list A) : tail (drop n l) = drop (S n) l.
Proof.
  revert l. induction n as [|n IH]; intros [|a l]; try done. cbn [drop]. rewrite IH. by destruct l.
Qed.

Lemma add_to_history_last k rs r :
  add_to_history k (last_records k rs) r = last_records k (rs ++ [r]).
Proof.
  unfold add_to_history, last_records. rewrite length_drop, length_app. cbn [length].
  destruct (Nat.leb_spec k (length rs - (length rs - Nat.max 1 k))).
  - destruct (decide (length rs = 0%nat)) as [Hn|]; [apply nil_length_inv in Hn as ->; by destruct k|].
    rewrite tail_drop, drop_app_le by lia. f_equal.
    destruct k as [|k]; [rewrite !drop_ge by lia; done|]. f_equal. lia.
  - replace (length rs - Nat.max 1 k)%nat with 0%nat by lia.
    by replace (length rs + 1 - Nat.max 1 k)%nat with 0%nat by lia.
Qed.

Lemma count_outcomes_app c l k : count_outcomes c (l ++ k) = count_outcomes (count_outcomes c l) k.
Proof. revert c. induction l as [|b l IH]; intros c; [done|]. apply IH. Qed.

Definition succeeded (nr : Z * ExecutionRecord) : Prop := nr.2.(success) = true.
#[local] Instance succeeded_dec nr : Decision (succeeded nr).
Proof. unfold succeeded. apply _. Defined.
Definition run_sink (k : nat) (rs : list (Z * ExecutionRecord)) : TelemetrySink :=
  fold_left record_execution rs (TelemetrySink_new k).

Lemma succeeded_snoc rs now r :
  len (filter succeeded (rs ++ [(now, r)])) = len (filter succeeded rs) + (if r.(success) then 1 else 0).
Proof.
  rewrite filter_app, len_app, filter_cons, filter_nil. f_equal.
  destruct (decide (succeeded (now, r))) as [H|H]; unfold succeeded in H; cbn in H;
    by destruct (success r).
Qed.

Lemma record_execution_fields t now r :
  let t' := record_execution t (now, r) in
  t'.(max_history) = t.(max_history)
  ∧ t'.(history) = add_to_history t.(max_history) t.(history) r
  ∧ t'.(patterns) = update_pattern now r.(operation) r.(success) t.(patterns)
  ∧ t'.(tele_stats).(total_executions) = wrap64 (t.(tele_stats).(total_executions) + 1)
  ∧ t'.(tele_stats).(successful_executions)
    = (if r.(success) then wrap64 (t.(tele_stats).(successful_executions) + 1)
       else t.(tele_stats).(successful_executions))
  ∧ t'.(tele_stats).(failed_executions)
    = (if r.(success) then t.(tele_stats).(failed_executions)
       else wrap64 (t.(tele_stats).(failed_executions) + 1)).
Proof. unfold record_execution. cbn [fst snd]. by destruct (success r). Qed.

(** ** Properties *)

(** The telemetry sink summarises the runs: after any sequence of fewer than 2^64
    executions it holds exactly the last [max_history] records (one when that is 0),
    the counters split the total into successes and failures, and an operation's
    learned pattern carries the count of its outcomes, reinforced by successes and
    eroded, never below zero, by failures. *)
Theorem telemetry_tracks_outcomes (k : nat) (rs : list (Z * ExecutionRecord)) (op : string) :
  len rs ≤ U64_MAX →
  let t := run_sink k rs in
  t.(history) = last_records k (rs.*2)
  ∧ count_of op t.(patterns) = count_outcomes None (outcomes_of op rs)
  ∧ t.(tele_stats).(total_executions) = len rs
  ∧ t.(tele_stats).(successful_executions) = len (filter succeeded rs)
  ∧ t.(tele_stats).(failed_executions) = len rs - len (filter succeeded rs).
Proof.
  intros Hlen t. subst t.
  enough ((run_sink k rs).(max_history) = k ∧
    (run_sink k rs).(history) = last_records k (rs.*2)
    ∧ count_of op (run_sink k rs).(patterns) = count_outcomes None (outcomes_of op rs)
    ∧ (run_sink k rs).(tele_stats).(total_executions) = len rs
    ∧ (run_sink k rs).(tele_stats).(successful_executions) = len (filter succeeded rs)
    ∧ (run_sink k rs).(tele_stats).(failed_executions) = len rs - len (filter succeeded rs)) by tauto.
  induction rs as [|[now r] rs IH] using rev_ind; [done|].
  rewrite len_app in Hlen. change (len [(now, r)]) with 1 in Hlen. pose proof (len_nonneg rs).
  destruct IH as (Hk & Hh & Hp & Ht & Hs & Hf); [lia|].
  assert (0 ≤ len (filter succeeded rs) ≤ len rs).
  { unfold len. pose proof (length_filter succeeded rs). lia. }
  assert (wrap64 (len rs + 1) = len rs + 1) as W1 by (apply wrap64_small; unfold is_u64; lia).
  unfold run_sink. rewrite fold_left_app. fold (run_sink k rs). cbn [fold_left].
  destruct (record_execution_fields (run_sink k rs) now r) as (-> & -> & -> & -> & -> & ->).
  rewrite Hk, Hh, Ht, Hs, Hf, W1, fmap_app, add_to_history_last, update_pattern_count, succeeded_snoc, len_app.
  unfold outcomes_of. rewrite filter_app, fmap_app. fold (outcomes_of op rs). rewrite count_outcomes_app, <- Hp.
  split_and!; try done.
  - rewrite filter_cons, filter_nil. cbn [snd]. destruct (decide (op = operation r)) as [->|].
    + by rewrite decide_True by done.
    + by rewrite decide_False by congruence.
  - destruct (success r); [|lia]. apply wrap64_small. unfold is_u64. lia.
  - change (len [(now, r)]) with 1. destruct (success r); [lia|]. rewrite wrap64_small by (unfold is_u64; lia). lia.
Qed.

(** The average fuel counts failures in its denominator only: a failed run of 100
    units and a successful one of 50 average to 25. *)
Theorem failures_dilute_average_fuel (now : Z) (ok failed : ExecutionRecord) (k : nat) :
  ok.(success) = true → ok.(rec_fuel_consumed) = 50 → failed.(success) = false →
  (run_sink k [(now, failed); (now, ok)]).(tele_stats).(avg_fuel_per_execution) = f64_of_Z 25.
Proof.
  intros H1 H2 H3. unfold run_sink. cbn [fold_left]. unfold record_execution. cbn [snd fst]. rewrite H1, H3.
  cbn [record_success record_failure tele_stats stats_success stats_failure avg_fuel_per_execution
    TelemetrySink_new TelemetryStats_default total_executions].
  rewrite H2. vm_compute. reflexivity.
Qed.

(** ** Concrete instances *)

Module ToyRuns.
Definition resources : ResourceSnapshot :=
  {| cpu_usage := f32_of_Z 0; memory_used_mb := 1; memory_limit_mb := 2; res_timestamp := 0 |}.
Definition good (fuel : Z) : ExecutionRecord := record_of_success "r" 1 "op" 5 fuel resources.
Definition bad (fuel : Z) : ExecutionRecord :=
  record_of_failure "r" 2 "op" (ErrorLog_new "e" 2 "op" TrapDivByZero resources) 5 fuel.
Definition runs : list (Z * ExecutionRecord) := [(1, bad 100); (2, good 50); (3, good 50); (4, bad 7)].
End ToyRuns.

Lemma telemetry_tracks_outcomes_witness :
  let t := run_sink 2 ToyRuns.runs in
  count_of "op" t.(patterns) = Some 1
  ∧ t.(history) = last_records 2 (ToyRuns.runs.*2)
  ∧ count_of "op" t.(patterns) = count_outcomes None (outcomes_of "op" ToyRuns.runs)
  ∧ t.(tele_stats).(total_executions) = len ToyRuns.runs
  ∧ t.(tele_stats).(successful_executions) = len (filter succeeded ToyRuns.runs)
  ∧ t.(tele_stats).(failed_executions) = len ToyRuns.runs - len (filter succeeded ToyRuns.runs).
Proof.
  split; [vm_compute; reflexivity|].
  apply (telemetry_tracks_outcomes 2 ToyRuns.runs "op"). vm_compute. discriminate.
Defined.
