(* ===== verification/Instinct.v ===== *)
(** * The instinct store: [src/instinct/mod.rs]

    The store is its in-memory cache and its directory, a map from file names to
    contents.  JSON is the interface [InstinctIo] with the round trip of its laws;
    whether a file can be written and in which order the cache is iterated belong to
    it too.  UUIDs are numbers; new identifiers and the clock are arguments. *)

From S2P Require Import Prelude Errors Floats Failure.

Record InstinctEntry := {
  inst_id : Z;
  failure_category : string;
  operation_pattern : string;
  recovery_description : string;
  inst_confidence : f32;
  support_count : Z;
  failure_count : Z;
  created_at : Z;
  last_updated : Z;
}.

Definition instinct_new (id now : Z) (category pattern description : string) : InstinctEntry :=
  {| inst_id := id; failure_category := category; operation_pattern := pattern;
     recovery_description := description; inst_confidence := f32_lit 5 10; support_count := 0;
     failure_count := 0; created_at := now; last_updated := now |}.

(** Laplace smoothing, in single precision as the code computes it. *)
Definition laplace (s f : Z) : f32 :=
  f32_div (f32_add (f32_of_Z s) (f32_of_Z 1)) (f32_add (f32_add (f32_of_Z s) (f32_of_Z f)) (f32_of_Z 2)).

Definition recompute_confidence (now : Z) (i : InstinctEntry) : InstinctEntry :=
  {| inst_id := i.(inst_id); failure_category := i.(failure_category);
     operation_pattern := i.(operation_pattern); recovery_description := i.(recovery_description);
     inst_confidence := laplace i.(support_count) i.(failure_count); support_count := i.(support_count);
     failure_count := i.(failure_count); created_at := i.(created_at); last_updated := now |}.

Definition with_counts (i : InstinctEntry) (s f : Z) : InstinctEntry :=
  {| inst_id := i.(inst_id); failure_category := i.(failure_category);
     operation_pattern := i.(operation_pattern); recovery_description := i.(recovery_description);
     inst_confidence := i.(inst_confidence); support_count := s; failure_count := f;
     created_at := i.(created_at); last_updated := i.(last_updated) |}.
Definition entry_success (now : Z) (i : InstinctEntry) : InstinctEntry :=
  recompute_confidence now (with_counts i (saturating_add64 i.(support_count) 1) i.(failure_count)).
Definition entry_failure (now : Z) (i : InstinctEntry) : InstinctEntry :=
  recompute_confidence now (with_counts i i.(support_count) (saturating_add64 i.(failure_count) 1)).

Definition matches_operation (i : InstinctEntry) (operation : string) : bool :=
  bool_decide (i.(operation_pattern) = "*") || bool_decide (i.(operation_pattern) = operation).

(** ** The store *)

Abbreviation Cache := (gmap string (list InstinctEntry)).
Record InstinctStore := { cache : Cache; files : gmap string (list byte) }.

Class InstinctIo := {
  inst_serialize : list InstinctEntry → option (list byte);
  inst_parse : list byte → option (list InstinctEntry);
  inst_writable : string → bool;
  cat_iter : Cache → list string;
  cat_iter_perm c : cat_iter c ≡ₚ (map_to_list c).*1;
}.
Class InstinctIoLaws (Io : InstinctIo) : Prop := {
  inst_json_roundtrip l bytes : inst_serialize l = Some bytes → inst_parse bytes = Some l;
}.

Section Store.
Context `{Io : InstinctIo}.

Definition json_name (category : string) : string := category +:+ ".json".

(** A directory entry with extension [json]: a bare [.json] has no extension. *)
Definition is_json (name : string) : bool :=
  match strip_suffix ".json" name with Some stem => bool_decide (stem ≠ "") | None => false end.

(** The loop of [open] over the directory. *)
Fixpoint load_files (entries : list (string * list byte)) (c : Cache) : result Cache NexusError :=
  match entries with
  | [] => Ok c
  | (name, bytes) :: entries =>
      if negb (is_json name) then load_files entries c
      else
        let? parsed := ok_or (inst_parse bytes) (SerializationError (Fmt "parse {path:?}: {e}" [AOpaque; AOpaque])) in
        load_files entries
          match parsed with [] => c | first :: _ => <[first.(failure_category) := parsed]> c end
  end.
Definition open (dir : gmap string (list byte)) : result InstinctStore NexusError :=
  let? c := load_files (map_to_list dir) ∅ in
  Ok {| cache := c; files := dir |}.

Definition persist_category (s : InstinctStore) (category : string) : InstinctStore * result () NexusError :=
  match s.(cache) !! category with
  | None => (s, Ok ())
  | Some bucket =>
      match inst_serialize bucket with
      | None => (s, Err (SerializationError (Fmt "serialize {category}: {e}" [AStr category; AOpaque])))
      | Some bytes =>
          if inst_writable (json_name category)
          then ({| cache := s.(cache); files := <[json_name category := bytes]> s.(files) |}, Ok ())
          else (s, Err (FilesystemError (Fmt "write {path:?}: {e}" [AOpaque; AOpaque])))
      end
  end.

Definition set_cache (s : InstinctStore) (c : Cache) : InstinctStore := {| cache := c; files := s.(files) |}.

Definition same_advice (pattern description : string) (i : InstinctEntry) : bool :=
  bool_decide (i.(operation_pattern) = pattern) && bool_decide (i.(recovery_description) = description).

Definition register (s : InstinctStore) (mode : FailureMode) (pattern description : string) (new_id now : Z)
  : InstinctStore * result Z NexusError :=
  let key := mode_category mode in
  let bucket := default [] (s.(cache) !! key) in
  let '(bucket, id) :=
    match List.find (same_advice pattern description) bucket with
    | Some existing => (bucket, existing.(inst_id))
    | None => (bucket ++ [instinct_new new_id now key pattern description], new_id)
    end in
  let '(s, r) := persist_category (set_cache s (<[key := bucket]> s.(cache))) key in
  (s, let? _ := r in Ok id).

(** [bucket.iter_mut().find(...)], then the update. *)
Fixpoint update_first (f : InstinctEntry → InstinctEntry) (id : Z) (l : list InstinctEntry)
  : option (list InstinctEntry) :=
  match l with
  | [] => None
  | i :: l => if i.(inst_id) =? id then Some (f i :: l) else cons i <$> update_first f id l
  end.

Fixpoint find_category (f : InstinctEntry → InstinctEntry) (id : Z) (c : Cache) (cats : list string)
  : option (string * list InstinctEntry) :=
  match cats with
  | [] => None
  | cat :: cats =>
      match update_first f id (default [] (c !! cat)) with
      | Some bucket => Some (cat, bucket)
      | None => find_category f id c cats
      end
  end.

Definition record_with (f : InstinctEntry → InstinctEntry) (s : InstinctStore) (id : Z)
  : InstinctStore * result bool NexusError :=
  match find_category f id s.(cache) (cat_iter s.(cache)) with
  | None => (s, Ok false)
  | Some (cat, bucket) =>
      let '(s, r) := persist_category (set_cache s (<[cat := bucket]> s.(cache))) cat in
      (s, let? _ := r in Ok true)
  end.
Definition store_record_success (s : InstinctStore) (id now : Z) := record_with (entry_success now) s id.
Definition store_record_failure (s : InstinctStore) (id now : Z) := record_with (entry_failure now) s id.

(** Stable descending order; incomparable confidences count as equal. *)
Fixpoint insert_desc (i : InstinctEntry) (l : list InstinctEntry) : list InstinctEntry :=
  match l with
  | [] => [i]
  | j :: l => if f_lt j.(inst_confidence) i.(inst_confidence) then i :: j :: l else j :: insert_desc i l
  end.
Definition sort_desc (l : list InstinctEntry) : list InstinctEntry := fold_left (λ acc i, insert_desc i acc) l [].

Definition query (s : InstinctStore) (mode : FailureMode) (operation : string) : list InstinctEntry :=
  sort_desc (List.filter (λ i, matches_operation i operation) (default [] (s.(cache) !! mode_category mode))).

(** [InstinctPolicy]. *)
Definition with_min_confidence (c : f32) : f32 := f_clamp (f32_of_Z 0) (f32_of_Z 1) c.
Definition instinct_recover (s : InstinctStore) (min_confidence : f32) : RecoveryPolicy := λ mode operation,
  (λ i, {| description := i.(recovery_description); confidence := i.(inst_confidence); source := Instinct;
           non_retryable := false; instinct_id := Some i.(inst_id) |})
  <$> List.filter (λ i, f_le min_confidence i.(inst_confidence)) (query s mode operation).

(** [import_all]: the parsed array, merged entry by entry; then every touched category. *)
Fixpoint merge_entries (incs : list InstinctEntry) (c : Cache) (added merged : Z) (touched : gset string)
  : Cache * Z * Z * gset string :=
  match incs with
  | [] => (c, added, merged, touched)
  | inc :: incs =>
      let bucket := default [] (c !! inc.(failure_category)) in
      if existsb (same_advice inc.(operation_pattern) inc.(recovery_description)) bucket
      then merge_entries incs (<[inc.(failure_category) := bucket]> c) added (merged + 1) touched
      else merge_entries incs (<[inc.(failure_category) := bucket ++ [inc]]> c) (added + 1) merged
             ({[inc.(failure_category)]} ∪ touched)
  end.
Fixpoint persist_all (s : InstinctStore) (cats : list string) : InstinctStore * result () NexusError :=
  match cats with
  | [] => (s, Ok ())
  | cat :: cats =>
      match persist_category s cat with
      | (s, Ok _) => persist_all s cats
      | (s, Err e) => (s, Err e)
      end
  end.
Definition import_all (s : InstinctStore) (json : list byte) : InstinctStore * result (Z * Z) NexusError :=
  match inst_parse json with
  | None => (s, Err (SerializationError (Fmt "import: {e}" [AOpaque])))
  | Some parsed =>
      let '(c, added, merged, touched) := merge_entries parsed s.(cache) 0 0 ∅ in
      let '(s, r) := persist_all (set_cache s c) (elements touched) in
      (s, let? _ := r in Ok (added, merged))
  end.
End Store.

(** ** The store over its life *)

Section StoreSpec.
Context `{Io : InstinctIo} `{L : !InstinctIoLaws Io}.

(** A category whose file is an entry of the directory that [open] reads back. *)
Definition nameable (cat : string) : Prop := cat ≠ "" ∧ no_char "/" cat.
Definition nameable_import (json : list byte) : Prop :=
  ∀ l, inst_parse json = Some l → Forall (λ i, nameable i.(failure_category)) l.

(** An operation that changes the store, with its outcome. *)
Inductive store_op : InstinctStore → InstinctStore → bool → Prop :=
| so_register s s' mode pattern description id now r :
    register s mode pattern description id now = (s', r) → store_op s s' (is_ok r)
| so_success s s' id now r : store_record_success s id now = (s', r) → store_op s s' (is_ok r)
| so_failure s s' id now r : store_record_failure s id now = (s', r) → store_op s s' (is_ok r)
| so_import s s' json r : nameable_import json → import_all s json = (s', r) → store_op s s' (is_ok r).
Definition store_step (s s' : InstinctStore) : Prop := ∃ ok, store_op s s' ok.
Definition successful_step (s s' : InstinctStore) : Prop := store_op s s' true.

Definition advice (i : InstinctEntry) : string * string := (i.(operation_pattern), i.(recovery_description)).

Record bucket_ok (cat : string) (b : list InstinctEntry) : Prop := {
  bo_nonempty : b ≠ [];
  bo_nameable : nameable cat;
  bo_category : Forall (λ i, i.(failure_category) = cat) b;
  bo_advice : NoDup (advice <$> b);
}.
(** The file of the category holds this bucket. *)
Definition on_disk (dir : gmap string (list byte)) (cat : string) (b : list InstinctEntry) : Prop :=
  ∃ bytes, dir !! json_name cat = Some bytes ∧ inst_parse bytes = Some b.

Record store_ok (s : InstinctStore) : Prop := {
  so_bucket cat b : s.(cache) !! cat = Some b → bucket_ok cat b;
  so_file name bytes : s.(files) !! name = Some bytes →
    ∃ cat b, name = json_name cat ∧ inst_parse bytes = Some b ∧ bucket_ok cat b ∧ is_Some (s.(cache) !! cat);
}.
(** The file of the category is up to date. *)
Definition synced (s : InstinctStore) (cat : string) : Prop := ∀ b, s.(cache) !! cat = Some b → on_disk s.(files) cat b.
(** What an operation may do to files. *)
Definition writes_buckets (s s' : InstinctStore) : Prop :=
  ∀ cat, s'.(files) !! json_name cat = s.(files) !! json_name cat
         ∨ ∃ b, s'.(cache) !! cat = Some b ∧ on_disk s'.(files) cat b.

Lemma string_app_inj_r (a b c : string) : a +:+ c = b +:+ c → a = b.
Proof.
  assert (∀ x y : string, String.length (x +:+ y) = (String.length x + String.length y)%nat) as Hl.
  { induction x as [|k x IH]; intros y; cbn; [done|by rewrite IH]. }
  revert b. induction a as [|k a IH]; intros [|k' b] H; try done.
  - apply (f_equal String.length) in H. rewrite Hl in H. cbn in H. rewrite Hl in H. lia.
  - apply (f_equal String.length) in H. rewrite (Hl "" c) in H. cbn in H. rewrite Hl in H. lia.
  - cbn in H. injection H as -> H. f_equal. by apply IH.
Qed.

Lemma json_name_inj a b : json_name a = json_name b → a = b.
Proof. apply string_app_inj_r. Qed.

Lemma is_json_name cat : nameable cat → is_json (json_name cat) = true.
Proof.
  intros [Hne _]. unfold is_json, json_name. rewrite strip_suffix_app. by apply bool_decide_eq_true.
Qed.
Lemma nameable_mode m : nameable (mode_category m).
Proof. split; [by destruct m|]. destruct m; vm_compute; repeat split; discriminate. Qed.

Lemma set_bucket_ok s cat b : store_ok s → bucket_ok cat b → store_ok (set_cache s (<[cat := b]> s.(cache))).
Proof.
  intros [Hb Hf] Hok. split; cbn [set_cache cache files].
  - intros cat' b'. destruct (decide (cat' = cat)) as [->|Hne]; [rewrite lookup_insert_eq; by intros [= <-]|].
    rewrite lookup_insert_ne by done. apply Hb.
  - intros name bytes (cat' & b' & -> & Hp & Hok' & Hc)%Hf. exists cat', b'. split_and!; [done..|].
    destruct (decide (cat' = cat)) as [->|]; [rewrite lookup_insert_eq; by eexists|by rewrite lookup_insert_ne].
Qed.
(** Writing one category. *)
Lemma persist_spec s cat s' r : store_ok s → persist_category s cat = (s', r) →
  store_ok s' ∧ s'.(cache) = s.(cache) ∧ (∀ cat', cat' ≠ cat → s'.(files) !! json_name cat' = s.(files) !! json_name cat')
  ∧ (is_ok r = true → synced s' cat) ∧ (s'.(files) = s.(files) ∨ synced s' cat ∧ is_Some (s.(cache) !! cat)).
Proof.
  intros Hs. unfold persist_category. destruct (cache s !! cat) as [b|] eqn:Hc.
  2:{ intros [= <- <-]. split_and!; [done..| |by left]. intros _ b. by rewrite Hc. }
  destruct (inst_serialize b) as [bytes|] eqn:Es; [|intros [= <- <-]; split_and!; first [done|by left]].
  destruct (inst_writable _); [|intros [= <- <-]; split_and!; first [done|by left]]. intros [= <- <-]. cbn [cache files].
  assert (synced {| cache := cache s; files := <[json_name cat := bytes]> (files s) |} cat) as Hsync.
  { intros b'. cbn [cache files]. rewrite Hc. intros [= <-]. exists bytes. rewrite lookup_insert_eq.
    split; [done|]. by apply inst_json_roundtrip. }
  split_and!; [|done| |done|right; by rewrite ?Hc; eauto].
  - destruct Hs as [Hb Hf]. split; cbn [cache files]; [done|]. intros name bytes'.
    destruct (decide (name = json_name cat)) as [->|Hne]; [|rewrite lookup_insert_ne by done; apply Hf].
    rewrite lookup_insert_eq. intros [= <-]. exists cat, b. split_and!; [done|by apply inst_json_roundtrip|by apply Hb|by rewrite Hc].
  - intros cat' Hne. rewrite lookup_insert_ne; [done|]. intros ?%json_name_inj. done.
Qed.
(** Replacing a bucket and writing it. *)
Lemma update_spec s cat b s' r : store_ok s → bucket_ok cat b →
  persist_category (set_cache s (<[cat := b]> s.(cache))) cat = (s', r) →
  store_ok s' ∧ writes_buckets s s' ∧ (is_ok r = true → (∀ c, synced s c) → ∀ c, synced s' c).
Proof.
  intros Hs Hok Hp. destruct (persist_spec _ _ _ _ (set_bucket_ok _ _ _ Hs Hok) Hp) as (Hs' & Hc & Hf & Hsync & Hw).
  cbn [set_cache cache files] in *. split; [done|]. split.
  - intros cat'. destruct (decide (cat' = cat)) as [->|Hne]; [|left; by apply Hf].
    destruct Hw as [->|[Hd _]]; [by left|right]. exists b. split; [by rewrite Hc, lookup_insert_eq|].
    apply Hd. by rewrite Hc, lookup_insert_eq.
  - intros Hr Hold c. destruct (decide (c = cat)) as [->|Hne]; [by apply Hsync|]. intros b'. rewrite Hc, lookup_insert_ne by done.
    intros (bytes & ? & ?)%Hold. exists bytes. by rewrite Hf.
Qed.

Lemma find_same_advice pattern description l i :
  List.find (same_advice pattern description) l = Some i → i ∈ l ∧ advice i = (pattern, description).
Proof.
  intros [Hin Hs]%find_some. split; [by apply list_elem_of_In|].
  unfold same_advice in Hs. apply andb_true_iff in Hs as [?%bool_decide_eq_true ?%bool_decide_eq_true].
  unfold advice. congruence.
Qed.

Lemma find_no_advice pattern description l :
  List.find (same_advice pattern description) l = None → (pattern, description) ∉ advice <$> l.
Proof.
  intros Hn (i & Hi & Hin)%list_elem_of_fmap. apply list_elem_of_In in Hin.
  pose proof (find_none _ _ Hn _ Hin) as Hs. unfold same_advice, advice in *.
  injection Hi as Hp Hd. by rewrite !bool_decide_eq_true_2 in Hs.
Qed.

Lemma update_first_spec f id l l' :
  (∀ i, advice (f i) = advice i ∧ (f i).(failure_category) = i.(failure_category)) →
  update_first f id l = Some l' →
  advice <$> l' = advice <$> l ∧ failure_category <$> l' = failure_category <$> l.
Proof.
  intros Hf. revert l'. induction l as [|i l IH]; intros l'; [done|]. cbn [update_first].
  destruct (inst_id i =? id).
  - intros [= <-]. cbn. by destruct (Hf i) as [-> ->].
  - destruct (update_first f id l) as [k|]; cbn; [|done]. intros [= <-].
    destruct (IH k eq_refl) as [H1 H2]. cbn. by rewrite H1, H2.
Qed.

Lemma bucket_ok_map cat b b' :
  bucket_ok cat b → advice <$> b' = advice <$> b → failure_category <$> b' = failure_category <$> b →
  bucket_ok cat b'.
Proof.
  intros [Hn Hm Hc Ha] H1 H2. split; [|done| |by rewrite H1].
  - intros ->. by destruct b.
  - apply (Forall_fmap failure_category (λ c, c = cat) b'). rewrite H2. by apply Forall_fmap.
Qed.

Lemma find_category_spec f id c cats cat b :
  find_category f id c cats = Some (cat, b) → update_first f id (default [] (c !! cat)) = Some b.
Proof.
  induction cats as [|x cats IH]; cbn [find_category]; [done|].
  destruct (update_first f id (default [] (c !! x))) eqn:E; [by intros [= <- <-]|done].
Qed.

(** What every operation keeps: the invariant, and, if it succeeds, files that are up to date. *)
Definition keeps (s s' : InstinctStore) (ok : bool) : Prop :=
  store_ok s' ∧ writes_buckets s s' ∧ (ok = true → (∀ c, synced s c) → ∀ c, synced s' c).
Lemma keeps_refl s ok : store_ok s → keeps s s ok.
Proof. intros Hs. split_and!; [done| |done]. intros cat. by left. Qed.

Lemma record_with_ok f s s' id r :
  (∀ i, advice (f i) = advice i ∧ (f i).(failure_category) = i.(failure_category)) →
  store_ok s → record_with f s id = (s', r) → keeps s s' (is_ok r).
Proof.
  intros Hf Hs. unfold record_with.
  destruct (find_category f id (cache s) _) as [[cat bucket]|] eqn:E; [|intros [= <- <-]; by apply keeps_refl].
  apply find_category_spec in E.
  destruct (cache s !! cat) as [b0|] eqn:Hc; [|done]. cbn in E.
  destruct (update_first_spec _ _ _ _ Hf E) as [H1 H2].
  destruct (persist_category _ cat) as [s1 p] eqn:Ep. intros [= <- <-].
  assert (is_ok (let? _ := p in Ok true) = is_ok p) as -> by (by destruct p).
  eapply (update_spec s cat bucket); [done| |exact Ep].
  eapply bucket_ok_map; [|exact H1|exact H2]. by apply (so_bucket _ Hs).
Qed.

(** Merging entries: what is not touched stays. *)
Lemma merge_spec incs : Forall (λ i, nameable i.(failure_category)) incs → ∀ s added merged touched c' a' m' touched',
  store_ok s → merge_entries incs s.(cache) added merged touched = (c', a', m', touched') →
  store_ok (set_cache s c') ∧ touched ⊆ touched' ∧ (∀ cat, cat ∉ touched' → c' !! cat = s.(cache) !! cat).
Proof.
  induction 1 as [|inc incs Hn _ IH]; intros s added merged touched c' a' m' touched' Hs; cbn [merge_entries].
  { intros [= <- _ _ <-]. split_and!; [by destruct s|done..]. }
  set (cat := failure_category inc) in *. destruct (existsb _ _) eqn:Edup.
  - destruct (cache s !! cat) as [b|] eqn:Hc; [|done]. cbn [default from_option id] in *. rewrite insert_id by done. by apply IH.
  - assert (bucket_ok cat (default [] (cache s !! cat) ++ [inc])) as Hok.
    { assert (bucket_ok cat (default [] (cache s !! cat)) ∨ default [] (cache s !! cat) = []) as Hold.
      { destruct (cache s !! cat) as [b|] eqn:Hc; [left; by apply (so_bucket _ Hs)|by right]. }
      split; [by destruct (default [] _)|done| |].
      - apply Forall_app. split; [destruct Hold as [[]| ->]; [done|constructor]|by repeat constructor].
      - rewrite fmap_app. apply NoDup_app. split_and!; [destruct Hold as [[]| ->]; [done|constructor]| |apply NoDup_singleton].
        intros x (i & -> & Hi)%list_elem_of_fmap Hx%list_elem_of_singleton.
        assert (existsb (same_advice (operation_pattern inc) (recovery_description inc)) (default [] (cache s !! cat)) = true) as Ht; [|congruence].
        apply existsb_exists. exists i. split; [by apply list_elem_of_In|]. unfold advice in Hx. injection Hx as Hp Hd.
        unfold same_advice. by rewrite !bool_decide_eq_true_2. }
    intros H. destruct (IH (set_cache s (<[cat := default [] (cache s !! cat) ++ [inc]]> (cache s))) _ _ _ _ _ _ _ (set_bucket_ok _ _ _ Hs Hok) H)
      as (H1 & H2 & H3). split_and!; [done|set_solver|]. intros c Hc. rewrite H3 by done. cbn [set_cache cache].
    rewrite lookup_insert_ne; [done|]. set_solver.
Qed.

Lemma persist_all_spec cats : ∀ s s' r, store_ok s → persist_all s cats = (s', r) →
  store_ok s' ∧ s'.(cache) = s.(cache)
  ∧ (∀ cat, s'.(files) !! json_name cat = s.(files) !! json_name cat ∨ cat ∈ cats ∧ synced s' cat ∧ is_Some (s.(cache) !! cat))
  ∧ (is_ok r = true → ∀ cat, cat ∈ cats → synced s' cat).
Proof.
  assert (∀ s s' cat, cache s' = cache s → files s' !! json_name cat = files s !! json_name cat → synced s cat → synced s' cat) as Hmove.
  { intros s s' cat Hc Hf H b. rewrite Hc. intros (bytes & ? & ?)%H. exists bytes. by rewrite Hf. }
  induction cats as [|cat cats IH]; intros s s' r Hs; cbn [persist_all].
  { intros [= <- <-]. split_and!; [done..|by left|]. intros _ cat ?%elem_of_nil. done. }
  destruct (persist_category s cat) as [s1 p] eqn:Ep. destruct (persist_spec _ _ _ _ Hs Ep) as (Hs1 & Hc1 & Hf1 & Hsync & Hw).
  assert (∀ c, files s1 !! json_name c = files s !! json_name c ∨ c ∈ cat :: cats ∧ synced s1 c ∧ is_Some (cache s !! c)) as H1.
  { intros c. destruct (decide (c = cat)) as [->|Hne]; [|left; by apply Hf1].
    destruct Hw as [->|[? ?]]; [by left|right]. split; [by apply elem_of_cons; left|done]. }
  destruct p as [u|e].
  - intros H. destruct (IH _ _ _ Hs1 H) as (Hs' & Hc' & Hf' & Hok). rewrite Hc1 in *. split; [done|]. split; [done|]. split.
    + intros c. destruct (Hf' c) as [Heq|(? & ? & ?)]; [|right; split; [by apply elem_of_cons; right|done]].
      destruct (H1 c) as [?|(? & ? & ?)]; [left; congruence|right]. split_and!; [done| |done].
      apply (Hmove s1); [by rewrite Hc1|done..].
    + intros Hr c [->|Hin]%elem_of_cons; [|by apply Hok]. destruct (Hf' cat) as [Heq|(? & ? & ?)]; [|done].
      apply (Hmove s1); [by rewrite Hc1|done|by apply Hsync].
  - intros [= <- <-]. split_and!; [done|done|exact H1|done].
Qed.

Lemma import_ok s s' json r : nameable_import json → store_ok s → import_all s json = (s', r) → keeps s s' (is_ok r).
Proof.
  intros Hn Hs. unfold import_all. destruct (inst_parse json) as [l|] eqn:Ej; [|intros [= <- <-]; by apply keeps_refl].
  destruct (merge_entries l (cache s) 0 0 ∅) as [[[c a] m] touched] eqn:Em.
  destruct (merge_spec l (Hn _ Ej) _ _ _ _ _ _ _ _ Hs Em) as (Hs1 & _ & Hrest).
  destruct (persist_all _ _) as [s1 p] eqn:Ep. intros [= <- <-].
  assert (is_ok (let? _ := p in Ok (a, m)) = is_ok p) as -> by (by destruct p).
  destruct (persist_all_spec _ _ _ _ Hs1 Ep) as (Hs' & Hc & Hf & Hok). cbn [set_cache cache files] in *. split; [done|]. split.
  - intros cat. destruct (Hf cat) as [?|(_ & Hd & [b Hb])]; [by left|right]. exists b. rewrite Hc. split; [done|]. apply Hd. by rewrite Hc.
  - intros Hr Hold cat. destruct (decide (cat ∈ touched)) as [Hin|Hnin]; [apply Hok; [done|by apply elem_of_elements]|].
    intros b. rewrite Hc, Hrest by done. intros (bytes & ? & ?)%Hold. exists bytes. split; [|done].
    destruct (Hf cat) as [->|(Hin & _)]; [done|]. by apply elem_of_elements in Hin.
Qed.

Lemma register_ok s s' mode pattern description id now r :
  store_ok s → register s mode pattern description id now = (s', r) → keeps s s' (is_ok r).
Proof.
  intros Hs. unfold register. set (key := mode_category mode).
  assert (bucket_ok key (default [] (cache s !! key)) ∨ default [] (cache s !! key) = []) as Hold.
  { destruct (cache s !! key) as [b|] eqn:Hc; [left; by apply (so_bucket _ Hs)|by right]. }
  assert (∀ b p s1 (n : Z), bucket_ok key b → persist_category (set_cache s (<[key := b]> (cache s))) key = (s1, p) →
    (s1, let? _ := p in Ok n) = (s', r) → keeps s s' (is_ok r)) as Hfin.
  { intros b p s1 n Hb Ep [= <- <-]. assert (is_ok (let? _ := p in Ok n) = is_ok p) as -> by (by destruct p). by eapply update_spec. }
  destruct (List.find (same_advice pattern description) _) as [i|] eqn:Ef; cbn beta iota zeta;
    destruct (persist_category _ key) as [s1 p] eqn:Ep; (eapply Hfin; [|exact Ep]).
  - apply find_same_advice in Ef as [Hin _]. destruct Hold as [?|He]; [done|]. rewrite He in Hin. by apply elem_of_nil in Hin.
  - apply find_no_advice in Ef. split; [by destruct (default [] _)|apply nameable_mode| |].
    + apply Forall_app. split; [destruct Hold as [[]| ->]; [done|constructor]|by repeat constructor].
    + rewrite fmap_app. apply NoDup_app. split_and!; [destruct Hold as [[]| ->]; [done|constructor]| |apply NoDup_singleton].
      intros x Hx ->%list_elem_of_singleton. done.
Qed.

Lemma store_op_keeps s s' ok : store_ok s → store_op s s' ok → keeps s s' ok.
Proof.
  intros Hs Hop. destruct Hop; [by eapply register_ok|eapply record_with_ok; [|done|done]; done..|by eapply import_ok].
Qed.
Lemma store_ok_empty : store_ok {| cache := ∅; files := ∅ |}.
Proof. split; cbn; [intros cat b|intros name bytes]; by rewrite lookup_empty. Qed.
Lemma reachable_ok s : rtc store_step {| cache := ∅; files := ∅ |} s → store_ok s.
Proof.
  revert s. apply (rtc_ind_r store_ok); [apply store_ok_empty|]. intros y z _ [ok Hop] Hy. by destruct (store_op_keeps _ _ _ Hy Hop).
Qed.
Lemma reachable_synced s : rtc successful_step {| cache := ∅; files := ∅ |} s → store_ok s ∧ ∀ cat, synced s cat.
Proof.
  revert s. apply (rtc_ind_r (λ s, store_ok s ∧ ∀ cat, synced s cat)).
  - split; [apply store_ok_empty|]. intros cat b. cbn. by rewrite lookup_empty.
  - intros y z _ Hop [Hy Hsync]. destruct (store_op_keeps _ _ _ Hy Hop) as (? & _ & ?). by auto.
Qed.
End StoreSpec.

Section Reopen.
Context `{Io : InstinctIo} `{L : !InstinctIoLaws Io}.

Lemma load_files_spec s entries c0 :
  store_ok s → (∀ name bytes, (name, bytes) ∈ entries → s.(files) !! name = Some bytes) →
  ∃ c, load_files entries c0 = Ok c
    ∧ ∀ cat, (json_name cat ∈ entries.*1 → ∃ b, c !! cat = Some b ∧ on_disk s.(files) cat b ∧ bucket_ok cat b)
             ∧ (json_name cat ∉ entries.*1 → c !! cat = c0 !! cat).
Proof.
  intros Hs. revert c0. induction entries as [|[name bytes] entries IH]; intros c0 Hin.
  { exists c0. split; [done|]. intros cat. split; [by intros ?%elem_of_nil|done]. }
  assert (files s !! name = Some bytes) as Hf by (apply Hin; left).
  destruct (so_file _ Hs name bytes Hf) as (cat & b & -> & Hp & Hok & _). pose proof Hok as [Hne Hname Hcat _].
  cbn [load_files]. rewrite (is_json_name _ Hname). cbn [negb]. rewrite Hp. cbn [ok_or result_bind].
  destruct b as [|first rest]; [done|]. apply Forall_cons in Hcat as [-> _].
  destruct (IH (<[cat := first :: rest]> c0)) as (c & -> & Hspec).
  { intros n bs Hn. apply Hin. by right. }
  exists c. split; [done|]. intros cat'. destruct (Hspec cat') as [H1 H2]. cbn [fmap list_fmap fst]. split.
  - intros [Heq|Hi]%elem_of_cons; [|by apply H1]. apply json_name_inj in Heq as ->.
    destruct (decide (json_name cat ∈ entries.*1)) as [Hi|Hi]; [by apply H1|].
    exists (first :: rest). rewrite H2, lookup_insert_eq by done. split_and!; [done| |done]. by exists bytes.
  - intros [Hn Hi]%not_elem_of_cons. rewrite H2 by done. rewrite lookup_insert_ne; [done|]. by intros ->.
Qed.

(** What [open] makes of the files of a store. *)
Lemma open_spec s : store_ok s → ∃ c, open s.(files) = Ok {| cache := c; files := s.(files) |}
  ∧ (∀ cat b, c !! cat = Some b ↔ on_disk s.(files) cat b) ∧ map_Forall bucket_ok c.
Proof.
  intros Hs. unfold open.
  destruct (load_files_spec s (map_to_list (files s)) ∅ Hs) as (c & -> & Hc).
  { intros name bytes. by rewrite elem_of_map_to_list. }
  assert (∀ cat, json_name cat ∈ (map_to_list (files s)).*1 ↔ is_Some (files s !! json_name cat)) as Hdom.
  { intros cat. split.
    - intros ([n bs] & Hn & Hi)%list_elem_of_fmap. cbn in Hn. subst n. apply elem_of_map_to_list in Hi. by eexists.
    - intros [bs Hi]. apply list_elem_of_fmap. exists (json_name cat, bs). split; [done|]. by apply elem_of_map_to_list. }
  exists c. split; [done|]. split.
  - intros cat b. destruct (Hc cat) as [H1 H2]. destruct (decide (is_Some (files s !! json_name cat))) as [Hi|Hi].
    + destruct (H1 (proj2 (Hdom cat) Hi)) as (b' & -> & (bytes & Hf & Hp) & _). split; [intros [= <-]; by exists bytes|].
      intros (bytes' & Hf' & Hp'). congruence.
    + rewrite H2, lookup_empty by (by rewrite Hdom). split; [done|]. intros (bytes & Hf & _). destruct Hi. by eexists.
  - intros cat b Hb. destruct (Hc cat) as [H1 H2]. destruct (decide (json_name cat ∈ (map_to_list (files s)).*1)) as [Hi|Hi].
    + destruct (H1 Hi) as (b' & Hb' & _ & ?). congruence.
    + rewrite H2, lookup_empty in Hb by done. done.
Qed.
Lemma open_synced s : store_ok s → (∀ cat, synced s cat) → open s.(files) = Ok s.
Proof.
  intros Hs Hsync. destruct (open_spec s Hs) as (c & -> & Hc & _). destruct s as [sc sf]. cbn [cache files] in *. do 2 f_equal.
  apply map_eq. intros cat. destruct (sc !! cat) as [b|] eqn:Hb; [apply Hc, (Hsync cat), Hb|].
  destruct (c !! cat) as [b|] eqn:Hb'; [|done]. apply Hc in Hb' as (bytes & Hf & _).
  destruct (so_file _ Hs _ _ Hf) as (cat' & ? & ->%json_name_inj & _ & _ & [? Hx]). cbn in Hx. congruence.
Qed.
End Reopen.

(** ** Properties *)


(** An import of the empty category is written to a file that [open] passes over. *)
Lemma empty_category_is_lost : is_json (json_name "") = false.
Proof. reflexivity. Qed.

(** Registering the same advice again changes nothing and gives the same identifier. *)
Theorem register_idempotent `{Io : InstinctIo} `{L : !InstinctIoLaws Io} (s s' : InstinctStore)
    (mode : FailureMode) (pattern description : string) (id id' now now' r : Z) :
  register s mode pattern description id now = (s', Ok r) →
  register s' mode pattern description id' now' = (s', Ok r).
Proof.
  unfold register. set (key := mode_category mode).
  set (bucket := match List.find (same_advice pattern description) (default [] (cache s !! key)) with
    | Some existing => (default [] (cache s !! key), existing.(inst_id))
    | None => (default [] (cache s !! key) ++ [instinct_new id now key pattern description], id) end).
  assert (∃ i, List.find (same_advice pattern description) bucket.1 = Some i ∧ i.(inst_id) = bucket.2) as (i & Hi & Hid).
  { unfold bucket. destruct (List.find _ (default [] (cache s !! key))) as [i|] eqn:Ef; cbn [fst snd]; [by exists i|].
    exists (instinct_new id now key pattern description). split; [|done].
    induction (default [] (cache s !! key)) as [|x l IH]; cbn in *.
    - unfold same_advice. cbn. by rewrite !bool_decide_eq_true_2.
    - destruct (same_advice pattern description x); [done|]. by apply IH. }
  destruct bucket as [b bid]. cbn [fst snd] in *.
  destruct (persist_category _ key) as [s1 [u|e]] eqn:Ep; [|done]. intros [= -> <-].
  assert (cache s' = <[key := b]> (cache s)) as Hcache.
  { unfold persist_category in Ep. cbn [set_cache cache files] in Ep. rewrite lookup_insert_eq in Ep.
    destruct (inst_serialize b); [|done]. destruct (inst_writable _); [|done]. by injection Ep as <- _. }
  assert (cache s' !! key = Some b) as Hb by (by rewrite Hcache, lookup_insert_eq).
  rewrite Hb. change (default [] (Some b)) with b. rewrite Hi, Hid. unfold persist_category. cbn [set_cache cache files].
  rewrite lookup_insert_eq, insert_id by done.
  unfold persist_category in Ep. cbn [set_cache cache files] in Ep. rewrite lookup_insert_eq in Ep.
  destruct (inst_serialize b) as [bytes|]; [|done]. destruct (inst_writable (json_name key)); [|done].
  injection Ep as <- _. cbn [cache files]. by rewrite insert_insert_eq.
Qed.

(** The smoothed confidence does reach 1 in single precision. *)
Theorem confidence_reaches_one (now : Z) (i : InstinctEntry) :
  i.(support_count) = 33554432 → i.(failure_count) = 0 →
  f_lt (recompute_confidence now i).(inst_confidence) (f32_of_Z 1) = false.
Proof. intros H1 H2. cbn [recompute_confidence inst_confidence]. rewrite H1, H2. vm_compute. reflexivity. Qed.

(** ** Concrete instances *)

#[export] Instance spec_float_eq_dec : EqDecision spec_float.
Proof. solve_decision. Defined.
#[export] Instance InstinctEntry_eq_dec : EqDecision InstinctEntry.
Proof. solve_decision. Defined.

Module ToyInstinct.
Definition entry : InstinctEntry := instinct_new 7 100 "TRAP_DIV_BY_ZERO" "*" "guard the divisor".
Definition ser (l : list InstinctEntry) : option (list byte) :=
  if decide (l = [entry]) then Some [x01] else None.
Definition parse (bs : list byte) : option (list InstinctEntry) :=
  match bs with [x01] => Some [entry] | _ => None end.
#[export] Instance io : InstinctIo :=
  {| inst_serialize := ser; inst_parse := parse; inst_writable _ := true;
     cat_iter c := (map_to_list c).*1; cat_iter_perm c := reflexivity _ |}.
#[export] Instance io_laws : InstinctIoLaws io.
Proof.
  constructor. intros l bytes. change (ser l = Some bytes → parse bytes = Some l). unfold ser.
  case_decide as H; [|done]. intros [= <-]. by rewrite H.
Qed.
Definition empty : InstinctStore := {| cache := ∅; files := ∅ |}.
Definition s1 : InstinctStore := (register empty TrapDivByZero "*" "guard the divisor" 7 100).1.
End ToyInstinct.
#[local] Existing Instances ToyInstinct.io ToyInstinct.io_laws.

