(* ===== verification/Execution.v ===== *)
(** * Execution with snapshot and rollback: the core of [src/hypervisor/mod.rs]

    [execute_tool_inner] composes the other components: authorisation ([Tokens]), the
    adaptive fuel budget ([Fuel]), the sandbox, the runtime snapshot and its rollback
    ([SnapshotManager]), failure classification and advice ([Failure]) and telemetry
    ([Telemetry]); [execute_with_retry] repeats it and credits instincts ([Instinct]).
    The sandbox (wasmtime running guest code) is the interface [Guest].  What one call
    reads from outside (clock, new identifiers, the serialised input, the host's
    health) is the record [Call].  The AEON memory hooks, which are compiled only with
    a feature, are in [AeonExecution], and the proof capsules in [ProofExecution]. *)

From S2P Require Import Prelude Errors Floats UrlGuard Capability Tokens Compression Snapshot Differential.
From S2P Require Import SnapshotManager Fuel Failure Telemetry Instinct.

Record ToolDefinition := {
  name : string;
  wasm_bytes : list byte;
  entry_point : string;
  required_capabilities : list Capability;
}.
Definition ToolDefinition_new (name : string) (wasm_bytes : list byte) : ToolDefinition :=
  {| name := name; wasm_bytes := wasm_bytes; entry_point := "_start"; required_capabilities := [] |}.
Definition with_entry (t : ToolDefinition) (entry : string) : ToolDefinition :=
  {| name := t.(name); wasm_bytes := t.(wasm_bytes); entry_point := entry;
     required_capabilities := t.(required_capabilities) |}.
Definition with_capabilities (t : ToolDefinition) (caps : list Capability) : ToolDefinition :=
  {| name := t.(name); wasm_bytes := t.(wasm_bytes); entry_point := t.(entry_point);
     required_capabilities := caps |}.

Record ToolOutput := {
  out_success : bool;
  out_result : option (list byte);
  out_error : option string;
  rollback_performed : bool;
  out_time_ms : Z;
  out_fuel_consumed : Z;
  error_log : option ErrorLog;
  out_snapshot_id : option Uuid;
}.

(** The fields of the sandbox's [ExecutionResult] that the hypervisor reads. *)
Record ExecutionResult := {
  exec_success : bool;
  return_value : option (list byte);
  fuel_consumed : Z;
  exec_failure : option FailureMode;
  pre_call_memory : option (list byte);
  post_call_globals : option (list GlobalSnapshot);
  post_call_tables : option (list TableSnapshot);
  exec_call_stack : option CapturedCallStack;
}.

Record RestoredExecutionState := { restored_memory : list byte; restored_state : ExecutionState }.
Definition from_rollback (r : RollbackResult) : RestoredExecutionState :=
  {| restored_memory := r.(rb_memory); restored_state := r.(rb_execution_state) |}.

(** Which engine runs the guest: the pool's, or the sandbox with its fuel limit. *)
Inductive Engine := PoolEngine | SandboxEngine (max_fuel : Z).
Inductive ModuleRef := FromBytes (bytes : list byte) | Precompiled (compiled : Z).

Class Guest := {
  guest_run : Engine → ModuleRef → list byte → option RestoredExecutionState → string →
    result ExecutionResult NexusError;
}.

Inductive SnapshotStrategy := Full | Differential.
Inductive RecoveryConfig := RStatic | RLayered | RLayeredInstinct (min_confidence : f32).
Inductive RuntimeSnapshot := RFull (s : Snapshot) | RDiff (id : Uuid).
Definition runtime_id (s : RuntimeSnapshot) : Uuid := match s with RFull s => s.(snap_id) | RDiff id => id end.

Definition wasm_pages_for_bytes (byte_len : Z) : Z := Z.min ((byte_len + 65535) / 65536) U32_MAX.

Section Hypervisor.
Context `{U : UrlLib} `{C : CryptoLib} `{Zs : ZstdLib} `{Hi : HashIter} `{E : SnapEnv} `{Io : InstinctIo} `{G : Guest}.
(** The [Debug] text of a capability. *)
Variable capability_debug : Capability → string.

Record NexusHypervisor := {
  snapshots : SnapshotManager;
  capability_manager : CapabilityManager;
  fuel_policy : FuelBudgetPolicy;
  sandbox_fuel : Z;                 (** [max_fuel] of the sandbox in place *)
  config_fuel : Z;                  (** [config.sandbox_config.max_fuel] *)
  pool : bool;
  snapshot_strategy : SnapshotStrategy;
  recovery_config : RecoveryConfig;
  max_retries : nat;
  current_snapshot : option Snapshot;
  latest_runtime_snapshot : option RuntimeSnapshot;
  last_rollback_memory : option (list byte);
  last_rollback_execution_state : option ExecutionState;
  telemetry : TelemetrySink;
  instinct_store : option InstinctStore;
}.

Record Call := {
  now : Z;
  input_bytes : option (list byte);   (** [serde_json::to_vec(&input)] *)
  sandbox_rebuilds : bool;            (** [WasmSandbox::new] succeeded *)
  new_id : Uuid;
  create_us : Z;
  call_duration_ms : Z;
  host_corruption : option string;
  host_health : HealthStatus;
  resources : ResourceSnapshot;
  new_log_id : string;
}.

(** ** Field updates *)

Definition set_snapshots (h : NexusHypervisor) (m : SnapshotManager) : NexusHypervisor :=
  {| snapshots := m; capability_manager := h.(capability_manager); fuel_policy := h.(fuel_policy);
     sandbox_fuel := h.(sandbox_fuel); config_fuel := h.(config_fuel); pool := h.(pool);
     snapshot_strategy := h.(snapshot_strategy); recovery_config := h.(recovery_config);
     max_retries := h.(max_retries); current_snapshot := h.(current_snapshot);
     latest_runtime_snapshot := h.(latest_runtime_snapshot);
     last_rollback_memory := h.(last_rollback_memory);
     last_rollback_execution_state := h.(last_rollback_execution_state);
     telemetry := h.(telemetry); instinct_store := h.(instinct_store) |}.
Definition set_fuel (h : NexusHypervisor) (p : FuelBudgetPolicy) (sandbox : Z) : NexusHypervisor :=
  {| snapshots := h.(snapshots); capability_manager := h.(capability_manager); fuel_policy := p;
     sandbox_fuel := sandbox; config_fuel := h.(config_fuel); pool := h.(pool);
     snapshot_strategy := h.(snapshot_strategy); recovery_config := h.(recovery_config);
     max_retries := h.(max_retries); current_snapshot := h.(current_snapshot);
     latest_runtime_snapshot := h.(latest_runtime_snapshot);
     last_rollback_memory := h.(last_rollback_memory);
     last_rollback_execution_state := h.(last_rollback_execution_state);
     telemetry := h.(telemetry); instinct_store := h.(instinct_store) |}.
Definition set_latest (h : NexusHypervisor) (cur : option Snapshot) (r : RuntimeSnapshot) : NexusHypervisor :=
  {| snapshots := h.(snapshots); capability_manager := h.(capability_manager); fuel_policy := h.(fuel_policy);
     sandbox_fuel := h.(sandbox_fuel); config_fuel := h.(config_fuel); pool := h.(pool);
     snapshot_strategy := h.(snapshot_strategy); recovery_config := h.(recovery_config);
     max_retries := h.(max_retries); current_snapshot := cur; latest_runtime_snapshot := Some r;
     last_rollback_memory := h.(last_rollback_memory);
     last_rollback_execution_state := h.(last_rollback_execution_state);
     telemetry := h.(telemetry); instinct_store := h.(instinct_store) |}.
Definition cache_rollback_result (h : NexusHypervisor) (r : RollbackResult) : NexusHypervisor :=
  {| snapshots := h.(snapshots); capability_manager := h.(capability_manager); fuel_policy := h.(fuel_policy);
     sandbox_fuel := h.(sandbox_fuel); config_fuel := h.(config_fuel); pool := h.(pool);
     snapshot_strategy := h.(snapshot_strategy); recovery_config := h.(recovery_config);
     max_retries := h.(max_retries); current_snapshot := h.(current_snapshot);
     latest_runtime_snapshot := h.(latest_runtime_snapshot);
     last_rollback_memory := Some r.(rb_memory);
     last_rollback_execution_state := Some r.(rb_execution_state);
     telemetry := h.(telemetry); instinct_store := h.(instinct_store) |}.
Definition set_telemetry (h : NexusHypervisor) (t : TelemetrySink) : NexusHypervisor :=
  {| snapshots := h.(snapshots); capability_manager := h.(capability_manager); fuel_policy := h.(fuel_policy);
     sandbox_fuel := h.(sandbox_fuel); config_fuel := h.(config_fuel); pool := h.(pool);
     snapshot_strategy := h.(snapshot_strategy); recovery_config := h.(recovery_config);
     max_retries := h.(max_retries); current_snapshot := h.(current_snapshot);
     latest_runtime_snapshot := h.(latest_runtime_snapshot);
     last_rollback_memory := h.(last_rollback_memory);
     last_rollback_execution_state := h.(last_rollback_execution_state);
     telemetry := t; instinct_store := h.(instinct_store) |}.
Definition set_instincts (h : NexusHypervisor) (s : InstinctStore) : NexusHypervisor :=
  {| snapshots := h.(snapshots); capability_manager := h.(capability_manager); fuel_policy := h.(fuel_policy);
     sandbox_fuel := h.(sandbox_fuel); config_fuel := h.(config_fuel); pool := h.(pool);
     snapshot_strategy := h.(snapshot_strategy); recovery_config := h.(recovery_config);
     max_retries := h.(max_retries); current_snapshot := h.(current_snapshot);
     latest_runtime_snapshot := h.(latest_runtime_snapshot);
     last_rollback_memory := h.(last_rollback_memory);
     last_rollback_execution_state := h.(last_rollback_execution_state);
     telemetry := h.(telemetry); instinct_store := Some s |}.

(** ** Snapshots of a run *)

Definition create_runtime_snapshot (h : NexusHypervisor) (memory : list byte) (st : ExecutionState)
    (md : SnapshotMetadata) (id : Uuid) (now : DateTime) (el : Z)
  : option (NexusHypervisor * result RuntimeSnapshot NexusError) :=
  match h.(snapshot_strategy), h.(latest_runtime_snapshot) with
  | Differential, Some base =>
      match create_diff_snapshot h.(snapshots) memory (runtime_id base) st md id now el with
      | None => None
      | Some (m, Err e) => Some (set_snapshots h m, Err e)
      | Some (m, Ok (Diff d)) =>
          let r := RDiff d.(diff_id) in Some (set_latest (set_snapshots h m) h.(current_snapshot) r, Ok r)
      | Some (m, Ok (Promoted s)) =>
          let r := RFull s in Some (set_latest (set_snapshots h m) (Some s) r, Ok r)
      end
  | _, _ =>
      match create_snapshot h.(snapshots) memory FilesystemDiff_new st md id now el with
      | (m, Err e) => Some (set_snapshots h m, Err e)
      | (m, Ok s) => let r := RFull s in Some (set_latest (set_snapshots h m) (Some s) r, Ok r)
      end
  end.

Definition rollback_runtime_snapshot (h : NexusHypervisor) (s : RuntimeSnapshot) (now : DateTime)
  : option (NexusHypervisor * result () NexusError) :=
  match (match s with
         | RFull s => Some (rollback_to h.(snapshots) s.(snap_id) now)
         | RDiff id => rollback_to_diff h.(snapshots) id now
         end) with
  | None => None
  | Some (m, Err e) => Some (set_snapshots h m, Err e)
  | Some (m, Ok result) => Some (cache_rollback_result (set_snapshots h m) result, Ok ())
  end.

(** [rollback_snapshot], and [manual_rollback] without its result. *)
Definition rollback_snapshot (h : NexusHypervisor) (id : Uuid) (now : DateTime)
  : option (NexusHypervisor * result RollbackResult NexusError) :=
  match rollback_to h.(snapshots) id now with
  | (m, Ok result) => Some (cache_rollback_result (set_snapshots h m) result, Ok result)
  | (m, Err full_err) =>
      match rollback_to_diff m id now with
      | None => None
      | Some (m, Ok result) => Some (cache_rollback_result (set_snapshots h m) result, Ok result)
      | Some (m, Err diff_err) =>
          Some (set_snapshots h m,
                Err (RollbackFailed (Fmt "snapshot {snapshot_id} was not restorable as a full or differential snapshot (full: {full_err}; diff: {diff_err})"
                       [AOpaque; AOpaque; AOpaque])))
      end
  end.

(** ** One execution *)

Definition recover (h : NexusHypervisor) : RecoveryPolicy :=
  match h.(recovery_config), h.(instinct_store) with
  | RStatic, _ => static_recover
  | RLayered, _ | RLayeredInstinct _, None => layered_recover [static_recover]
  | RLayeredInstinct c, Some store =>
      layered_recover [static_recover; instinct_recover store (with_min_confidence c)]
  end.

(** The budget swap before the call. *)
Definition apply_budget (h : NexusHypervisor) (c : Call) (tool : ToolDefinition) : NexusHypervisor :=
  let tool_budget := budget_for h.(fuel_policy) tool.(name) in
  if h.(pool) then h
  else if tool_budget =? h.(config_fuel) then h
  else if c.(sandbox_rebuilds) then set_fuel h h.(fuel_policy) tool_budget
  else h.

Definition run_guest (h : NexusHypervisor) (tool : ToolDefinition) (input : list byte)
    (precompiled : option Z) (restored : option RestoredExecutionState) : result ExecutionResult NexusError :=
  match precompiled with
  | Some m => guest_run (SandboxEngine h.(sandbox_fuel)) (Precompiled m) input restored tool.(entry_point)
  | None => guest_run (if h.(pool) then PoolEngine else SandboxEngine h.(sandbox_fuel))
              (FromBytes tool.(wasm_bytes)) input restored tool.(entry_point)
  end.

Definition run_metadata (tool : ToolDefinition) (input mem : list byte) : SnapshotMetadata :=
  {| operation_name := tool.(name); input_hash := sha256_hex input; creation_time_us := 0;
     memory_pages := wasm_pages_for_bytes (len mem);
     preconditions := capability_debug <$> tool.(required_capabilities) |}.

(** The reconciliation of the sandbox's and the host's verdicts. *)
Definition classify_run (r : ExecutionResult) (c : Call) : option FailureMode :=
  match r.(exec_failure), c.(host_corruption) with
  | Some mode, _ => Some mode
  | None, Some detail => Some (HostError detail)
  | None, None =>
      if is_healthy c.(host_health) then None
      else Some (HostError ("host health degraded: " +:+ status_category c.(host_health)))
  end.

(** The rollback step of the failure path: whether it was performed. *)
Definition rollback_after (h : NexusHypervisor) (mode : FailureMode) (snap : option RuntimeSnapshot) (now : Z)
  : option (NexusHypervisor * bool) :=
  match snap with
  | Some s =>
      if requires_rollback mode
      then match rollback_runtime_snapshot h s now with
           | None => None
           | Some (h, r) => Some (h, is_ok r)
           end
      else Some (h, false)
  | None => Some (h, false)
  end.

(** From the sandbox's answer to the tool's output. *)
Definition finish_run (h : NexusHypervisor) (c : Call) (tool : ToolDefinition) (r : ExecutionResult)
    (snap : option RuntimeSnapshot) : option (NexusHypervisor * result ToolOutput NexusError) :=
  match classify_run r c with
  | Some mode =>
      let log := ErrorLog_new c.(new_log_id) c.(now) tool.(name) mode c.(resources) in
      let log := with_recovery log (recover h mode tool.(name)) in
      let log := with_patterns log (get_patterns h.(telemetry) tool.(name)) in
      let log := with_call_stack log r.(exec_call_stack) in
      match rollback_after h mode snap c.(now) with
      | None => None
      | Some (h, performed) =>
          let rec := record_of_failure c.(new_log_id) c.(now) tool.(name) log c.(call_duration_ms) r.(fuel_consumed) in
          Some (set_telemetry h (record_failure h.(telemetry) c.(now) rec),
                Ok {| out_success := false; out_result := None; out_error := Some log.(log_description);
                      rollback_performed := performed; out_time_ms := c.(call_duration_ms);
                      out_fuel_consumed := r.(fuel_consumed); error_log := Some log;
                      out_snapshot_id := runtime_id <$> snap |})
      end
  | None =>
      let rec := record_of_success c.(new_log_id) c.(now) tool.(name) c.(call_duration_ms) r.(fuel_consumed) c.(resources) in
      Some (set_telemetry h (record_success h.(telemetry) c.(now) rec),
            Ok {| out_success := true; out_result := r.(return_value); out_error := None;
                  rollback_performed := false; out_time_ms := c.(call_duration_ms);
                  out_fuel_consumed := r.(fuel_consumed); error_log := None;
                  out_snapshot_id := runtime_id <$> snap |})
  end.

(** A tool that requires nothing is not checked. *)
Definition authorize_call (h : NexusHypervisor) (c : Call) (tool : ToolDefinition)
    (tokens : list CapabilityToken) : option (result () NexusError) :=
  match tool.(required_capabilities) with
  | [] => Some (Ok ())
  | _ :: _ => authorize h.(capability_manager) c.(now) tokens tool.(required_capabilities)
  end.

Definition execute_tool_inner (h : NexusHypervisor) (c : Call) (tool : ToolDefinition)
    (caller_tokens : list CapabilityToken) (precompiled : option Z) (restored : option RestoredExecutionState)
  : option (NexusHypervisor * result ToolOutput NexusError) :=
  match authorize_call h c tool caller_tokens with
  | None => None
  | Some (Err e) => Some (h, Err e)
  | Some (Ok _) =>
      match c.(input_bytes) with
      | None => Some (h, Err (SerializationError (Fmt "failed to serialize tool input: {e}" [AOpaque])))
      | Some input =>
          let h := apply_budget h c tool in
          match run_guest h tool input precompiled restored with
          | Err e => Some (h, Err e)
          | Ok r =>
              let h := set_fuel h (record h.(fuel_policy) tool.(name) r.(fuel_consumed)) h.(sandbox_fuel) in
              match r.(pre_call_memory) with
              | None => finish_run h c tool r None
              | Some mem =>
                  let st := {| captured_globals := default [] r.(post_call_globals);
                               captured_tables := default [] r.(post_call_tables) |} in
                  match create_runtime_snapshot h mem st (run_metadata tool input mem)
                          c.(new_id) c.(now) c.(create_us) with
                  | None => None
                  | Some (h, Err e) => Some (h, Err e)
                  | Some (h, Ok snap) => finish_run h c tool r (Some snap)
                  end
              end
          end
      end
  end.

Definition execute_tool (h : NexusHypervisor) (c : Call) (tool : ToolDefinition) :=
  execute_tool_inner h c tool [] None None.
Definition execute_tool_with_tokens (h : NexusHypervisor) (c : Call) (tool : ToolDefinition)
    (tokens : list CapabilityToken) :=
  execute_tool_inner h c tool tokens None None.
Definition execute_tool_precompiled_with_tokens (h : NexusHypervisor) (c : Call) (tool : ToolDefinition)
    (tokens : list CapabilityToken) (m : Z) :=
  execute_tool_inner h c tool tokens (Some m) None.

Definition execute_tool_from_snapshot_with_tokens (h : NexusHypervisor) (c : Call) (snapshot_id : Uuid)
    (tool : ToolDefinition) (tokens : list CapabilityToken)
  : option (NexusHypervisor * result ToolOutput NexusError) :=
  match authorize_call h c tool tokens with
  | None => None
  | Some (Err e) => Some (h, Err e)
  | Some (Ok _) =>
      match rollback_snapshot h snapshot_id c.(now) with
      | None => None
      | Some (h, Err e) => Some (h, Err e)
      | Some (h, Ok rollback) => execute_tool_inner h c tool tokens None (Some (from_rollback rollback))
      end
  end.

(** ** Retrying *)

(** Credit or debit the instincts that the previous attempt proposed. *)
Fixpoint feedback (s : InstinctStore) (now : Z) (success : bool) (ids : list Z) : InstinctStore :=
  match ids with
  | [] => s
  | id :: ids =>
      feedback (if success then store_record_success s id now else store_record_failure s id now).1 now success ids
  end.

Definition proposed (o : ToolOutput) : option (list Z) :=
  (λ log, omap instinct_id log.(recovery_actions)) <$> o.(error_log).

(** The loop, over the calls of the attempts still allowed; [attempt] counts from 0. *)
Fixpoint retry_loop (attempt : nat) (calls : list Call) (h : NexusHypervisor) (tool : ToolDefinition)
    (tokens : list CapabilityToken) (pending : list Z)
  : option (NexusHypervisor * result ToolOutput NexusError) :=
  match calls with
  | [] => Some (h, Ok {| out_success := false; out_result := None; out_error := Some "Max retries exceeded";
                         rollback_performed := false; out_time_ms := 0; out_fuel_consumed := 0;
                         error_log := None; out_snapshot_id := None |})
  | c :: calls =>
      match execute_tool_with_tokens h c tool tokens with
      | None => None
      | Some (h, Ok output) =>
          let credit := negb (attempt =? 0)%nat && negb (bool_decide (pending = [])) in
          let h := match h.(instinct_store) with
                   | Some s => if credit then set_instincts h (feedback s c.(now) output.(out_success) pending) else h
                   | None => h
                   end in
          let pending := if credit then [] else pending in
          if output.(out_success) then Some (h, Ok output)
          else
            let pending := default pending (proposed output) in
            if (attempt =? h.(max_retries))%nat then Some (h, Ok output)
            else retry_loop (S attempt) calls h tool tokens pending
      | Some (h, Err e) =>
          if (attempt =? h.(max_retries))%nat then Some (h, Err e)
          else retry_loop (S attempt) calls h tool tokens pending
      end
  end.

(** [execute_with_retry_with_tokens]; [calls] are the attempts' readings. *)
Definition execute_with_retry_with_tokens (h : NexusHypervisor) (calls : nat → Call) (tool : ToolDefinition)
    (tokens : list CapabilityToken) :=
  retry_loop 0 (calls <$> seq 0 (S h.(max_retries))) h tool tokens [].
End Hypervisor.

(** ** What the steps leave alone *)

Section Frame.
Context `{U : UrlLib} `{C : CryptoLib} `{Zs : ZstdLib} `{Hi : HashIter} `{E : SnapEnv} `{Io : InstinctIo}.

(** The parts of the state that snapshots and rollbacks do not touch. *)
Record same_policy (h h' : NexusHypervisor) : Prop := {
  sp_capabilities : h'.(capability_manager) = h.(capability_manager);
  sp_recovery : h'.(recovery_config) = h.(recovery_config);
  sp_instincts : h'.(instinct_store) = h.(instinct_store);
  sp_retries : h'.(max_retries) = h.(max_retries);
}.

Lemma same_policy_refl h : same_policy h h.
Proof. by constructor. Qed.
Lemma same_policy_trans h1 h2 h3 : same_policy h1 h2 → same_policy h2 h3 → same_policy h1 h3.
Proof. intros [] []. constructor; congruence. Qed.
Lemma recover_same h h' : same_policy h h' → recover h' = recover h.
Proof. intros [_ Hr Hi' _]. unfold recover. by rewrite Hr, Hi'. Qed.

Lemma create_runtime_snapshot_frame h mem st md id now el h' r :
  create_runtime_snapshot h mem st md id now el = Some (h', r) →
  same_policy h h' ∧ h'.(last_rollback_memory) = h.(last_rollback_memory)
  ∧ h'.(last_rollback_execution_state) = h.(last_rollback_execution_state).
Proof.
  unfold create_runtime_snapshot. intros H.
  repeat case_match; simplify_eq; (split; [by constructor|done]).
Qed.

Lemma rollback_runtime_snapshot_frame h s now h' r :
  rollback_runtime_snapshot h s now = Some (h', r) → same_policy h h'.
Proof. unfold rollback_runtime_snapshot. intros H. repeat case_match; simplify_eq; by constructor. Qed.
End Frame.

(** A snapshot just taken of a run rolls back to the memory and state it was given. *)
Lemma runtime_snapshot_rolls_back `{U : UrlLib} `{C : CryptoLib} `{Zs : ZstdLib} `{L : !ZstdLaws Zs}
    `{Hi : HashIter} `{E : SnapEnv} `{Io : InstinctIo}
    k depth persist dir g (h h' : NexusHypervisor) mem st md id now el snap now' :
  depth < U32_MAX → reach (manager_with k depth persist dir) (h.(snapshots), g) →
  g.(g_log) !! id = None → indexable mem →
  create_runtime_snapshot h mem st md id now el = Some (h', Ok snap) →
  ∃ h2, rollback_runtime_snapshot h' snap now' = Some (h2, Ok ())
    ∧ h2.(last_rollback_memory) = Some mem ∧ h2.(last_rollback_execution_state) = Some st.
Proof.
  intros Hd Hr Hf Hix. pose proof (minv_reach _ _ _ _ _ Hd Hr) as Hm. cbn in Hm.
  assert (∀ m s cur, create_snapshot h.(snapshots) mem FilesystemDiff_new st md id now el = (m, Ok s) →
    ∃ h2, rollback_runtime_snapshot (set_latest (set_snapshots h m) cur (RFull s)) (RFull s) now' = Some (h2, Ok ())
      ∧ h2.(last_rollback_memory) = Some mem ∧ h2.(last_rollback_execution_state) = Some st) as Hfull.
  { intros m s cur Hc. destruct (create_then_rollback _ _ _ _ _ _ _ _ _ _ _ now' Hm Hf Hix Hc) as (Hid & r & Hrb & Hmem & Hst).
    unfold rollback_runtime_snapshot. cbn [set_latest set_snapshots snapshots]. rewrite Hid, Hrb.
    eexists. split; [done|]. cbn. by rewrite Hmem, Hst. }
  unfold create_runtime_snapshot. intros Hc.
  destruct (match snapshot_strategy h, latest_runtime_snapshot h with Differential, Some b => Some b | _, _ => None end)
    as [base|] eqn:Hb.
  - assert (snapshot_strategy h = Differential ∧ latest_runtime_snapshot h = Some base) as [Hs Hl]
      by (destruct (snapshot_strategy h), (latest_runtime_snapshot h); naive_solver).
    rewrite Hs, Hl in Hc.
    destruct (create_diff_snapshot _ _ _ _ _ _ _ _) as [[m [[d|s]|e]]|] eqn:Ed; simplify_eq.
    + destruct (create_diff_then_rollback k depth persist dir _ _ g mem _ id st md now el now' d Hd Hr Hf Hix Ed)
        as (r & Hrb & Hmem & Hst).
      assert (diff_id d = id) as Hid.
      { revert Ed. unfold create_diff_snapshot. destruct (promotes _ _).
        { destruct (create_snapshot _ _ _ _ _ _ _) as [? []]; done. }
        destruct (reconstruct_memory_for _ _) as [[bm|e]|]; [|done|done].
        destruct (diff_new _ _ _ _ _ _ _ _) as [d'|e] eqn:En; [|done]. intros [= _ <-].
        unfold diff_new in En. by apply result_bind_Ok in En as (? & _ & [= <-]). }
      unfold rollback_runtime_snapshot. cbn [set_latest set_snapshots snapshots]. rewrite Hid, Hrb.
      eexists. split; [done|]. cbn. by rewrite Hmem, Hst.
    + apply Hfull. revert Ed. unfold create_diff_snapshot. destruct (promotes _ _).
      * destruct (create_snapshot _ _ _ _ _ _ _) as [? [|]]; naive_solver.
      * destruct (reconstruct_memory_for _ _) as [[bm|e]|]; [|done|done].
        destruct (diff_new _ _ _ _ _ _ _ _); done.
  - assert (∃ m s, create_snapshot h.(snapshots) mem FilesystemDiff_new st md id now el = (m, Ok s)
      ∧ h' = set_latest (set_snapshots h m) (Some s) (RFull s) ∧ snap = RFull s) as (m & s & Hcs & -> & ->).
    { destruct (snapshot_strategy h), (latest_runtime_snapshot h); try done;
        destruct (create_snapshot _ _ _ _ _ _ _) as [m [s|e]]; simplify_eq; eauto. }
    by apply Hfull.
Qed.

(** ** What one execution returns *)

(** The answer that the reconciled verdict on a run [r] calls for. *)
Definition run_outcome `{U : UrlLib} `{C : CryptoLib} `{Io : InstinctIo} (h h' : NexusHypervisor) (c : Call)
    (tool : ToolDefinition) (r : ExecutionResult) (out : ToolOutput) : Prop :=
  match classify_run r c with
  | None =>
      out.(out_success) = true ∧ out.(out_result) = r.(return_value) ∧ out.(out_error) = None
      ∧ out.(error_log) = None
  | Some mode =>
      out.(out_success) = false ∧ out.(out_result) = None ∧ out.(out_error) = Some (describe mode)
      ∧ ∃ log, out.(error_log) = Some log ∧ log.(failure_mode) = mode
          ∧ log.(recovery_actions) = recover h mode tool.(name)
          ∧ log.(call_stack) = r.(exec_call_stack)
  end
  ∧ match classify_run r c, r.(pre_call_memory) with
    | Some mode, Some mem =>
        if requires_rollback mode
        then out.(rollback_performed) = true ∧ h'.(last_rollback_memory) = Some mem
             ∧ h'.(last_rollback_execution_state)
               = Some {| captured_globals := default [] r.(post_call_globals);
                         captured_tables := default [] r.(post_call_tables) |}
        else out.(rollback_performed) = false ∧ h'.(last_rollback_memory) = h.(last_rollback_memory)
    | _, _ => out.(rollback_performed) = false ∧ h'.(last_rollback_memory) = h.(last_rollback_memory)
    end.

Section Outcome.
Context `{U : UrlLib} `{C : CryptoLib} `{Zs : ZstdLib} `{Hi : HashIter} `{E : SnapEnv} `{Io : InstinctIo} `{G : Guest}.

Lemma run_outcome_same h1 h2 h' c tool r out :
  same_policy h1 h2 → h2.(last_rollback_memory) = h1.(last_rollback_memory) →
  run_outcome h2 h' c tool r out → run_outcome h1 h' c tool r out.
Proof using Type.
  intros Hsp Hl. unfold run_outcome. by rewrite (recover_same _ _ Hsp), Hl.
Qed.

(** Without a snapshot nothing is rolled back. *)
Lemma finish_run_no_snapshot h c tool r :
  r.(pre_call_memory) = None →
  ∃ h' out, finish_run h c tool r None = Some (h', Ok out) ∧ run_outcome h h' c tool r out.
Proof using Type.
  intros Hp. unfold finish_run, run_outcome, rollback_after. rewrite Hp.
  destruct (classify_run r c) as [mode|]; (eexists _, _; split; [reflexivity|]); cbn; [|done].
  split; [|done]. repeat split. by eexists.
Qed.

(** With a snapshot that rolls back to the run's memory. *)
Lemma finish_run_snapshot h c tool r mem snap :
  r.(pre_call_memory) = Some mem →
  (∃ h2, rollback_runtime_snapshot h snap c.(now) = Some (h2, Ok ())
     ∧ h2.(last_rollback_memory) = Some mem
     ∧ h2.(last_rollback_execution_state)
       = Some {| captured_globals := default [] r.(post_call_globals);
                 captured_tables := default [] r.(post_call_tables) |}) →
  ∃ h' out, finish_run h c tool r (Some snap) = Some (h', Ok out) ∧ run_outcome h h' c tool r out.
Proof using Type.
  intros Hp (h2 & Hrb & Hmem & Hst). unfold finish_run, run_outcome, rollback_after. rewrite Hp.
  destruct (classify_run r c) as [mode|]; [|eexists _, _; split; [reflexivity|]; done].
  destruct (requires_rollback mode); [rewrite Hrb|];
    (eexists _, _; split; [reflexivity|]); cbn; (split; [repeat split; by eexists|]); [|done].
  by rewrite Hmem, Hst.
Qed.
End Outcome.

(** Taking a snapshot always answers. *)
Lemma create_runtime_snapshot_total `{U : UrlLib} `{C : CryptoLib} `{Zs : ZstdLib} `{L : !ZstdLaws Zs}
    `{Hi : HashIter} `{E : SnapEnv} `{Io : InstinctIo} g (h : NexusHypervisor) mem st md id now el :
  minv h.(snapshots) g → is_Some (create_runtime_snapshot h mem st md id now el).
Proof.
  intros Hm. unfold create_runtime_snapshot.
  assert (∀ b, is_Some (create_diff_snapshot h.(snapshots) mem b st md id now el)) as Hd.
  { intros b. unfold create_diff_snapshot. destruct (promotes _ _).
    { destruct (create_snapshot _ _ _ _ _ _ _) as [? [|]]; by eexists. }
    destruct (reconstruct_spec _ _ b Hm) as [(bm & -> & _)|(e & -> & _)]; [|by eexists].
    destruct (diff_new _ _ _ _ _ _ _ _); by eexists. }
  destruct (snapshot_strategy h), (latest_runtime_snapshot h) as [b|];
    try (destruct (create_snapshot _ _ _ _ _ _ _) as [? [|]]; by eexists).
  destruct (Hd (runtime_id b)) as [[m [[|]|]] ->]; by eexists.
Qed.

(** ** Reachable hypervisors *)

(** The snapshot manager came from [start] by its own operations (the ghost [g] logs
    them), and the capability manager is one that issued its own tokens. *)
Definition hv_reach `{U : UrlLib} `{C : CryptoLib} `{Zs : ZstdLib} `{Hi : HashIter} `{E : SnapEnv} `{Io : InstinctIo}
    (start : SnapshotManager) (h : NexusHypervisor) (g : Ghost) : Prop :=
  reach start (h.(snapshots), g) ∧ manager_ok h.(capability_manager).

Section Reach.
Context `{U : UrlLib} `{C : CryptoLib} `{CL : !CryptoLaws C} `{Zs : ZstdLib} `{L : !ZstdLaws Zs} `{Hi : HashIter}
  `{E : SnapEnv} `{Io : InstinctIo} `{G : Guest}.
Variable start : SnapshotManager.

Lemma authorize_call_spec (h : NexusHypervisor) c tool tokens :
  manager_ok h.(capability_manager) → (∀ t, t ∈ tokens → 0 ≤ t.(tok_chain_depth)) →
  (authorize_call h c tool tokens = Some (Ok ()) ↔
   ∀ cap, cap ∈ tool.(required_capabilities) →
     ∃ t, t ∈ tokens ∧ valid_for h.(capability_manager) c.(now) t cap)
  ∧ is_Some (authorize_call h c tool tokens).
Proof using CL.
  intros Hok Ht. pose proof (authorize_spec _ c.(now) tokens tool.(required_capabilities) Hok Ht) as Ha.
  revert Ha. unfold authorize_call. by destruct (required_capabilities tool).
Qed.

Lemma create_runtime_snapshot_reach (h h' : NexusHypervisor) g mem st md id now el r :
  hv_reach start h g → g.(g_log) !! id = None → indexable mem →
  create_runtime_snapshot h mem st md id now el = Some (h', r) →
  ∃ g', hv_reach start h' g' ∧ g'.(g_log) = <[id := mem]> g.(g_log).
Proof using Type.
  intros [Hr Hm] Hf Hix.
  destruct (create_snapshot h.(snapshots) mem FilesystemDiff_new st md id now el) as [mf rf] eqn:Ef.
  pose proof (reach_step _ _ _ Hr (ms_create _ _ _ _ _ _ _ _ _ _ _ Hf Hix Ef)) as Hfull.
  unfold create_runtime_snapshot. rewrite Ef.
  destruct (snapshot_strategy h), (latest_runtime_snapshot h) as [b|];
    try (destruct rf; intros [= <- <-]; by eexists).
  destruct (create_diff_snapshot _ _ _ _ _ _ _ _) as [[m rd]|] eqn:Ed; [|done].
  pose proof (reach_step _ _ _ Hr (ms_diff _ _ _ _ _ _ _ _ _ _ _ Hf Hix Ed)) as Hdiff.
  destruct (promotes _ _), rd as [[d|s]|e]; intros [= <- <-]; by eexists.
Qed.

Lemma rollback_runtime_snapshot_reach (h h' : NexusHypervisor) g s now r :
  hv_reach start h g → rollback_runtime_snapshot h s now = Some (h', r) → hv_reach start h' g.
Proof using Type.
  intros [Hr Hm]. unfold rollback_runtime_snapshot. destruct s as [s|id].
  - destruct (rollback_to _ _ _) as [m [|]] eqn:Er; intros [= <- <-]; (split; [|done]);
      eapply reach_step; [exact Hr|by eapply ms_rollback|exact Hr|by eapply ms_rollback].
  - destruct (rollback_to_diff _ _ _) as [[m [|]]|] eqn:Er; intros [= <- <-]; (split; [|done]);
      eapply reach_step; [exact Hr|by eapply ms_rollback_diff|exact Hr|by eapply ms_rollback_diff].
Qed.

Lemma finish_run_fuel (h h' : NexusHypervisor) c tool r snap out :
  finish_run h c tool r snap = Some (h', Ok out) → out.(out_fuel_consumed) = r.(fuel_consumed).
Proof using Type. unfold finish_run. intros H. repeat case_match; by simplify_eq. Qed.

Lemma finish_run_frame (h h' : NexusHypervisor) c tool r snap res :
  finish_run h c tool r snap = Some (h', res) → same_policy h h'.
Proof using Type.
  unfold finish_run, rollback_after. intros H. repeat case_match; simplify_eq; try by constructor.
  all: by match goal with Hb : rollback_runtime_snapshot _ _ _ = _ |- _ =>
    destruct (rollback_runtime_snapshot_frame _ _ _ _ _ Hb); constructor end.
Qed.

Lemma finish_run_reach (h h' : NexusHypervisor) g c tool r snap res :
  hv_reach start h g → finish_run h c tool r snap = Some (h', res) → hv_reach start h' g.
Proof using Type.
  intros Hh. unfold finish_run, rollback_after. intros H.
  repeat case_match; simplify_eq; try done.
  by eapply rollback_runtime_snapshot_reach in Hh; [|eassumption].
Qed.
End Reach.

(** ** The properties *)

Section Theorems.
Context `{U : UrlLib} `{C : CryptoLib} `{CL : !CryptoLaws C} `{Zs : ZstdLib} `{L : !ZstdLaws Zs} `{Hi : HashIter}
  `{E : SnapEnv} `{Io : InstinctIo} `{G : Guest}.

(** The state after the budget swap and the fuel record of a run. *)
Definition after_run (h : NexusHypervisor) (c : Call) (tool : ToolDefinition) (r : ExecutionResult) : NexusHypervisor :=
  let h := apply_budget h c tool in
  set_fuel h (record h.(fuel_policy) tool.(name) r.(fuel_consumed)) h.(sandbox_fuel).

Lemma apply_budget_frame h c tool :
  same_policy h (apply_budget h c tool) ∧ (apply_budget h c tool).(snapshots) = h.(snapshots)
  ∧ (apply_budget h c tool).(last_rollback_memory) = h.(last_rollback_memory).
Proof using Type.
  unfold apply_budget. destruct (pool h); [by repeat split|]. destruct (_ =? _); [by repeat split|].
  destruct (sandbox_rebuilds c); by repeat split.
Qed.
Lemma after_run_frame h c tool r :
  same_policy h (after_run h c tool r)
  ∧ (after_run h c tool r).(last_rollback_memory) = h.(last_rollback_memory)
  ∧ (after_run h c tool r).(snapshots) = h.(snapshots).
Proof using Type.
  destruct (apply_budget_frame h c tool) as ([] & ? & ?). unfold after_run. by repeat split.
Qed.

(** The log of memories only grows, by the call's own identifier. *)
Definition log_extends (g g' : Ghost) (id : Uuid) : Prop :=
  g'.(g_log) = g.(g_log) ∨ ∃ mem, g'.(g_log) = <[id := mem]> g.(g_log).

(** One call in a reachable state answers, whatever the authority and the guest do; with
    [Some r] an authorised run of the guest answered [r]. *)
Definition run_of (h : NexusHypervisor) (c : Call) (tool : ToolDefinition) (tokens : list CapabilityToken)
    (pre : option Z) (restored : option RestoredExecutionState) : option (list byte * ExecutionResult) :=
  match authorize_call h c tool tokens, c.(input_bytes) with
  | Some (Ok _), Some input =>
      match run_guest (apply_budget h c tool) tool input pre restored with
      | Ok r => Some (input, r)
      | Err _ => None
      end
  | _, _ => None
  end.

Lemma execute_step (dbg : Capability → string) k depth persist dir h g c tool tokens pre restored :
  depth < U32_MAX → hv_reach (manager_with k depth persist dir) h g → g.(g_log) !! c.(new_id) = None →
  (∀ t, t ∈ tokens → 0 ≤ t.(tok_chain_depth)) →
  (∀ input r mem, run_of h c tool tokens pre restored = Some (input, r) →
     r.(pre_call_memory) = Some mem → indexable mem) →
  ∃ h' res, execute_tool_inner dbg h c tool tokens pre restored = Some (h', res)
    ∧ (∃ g', hv_reach (manager_with k depth persist dir) h' g' ∧ log_extends g g' c.(new_id))
    ∧ same_policy h h'
    ∧ match run_of h c tool tokens pre restored with
      | None => is_ok res = false
      | Some (input, r) =>
          match res with
          | Ok out => run_outcome h h' c tool r out ∧ out.(out_fuel_consumed) = r.(fuel_consumed)
          | Err e => ∃ mem st, r.(pre_call_memory) = Some mem
              ∧ create_runtime_snapshot (after_run h c tool r) mem st (run_metadata dbg tool input mem)
                  c.(new_id) c.(now) c.(create_us) = Some (h', Err e)
          end
      end.
Proof using CL L.
  intros Hd [Hr Hcm] Hf Htok. unfold run_of, execute_tool_inner.
  destruct (authorize_call_spec h c tool tokens Hcm Htok) as [_ [[[]|e] ->]].
  2:{ intros _. exists h, (Err e). split_and!; [done| |by constructor|done]. exists g. split; [done|by left]. }
  assert (∀ h1 e, same_policy h h1 → h1.(snapshots) = h.(snapshots) →
    ∃ h' (res : result ToolOutput NexusError), Some (h1, Err e) = Some (h', res)
    ∧ (∃ g', hv_reach (manager_with k depth persist dir) h' g' ∧ log_extends g g' c.(new_id))
    ∧ same_policy h h' ∧ is_ok res = false) as Herr.
  { intros h1 e Hsp Hs. exists h1, (Err e). split_and!; [done| |done|done]. exists g.
    split; [|by left]. split; [by rewrite Hs|by rewrite (sp_capabilities _ _ Hsp)]. }
  destruct (input_bytes c) as [input|]; [|intros _; apply Herr; [apply same_policy_refl|done]].
  destruct (run_guest _ _ _ _ _) as [r|e] eqn:Hrun; [|intros _; apply Herr].
  2:{ apply apply_budget_frame. }
  2:{ apply apply_budget_frame. }
  intros Hix. specialize (λ mem, Hix input r mem eq_refl).
  destruct (after_run_frame h c tool r) as (Hsp & Hlast & Hsn). fold (after_run h c tool r).
  set (h1 := after_run h c tool r) in *.
  assert (hv_reach (manager_with k depth persist dir) h1 g) as Hh1
    by (split; [by rewrite Hsn|by rewrite (sp_capabilities _ _ Hsp)]).
  destruct (pre_call_memory r) as [mem|] eqn:Hp.
  - set (st := {| captured_globals := _ |}).
    destruct (create_runtime_snapshot_total g h1 mem st (run_metadata dbg tool input mem) c.(new_id) c.(now) c.(create_us))
      as [[h2 res] Hc]; [by eapply (minv_reach _ _ _ _ (_, _)); [|apply Hh1]|].
    destruct (create_runtime_snapshot_reach _ _ _ _ _ _ _ _ _ _ _ Hh1 Hf (Hix _ eq_refl) Hc) as (g2 & Hh2 & Hg2).
    destruct (create_runtime_snapshot_frame _ _ _ _ _ _ _ _ _ Hc) as (Hsp2 & Hl2 & _).
    assert (log_extends g g2 c.(new_id)) as Hlog by (right; by exists mem).
    pose proof (same_policy_trans _ _ _ Hsp Hsp2) as Hsp12.
    rewrite Hc. destruct res as [snap|e].
    2:{ exists h2, (Err e). split; [done|]. split; [by exists g2|]. split; [done|]. by exists mem, st. }
    pose proof (runtime_snapshot_rolls_back _ _ _ _ _ _ _ _ _ _ _ _ _ _ c.(now) Hd (proj1 Hh1) Hf (Hix _ eq_refl) Hc) as Hrb.
    destruct (finish_run_snapshot h2 c tool r mem snap Hp Hrb) as (h3 & out & Hfin & Hout).
    exists h3, (Ok out). split; [done|]. split; [exists g2; split; [by eapply finish_run_reach|done]|].
    split; [by eapply same_policy_trans; [|eapply finish_run_frame]|]. split; [|by eapply finish_run_fuel].
    eapply run_outcome_same; [done|by rewrite Hl2|done].
  - destruct (finish_run_no_snapshot h1 c tool r Hp) as (h3 & out & Hfin & Hout).
    exists h3, (Ok out). split; [done|]. split; [exists g; split; [by eapply finish_run_reach|by left]|].
    split; [by eapply same_policy_trans; [|eapply finish_run_frame]|].
    split; [by eapply run_outcome_same|by eapply finish_run_fuel].
Qed.

Lemma run_of_guest h c tool tokens pre restored input r :
  run_of h c tool tokens pre restored = Some (input, r) →
  ∃ e m i s n, guest_run e m i s n = Ok r.
Proof using Type.
  unfold run_of, run_guest. intros H. repeat case_match; simplify_eq; by eauto 10.
Qed.

(** What a sequence of attempts amounts to: the first success or the last attempt
    answers; between attempts only the instincts may change. *)
Definition credited (h h' : NexusHypervisor) : Prop :=
  h' = h ∨ ∃ s s', h.(instinct_store) = Some s ∧ h' = set_instincts h s'.
Definition succeeded_with (res : result ToolOutput NexusError) : bool :=
  match res with Ok out => out.(out_success) | Err _ => false end.
Inductive attempts (dbg : Capability → string) (tool : ToolDefinition) (tokens : list CapabilityToken) :
    NexusHypervisor → list Call → NexusHypervisor → result ToolOutput NexusError → Prop :=
| attempts_done h c calls h1 h2 res :
    execute_tool_with_tokens dbg h c tool tokens = Some (h1, res) → credited h1 h2 →
    succeeded_with res = true ∨ calls = [] → attempts dbg tool tokens h (c :: calls) h2 res
| attempts_again h c calls h1 h2 res1 h' res :
    execute_tool_with_tokens dbg h c tool tokens = Some (h1, res1) → credited h1 h2 →
    succeeded_with res1 = false → attempts dbg tool tokens h2 calls h' res →
    attempts dbg tool tokens h (c :: calls) h' res.

Lemma credited_reach start (h h' : NexusHypervisor) g :
  credited h h' → hv_reach start h g → hv_reach start h' g ∧ h'.(max_retries) = h.(max_retries).
Proof using Type. intros Hc [Hr Hm]. destruct Hc as [->|(s & s' & _ & ->)]; done. Qed.

Lemma retry_loop_attempts (dbg : Capability → string) k depth persist dir tool tokens calls :
  depth < U32_MAX → (∀ t, t ∈ tokens → 0 ≤ t.(tok_chain_depth)) →
  (∀ e m input restored entry r mem, guest_run e m input restored entry = Ok r →
     r.(pre_call_memory) = Some mem → indexable mem) →
  ∀ attempt h g pending,
    hv_reach (manager_with k depth persist dir) h g → NoDup (new_id <$> calls) →
    (∀ c, c ∈ calls → g.(g_log) !! c.(new_id) = None) →
    calls ≠ [] → (attempt + length calls)%nat = S h.(max_retries) →
    ∃ h' res, retry_loop dbg attempt calls h tool tokens pending = Some (h', res)
      ∧ attempts dbg tool tokens h calls h' res.
Proof using CL L.
  intros Hd Htok Hguest. induction calls as [|c calls IH]; [done|].
  intros attempt h g pending Hh Hnd Hlog _ Hlen. cbn [length] in Hlen.
  destruct (execute_step dbg k depth persist dir h g c tool tokens None None Hd Hh (Hlog c ltac:(left)) Htok)
    as (h1 & res & Hex & (g1 & Hg1 & Hext) & Hsp & _);
    [|change (execute_tool_with_tokens dbg h c tool tokens = Some (h1, res)) in Hex].
  { intros input r mem Hof. apply run_of_guest in Hof as (e & m & i & s & n & Hr). by eapply Hguest. }
  cbn [fmap list_fmap] in Hnd. apply NoDup_cons in Hnd as [Hnin Hnd].
  assert (∀ c', c' ∈ calls → g1.(g_log) !! c'.(new_id) = None) as Hlog1.
  { intros c' Hc'. assert (c'.(new_id) ≠ c.(new_id)) as Hne by (intros Heq; apply Hnin; rewrite <- Heq; by apply list_elem_of_fmap_2).
    destruct Hext as [->|[mem ->]]; [|rewrite lookup_insert_ne by done]; apply Hlog; by right. }
  assert ((attempt =? h1.(max_retries))%nat = bool_decide (calls = [])) as Hlast.
  { rewrite (sp_retries _ _ Hsp). destruct calls; cbn in Hlen |- *; [apply Nat.eqb_eq; lia|apply Nat.eqb_neq; lia]. }
  assert (∀ h2 res2 pending', credited h1 h2 → res2 = res → succeeded_with res = false →
    ∃ h' r, (if bool_decide (calls = []) then Some (h2, res2)
             else retry_loop dbg (S attempt) calls h2 tool tokens pending') = Some (h', r)
      ∧ attempts dbg tool tokens h (c :: calls) h' r) as Hnext.
  { intros h2 res2 pending' Hcr -> Hf. case_bool_decide as Hnil.
    { eexists _, _. split; [done|]. by eapply attempts_done; [| |right]. }
    destruct (credited_reach _ _ _ _ Hcr Hg1) as [Hg2 Hm2].
    destruct (IH (S attempt) h2 g1 pending' Hg2 Hnd Hlog1 Hnil) as (h' & r & Hloop & Hatt).
    { rewrite Hm2, (sp_retries _ _ Hsp). lia. }
    exists h', r. split; [done|]. by eapply attempts_again. }
  cbn [retry_loop]. rewrite Hex. destruct res as [out|e].
  2:{ rewrite Hlast. apply Hnext; [by left|done|done]. }
  set (credit := _ && _). set (h2 := match instinct_store h1 with Some _ => _ | None => _ end).
  assert (credited h1 h2 ∧ h2.(max_retries) = h1.(max_retries)) as [Hcr Hm2].
  { subst h2. destruct (instinct_store h1) as [s|] eqn:Es; [|by split; [left|]].
    destruct credit; [|by split; [left|]]. split; [right; by eexists s, _|done]. }
  destruct (out_success out) eqn:Hs.
  { exists h2, (Ok out). split; [done|]. by eapply attempts_done; [| |left]. }
  rewrite Hm2, Hlast. by apply Hnext.
Qed.

(** C1: in every reachable state, an authorised execution whose guest run answers [r]
    returns, and leaves a reachable state behind.  It returns an error only if the
    pre-call memory could not be snapshotted.  Otherwise the reconciled verdict on [r]
    decides the answer: without a failure the guest's value is returned and nothing is
    rolled back; with failure mode [mode] the output carries the description of [mode],
    an error log with the policy's advice for it, and, exactly when the pre-call memory
    is known and [mode] requires it, the state has been rolled back to that memory. *)
Theorem execution_outcome (dbg : Capability → string) (k : nat) (depth : Z) (persist : bool) (dir : option string)
    (h : NexusHypervisor) (g : Ghost) (c : Call) (tool : ToolDefinition) (tokens : list CapabilityToken)
    (pre : option Z) (restored : option RestoredExecutionState) (input : list byte) (r : ExecutionResult) :
  depth < U32_MAX → hv_reach (manager_with k depth persist dir) h g → g.(g_log) !! c.(new_id) = None →
  (∀ t, t ∈ tokens → 0 ≤ t.(tok_chain_depth)) →
  (∀ cap, cap ∈ tool.(required_capabilities) →
     ∃ t, t ∈ tokens ∧ valid_for h.(capability_manager) c.(now) t cap) →
  c.(input_bytes) = Some input →
  run_guest (apply_budget h c tool) tool input pre restored = Ok r →
  (∀ mem, r.(pre_call_memory) = Some mem → indexable mem) →
  ∃ h' res, execute_tool_inner dbg h c tool tokens pre restored = Some (h', res)
    ∧ (∃ g', hv_reach (manager_with k depth persist dir) h' g')
    ∧ match res with
      | Ok out => run_outcome h h' c tool r out ∧ out.(out_fuel_consumed) = r.(fuel_consumed)
      | Err e => ∃ mem st, r.(pre_call_memory) = Some mem
          ∧ create_runtime_snapshot (after_run h c tool r) mem st (run_metadata dbg tool input mem)
              c.(new_id) c.(now) c.(create_us) = Some (h', Err e)
      end.
Proof using CL L.
  intros Hd Hh Hf Htok Hauth Hin Hrun Hix.
  destruct (authorize_call_spec h c tool tokens (proj2 Hh) Htok) as [Ha _].
  assert (run_of h c tool tokens pre restored = Some (input, r)) as Hof
    by (unfold run_of; by rewrite (proj2 Ha Hauth), Hin, Hrun).
  destruct (execute_step dbg k depth persist dir h g c tool tokens pre restored Hd Hh Hf Htok)
    as (h' & res & Hex & (g' & Hg' & _) & _ & Hres).
  { intros input' r' mem Hof'. rewrite Hof in Hof'. injection Hof' as <- <-. apply Hix. }
  rewrite Hof in Hres. by eauto 10.
Qed.

(** C2: no execution runs without authority: when an entry point changes the hypervisor
    or produces an output, every capability that the tool requires is granted by one of
    the caller's tokens that is valid at that time. *)
Theorem runs_only_with_authority (dbg : Capability → string) (h h' : NexusHypervisor) (c : Call) (tool : ToolDefinition)
    (tokens : list CapabilityToken) (pre : option Z) (restored : option RestoredExecutionState) (id : Uuid)
    (res : result ToolOutput NexusError) :
  manager_ok h.(capability_manager) → (∀ t, t ∈ tokens → 0 ≤ t.(tok_chain_depth)) →
  execute_tool_inner dbg h c tool tokens pre restored = Some (h', res)
  ∨ execute_tool_from_snapshot_with_tokens dbg h c id tool tokens = Some (h', res) →
  h' ≠ h ∨ is_ok res = true →
  ∀ cap, cap ∈ tool.(required_capabilities) →
    ∃ t, t ∈ tokens ∧ valid_for h.(capability_manager) c.(now) t cap.
Proof using CL.
  intros Hm Ht Hex Hch. destruct (authorize_call_spec h c tool tokens Hm Ht) as [Ha [[[]|e] Hs]].
  { by apply Ha. }
  exfalso. assert (h' = h ∧ res = Err e) as [-> ->]
    by (destruct Hex as [Hx|Hx]; revert Hx; unfold execute_tool_inner, execute_tool_from_snapshot_with_tokens;
        rewrite Hs; by intros [= <- <-]).
  by destruct Hch.
Qed.

(** Retrying answers.  With fresh identifiers and a guest whose memories are
    addressable, [execute_with_retry] runs at most [max_retries + 1] attempts and
    returns the answer of one of them: the first success, or the last attempt when all
    before it failed.  Between attempts nothing but the attached instinct store changes. *)
Theorem retry_answers (dbg : Capability → string) (k : nat) (depth : Z) (persist : bool) (dir : option string)
    (h : NexusHypervisor) (g : Ghost) (calls : nat → Call) (tool : ToolDefinition) (tokens : list CapabilityToken) :
  depth < U32_MAX → hv_reach (manager_with k depth persist dir) h g →
  (∀ t, t ∈ tokens → 0 ≤ t.(tok_chain_depth)) →
  (∀ i, g.(g_log) !! (calls i).(new_id) = None) → (∀ i j, (calls i).(new_id) = (calls j).(new_id) → i = j) →
  (∀ e m input restored entry r mem, guest_run e m input restored entry = Ok r →
     r.(pre_call_memory) = Some mem → indexable mem) →
  ∃ h' res, execute_with_retry_with_tokens dbg h calls tool tokens = Some (h', res)
    ∧ attempts dbg tool tokens h (calls <$> seq 0 (S h.(max_retries))) h' res.
Proof using CL L.
  intros Hd Hh Htok Hlog Hinj Hguest. unfold execute_with_retry_with_tokens.
  eapply retry_loop_attempts; [done..| | |done|by rewrite length_fmap, length_seq].
  - rewrite <- list_fmap_compose. apply NoDup_fmap_2_strong; [|apply NoDup_ListNoDup, seq_NoDup]. intros i j _ _. apply Hinj.
  - intros c Hc. apply list_elem_of_fmap in Hc as (i & -> & _). apply Hlog.
Qed.

(** The per-tool fuel budget leaks into the next tool's run.  The swap compares the
    tool's budget with the configured one, not with the sandbox in place: after a run of
    a tool whose learned budget differs from the configured one, a tool whose budget is
    the configured one still runs with the first tool's budget. *)
Theorem fuel_budget_leaks (h : NexusHypervisor) (c1 c2 : Call) (a b : ToolDefinition) (r : ExecutionResult)
    (input : list byte) :
  h.(pool) = false → a.(name) ≠ b.(name) → c1.(sandbox_rebuilds) = true →
  budget_for h.(fuel_policy) a.(name) ≠ h.(config_fuel) →
  budget_for h.(fuel_policy) b.(name) = h.(config_fuel) →
  let h1 := after_run h c1 a r in
  budget_for h1.(fuel_policy) b.(name) = h1.(config_fuel)
  ∧ run_guest (apply_budget h1 c2 b) b input None None
    = guest_run (SandboxEngine (budget_for h.(fuel_policy) a.(name))) (FromBytes b.(wasm_bytes)) input None b.(entry_point).
Proof using Type.
  intros Hp Hab Hc Ha Hb h1. apply Z.eqb_neq in Ha.
  assert (h1.(fuel_policy) = record h.(fuel_policy) a.(name) r.(fuel_consumed)
    ∧ h1.(config_fuel) = h.(config_fuel) ∧ h1.(pool) = false
    ∧ h1.(sandbox_fuel) = budget_for h.(fuel_policy) a.(name)) as (Hpol & Hcfg & Hpool & Hsand).
  { subst h1. unfold after_run, apply_budget. by rewrite Hp, Ha, Hc. }
  assert (budget_for h1.(fuel_policy) b.(name) = h1.(config_fuel)) as Hb1.
  { rewrite Hpol, Hcfg, <- Hb. unfold budget_for, record. cbn [profiles]. by rewrite lookup_insert_ne. }
  split; [done|]. unfold apply_budget, run_guest.
  rewrite Hpool, Hb1, Z.eqb_refl, Hpool, Hsand. done.
Qed.

End Theorems.

(** ** A concrete hypervisor *)

Module ToyExec.
#[local] Existing Instances Tokens.Toy.crypto Tokens.Toy.crypto_laws Tokens.Toy.url ToyZstd.zstd ToyZstd.zstd_laws
  ToySnap.env ToyInstinct.io.

(** A guest whose entry point ["crash"] divides by zero. *)
Definition run (entry : string) : ExecutionResult :=
  {| exec_success := negb (bool_decide (entry = "crash"));
     return_value := if decide (entry = "crash") then None else Some [x05]; fuel_consumed := 10;
     exec_failure := if decide (entry = "crash") then Some TrapDivByZero else None;
     pre_call_memory := Some (toy_mem x01); post_call_globals := None; post_call_tables := None;
     exec_call_stack := None |}.
#[export] Instance guest : Guest := {| guest_run _ _ _ _ entry := Ok (run entry) |}.

Definition policy (n : nat) : FuelBudgetPolicy :=
  Nat.iter n (λ p, record p "a" 200000) (policy_new 1000000).
Definition hv (n : nat) : NexusHypervisor :=
  {| snapshots := toy_m0; capability_manager := Tokens.Toy.m2; fuel_policy := policy n;
     sandbox_fuel := 1000000; config_fuel := 1000000; pool := false;
     snapshot_strategy := Differential; recovery_config := RStatic; max_retries := 2;
     current_snapshot := None; latest_runtime_snapshot := None; last_rollback_memory := None;
     last_rollback_execution_state := None; telemetry := TelemetrySink_new 5; instinct_store := None |}.
Definition call (id : Uuid) : Call :=
  {| now := 50; input_bytes := Some [x01]; sandbox_rebuilds := true; new_id := id; create_us := 3;
     call_duration_ms := 4; host_corruption := None; host_health := Healthy; resources := ToyRuns.resources;
     new_log_id := "log" |}.
Definition crash : ToolDefinition :=
  with_capabilities (with_entry (ToolDefinition_new "a" []) "crash") [ReadFile "/data/sub/x"].
Definition tokens : list CapabilityToken := [Tokens.Toy.token Tokens.Toy.m2 2%N].
Definition dbg (_ : Capability) : string := "capability".

(** Whether a call produced an output, and whether it was a success. *)
Definition answers (a : option (NexusHypervisor * result ToolOutput NexusError)) : option bool :=
  match a with Some (_, Ok out) => Some out.(out_success) | _ => None end.

Lemma reachable n : hv_reach toy_m0 (hv n) ghost_empty.
Proof. split; [apply reach_start|]. eapply manager_ok_steps; [apply manager_ok_new|apply Tokens.Toy.steps2]. Qed.
Lemma tokens_ok t : t ∈ tokens → 0 ≤ t.(tok_chain_depth).
Proof. intros ->%list_elem_of_singleton. vm_compute. discriminate. Qed.
Lemma authorized cap :
  cap ∈ crash.(required_capabilities) → ∃ t, t ∈ tokens ∧ valid_for Tokens.Toy.m2 50 t cap.
Proof.
  refine (proj1 (proj1 (authorize_spec Tokens.Toy.m2 50 tokens _ _ tokens_ok)) _ cap).
  - apply (reachable 0).
  - vm_compute. reflexivity.
Qed.
End ToyExec.
#[local] Existing Instances Tokens.Toy.crypto Tokens.Toy.crypto_laws Tokens.Toy.url ToyZstd.zstd ToyZstd.zstd_laws
  ToySnap.env ToyInstinct.io ToyExec.guest.

Lemma execution_outcome_witness :
  ∃ h' out, execute_tool_inner ToyExec.dbg (ToyExec.hv 0) (ToyExec.call 1) ToyExec.crash ToyExec.tokens None None
      = Some (h', Ok out)
    ∧ out.(rollback_performed) = true ∧ h'.(last_rollback_memory) = Some (toy_mem x01).
Proof.
  destruct (execution_outcome ToyExec.dbg 2 3 false None (ToyExec.hv 0) ghost_empty (ToyExec.call 1) ToyExec.crash
    ToyExec.tokens None None [x01] (ToyExec.run "crash") eq_refl (ToyExec.reachable 0) eq_refl ToyExec.tokens_ok
    ToyExec.authorized eq_refl) as (h' & res & Hex & _ & Hres).
  - vm_compute. reflexivity.
  - intros mem [= <-]. vm_compute. discriminate.
  - assert (ToyExec.answers (execute_tool_inner ToyExec.dbg (ToyExec.hv 0) (ToyExec.call 1) ToyExec.crash
      ToyExec.tokens None None) = Some false) as Ha by (vm_compute; reflexivity).
    rewrite Hex in Ha. destruct res as [out|e]; [|discriminate Ha].
    exists h', out. split; [exact Hex|]. destruct Hres as [[_ (Hp & Hm & _)] _]. split; [exact Hp|exact Hm].
Defined.

Lemma runs_only_with_authority_witness :
  ∃ t, t ∈ ToyExec.tokens ∧ valid_for Tokens.Toy.m2 50 t (ReadFile "/data/sub/x").
Proof.
  assert (ToyExec.answers (execute_tool_inner ToyExec.dbg (ToyExec.hv 0) (ToyExec.call 1) ToyExec.crash
    ToyExec.tokens None None) = Some false) as Ha by (vm_compute; reflexivity).
  destruct (execute_tool_inner ToyExec.dbg (ToyExec.hv 0) (ToyExec.call 1) ToyExec.crash ToyExec.tokens None None)
    as [[h' [out|e]]|] eqn:Hex; [|discriminate Ha..].
  apply (runs_only_with_authority ToyExec.dbg (ToyExec.hv 0) h' (ToyExec.call 1) ToyExec.crash ToyExec.tokens None None
           1%N (Ok out) (proj2 (ToyExec.reachable 0)) ToyExec.tokens_ok (or_introl Hex)).
  - right. reflexivity.
  - left.
Defined.

Lemma retry_answers_witness :
  ∃ h' res, execute_with_retry_with_tokens ToyExec.dbg (ToyExec.hv 0) (λ i, ToyExec.call (N.of_nat i)) ToyExec.crash
      ToyExec.tokens = Some (h', res) ∧ succeeded_with res = false
    ∧ attempts ToyExec.dbg ToyExec.crash ToyExec.tokens (ToyExec.hv 0)
        [ToyExec.call 0; ToyExec.call 1; ToyExec.call 2] h' res.
Proof.
  destruct (retry_answers ToyExec.dbg 2 3 false None (ToyExec.hv 0) ghost_empty (λ i, ToyExec.call (N.of_nat i))
    ToyExec.crash ToyExec.tokens eq_refl (ToyExec.reachable 0) ToyExec.tokens_ok) as (h' & res & Hex & Hat).
  - intros i. reflexivity.
  - intros i j Hij. apply Nat2N.inj. exact Hij.
  - intros e m input restored entry r mem [= <-] [= <-]. vm_compute. discriminate.
  - assert (ToyExec.answers (execute_with_retry_with_tokens ToyExec.dbg (ToyExec.hv 0)
      (λ i, ToyExec.call (N.of_nat i)) ToyExec.crash ToyExec.tokens) = Some false) as Ha by (vm_compute; reflexivity).
    rewrite Hex in Ha. exists h', res. split; [exact Hex|]. split; [|exact Hat].
    destruct res as [out|e]; [injection Ha as Hs; exact Hs|reflexivity].
Defined.

Lemma fuel_budget_leaks_witness :
  let h1 := after_run (ToyExec.hv 20) (ToyExec.call 1) ToyExec.crash (ToyExec.run "crash") in
  budget_for h1.(fuel_policy) "b" = 1000000
  ∧ (apply_budget h1 (ToyExec.call 2) (ToolDefinition_new "b" [])).(sandbox_fuel) ≠ 1000000
  ∧ run_guest (apply_budget h1 (ToyExec.call 2) (ToolDefinition_new "b" [])) (ToolDefinition_new "b" []) [] None None
    = Ok (ToyExec.run "_start").
Proof.
  destruct (fuel_budget_leaks (ToyExec.hv 20) (ToyExec.call 1) (ToyExec.call 2) ToyExec.crash
    (ToolDefinition_new "b" []) (ToyExec.run "crash") []) as [Hb Hrun].
  - reflexivity.
  - discriminate.
  - reflexivity.
  - vm_compute. discriminate.
  - vm_compute. reflexivity.
  - split; [exact Hb|]. split; [vm_compute; discriminate|]. rewrite Hrun. reflexivity.
Defined.
