(* ===== verification/WasiExecution.v ===== *)
(** * WASI executions: [execute_tool_wasi] and [execute_tool_wasi_with_config]

    The two entry points of [src/hypervisor/mod.rs] that give the guest directories.  The
    WASI sandbox is the interface [WasiGuest]; the disk is [HostFs]. *)

From S2P Require Import Prelude Errors Floats UrlGuard LexPath Capability Tokens HostFs Wasi Compression.
From S2P Require Import Snapshot Differential SnapshotManager Fuel Failure Telemetry Instinct Execution.

Class WasiGuest := {
  wasi_run : Z → list byte → list byte → WasiSandboxConfig → result ExecutionResult NexusError;
}.

Section WasiExec.
Context `{C : CryptoLib} `{W : WasiGuest}.

Definition finish_wasi (h : NexusHypervisor) (c : Call) (tool : ToolDefinition) (r : ExecutionResult)
  : NexusHypervisor * result ToolOutput NexusError :=
  let h := set_fuel h (record h.(fuel_policy) tool.(name) r.(fuel_consumed)) h.(sandbox_fuel) in
  if negb r.(exec_success) then
    let mode := default (HostError "unknown WASI error") r.(exec_failure) in
    let rec := record_of_failure c.(new_log_id) c.(now) tool.(name)
                 (ErrorLog_new c.(new_log_id) c.(now) tool.(name) mode c.(resources))
                 c.(call_duration_ms) r.(fuel_consumed) in
    (set_telemetry h (record_failure h.(telemetry) c.(now) rec),
     Ok {| out_success := false; out_result := None; out_error := Some (describe mode);
           rollback_performed := false; out_time_ms := c.(call_duration_ms);
           out_fuel_consumed := r.(fuel_consumed); error_log := None; out_snapshot_id := None |})
  else
    let rec := record_of_success c.(new_log_id) c.(now) tool.(name) c.(call_duration_ms) r.(fuel_consumed) c.(resources) in
    (set_telemetry h (record_success h.(telemetry) c.(now) rec),
     Ok {| out_success := true; out_result := r.(return_value); out_error := None;
           rollback_performed := false; out_time_ms := c.(call_duration_ms);
           out_fuel_consumed := r.(fuel_consumed); error_log := None; out_snapshot_id := None |}).

Definition serialize_error : NexusError := SerializationError (Fmt "failed to serialize tool input: {e}" [AOpaque]).

Definition execute_tool_wasi (h : NexusHypervisor) (c : Call) (tool : ToolDefinition) (tokens : list CapabilityToken)
  : option (NexusHypervisor * result ToolOutput NexusError) :=
  match authorize_call h c tool tokens with
  | None => None
  | Some (Err e) => Some (h, Err e)
  | Some (Ok _) =>
      match c.(input_bytes) with
      | None => Some (h, Err serialize_error)
      | Some input =>
          match wasi_run h.(sandbox_fuel) tool.(wasm_bytes) input (from_capabilities tool.(Execution.required_capabilities)) with
          | Err e => Some (h, Err e)
          | Ok r => Some (finish_wasi h c tool r)
          end
      end
  end.

Definition execute_tool_wasi_with_config (h : NexusHypervisor) (fs : Fs) (c : Call) (tool : ToolDefinition)
    (tokens : list CapabilityToken) (cfg : WasiToolConfig)
  : option (NexusHypervisor * Fs * result ToolOutput NexusError) :=
  match Wasi.required_capabilities fs cfg with
  | Err e => Some (h, fs, Err e)
  | Ok mount_caps =>
      let required := tool.(Execution.required_capabilities) ++ mount_caps in
      match (match required with [] => Some (Ok ()) | _ => authorize h.(capability_manager) c.(now) tokens required end) with
      | None => None
      | Some (Err e) => Some (h, fs, Err e)
      | Some (Ok _) =>
          match prepare_mounts fs cfg with
          | (fs, Err e) => Some (h, fs, Err e)
          | (fs, Ok v) =>
              match c.(input_bytes) with
              | None => Some (h, fs, Err serialize_error)
              | Some input =>
                  match wasi_run h.(sandbox_fuel) tool.(wasm_bytes) input v.(sandbox_config) with
                  | Err e => Some (h, fs, Err e)
                  | Ok r => let '(h, out) := finish_wasi h c tool r in Some (h, fs, out)
                  end
              end
          end
      end
  end.
End WasiExec.

(** ** The properties *)

Section Theorems.
Context `{U : UrlLib} `{C : CryptoLib} `{CL : !CryptoLaws C} `{W : WasiGuest}.

Lemma authorize_any_spec (h : NexusHypervisor) (c : Call) tokens required :
  manager_ok h.(capability_manager) → (∀ t, t ∈ tokens → 0 ≤ t.(tok_chain_depth)) →
  let answer := match required with [] => Some (Ok ()) | _ => authorize h.(capability_manager) c.(now) tokens required end in
  (answer = Some (Ok ()) ↔ ∀ cap, cap ∈ required → ∃ t, t ∈ tokens ∧ valid_for h.(capability_manager) c.(now) t cap)
  ∧ is_Some answer.
Proof using CL.
  intros Hm Ht. pose proof (authorize_spec _ c.(now) tokens required Hm Ht). by destruct required.
Qed.

(** C4: a WASI run with mounts touches nothing without authority, and opens only what was
    granted.  Whenever the call changes the hypervisor or the disk or produces an output,
    every capability the tool requires and every capability derived from the mounts is
    granted by a valid token of the caller; and on a well-formed disk without dangling
    links on the way, each directory given to the guest is one that such a token lets the
    caller read and, if it is writable, write. *)
Theorem wasi_directories_are_granted (h h' : NexusHypervisor) (fs fs' : Fs) (c : Call) (tool : ToolDefinition)
    (tokens : list CapabilityToken) (cfg : WasiToolConfig) (res : result ToolOutput NexusError) :
  manager_ok h.(capability_manager) → (∀ t, t ∈ tokens → 0 ≤ t.(tok_chain_depth)) →
  execute_tool_wasi_with_config h fs c tool tokens cfg = Some (h', fs', res) →
  h' ≠ h ∨ fs' ≠ fs ∨ is_ok res = true →
  ∃ caps, Wasi.required_capabilities fs cfg = Ok caps
    ∧ (∀ cap, cap ∈ tool.(Execution.required_capabilities) ++ caps →
         ∃ t, t ∈ tokens ∧ valid_for h.(capability_manager) c.(now) t cap)
    ∧ (fs_ok fs → Forall (λ m, frontier_free fs m.(mount_host)) cfg.(mounts) → is_ok res = true →
       ∃ v, prepare_mounts fs cfg = (fs', Ok v) ∧ extends fs fs'
         ∧ ∀ p, p ∈ v.(sandbox_config).(preopens) →
             (∃ t, t ∈ tokens ∧ valid_for h.(capability_manager) c.(now) t (ReadFile p.(host_path)))
             ∧ (p.(writable) = true →
                ∃ t, t ∈ tokens ∧ valid_for h.(capability_manager) c.(now) t (WriteFile p.(host_path)))).
Proof using CL.
  intros Hm Ht. unfold execute_tool_wasi_with_config.
  destruct (Wasi.required_capabilities fs cfg) as [caps|e] eqn:Hcaps.
  2:{ intros [= <- <- <-] Hch. exfalso. naive_solver. }
  set (required := Execution.required_capabilities tool ++ caps).
  destruct (authorize_any_spec h c tokens required Hm Ht) as [Ha [[[]|e] Hs]]; rewrite Hs.
  2:{ intros [= <- <- <-] Hch. exfalso. naive_solver. }
  intros Hrun _. assert (∀ cap, cap ∈ required → ∃ t, t ∈ tokens ∧ valid_for h.(capability_manager) c.(now) t cap) as Hall
    by (by apply Ha). exists caps. split; [done|]. split; [exact Hall|]. intros Hok Hfree Hres.
  destruct (prepare_mounts fs cfg) as [fs1 [v|e]] eqn:Hp; [|by simplify_eq].
  destruct (prepared_agree _ _ _ _ _ Hok Hfree Hcaps Hp) as (He & ms & _ & Hmounted).
  destruct (input_bytes c) as [input|]; [|by simplify_eq].
  destruct (wasi_run _ _ _ _) as [r|e]; [|by simplify_eq].
  destruct (finish_wasi h c tool r) as [h1 out]. injection Hrun as <- <- <-. exists v. split; [done|]. split; [done|].
  intros p Hpin. apply list_elem_of_lookup in Hpin as [i Hi].
  destruct (Forall2_lookup_r _ _ _ _ _ Hmounted Hi) as (m & _ & [_ Hr _ Hw]).
  split; [|intros Hwr]; apply Hall, elem_of_app; right; auto.
Qed.
End Theorems.

(** ** A concrete call *)

Module ToyWasi.
#[export] Instance guest : WasiGuest := {| wasi_run _ _ _ _ := Ok (ToyExec.run "_start") |}.
Definition config : WasiToolConfig :=
  with_mount WasiToolConfig_new "/data/sub/new" "/out" ReadOnly.
Definition tool : ToolDefinition := ToolDefinition_new "a" [].
Definition answer :=
  execute_tool_wasi_with_config (C := Tokens.Toy.crypto) (ToyExec.hv 0) ToyDisk.disk (ToyExec.call 1) tool ToyExec.tokens config.

Lemma toy_config_free : Forall (λ m, frontier_free ToyDisk.disk m.(mount_host)) config.(mounts).
Proof.
  repeat constructor; cbn [mount_host]; intros _ ancestor missing n loc Hc Hl Hr.
  assert (climb ToyDisk.disk (reverse (components (absolute_mount_path ToyDisk.disk "/data/sub/new"))) []
    = Some ([RootDir; Normal "data"; Normal "sub"], ["new"])) as Hcl by (vm_compute; reflexivity).
  rewrite Hcl in Hc. injection Hc as <- <-. injection Hl as <-.
  vm_compute in Hr. injection Hr as <-. vm_compute. reflexivity.
Qed.
End ToyWasi.
#[local] Existing Instances Tokens.Toy.crypto Tokens.Toy.crypto_laws Tokens.Toy.url.

Lemma wasi_directories_are_granted_witness :
  ∃ fs' v, prepare_mounts ToyDisk.disk ToyWasi.config = (fs', Ok v)
    ∧ ∀ p, p ∈ v.(sandbox_config).(preopens) →
        ∃ t, t ∈ ToyExec.tokens ∧ valid_for Tokens.Toy.m2 50 t (ReadFile p.(host_path)).
Proof.
  assert (match ToyWasi.answer with Some (_, _, Ok _) => true | _ => false end = true) as Ha by (vm_compute; reflexivity).
  destruct ToyWasi.answer as [[[h' fs'] [out|e]]|] eqn:Hex; [|discriminate Ha..].
  destruct (wasi_directories_are_granted (ToyExec.hv 0) h' ToyDisk.disk fs' (ToyExec.call 1) ToyWasi.tool
    ToyExec.tokens ToyWasi.config (Ok out) (proj2 (ToyExec.reachable 0)) ToyExec.tokens_ok Hex
    (or_intror (or_intror eq_refl))) as (caps & _ & _ & Hv).
  destruct (Hv ToyDisk.disk_ok ToyWasi.toy_config_free eq_refl) as (v & Hp & _ & Hall).
  exists fs', v. split; [exact Hp|]. intros p Hpin. exact (proj1 (Hall p Hpin)).
Defined.
