(* ===== verification/Profile.v ===== *)
(** * Capability profiles: [src/profile/mod.rs]

    A profile is a small TOML document: a name, capability entries and the two policy
    tables.  [load_and_validate] collects every error of a document before it refuses it.
    Reading the file is an argument: its text, or the error of the read.  Rust iterates
    over characters and this model over bytes; every character the parser looks for is
    ASCII.  Quotation marks in the templates of messages are left out. *)

From S2P Require Import Prelude Errors LexPath UrlGuard Capability.

(** ** Manifests and errors *)

Record ExecutionPolicy := {
  module_dirs : list PathBuf;
  daemon_auth_required : bool;
}.
Definition ExecutionPolicy_default : ExecutionPolicy :=
  {| module_dirs := []; daemon_auth_required := false |}.

Record McpPolicy := {
  tool_allowlist : option (list string);
  snapshot_enabled : bool;
  fork_enabled : bool;
  proof_enabled : bool;
  wasi_enabled : bool;
  instinct_enabled : bool;
  retry_enabled : bool;
}.
Definition McpPolicy_default : McpPolicy :=
  {| tool_allowlist := None; snapshot_enabled := false; fork_enabled := false; proof_enabled := false;
     wasi_enabled := false; instinct_enabled := false; retry_enabled := false |}.

Definition allows_tool (p : McpPolicy) (tool : string) : bool :=
  match p.(tool_allowlist) with
  | Some list => existsb (λ allowed, String.eqb allowed tool) list
  | None => true
  end.

Record CapabilityProfileManifest := {
  name : string;
  capabilities : list Capability;
  mcp : McpPolicy;
  execution : ExecutionPolicy;
}.

Inductive ValidationError :=
| Io (path : PathBuf) (message : Msg)
| Parse (line : nat) (message : Msg)
| EmptyCapabilities
| MissingCapabilityType (line : nat)
| UnknownCapabilityType (line : nat) (capability_type : Msg)
| MissingRequiredField (line : nat) (capability_type : string) (field : string).

(** ** What the parser collects *)

Record RawExecution := {
  raw_module_dirs : option (list string);
  raw_daemon_auth_required : option bool;
}.
Definition RawExecution_default : RawExecution :=
  {| raw_module_dirs := None; raw_daemon_auth_required := None |}.

Record RawMcp := {
  raw_tool_allowlist : option (list string);
  raw_snapshot_enabled : option bool;
  raw_fork_enabled : option bool;
  raw_proof_enabled : option bool;
  raw_wasi_enabled : option bool;
  raw_instinct_enabled : option bool;
  raw_retry_enabled : option bool;
}.
Definition RawMcp_new : RawMcp :=
  {| raw_tool_allowlist := None; raw_snapshot_enabled := None; raw_fork_enabled := None;
     raw_proof_enabled := None; raw_wasi_enabled := None; raw_instinct_enabled := None;
     raw_retry_enabled := None |}.

Record ParsedValue := { value_line : nat; value : string }.
Record RawCapability := {
  raw_line : nat;
  raw_type : option ParsedValue;
  raw_path : option ParsedValue;
  raw_pattern : option ParsedValue;
}.
Definition RawCapability_new (line : nat) : RawCapability :=
  {| raw_line := line; raw_type := None; raw_path := None; raw_pattern := None |}.

Record RawProfile := {
  raw_name : option string;
  raw_capabilities : list RawCapability;
  raw_mcp : option RawMcp;
  raw_execution : option RawExecution;
}.
Definition RawProfile_default : RawProfile :=
  {| raw_name := None; raw_capabilities := []; raw_mcp := None; raw_execution := None |}.

Inductive Table := Top | CapabilityTable (index : nat) | McpTable | ExecutionTable.

(** ** Values *)

Definition dquote : ascii := ascii_of_nat 34.
Definition squote : ascii := ascii_of_nat 39.
Definition backslash : ascii := ascii_of_nat 92.
Definition newline : ascii := ascii_of_nat 10.
Definition carriage : ascii := ascii_of_nat 13.
Definition tab : ascii := ascii_of_nat 9.
Definition is_quote (c : ascii) : bool := Ascii.eqb c dquote || Ascii.eqb c squote.

Fixpoint strip_comment_from (quote : option ascii) (escaped : bool) (line : string) : string :=
  match line with
  | EmptyString => EmptyString
  | String c rest =>
      match quote with
      | Some q =>
          if Ascii.eqb q dquote && escaped then String c (strip_comment_from quote false rest)
          else if Ascii.eqb q dquote && Ascii.eqb c backslash then String c (strip_comment_from quote true rest)
          else if Ascii.eqb c q then String c (strip_comment_from None escaped rest)
          else String c (strip_comment_from quote escaped rest)
      | None =>
          if Ascii.eqb c "#"%char then EmptyString
          else if is_quote c then String c (strip_comment_from (Some c) escaped rest)
          else String c (strip_comment_from None escaped rest)
      end
  end.
Definition strip_comment (line : string) : string := strip_comment_from None false line.

Fixpoint find_equals_from (index : nat) (quote : option ascii) (escaped : bool) (line : string) : option nat :=
  match line with
  | EmptyString => None
  | String c rest =>
      match quote with
      | Some q =>
          if Ascii.eqb q dquote && escaped then find_equals_from (S index) quote false rest
          else if Ascii.eqb q dquote && Ascii.eqb c backslash then find_equals_from (S index) quote true rest
          else if Ascii.eqb c q then find_equals_from (S index) None escaped rest
          else find_equals_from (S index) quote escaped rest
      | None =>
          if is_quote c then find_equals_from (S index) (Some c) escaped rest
          else if Ascii.eqb c "="%char then Some index
          else find_equals_from (S index) None escaped rest
      end
  end.
Definition find_unquoted_equals (line : string) : option nat := find_equals_from 0 None false line.

Fixpoint basic_string_from (parsed : string) (escaped : bool) (rest : string) : result string Msg :=
  match rest with
  | EmptyString => Err (Lit "unterminated string value")
  | String c rest =>
      if escaped then
        let push a := basic_string_from (parsed +:+ String a EmptyString) false rest in
        if Ascii.eqb c dquote then push dquote
        else if Ascii.eqb c backslash then push backslash
        else if Ascii.eqb c "n"%char then push newline
        else if Ascii.eqb c "r"%char then push carriage
        else if Ascii.eqb c "t"%char then push tab
        else Err (Fmt "unsupported escape sequence \{other}" [AOpaque])
      else if Ascii.eqb c backslash then basic_string_from parsed true rest
      else if Ascii.eqb c dquote then
        match trim rest with
        | EmptyString => Ok parsed
        | _ => Err (Lit "unexpected content after string value")
        end
      else basic_string_from (parsed +:+ String c EmptyString) false rest
  end.
Definition parse_basic_string (value : string) : result string Msg :=
  basic_string_from EmptyString false (string_drop 1 value).

(** [str::find] of one character. *)
Fixpoint find_char (c : ascii) (s : string) : option nat :=
  match s with
  | EmptyString => None
  | String a s => if Ascii.eqb a c then Some O else S <$> find_char c s
  end.

Definition parse_literal_string (value : string) : result string Msg :=
  let rest := string_drop 1 value in
  match find_char squote rest with
  | None => Err (Lit "unterminated string value")
  | Some end_index =>
      match trim (string_drop (end_index + 1) rest) with
      | EmptyString => Ok (String.substring 0 end_index rest)
      | _ => Err (Lit "unexpected content after string value")
      end
  end.

Definition parse_string_value (value : string) : result string Msg :=
  match value with
  | EmptyString => Err (Lit "expected quoted string value")
  | String quote _ =>
      if Ascii.eqb quote dquote then parse_basic_string value
      else if Ascii.eqb quote squote then parse_literal_string value
      else Err (Lit "expected quoted string value")
  end.

Definition parse_bool_value (value : string) : result bool Msg :=
  let value := trim value in
  if String.eqb value "true" then Ok true
  else if String.eqb value "false" then Ok false
  else Err (Lit "expected boolean true or false").

(** The loop over the elements of an array. *)
Fixpoint array_items (items : list string) (elements : list string) : result (list string) Msg :=
  match elements with
  | [] => Ok items
  | element :: elements =>
      match trim element with
      | EmptyString => Err (Lit "empty array element")
      | element => let? item := parse_string_value element in array_items (items ++ [item]) elements
      end
  end.

Definition parse_string_array (value : string) : result (list string) Msg :=
  match strip_prefix "[" (trim value) ≫= strip_suffix "]" with
  | None => Err (Lit "expected an array of quoted strings in [ ... ]")
  | Some inner =>
      match trim inner with
      | EmptyString => Ok []
      | inner => array_items [] (split_on ","%char inner)
      end
  end.

(** ** Assignments *)

(** An assignment either changes its table or reports why not. *)
Definition assign {A T} (line_number : nat) (parsed : result A Msg) (set : A → T) (t : T)
    (errors : list ValidationError) : T * list ValidationError :=
  match parsed with
  | Ok v => (set v, errors)
  | Err message => (t, errors ++ [Parse line_number message])
  end.

Definition parse_execution_assignment (exec : RawExecution) (key rhs : string) (line_number : nat)
    (errors : list ValidationError) : RawExecution * list ValidationError :=
  if String.eqb key "module_dirs" then
    assign line_number (parse_string_array rhs)
      (λ v, {| raw_module_dirs := Some v; raw_daemon_auth_required := exec.(raw_daemon_auth_required) |}) exec errors
  else if String.eqb key "daemon_auth_required" then
    assign line_number (parse_bool_value rhs)
      (λ v, {| raw_module_dirs := exec.(raw_module_dirs); raw_daemon_auth_required := Some v |}) exec errors
  else (exec, errors ++ [Parse line_number (Fmt "unsupported [execution] key {other}" [AStr key])]).

Definition parse_mcp_assignment (m : RawMcp) (key rhs : string) (line_number : nat)
    (errors : list ValidationError) : RawMcp * list ValidationError :=
  let '(Build_RawMcp allowlist snapshot fork proof wasi instinct retry) := m in
  let flag := parse_bool_value rhs in
  if String.eqb key "tool_allowlist" then
    assign line_number (parse_string_array rhs)
      (λ v, Build_RawMcp (Some v) snapshot fork proof wasi instinct retry) m errors
  else if String.eqb key "snapshot_enabled" then
    assign line_number flag (λ v, Build_RawMcp allowlist (Some v) fork proof wasi instinct retry) m errors
  else if String.eqb key "fork_enabled" then
    assign line_number flag (λ v, Build_RawMcp allowlist snapshot (Some v) proof wasi instinct retry) m errors
  else if String.eqb key "proof_enabled" then
    assign line_number flag (λ v, Build_RawMcp allowlist snapshot fork (Some v) wasi instinct retry) m errors
  else if String.eqb key "wasi_enabled" then
    assign line_number flag (λ v, Build_RawMcp allowlist snapshot fork proof (Some v) instinct retry) m errors
  else if String.eqb key "instinct_enabled" then
    assign line_number flag (λ v, Build_RawMcp allowlist snapshot fork proof wasi (Some v) retry) m errors
  else if String.eqb key "retry_enabled" then
    assign line_number flag (λ v, Build_RawMcp allowlist snapshot fork proof wasi instinct (Some v)) m errors
  else (m, errors ++ [Parse line_number (Fmt "unsupported [mcp] key {other}" [AStr key])]).

Definition capability_assignment (raw : RawCapability) (key : string) (parsed : ParsedValue) : RawCapability :=
  let '(Build_RawCapability line type path pattern) := raw in
  if String.eqb key "type" then Build_RawCapability line (Some parsed) path pattern
  else if String.eqb key "path" then Build_RawCapability line type (Some parsed) pattern
  else if String.eqb key "pattern" then Build_RawCapability line type path (Some parsed)
  else raw.

(** ** The document *)

Record ParseState := {
  profile : RawProfile;
  section : Table;
  errors : list ValidationError;
}.
Definition with_error (st : ParseState) (line : nat) (message : string) : ParseState :=
  {| profile := st.(profile); section := st.(section); errors := st.(errors) ++ [Parse line (Lit message)] |}.

Definition set_name (p : RawProfile) (n : string) : RawProfile :=
  {| raw_name := Some n; raw_capabilities := p.(raw_capabilities); raw_mcp := p.(raw_mcp);
     raw_execution := p.(raw_execution) |}.
Definition set_capabilities (p : RawProfile) (l : list RawCapability) : RawProfile :=
  {| raw_name := p.(raw_name); raw_capabilities := l; raw_mcp := p.(raw_mcp); raw_execution := p.(raw_execution) |}.
Definition set_mcp (p : RawProfile) (m : RawMcp) : RawProfile :=
  {| raw_name := p.(raw_name); raw_capabilities := p.(raw_capabilities); raw_mcp := Some m;
     raw_execution := p.(raw_execution) |}.
Definition set_execution (p : RawProfile) (e : RawExecution) : RawProfile :=
  {| raw_name := p.(raw_name); raw_capabilities := p.(raw_capabilities); raw_mcp := p.(raw_mcp);
     raw_execution := Some e |}.

Definition mcp_or_new (p : RawProfile) : RawMcp := default RawMcp_new p.(raw_mcp).
Definition execution_or_new (p : RawProfile) : RawExecution := default RawExecution_default p.(raw_execution).

(** The end of the loop body, for a line [key = rhs]. *)
Definition parse_assignment (st : ParseState) (line_number : nat) (key rhs : string) : ParseState :=
  let p := st.(profile) in
  match st.(section) with
  | McpTable =>
      let '(m, errors) := parse_mcp_assignment (mcp_or_new p) key rhs line_number st.(errors) in
      {| profile := set_mcp p m; section := McpTable; errors := errors |}
  | ExecutionTable =>
      let '(e, errors) := parse_execution_assignment (execution_or_new p) key rhs line_number st.(errors) in
      {| profile := set_execution p e; section := ExecutionTable; errors := errors |}
  | table =>
      match parse_string_value rhs with
      | Err message =>
          {| profile := p; section := table; errors := st.(errors) ++ [Parse line_number message] |}
      | Ok v =>
          let p :=
            match table with
            | CapabilityTable i =>
                set_capabilities p
                  (alter (λ raw, capability_assignment raw key {| value_line := line_number; value := v |}) i
                     p.(raw_capabilities))
            | _ => if String.eqb key "name" then set_name p v else p
            end in
          {| profile := p; section := table; errors := st.(errors) |}
      end
  end.

Definition clean (line : string) : string := trim (strip_comment line).

(** The loop body. *)
Definition parse_line (st : ParseState) (line_number : nat) (original_line : string) : ParseState :=
  let p := st.(profile) in
  let line := clean original_line in
  if String.eqb line "" then st
  else if String.eqb line "[[capabilities]]" then
    let l := p.(raw_capabilities) ++ [RawCapability_new line_number] in
    {| profile := set_capabilities p l; section := CapabilityTable (length l - 1); errors := st.(errors) |}
  else if String.eqb line "[mcp]" then
    {| profile := set_mcp p (mcp_or_new p); section := McpTable; errors := st.(errors) |}
  else if String.eqb line "[execution]" then
    {| profile := set_execution p (execution_or_new p); section := ExecutionTable; errors := st.(errors) |}
  else if starts_with "[" line then
    with_error st line_number "only [[capabilities]], [mcp], and [execution] tables are supported"
  else
    match find_unquoted_equals line with
    | None => with_error st line_number "expected key = value assignment"
    | Some separator =>
        match trim (String.substring 0 separator line) with
        | EmptyString => with_error st line_number "expected key before ="
        | key => parse_assignment st line_number key (trim (string_drop (separator + 1) line))
        end
    end.

(** [str::lines]. *)
Definition strip_carriage (line : string) : string :=
  default line (strip_suffix (String carriage EmptyString) line).
Fixpoint strip_ends (pieces : list string) : list string :=
  match pieces with
  | [] => []
  | [last] => if String.eqb last "" then [] else [last]
  | line :: pieces => strip_carriage line :: strip_ends pieces
  end.
Definition lines (contents : string) : list string := strip_ends (split_on newline contents).

Fixpoint parse_lines (st : ParseState) (line_number : nat) (ls : list string) : ParseState :=
  match ls with
  | [] => st
  | line :: ls => parse_lines (parse_line st line_number line) (S line_number) ls
  end.
Definition parse_profile (contents : string) (es : list ValidationError) : RawProfile * list ValidationError :=
  let st := parse_lines {| profile := RawProfile_default; section := Top; errors := es |} 1 (lines contents) in
  (st.(profile), st.(errors)).

(** ** Validation *)

Definition required_value (raw : RawCapability) (capability_type field : string) (parsed : option ParsedValue)
    (errors : list ValidationError) : option string * list ValidationError :=
  match parsed with
  | None => (None, errors ++ [MissingRequiredField raw.(raw_line) capability_type field])
  | Some parsed_value =>
      match trim parsed_value.(value) with
      | EmptyString =>
          (None, errors ++ [MissingRequiredField parsed_value.(value_line) capability_type field])
      | value => (Some value, errors)
      end
  end.
Definition required_path (raw : RawCapability) (capability_type field : string) (errors : list ValidationError)
  : option PathBuf * list ValidationError :=
  required_value raw capability_type field raw.(raw_path) errors.
Definition required_pattern (raw : RawCapability) (capability_type : string) (errors : list ValidationError)
  : option string * list ValidationError :=
  let parsed := match raw.(raw_pattern) with Some p => Some p | None => raw.(raw_path) end in
  required_value raw capability_type "pattern" parsed errors.

(** [str::replace] of one character by another. *)
Fixpoint replace_char (a b : ascii) (s : string) : string :=
  match s with
  | EmptyString => EmptyString
  | String c s => String (if Ascii.eqb c a then b else c) (replace_char a b s)
  end.

Definition is_sentinel (type : string) : bool := String.eqb type "all" || String.eqb type "none".

(** The body of the loop over the entries. *)
Definition validate_capability (raw : RawCapability) (errors : list ValidationError)
  : option Capability * list ValidationError :=
  match raw.(raw_type) with
  | None => (None, errors ++ [MissingCapabilityType raw.(raw_line)])
  | Some capability_type =>
      let original_type := trim capability_type.(value) in
      let normalized_type := replace_char "-"%char "_"%char (to_ascii_lowercase original_type) in
      let typ := String.eqb normalized_type in
      let path c := let '(v, errors) := required_path raw original_type "path" errors in (c <$> v, errors) in
      let pattern c := let '(v, errors) := required_pattern raw original_type errors in (c <$> v, errors) in
      let unknown m := (None, errors ++ [UnknownCapabilityType capability_type.(value_line) m]) in
      if typ "read_file" then path ReadFile
      else if typ "write_file" then path WriteFile
      else if typ "list_dir" || typ "list_directory" then path ListDirectory
      else if typ "http_get" then pattern HttpGet
      else if typ "http_post" then pattern HttpPost
      else if typ "execute" || typ "execute_binary" then path ExecuteBinary
      else if typ "mount_tmpfs" then path MountTmpfs
      else if typ "memory_preview" || typ "nexus:memory_preview" then (Some MemoryPreview, errors)
      else if is_sentinel normalized_type
      then unknown (Fmt "{} is a reserved sentinel and may not appear in profile manifests" [AStr original_type])
      else unknown (Lit original_type)
  end.

Fixpoint validate_loop (raws : list RawCapability) (capabilities : list Capability) (errors : list ValidationError)
  : list Capability * list ValidationError :=
  match raws with
  | [] => (capabilities, errors)
  | raw :: raws =>
      let '(c, errors) := validate_capability raw errors in
      validate_loop raws (capabilities ++ match c with Some c => [c] | None => [] end) errors
  end.
Definition validate_capabilities (raw_capabilities : list RawCapability) (errors : list ValidationError)
  : list Capability * list ValidationError :=
  match raw_capabilities with
  | [] => ([], errors ++ [EmptyCapabilities])
  | _ => validate_loop raw_capabilities [] errors
  end.

Definition mcp_policy_from_raw (raw : option RawMcp) : McpPolicy :=
  match raw with
  | None => McpPolicy_default
  | Some raw =>
      {| tool_allowlist := raw.(raw_tool_allowlist);
         snapshot_enabled := default false raw.(raw_snapshot_enabled);
         fork_enabled := default false raw.(raw_fork_enabled);
         proof_enabled := default false raw.(raw_proof_enabled);
         wasi_enabled := default false raw.(raw_wasi_enabled);
         instinct_enabled := default false raw.(raw_instinct_enabled);
         retry_enabled := default false raw.(raw_retry_enabled) |}
  end.
Definition execution_policy_from_raw (raw : option RawExecution) : ExecutionPolicy :=
  match raw with
  | None => ExecutionPolicy_default
  | Some raw =>
      {| module_dirs := default [] raw.(raw_module_dirs);
         daemon_auth_required := default false raw.(raw_daemon_auth_required) |}
  end.

(** [Path::file_stem]: the last component up to its last dot, unless that dot is its first
    character. *)
Definition file_name (path : PathBuf) : option string :=
  match last (components path) with Some (Normal n) => Some n | _ => None end.
Definition file_stem (path : PathBuf) : option string :=
  (λ n, let before := join "." (removelast (split_on "."%char n)) in
        if String.eqb before "" then n else before) <$> file_name path.
Definition profile_name_from_path (path : PathBuf) : string :=
  match file_stem path with
  | Some stem => if String.eqb stem "" then "profile" else stem
  | None => "profile"
  end.

Definition load_and_validate (path : PathBuf) (read : result string Msg)
  : result CapabilityProfileManifest (list ValidationError) :=
  match read with
  | Err message => Err [Io path message]
  | Ok contents =>
      let '(raw, errors) := parse_profile contents [] in
      let '(capabilities, errors) := validate_capabilities raw.(raw_capabilities) errors in
      match errors with
      | [] =>
          Ok {| name := match raw.(raw_name) with
                        | Some name => if String.eqb (trim name) "" then profile_name_from_path path else name
                        | None => profile_name_from_path path
                        end;
                capabilities := capabilities;
                mcp := mcp_policy_from_raw raw.(raw_mcp);
                execution := execution_policy_from_raw raw.(raw_execution) |}
      | _ => Err errors
      end
  end.

(** ** Policies come from explicit lines *)

(** What a document says, read independently of the parser's state: one pass that notes
    the table of every assignment, latest first. *)
Definition Log : Type := list (string * string * string).
Definition headers : list string := ["[[capabilities]]"; "[mcp]"; "[execution]"].
Definition observe (acc : string * Log) (line : string) : string * Log :=
  let '(table, log) := acc in
  let line := clean line in
  if bool_decide (line ∈ headers) then (line, log)
  else match find_unquoted_equals line with
       | None => acc
       | Some k => (table, (table, trim (String.substring 0 k line), trim (string_drop (k + 1) line)) :: log)
       end.
Definition settings (contents : string) : Log := (fold_left observe (lines contents) ("", [])).2.

(** The last value given to a key of a table. *)
Fixpoint setting (log : Log) (table key : string) : option string :=
  match log with
  | [] => None
  | (t, k, v) :: log => if String.eqb t table && String.eqb k key then Some v else setting log table key
  end.

Definition to_option {A} (r : result A Msg) : option A := match r with Ok a => Some a | Err _ => None end.
Definition switch (log : Log) (table key : string) : option bool := setting log table key ≫= to_option ∘ parse_bool_value.
Definition strings (log : Log) (table key : string) : option (list string) :=
  setting log table key ≫= to_option ∘ parse_string_array.

Definition mcp_of (log : Log) : RawMcp :=
  let on := switch log "[mcp]" in
  {| raw_tool_allowlist := strings log "[mcp]" "tool_allowlist"; raw_snapshot_enabled := on "snapshot_enabled";
     raw_fork_enabled := on "fork_enabled"; raw_proof_enabled := on "proof_enabled";
     raw_wasi_enabled := on "wasi_enabled"; raw_instinct_enabled := on "instinct_enabled";
     raw_retry_enabled := on "retry_enabled" |}.
Definition execution_of (log : Log) : RawExecution :=
  {| raw_module_dirs := strings log "[execution]" "module_dirs";
     raw_daemon_auth_required := switch log "[execution]" "daemon_auth_required" |}.

Definition table_name (t : Table) : string :=
  match t with Top => "" | CapabilityTable _ => "[[capabilities]]" | McpTable => "[mcp]" | ExecutionTable => "[execution]" end.

(** Errors are only ever added. *)
Definition grew (before after : list ValidationError) : Prop := ∃ new, after = before ++ new.
Lemma grew_refl l : grew l l.
Proof. exists []. by rewrite app_nil_r. Qed.
Lemma grew_snoc l e : grew l (l ++ [e]).
Proof. by exists [e]. Qed.
Lemma grew_trans a b c : grew a b → grew b c → grew a c.
Proof. intros [x ->] [y ->]. exists (x ++ y). by rewrite app_assoc. Qed.
Lemma grew_nil a b : grew a b → b = [] → a = [].
Proof. intros [x ->] H. by apply app_nil in H as [-> _]. Qed.
#[local] Hint Resolve grew_refl grew_snoc : core.

Lemma snoc_not_nil {A} (l : list A) a : l ++ [a] = [] → False.
Proof. by destruct l. Qed.

Lemma assign_grew {A T} n (r : result A Msg) (set : A → T) t es : grew es (assign n r set t es).2.
Proof. destruct r; cbn; auto. Qed.
#[local] Hint Resolve assign_grew : core.
Ltac by_cases_if := repeat match goal with |- context [if ?b then _ else _] => destruct b end; cbn [snd]; auto.

Lemma parse_mcp_assignment_grew m key rhs n es : grew es (parse_mcp_assignment m key rhs n es).2.
Proof. destruct m. unfold parse_mcp_assignment. by_cases_if. Qed.
Lemma parse_execution_assignment_grew e key rhs n es : grew es (parse_execution_assignment e key rhs n es).2.
Proof. unfold parse_execution_assignment. by_cases_if. Qed.

Lemma parse_assignment_grew st n key rhs : grew st.(errors) (parse_assignment st n key rhs).(errors).
Proof.
  unfold parse_assignment.
  pose proof (parse_mcp_assignment_grew (mcp_or_new (profile st)) key rhs n (errors st)).
  pose proof (parse_execution_assignment_grew (execution_or_new (profile st)) key rhs n (errors st)).
  destruct (section st), (parse_mcp_assignment _ _ _ _ _), (parse_execution_assignment _ _ _ _ _); cbn in *; auto.
  all: destruct (parse_string_value rhs); cbn; auto.
Qed.

Lemma parse_line_grew st n l : grew st.(errors) (parse_line st n l).(errors).
Proof.
  unfold parse_line, with_error. cbv zeta. repeat case_match; cbn; auto.
  apply parse_assignment_grew.
Qed.

Lemma assign_ok {A T} n (r : result A Msg) (set : A → T) t t' es :
  assign n r set t es = (t', []) → ∃ v, r = Ok v ∧ t' = set v.
Proof. destruct r as [v|e]; cbn; intros [= H1 H2]; [by exists v|by apply snoc_not_nil in H2]. Qed.

(** An assignment that is accepted is in the log with its type. *)
Ltac next_key :=
  match goal with |- context [String.eqb ?k ?s] => destruct (String.eqb_spec k s) as [->|?] end.

Ltac eval_eqb :=
  repeat match goal with
  | |- context [String.eqb ?a ?b] =>
      let v := eval vm_compute in (String.eqb a b) in
      match v with
      | true => change (String.eqb a b) with true
      | false => change (String.eqb a b) with false
      end
  end; cbn [andb].

Definition typed (entry : string * string * string) : Prop :=
  let '(table, key, rhs) := entry in
  (table = "[mcp]" → key = "tool_allowlist" ∧ is_ok (parse_string_array rhs) = true
     ∨ key ∈ ["snapshot_enabled"; "fork_enabled"; "proof_enabled"; "wasi_enabled"; "instinct_enabled"; "retry_enabled"]
       ∧ is_ok (parse_bool_value rhs) = true)
  ∧ (table = "[execution]" → key = "module_dirs" ∧ is_ok (parse_string_array rhs) = true
     ∨ key = "daemon_auth_required" ∧ is_ok (parse_bool_value rhs) = true).

Lemma mcp_assignment_logged log key rhs n es m :
  parse_mcp_assignment (mcp_of log) key rhs n es = (m, []) →
  m = mcp_of (("[mcp]", key, rhs) :: log) ∧ execution_of (("[mcp]", key, rhs) :: log) = execution_of log
  ∧ typed ("[mcp]", key, rhs).
Proof.
  unfold parse_mcp_assignment, mcp_of at 1. cbn [raw_tool_allowlist].
  repeat (next_key; [intros (v & Hv & ->)%assign_ok; unfold mcp_of, execution_of, strings, switch, typed; cbn [setting]; eval_eqb; cbn; rewrite ?Hv;
    cbn; split; [done|]; split; [done|]; split; [|done]; intros _;
    first [left; done | right; split; [set_solver|done]]|]).
  intros H%(f_equal snd). by apply snoc_not_nil in H.
Qed.

Lemma execution_assignment_logged log key rhs n es e :
  parse_execution_assignment (execution_of log) key rhs n es = (e, []) →
  e = execution_of (("[execution]", key, rhs) :: log) ∧ mcp_of (("[execution]", key, rhs) :: log) = mcp_of log
  ∧ typed ("[execution]", key, rhs).
Proof.
  unfold parse_execution_assignment.
  repeat (next_key; [intros (v & Hv & ->)%assign_ok; unfold mcp_of, execution_of, strings, switch, typed; cbn [setting]; eval_eqb; cbn; rewrite ?Hv;
    cbn; split; [done|]; split; [done|]; split; [done|]; intros _; first [left; done | right; done]|]).
  intros H%(f_equal snd). by apply snoc_not_nil in H.
Qed.

(** The parser's state agrees with the pass over the lines read so far. *)
Record agrees (st : ParseState) (acc : string * Log) : Prop := {
  agrees_table : table_name st.(section) = acc.1;
  agrees_mcp : mcp_or_new st.(profile) = mcp_of acc.2;
  agrees_execution : execution_or_new st.(profile) = execution_of acc.2;
  agrees_typed : Forall typed acc.2;
}.

Lemma other_table log table key rhs :
  table ≠ "[mcp]" → table ≠ "[execution]" →
  mcp_of ((table, key, rhs) :: log) = mcp_of log ∧ execution_of ((table, key, rhs) :: log) = execution_of log.
Proof.
  intros H1 H2. unfold mcp_of, execution_of, switch, strings. cbn [setting].
  by rewrite (proj2 (String.eqb_neq _ _) H1), (proj2 (String.eqb_neq _ _) H2).
Qed.

Lemma parse_assignment_agrees st acc n key rhs :
  agrees st acc → (parse_assignment st n key rhs).(errors) = [] →
  agrees (parse_assignment st n key rhs) (acc.1, (acc.1, key, rhs) :: acc.2).
Proof.
  intros [Ht Hm He Hty] H. destruct acc as [table log]; cbn [fst snd] in *.
  assert (table ≠ "[mcp]" → table ≠ "[execution]" →
    ∀ st', section st' = section st → mcp_or_new (profile st') = mcp_or_new (profile st) →
    execution_or_new (profile st') = execution_or_new (profile st) →
    agrees st' (table, (table, key, rhs) :: log)) as Hother.
  { intros H1 H2 st' Hs Hm' He'. destruct (other_table log table key rhs H1 H2) as [Hm2 He2].
    split; cbn [fst snd]; [by rewrite Hs|by rewrite Hm2, Hm'|by rewrite He2, He'|]. constructor; [|done].
    split; by intros ->. }
  revert H. unfold parse_assignment. rewrite Hm, He. destruct (section st) as [|i| |] eqn:Hs; cbn in Ht; subst table.
  3: { destruct (parse_mcp_assignment (mcp_of log) key rhs n (errors st)) as [m es] eqn:Hp. cbn. intros ->.
       apply mcp_assignment_logged in Hp as (-> & He2 & Hty2). by split; cbn [fst snd]; [| |rewrite He2|constructor]. }
  3: { destruct (parse_execution_assignment (execution_of log) key rhs n (errors st)) as [e es] eqn:Hp. cbn. intros ->.
       apply execution_assignment_logged in Hp as (-> & Hm2 & Hty2). by split; cbn [fst snd]; [|rewrite Hm2| |constructor]. }
  all: destruct (parse_string_value rhs); cbn; [|by intros []%snoc_not_nil]; intros _; apply Hother; try done.
  all: by case_match.
Qed.

Lemma parse_line_agrees st acc n l :
  agrees st acc → (parse_line st n l).(errors) = [] → agrees (parse_line st n l) (observe acc l).
Proof.
  intros Hag. pose proof Hag as [Ht Hm He Hty]. destruct acc as [table log]. cbn [fst snd] in *.
  unfold parse_line, observe. cbv zeta. fold (clean l). generalize (clean l). clear l. intros l.
  destruct (String.eqb_spec l "") as [->|Hne]; [done|].
  destruct (String.eqb_spec l "[[capabilities]]") as [->|]; [by intros _; split|].
  destruct (String.eqb_spec l "[mcp]") as [->|]; [by intros _; split|].
  destruct (String.eqb_spec l "[execution]") as [->|]; [by intros _; split|].
  rewrite bool_decide_false by set_solver.
  destruct (starts_with "[" l); [by intros []%snoc_not_nil|].
  destruct (find_unquoted_equals l) as [k|]; [|by intros []%snoc_not_nil].
  destruct (trim (String.substring 0 k l)) as [|c key] eqn:Hk; [by intros []%snoc_not_nil|].
  apply (parse_assignment_agrees st (table, log) n (String c key)), Hag.
Qed.

Lemma parse_lines_agrees ls : ∀ st acc n,
  agrees st acc → (parse_lines st n ls).(errors) = [] → agrees (parse_lines st n ls) (fold_left observe ls acc).
Proof.
  assert (∀ ls st n, grew st.(errors) (parse_lines st n ls).(errors)) as Hgrew.
  { clear ls. induction ls as [|l ls IH]; intros st n; [apply grew_refl|]. cbn.
    eapply grew_trans; [apply parse_line_grew|apply IH]. }
  induction ls as [|l ls IH]; intros st acc n Hag; [done|]. cbn. intros H.
  apply IH; [|done]. apply parse_line_agrees; [done|]. by eapply grew_nil; [apply Hgrew|].
Qed.

(** ** What validation lets through *)

(** The capabilities a profile can declare: no sentinel, no memory scope, no empty text. *)
Definition declarable (c : Capability) : Prop :=
  match c with
  | ReadFile v | WriteFile v | ListDirectory v | ExecuteBinary v | MountTmpfs v | HttpGet v | HttpPost v => v ≠ ""
  | MemoryPreview => True
  | _ => False
  end.

(** One entry either yields a capability and no error, or an error and no capability. *)
Definition entry_ok (es : list ValidationError) (r : option Capability * list ValidationError) : Prop :=
  match r.1 with Some c => declarable c ∧ r.2 = es | None => ∃ e, r.2 = es ++ [e] end.

Lemma required_value_ok raw t f p es (make : string → Capability) :
  (∀ v, v ≠ "" → declarable (make v)) →
  entry_ok es (let '(v, es) := required_value raw t f p es in (make <$> v, es)).
Proof.
  intros Hmake. unfold required_value, entry_ok. destruct p as [p|]; [destruct (trim (value p)) eqn:H|]; cbn; eauto.
Qed.

Lemma validate_capability_ok raw es : entry_ok es (validate_capability raw es).
Proof.
  unfold validate_capability, required_path, required_pattern. destruct (raw_type raw) as [t|]; [|by eexists].
  cbv zeta.
  repeat match goal with |- context [if ?b then _ else _] => destruct b end;
    first [by apply required_value_ok | by eexists | done].
Qed.

Lemma validate_loop_ok raws : ∀ acc es caps,
  validate_loop raws acc es = (caps, []) → Forall declarable acc →
  es = [] ∧ Forall declarable caps ∧ length caps = (length acc + length raws)%nat.
Proof.
  induction raws as [|raw raws IH]; intros acc es caps; cbn.
  - intros [= <- ->] H. split_and!; [done..|lia].
  - pose proof (validate_capability_ok raw es) as Hok. destruct (validate_capability raw es) as [[c|] es1]; cbn in Hok.
    + destruct Hok as [Hc ->]. intros H Hacc. destruct (IH _ _ _ H) as (-> & Hcaps & Hlen).
      { apply Forall_app; split; [done|by constructor]. }
      split_and!; [done..|]. rewrite Hlen, length_app. cbn. lia.
    + destruct Hok as [e ->]. intros H Hacc. rewrite app_nil_r in H.
      destruct (IH _ _ _ H Hacc) as (Hn & _). by apply snoc_not_nil in Hn.
Qed.

Lemma switch_on log table key :
  default false (switch log table key) = true ↔ ∃ rhs, setting log table key = Some rhs ∧ trim rhs = "true".
Proof.
  unfold switch. destruct (setting log table key) as [rhs|]; cbn; [|naive_solver].
  unfold parse_bool_value. cbv zeta. destruct (String.eqb_spec (trim rhs) "true") as [Ht|Ht]; [naive_solver|].
  destruct (String.eqb _ _); cbn; naive_solver.
Qed.

(** Authority comes from explicit lines.  A document that loads declares at least one
    capability, none of them a sentinel or empty; every assignment in its policy tables has
    a known key and the type of that key; and each switch is on exactly if the last
    assignment to it in its table says [true], each list is the last one assigned. *)
Theorem policies_are_explicit (path : PathBuf) (contents : string) (m : CapabilityProfileManifest) :
  load_and_validate path (Ok contents) = Ok m →
  let says table key := ∃ rhs, setting (settings contents) table key = Some rhs ∧ trim rhs = "true" in
  m.(capabilities) ≠ [] ∧ Forall declarable m.(capabilities) ∧ Forall typed (settings contents)
  ∧ (m.(mcp).(snapshot_enabled) = true ↔ says "[mcp]" "snapshot_enabled")
  ∧ (m.(mcp).(fork_enabled) = true ↔ says "[mcp]" "fork_enabled")
  ∧ (m.(mcp).(proof_enabled) = true ↔ says "[mcp]" "proof_enabled")
  ∧ (m.(mcp).(wasi_enabled) = true ↔ says "[mcp]" "wasi_enabled")
  ∧ (m.(mcp).(instinct_enabled) = true ↔ says "[mcp]" "instinct_enabled")
  ∧ (m.(mcp).(retry_enabled) = true ↔ says "[mcp]" "retry_enabled")
  ∧ m.(mcp).(tool_allowlist) = strings (settings contents) "[mcp]" "tool_allowlist"
  ∧ (m.(execution).(daemon_auth_required) = true ↔ says "[execution]" "daemon_auth_required")
  ∧ m.(execution).(module_dirs) = default [] (strings (settings contents) "[execution]" "module_dirs").
Proof.
  unfold load_and_validate, parse_profile. cbv zeta.
  pose proof (parse_lines_agrees (lines contents) {| profile := RawProfile_default; section := Top; errors := [] |}
                ("", []) 1 ltac:(by split)) as Hag.
  fold (settings contents). set (st := parse_lines _ _ _) in *. set (log := settings contents).
  destruct (validate_capabilities _ _) as [caps es] eqn:Hv. destruct es; [|done]. intros [= <-].
  assert (errors st = [] ∧ caps ≠ [] ∧ Forall declarable caps) as (He & Hne & Hd).
  { unfold validate_capabilities in Hv. destruct (raw_capabilities (profile st)) as [|r rs] eqn:Hr.
    - injection Hv as _ Hv. by apply snoc_not_nil in Hv.
    - destruct (validate_loop_ok _ _ _ _ Hv) as (He & Hd & Hlen); [done|].
      split_and!; [done| |done]. intros ->. cbn in Hlen. lia. }
  destruct (Hag He) as [_ Hm Hex Hty]. fold (settings contents) log in Hm, Hex, Hty.
  assert (mcp_policy_from_raw (raw_mcp (profile st)) = mcp_policy_from_raw (Some (mcp_of log))) as ->.
  { rewrite <- Hm. unfold mcp_or_new. by destruct (raw_mcp (profile st)). }
  assert (execution_policy_from_raw (raw_execution (profile st)) = execution_policy_from_raw (Some (execution_of log))) as ->.
  { rewrite <- Hex. unfold execution_or_new. by destruct (raw_execution (profile st)). }
  cbn. split_and!; try done; apply switch_on.
Qed.

(** ** Writing a manifest and reading it back *)

Definition quoted (body : string) : string := String dquote (body +:+ String dquote "").
Definition escape_char (c : ascii) : string :=
  if Ascii.eqb c dquote then String backslash (String dquote "")
  else if Ascii.eqb c backslash then String backslash (String backslash "")
  else if Ascii.eqb c newline then String backslash "n"
  else if Ascii.eqb c carriage then String backslash "r"
  else if Ascii.eqb c tab then String backslash "t"
  else String c "".
Fixpoint escape (s : string) : string :=
  match s with EmptyString => EmptyString | String c s => escape_char c +:+ escape s end.
Definition show_string (s : string) : string := quoted (escape s).
Definition show_list (l : list string) : string := "[" +:+ join ", " (show_string <$> l) +:+ "]".
Definition show_bool (b : bool) : string := if b then "true" else "false".
Definition assignment (key rhs : string) : string := key +:+ " = " +:+ rhs.

(** The type of an entry and, if it has one, the key and text of its argument. *)
Definition entry_of (c : Capability) : option (string * option (string * string)) :=
  match c with
  | ReadFile p => Some ("read_file", Some ("path", p))
  | WriteFile p => Some ("write_file", Some ("path", p))
  | ListDirectory p => Some ("list_directory", Some ("path", p))
  | HttpGet u => Some ("http_get", Some ("pattern", u))
  | HttpPost u => Some ("http_post", Some ("pattern", u))
  | ExecuteBinary p => Some ("execute_binary", Some ("path", p))
  | MountTmpfs p => Some ("mount_tmpfs", Some ("path", p))
  | MemoryPreview => Some ("memory_preview", None)
  | _ => None
  end.
Definition show_capability (c : Capability) : list string :=
  match entry_of c with
  | None => []
  | Some (type, argument) =>
      ["[[capabilities]]"; assignment "type" (show_string type)]
      ++ match argument with Some (key, v) => [assignment key (show_string v)] | None => [] end
  end.
Definition show_mcp (p : McpPolicy) : list string :=
  ["[mcp]"]
  ++ match p.(tool_allowlist) with Some l => [assignment "tool_allowlist" (show_list l)] | None => [] end
  ++ [assignment "snapshot_enabled" (show_bool p.(snapshot_enabled));
      assignment "fork_enabled" (show_bool p.(fork_enabled));
      assignment "proof_enabled" (show_bool p.(proof_enabled));
      assignment "wasi_enabled" (show_bool p.(wasi_enabled));
      assignment "instinct_enabled" (show_bool p.(instinct_enabled));
      assignment "retry_enabled" (show_bool p.(retry_enabled))].
Definition show_execution (p : ExecutionPolicy) : list string :=
  ["[execution]"; assignment "module_dirs" (show_list p.(module_dirs));
   assignment "daemon_auth_required" (show_bool p.(daemon_auth_required))].
Definition show_lines (m : CapabilityProfileManifest) : list string :=
  [assignment "name" (show_string m.(name))] ++ (m.(capabilities) ≫= show_capability)
  ++ show_mcp m.(mcp) ++ show_execution m.(execution).
Definition show_manifest (m : CapabilityProfileManifest) : string :=
  join (String newline "") (show_lines m).

(** What the syntax can express: declarable capabilities without surrounding white space,
    a name that is not blank, and no comma in a list element. *)
Definition writable_capability (c : Capability) : Prop :=
  match entry_of c with
  | Some (_, Some (_, v)) => v ≠ "" ∧ trim v = v
  | Some (_, None) => True
  | None => False
  end.
Record writable (m : CapabilityProfileManifest) : Prop := {
  writable_name : trim m.(name) ≠ "";
  writable_some : m.(capabilities) ≠ [];
  writable_capabilities : Forall writable_capability m.(capabilities);
  writable_tools : Forall (no_char ","%char) (default [] m.(mcp).(tool_allowlist));
  writable_dirs : Forall (no_char ","%char) m.(execution).(module_dirs);
}.

(** A quoted string is read as one token. *)
Lemma strip_escaped v t :
  strip_comment_from (Some dquote) false (escape v +:+ String dquote t)
  = escape v +:+ String dquote (strip_comment_from None false t).
Proof.
  induction v as [|c v IH]; [done|]. cbn [escape]. unfold escape_char.
  repeat match goal with |- context [Ascii.eqb c ?d] => destruct (Ascii.eqb_spec c d) as [->|?] end;
    cbn [String.append strip_comment_from]; rewrite ?Ascii.eqb_refl; cbn [andb];
    try (change (Ascii.eqb backslash dquote) with false; cbn [andb]); try by rewrite IH.
  rewrite (proj2 (Ascii.eqb_neq c backslash)), (proj2 (Ascii.eqb_neq c dquote)) by done. by rewrite IH.
Qed.
Lemma strip_show_string v t :
  strip_comment_from None false (show_string v +:+ t) = show_string v +:+ strip_comment_from None false t.
Proof.
  unfold show_string, quoted. cbn [String.append]. rewrite <- string_app_assoc. cbn [String.append].
  cbn [strip_comment_from]. change (Ascii.eqb dquote "#"%char) with false. change (is_quote dquote) with true.
  cbn iota. by rewrite strip_escaped, <- string_app_assoc.
Qed.

Lemma parse_escaped v : ∀ acc, basic_string_from acc false (escape v +:+ String dquote "") = Ok (acc +:+ v).
Proof.
  induction v as [|c v IH]; intros acc; [by rewrite string_app_nil_r|]. cbn [escape]. unfold escape_char.
  assert (acc +:+ String c v = (acc +:+ String c "") +:+ v) as -> by by rewrite <- string_app_assoc.
  repeat match goal with |- context [Ascii.eqb c ?d] => destruct (Ascii.eqb_spec c d) as [->|?] end;
    cbn [String.append basic_string_from]; rewrite ?Ascii.eqb_refl; try apply IH.
  rewrite (proj2 (Ascii.eqb_neq c backslash)), (proj2 (Ascii.eqb_neq c dquote)) by done. apply IH.
Qed.
Lemma parse_show_string v : parse_string_value (show_string v) = Ok v.
Proof. unfold show_string, quoted, parse_string_value. cbn iota. rewrite Ascii.eqb_refl. apply parse_escaped. Qed.

Lemma dquote_printing : printing dquote.
Proof. unfold printing. cbv. lia. Qed.
Lemma show_string_front v : front_ok (show_string v).
Proof. exists dquote. eexists. split; [done|]. apply dquote_printing. Qed.
Lemma show_string_back v : back_ok (show_string v).
Proof. exists (String dquote (escape v)), dquote. split; [done|]. apply dquote_printing. Qed.
#[local] Hint Resolve show_string_front show_string_back front_ok_app back_ok_app : core.

Lemma show_string_no_char c v : c ≠ dquote → c ≠ backslash → no_char c "nrt" →
  no_char c v ∨ c = newline → no_char c (show_string v).
Proof.
  intros Hq Hb (Hn & Hr & Ht & _) Hv. unfold show_string, quoted. cbn [no_char]. split; [done|]. apply no_char_app.
  split; [|by split]. induction v as [|a v IH]; [done|]. cbn [escape]. apply no_char_app. split.
  - unfold escape_char. repeat match goal with |- context [Ascii.eqb a ?d] => destruct (Ascii.eqb_spec a d) as [->|?] end;
      cbn; split_and!; auto. destruct Hv as [[Hv _]| ->]; done.
  - apply IH. destruct Hv as [[_ Hv]|Hv]; auto.
Qed.

(** Lists. *)
Lemma strip_show_list_items l t :
  strip_comment_from None false (join ", " (show_string <$> l) +:+ t)
  = join ", " (show_string <$> l) +:+ strip_comment_from None false t.
Proof.
  induction l as [|v [|w l] IH]; [done|apply strip_show_string|]. cbn [fmap list_fmap] in *.
  rewrite join_cons2, <- !string_app_assoc, strip_show_string. cbn [String.append strip_comment_from].
  change (Ascii.eqb "," "#") with false. change (is_quote ",") with false. change (Ascii.eqb " " "#") with false.
  change (is_quote " ") with false. cbn iota. by rewrite IH.
Qed.

Lemma array_items_show elements l : Forall2 (λ e v, trim e = show_string v) elements l →
  ∀ acc, array_items acc elements = Ok (acc ++ l).
Proof.
  induction 1 as [|e v es l He H IH]; intros acc; [by rewrite app_nil_r|]. cbn [array_items]. rewrite He.
  change (show_string v) with (String dquote (escape v +:+ String dquote "")) at 1. cbn iota beta.
  change (String dquote (escape v +:+ String dquote "")) with (show_string v).
  rewrite parse_show_string. cbn. rewrite IH. by rewrite <- app_assoc.
Qed.

Lemma split_show_items v l : Forall (no_char ","%char) (v :: l) →
  split_on ","%char (join ", " (show_string <$> v :: l)) = show_string v :: (String " " ∘ show_string <$> l).
Proof.
  assert (∀ v, no_char ","%char v → no_char ","%char (show_string v)) as Hshow.
  { intros x Hx. apply show_string_no_char; [done|done|by split_and!|by left]. }
  revert v. induction l as [|w l IH]; intros v [Hv Hl]%Forall_cons.
  - by apply split_on_no_char, Hshow.
  - cbn [fmap list_fmap] in *. rewrite join_cons2. change (", " +:+ ?x) with (String "," (String " " x)).
    rewrite split_on_app by by apply Hshow. f_equal. cbn [split_on]. change (Ascii.eqb " " ",") with false. cbn iota.
    specialize (IH w Hl). unfold compose in *. rewrite IH. done.
Qed.

Lemma join_framed v l : front_ok (join ", " (show_string <$> v :: l)) ∧ back_ok (join ", " (show_string <$> v :: l)).
Proof.
  revert v. induction l as [|w l IH]; intros v; cbn [fmap list_fmap] in *; [split; [apply show_string_front|apply show_string_back]|].
  rewrite join_cons2. split; [auto|]. apply back_ok_app, back_ok_app, IH.
Qed.

Lemma bracket_printing : printing "["%char ∧ printing "]"%char.
Proof. unfold printing. cbv. lia. Qed.
Lemma show_list_front l : front_ok (show_list l).
Proof. exists "["%char. eexists. split; [done|]. apply bracket_printing. Qed.
Lemma show_list_back l : back_ok (show_list l).
Proof. exists ("[" +:+ join ", " (show_string <$> l)), "]"%char. split; [|apply bracket_printing]. unfold show_list. by rewrite string_app_assoc. Qed.
#[local] Hint Resolve show_list_front show_list_back : core.

Lemma parse_show_list l : Forall (no_char ","%char) l → parse_string_array (show_list l) = Ok l.
Proof.
  intros Hl. unfold parse_string_array. rewrite trim_framed by auto. unfold show_list, strip_prefix.
  rewrite starts_with_app, string_drop_length. cbn [mbind option_bind]. rewrite strip_suffix_app.
  destruct l as [|v l]; [done|]. destruct (join_framed v l) as [Hf Hb]. rewrite trim_framed by done.
  pose proof Hf as (a & t & Hj & _). rewrite Hj at 1. cbn iota. rewrite <- Hj, split_show_items by done.
  apply (array_items_show _ (v :: l)). constructor; [by apply trim_framed|].
  apply Forall2_fmap_l, Forall_Forall2_diag, Forall_true. intros x. by apply trim_space_front.
Qed.

(** Lines. *)
Definition is_key_char (c : ascii) : bool := ((97 <=? code c) && (code c <=? 122) || (code c =? 95))%nat.
Fixpoint key_chars (k : string) : bool :=
  match k with EmptyString => true | String c k => is_key_char c && key_chars k end.
Definition is_key (k : string) : Prop := key_chars k = true ∧ k ≠ "".

Lemma key_char_spec c : is_key_char c = true →
  printing c ∧ Ascii.eqb c "#" = false ∧ is_quote c = false ∧ Ascii.eqb c "=" = false ∧ Ascii.eqb "[" c = false
  ∧ c ≠ newline.
Proof.
  intros H. assert (∀ d, is_key_char d = false → c ≠ d) as Hne by (intros d Hd ->; by rewrite Hd in H).
  unfold is_quote. rewrite !(proj2 (Ascii.eqb_neq _ _)) by (first [apply Hne; done | apply not_eq_sym, Hne; done]).
  split_and!; try done; [|by apply Hne]. unfold is_key_char, printing in *.
  repeat match goal with
  | H : context [(?a <=? ?b)%nat] |- _ => destruct (Nat.leb_spec a b)
  | H : context [(?a =? ?b)%nat] |- _ => destruct (Nat.eqb_spec a b)
  end; cbn in H; try done; lia.
Qed.

Lemma strip_key k t : key_chars k = true → strip_comment_from None false (k +:+ t) = k +:+ strip_comment_from None false t.
Proof.
  induction k as [|c k IH]; [done|]. cbn [key_chars]. intros [Hc Hk]%andb_true_iff.
  apply key_char_spec in Hc as (_ & H1 & H2 & _). cbn [String.append strip_comment_from]. by rewrite H1, H2, IH.
Qed.
Lemma find_equals_key k t : ∀ i, key_chars k = true →
  find_equals_from i None false (k +:+ t) = find_equals_from (i + String.length k) None false t.
Proof.
  induction k as [|c k IH]; intros i; [by rewrite Nat.add_0_r|]. cbn [key_chars]. intros [Hc Hk]%andb_true_iff.
  apply key_char_spec in Hc as (_ & _ & H2 & H3 & _). cbn [String.append find_equals_from String.length].
  rewrite H2, H3, IH by done. f_equal. lia.
Qed.
Lemma key_front k : is_key k → front_ok k.
Proof.
  intros [H Hne]. destruct k as [|c k]; [done|]. apply andb_true_iff in H as [Hc _]. exists c, k. split; [done|].
  by apply key_char_spec in Hc as [? _].
Qed.
Lemma key_back k : is_key k → back_ok k.
Proof.
  intros [H Hne]. induction k as [|c k IH]; [done|]. apply andb_true_iff in H as [Hc H]. destruct k as [|d k].
  - exists "", c. split; [done|]. by apply key_char_spec in Hc as [? _].
  - apply (back_ok_app (String c "")). by apply IH.
Qed.

(** The right-hand sides that are written. *)
Record is_rhs (x : string) : Prop := {
  rhs_plain : strip_comment_from None false x = x;
  rhs_front : front_ok x;
  rhs_back : back_ok x;
}.
Lemma show_string_rhs v : is_rhs (show_string v).
Proof. split; auto. rewrite <- (string_app_nil_r (show_string v)) at 1. by rewrite strip_show_string, string_app_nil_r. Qed.
Lemma show_list_rhs l : is_rhs (show_list l).
Proof.
  split; auto. unfold show_list. cbn [String.append strip_comment_from]. change (Ascii.eqb "[" "#") with false.
  change (is_quote "[") with false. cbn iota. by rewrite strip_show_list_items.
Qed.
Lemma show_bool_rhs b : is_rhs (show_bool b).
Proof.
  split; [by destruct b| |].
  - apply key_front. by destruct b.
  - apply key_back. by destruct b.
Qed.

(** A written assignment is read as one. *)
Lemma parse_line_assignment st n k x : is_key k → is_rhs x →
  parse_line st n (assignment k x) = parse_assignment st n k x.
Proof.
  intros Hk [Hx Hf Hb]. pose proof Hk as [Hc Hne].
  assert (clean (assignment k x) = assignment k x) as Hclean.
  { unfold clean, strip_comment, assignment. rewrite strip_key by done. cbn [String.append strip_comment_from].
    change (Ascii.eqb " " "#") with false. change (is_quote " ") with false. change (Ascii.eqb "=" "#") with false.
    change (is_quote "=") with false. cbn iota. rewrite Hx. apply trim_framed.
    - by apply front_ok_app, key_front.
    - by apply back_ok_app, (back_ok_app " = "). }
  assert (find_unquoted_equals (assignment k x) = Some (String.length k + 1)%nat) as Hfind.
  { unfold find_unquoted_equals, assignment. rewrite find_equals_key by done. cbn. f_equal. lia. }
  assert (String.substring 0 (String.length k + 1) (assignment k x) = k +:+ " ") as Hkey.
  { change 1%nat with (String.length " "). rewrite <- string_app_length. unfold assignment.
    change (k +:+ " = " +:+ x) with (k +:+ " " +:+ "= " +:+ x). rewrite string_app_assoc. apply substring_prefix. }
  assert (string_drop (String.length k + 1 + 1) (assignment k x) = String " " x) as Hrhs.
  { rewrite <- Nat.add_assoc. change (1 + 1)%nat with (String.length " ="). rewrite <- string_app_length. unfold assignment.
    change (k +:+ " = " +:+ x) with (k +:+ " =" +:+ " " +:+ x). rewrite string_app_assoc. apply string_drop_length. }
  destruct k as [|c k]; [done|]. apply andb_true_iff in Hc as [Hc _]. apply key_char_spec in Hc as (_ & _ & _ & _ & Hbr & _).
  unfold parse_line. cbv zeta. rewrite Hclean.
  assert (starts_with "[" (assignment (String c k) x) = false) as Hs by (cbn; by rewrite Hbr).
  assert (∀ h, starts_with "[" h = true → String.eqb (assignment (String c k) x) h = false) as Hh.
  { intros h Hh. apply String.eqb_neq. intros He. by rewrite He, Hh in Hs. }
  change (String.eqb (assignment (String c k) x) "") with false. cbn iota.
  rewrite (Hh "[[capabilities]]"), (Hh "[mcp]"), (Hh "[execution]"), Hs, Hfind, Hkey, Hrhs by done. rewrite trim_space_back by (by apply key_front || by apply key_back).
  cbn iota beta. by rewrite trim_space_front.
Qed.

(** Parts of a document. *)
#[local] Arguments assignment : simpl never.
#[local] Arguments show_list : simpl never.
Definition state (p : RawProfile) (t : Table) : ParseState := {| profile := p; section := t; errors := [] |}.

Lemma parse_lines_app a b : ∀ st n, parse_lines st n (a ++ b) = parse_lines (parse_lines st n a) (n + length a) b.
Proof.
  induction a as [|l a IH]; intros st n; [by rewrite Nat.add_0_r|]. cbn [app parse_lines length]. rewrite IH.
  f_equal. lia.
Qed.

Lemma alter_snoc {A} (f : A → A) l x : alter f (length l) (l ++ [x]) = l ++ [f x].
Proof. rewrite <- (Nat.add_0_r (length l)). by rewrite alter_app_r. Qed.

Lemma read_capability_line p l raw n k v : is_key k →
  parse_line (state (set_capabilities p (l ++ [raw])) (CapabilityTable (length l))) n (assignment k (show_string v))
  = state (set_capabilities p (l ++ [capability_assignment raw k {| value_line := n; value := v |}])) (CapabilityTable (length l)).
Proof.
  intros Hk. rewrite parse_line_assignment by (done || apply show_string_rhs). unfold parse_assignment.
  cbn [section state]. rewrite parse_show_string. unfold state. cbn. by rewrite alter_snoc.
Qed.

Ltac entry_values :=
  unfold capability_assignment, RawCapability_new; eval_eqb; cbn [raw_type raw_path raw_pattern raw_line value value_line];
  cbv zeta; eval_eqb; cbn [orb].

Lemma read_capability c p t n : writable_capability c →
  ∃ raw, (∃ t', parse_lines (state p t) n (show_capability c)
    = state (set_capabilities p (raw_capabilities p ++ [raw])) t')
  ∧ ∀ es, validate_capability raw es = (Some c, es).
Proof.
  intros Hw. unfold writable_capability in Hw. unfold show_capability.
  assert (∀ n, parse_line (state p t) n "[[capabilities]]" = state
    (set_capabilities p (raw_capabilities p ++ [RawCapability_new n])) (CapabilityTable (length (raw_capabilities p)))) as Hh.
  { intros k. unfold state. transitivity {| profile := set_capabilities p (raw_capabilities p ++ [RawCapability_new k]);
      section := CapabilityTable (length (raw_capabilities p ++ [RawCapability_new k]) - 1); errors := [] |}; [done|].
    f_equal. rewrite length_app. cbn. f_equal. lia. }
  destruct (entry_of c) as [[ty [[k v]|]]|] eqn:Hc; [| |done].
  - cbn [app parse_lines]. rewrite Hh, !read_capability_line by (by destruct c; try done; injection Hc as <- <- <-). eexists. split; [by eexists|].
    destruct Hw as [Hne Ht]. intros es. unfold validate_capability, required_path, required_pattern, required_value.
    destruct c; try done; injection Hc as <- <- <-; entry_values; rewrite Ht; by destruct p0 || destruct pattern.
  - cbn [app parse_lines]. rewrite Hh, read_capability_line by done. eexists. split; [by eexists|].
    intros es. destruct c; try done; injection Hc as <-. unfold validate_capability. by entry_values.
Qed.

Lemma read_capabilities caps : ∀ p t n, Forall writable_capability caps →
  ∃ raws, (∃ t', parse_lines (state p t) n (caps ≫= show_capability)
    = state (set_capabilities p (raw_capabilities p ++ raws)) t')
  ∧ length raws = length caps ∧ ∀ acc es, validate_loop raws acc es = (acc ++ caps, es).
Proof.
  induction caps as [|c caps IH]; intros p t n Hw.
  - exists []. split; [|split; [done|]].
    + exists t. cbn. unfold state. by destruct p; cbn; rewrite app_nil_r.
    + intros acc es. by rewrite app_nil_r.
  - apply Forall_cons in Hw as [Hc Hw]. destruct (read_capability c p t n Hc) as (raw & (t1 & Hr) & Hv).
    cbn [mbind list_bind]. rewrite parse_lines_app, Hr.
    destruct (IH (set_capabilities p (raw_capabilities p ++ [raw])) t1 (n + length (show_capability c))%nat Hw)
      as (raws & (t2 & Hrs) & Hlen & Hvs).
    exists (raw :: raws). split; [|split; [by cbn; rewrite Hlen|]].
    + exists t2. rewrite Hrs. cbn. by rewrite <- app_assoc.
    + intros acc es. cbn [validate_loop]. rewrite Hv, Hvs. by rewrite <- app_assoc.
Qed.

Lemma read_mcp_line p m n k x : is_key k → is_rhs x →
  parse_line (state (set_mcp p m) McpTable) n (assignment k x)
  = let '(m, es) := parse_mcp_assignment m k x n [] in
    {| profile := set_mcp p m; section := McpTable; errors := es |}.
Proof. intros Hk Hx. by rewrite parse_line_assignment. Qed.
Lemma read_execution_line p e n k x : is_key k → is_rhs x →
  parse_line (state (set_execution p e) ExecutionTable) n (assignment k x)
  = let '(e, es) := parse_execution_assignment e k x n [] in
    {| profile := set_execution p e; section := ExecutionTable; errors := es |}.
Proof. intros Hk Hx. by rewrite parse_line_assignment. Qed.

Lemma parse_show_bool b : parse_bool_value (show_bool b) = Ok b.
Proof. by destruct b. Qed.

#[local] Hint Resolve show_bool_rhs show_list_rhs show_string_rhs : core.
Ltac table_line :=
  first [rewrite read_mcp_line by first [done | auto] | rewrite read_execution_line by first [done | auto]];
  unfold parse_mcp_assignment, parse_execution_assignment, RawMcp_new, RawExecution_default; eval_eqb;
  rewrite ?parse_show_bool, ?parse_show_list by done; cbn [assign raw_module_dirs raw_daemon_auth_required];
  match goal with
  | |- context [{| profile := ?p; section := ?t; errors := [] |}] =>
      change {| profile := p; section := t; errors := [] |} with (state p t)
  end.

Lemma read_mcp q p t n : raw_mcp p = None → Forall (no_char ","%char) (default [] q.(tool_allowlist)) →
  ∃ m, parse_lines (state p t) n (show_mcp q) = state (set_mcp p m) McpTable ∧ mcp_policy_from_raw (Some m) = q.
Proof.
  intros Hp Hl. assert (parse_line (state p t) n "[mcp]" = state (set_mcp p RawMcp_new) McpTable) as Hh.
  { transitivity (state (set_mcp p (mcp_or_new p)) McpTable); [done|]. unfold mcp_or_new. by rewrite Hp. }
  destruct q as [allowlist b1 b2 b3 b4 b5 b6]. unfold show_mcp. cbn in Hl |- *. rewrite Hh.
  destruct allowlist as [l|]; cbn [app parse_lines default] in *; repeat table_line; by eexists.
Qed.
Lemma read_execution q p t n : raw_execution p = None → Forall (no_char ","%char) q.(module_dirs) →
  ∃ e, parse_lines (state p t) n (show_execution q) = state (set_execution p e) ExecutionTable
       ∧ execution_policy_from_raw (Some e) = q.
Proof.
  intros Hp Hl. assert (parse_line (state p t) n "[execution]" = state (set_execution p RawExecution_default) ExecutionTable) as Hh.
  { transitivity (state (set_execution p (execution_or_new p)) ExecutionTable); [done|]. unfold execution_or_new. by rewrite Hp. }
  destruct q as [dirs b]. unfold show_execution. cbn in Hl |- *. rewrite Hh. repeat table_line. by eexists.
Qed.

(** The text splits back into the lines. *)
Lemma strip_carriage_back l : back_ok l → strip_carriage l = l.
Proof.
  intros (t & z & Hr & Hz)%back_ok_rev. unfold strip_carriage, strip_suffix, strip_prefix. rewrite Hr.
  change (string_rev (String carriage "")) with (String carriage ""). cbn [starts_with].
  destruct (Ascii.eqb_spec carriage t) as [<-|?]; [|done]. exfalso. revert Hz. unfold printing. cbv. lia.
Qed.
Lemma back_ok_nonempty l : back_ok l → String.eqb l "" = false.
Proof. intros (t & z & -> & _). by destruct t. Qed.

Lemma lines_join ls : Forall (λ l, no_char newline l ∧ back_ok l) ls → lines (join (String newline "") ls) = ls.
Proof.
  unfold lines. induction 1 as [|l ls [Hn Hb] H IH]; [done|]. destruct ls as [|l2 ls].
  - change (join (String newline "") [l]) with l. rewrite split_on_no_char by done. cbn. by rewrite back_ok_nonempty.
  - rewrite join_cons2. change (String newline "" +:+ ?x) with (String newline x). rewrite split_on_app by done.
    destruct (split_on newline (join (String newline "") (l2 :: ls))) as [|p ps] eqn:Hs; [by destruct (split_on_nonempty _ _ Hs)|].
    cbn [strip_ends] in *. rewrite IH. by rewrite strip_carriage_back.
Qed.

Lemma key_no_newline k : key_chars k = true → no_char newline k.
Proof.
  induction k as [|c k IH]; [done|]. cbn [key_chars]. intros [Hc Hk]%andb_true_iff. split; [|by apply IH].
  by apply key_char_spec in Hc as (_ & _ & _ & _ & _ & ?).
Qed.
Lemma show_string_no_newline v : no_char newline (show_string v).
Proof. apply show_string_no_char; [done..|by split_and!|by right]. Qed.
Lemma show_list_no_newline l : no_char newline (show_list l).
Proof.
  unfold show_list. rewrite !no_char_app. split; [by split|]. split; [|by split].
  induction l as [|v [|w l] IH]; [done|apply show_string_no_newline|].
  cbn [fmap list_fmap] in *. rewrite join_cons2. rewrite !no_char_app.
  split; [apply show_string_no_newline|]. split; [by split_and!|apply IH].
Qed.

Definition line_ok (l : string) : Prop := no_char newline l ∧ back_ok l.
Lemma line_ok_assignment k x : is_key k → no_char newline x → back_ok x → line_ok (assignment k x).
Proof.
  intros [Hk _] Hx Hb. unfold assignment. split.
  - rewrite !no_char_app. split; [by apply key_no_newline|]. split; [by split_and!|done].
  - by apply back_ok_app, (back_ok_app " = ").
Qed.
Lemma line_ok_string k v : is_key k → line_ok (assignment k (show_string v)).
Proof. intros Hk. apply line_ok_assignment; [done|apply show_string_no_newline|auto]. Qed.
Lemma line_ok_list k l : is_key k → line_ok (assignment k (show_list l)).
Proof. intros Hk. apply line_ok_assignment; [done|apply show_list_no_newline|auto]. Qed.
Lemma line_ok_bool k b : is_key k → line_ok (assignment k (show_bool b)).
Proof. intros Hk. apply line_ok_assignment; [done|by destruct b; split_and!|apply (show_bool_rhs b)]. Qed.
Lemma line_ok_header h : h ∈ headers → line_ok h.
Proof.
  assert (∀ s, no_char newline (s +:+ "]") → line_ok (s +:+ "]")) as Hs.
  { intros s Hn. split; [done|]. exists s, "]"%char. split; [done|]. apply bracket_printing. }
  intros Hh. repeat (apply elem_of_cons in Hh as [->|Hh]); [| | |by apply elem_of_nil in Hh].
  - apply (Hs "[[capabilities]"). by split_and!.
  - apply (Hs "[mcp"). by split_and!.
  - apply (Hs "[execution"). by split_and!.
Qed.

Lemma show_lines_ok m : Forall line_ok (show_lines m).
Proof.
  assert (∀ h, h ∈ headers → line_ok h) as Hh by apply line_ok_header.
  assert ("[[capabilities]]" ∈ headers ∧ "[mcp]" ∈ headers ∧ "[execution]" ∈ headers) as (H1 & H2 & H3)
    by (unfold headers; set_solver).
  unfold show_lines. apply Forall_app_2; [|apply Forall_app_2; [|apply Forall_app_2]].
  - apply Forall_singleton. by apply line_ok_string.
  - apply Forall_bind, Forall_true. intros c. change (Forall line_ok (show_capability c)). unfold show_capability.
    destruct (entry_of c) as [[ty [[k v]|]]|] eqn:Hc; cbn [app]; repeat (apply Forall_cons_2 || apply Forall_nil_2);
      auto; apply line_ok_string; try done; by destruct c; try done; injection Hc as <- <- <-.
  - unfold show_mcp. destruct (tool_allowlist (mcp m)); 
      cbn [app]; repeat (apply Forall_cons_2 || apply Forall_nil_2); auto; (by apply line_ok_list) || by apply line_ok_bool.
  - unfold show_execution. 
      cbn [app]; repeat (apply Forall_cons_2 || apply Forall_nil_2); auto; (by apply line_ok_list) || by apply line_ok_bool.
Qed.


(** ** A concrete profile *)

Module ToyProfile.
Definition manifest : CapabilityProfileManifest :=
  {| name := "reader # 1";
     capabilities := [ReadFile "/data/a=b"; HttpGet "https://x/*"; MemoryPreview];
     mcp := {| tool_allowlist := Some ["nexus_execute"; "it's"]; snapshot_enabled := true; fork_enabled := false;
               proof_enabled := false; wasi_enabled := false; instinct_enabled := false; retry_enabled := true |};
     execution := {| module_dirs := ["/mods"]; daemon_auth_required := true |} |}.
Lemma manifest_writable : writable manifest.
Proof.
  split; cbn -[trim]; [by vm_compute|done| | |].
  - repeat constructor; try done; by vm_compute.
  - apply (bool_decide_unpack _). by vm_compute.
  - apply (bool_decide_unpack _). by vm_compute.
Qed.
End ToyProfile.


Lemma policies_are_explicit_witness :
  ToyProfile.manifest.(mcp).(snapshot_enabled) = true
  ∧ (∃ rhs, setting (settings (show_manifest ToyProfile.manifest)) "[mcp]" "snapshot_enabled" = Some rhs ∧ trim rhs = "true").
Proof.
  split; [done|].
  destruct (policies_are_explicit "/p.toml" (show_manifest ToyProfile.manifest) ToyProfile.manifest
    ltac:(by vm_compute)) as (_ & _ & _ & [Hs _] & _). by apply Hs.
Defined.
