(* ===== verification/McpGate.v ===== *)
(** * The gate of the MCP server: [src/bin/nexus_mcp.rs]

    What an MCP client may call and what it may be granted: the profile's switches, the
    operator's allowlist, the minting of tokens for one request, and the module
    directories.  An [anyhow] error is an error of the library or a text.  UUID texts and
    the JSON of the allowlist variable are parsed by [McpLib]; the disk is [HostFs]. *)

From S2P Require Import Prelude Errors LexPath UrlGuard Capability Tokens HostFs Wasi Profile.

Inductive AnyError := Nexus (e : NexusError) | Anyhow (m : Msg).

Record CapabilitySpec := { spec_type : string; spec_path : option string }.

Class McpLib := {
  parse_uuid : string → option Uuid;
  parse_specs : string → option (list CapabilitySpec);
  base64_encode : list byte → string;
}.

(** ** Denials and switches *)

Definition prefixed (prefix : string) (m : Msg) : Msg :=
  match m with Lit s => Lit (prefix +:+ s) | Fmt t args => Fmt (prefix +:+ t) args end.
Definition profile_denial (detail : Msg) : AnyError :=
  Nexus (CapabilityDenied (prefixed "capability not permitted by active profile: " detail)).

(** The parts of the server that decide; the rest is its hypervisor. *)
Record GateConfig := {
  wasm_module_dirs : list PathBuf;
  capability_allowlist : option (list Capability);
  capability_profile : option CapabilityProfileManifest;
  forced_tool_allowlist : option (list string);
}.

Definition NEXUS_MCP_HTTP_READ_ONLY_TOOL_ALLOWLIST : list string :=
  ["nexus_get_history"; "nexus_get_stats"; "nexus_instinct_stats"; "nexus_instinct_query";
   "nexus_instinct_export"; "nexus_aeon_execute_timeline"].

Definition ensure_tool_allowed (g : GateConfig) (tool : string) : result () AnyError :=
  match (match g.(forced_tool_allowlist) with
         | Some allowlist => existsb (String.eqb tool) allowlist
         | None => true
         end) with
  | false => Err (profile_denial (Fmt "tool {tool} is not allowed in HTTP read-only mode" [AStr tool]))
  | true =>
      match g.(capability_profile) with
      | None => Ok ()
      | Some profile =>
          if allows_tool profile.(mcp) tool then Ok ()
          else Err (profile_denial (Fmt "tool {tool} is not in the MCP tool allowlist" [AStr tool]))
      end
  end.

Definition ensure_switch (switch : McpPolicy → bool) (detail : string) (g : GateConfig) : result () AnyError :=
  match g.(capability_profile) with
  | None => Ok ()
  | Some profile => if switch profile.(mcp) then Ok () else Err (profile_denial (Lit detail))
  end.
Definition ensure_snapshot_enabled := ensure_switch snapshot_enabled "snapshot tools are disabled by the active profile".
Definition ensure_fork_enabled := ensure_switch fork_enabled "fork_and_race is disabled by the active profile".
Definition ensure_proof_enabled := ensure_switch proof_enabled "nexus_execute_proof is disabled by the active profile".
Definition ensure_wasi_enabled := ensure_switch wasi_enabled "nexus_execute_wasi is disabled by the active profile".
Definition ensure_instinct_enabled := ensure_switch instinct_enabled "instinct tools are disabled by the active profile".
Definition ensure_retry_enabled := ensure_switch retry_enabled "nexus_execute_retry is disabled by the active profile".

(** ** Requests for capabilities *)

Definition MAX_TOKEN_VALIDITY_SECS : Z := 3600.
Definition NEXUS_MEMORY_PREVIEW_CAPABILITY : string := "nexus:memory_preview".
(** [Duration::from_secs], in nanoseconds. *)
Definition from_secs (secs : Z) : Z := secs * 1000000000.

Definition sanitize_token_request (capability : Capability) (requested_secs : option Z)
  : result (Capability * Z) AnyError :=
  match capability with
  | AllCaps => Err (Anyhow (Lit "capability 'all' cannot be issued to MCP clients; request a specific capability"))
  | _ => Ok (capability, Z.min (default MAX_TOKEN_VALIDITY_SECS requested_secs) MAX_TOKEN_VALIDITY_SECS)
  end.

Definition parse_capability_from_str (cap_type : string) (path : option string) : option Capability :=
  let t := String.eqb cap_type in
  if t "read_file" then ReadFile <$> path
  else if t "write_file" then WriteFile <$> path
  else if t "list_dir" then ListDirectory <$> path
  else if t "http_get" then HttpGet <$> path
  else if t "http_post" then HttpPost <$> path
  else if t "execute" then ExecuteBinary <$> path
  else if t "mount_tmpfs" then MountTmpfs <$> path
  else if t "read_memory" then ReadMemory <$> (path ≫= scope_parse)
  else if t "write_memory" then WriteMemory <$> (path ≫= scope_parse)
  else if t "memory_preview" || t NEXUS_MEMORY_PREVIEW_CAPABILITY then Some MemoryPreview
  else if t "all" then Some AllCaps
  else None.

Definition unknown_capability (cap_type : string) : AnyError :=
  Anyhow (Fmt "Unknown capability type: {}" [AStr cap_type]).

Definition parse_capability (spec : CapabilitySpec) : result Capability AnyError :=
  let among := existsb (String.eqb spec.(spec_type)) in
  let missing := match spec.(spec_path) with None => true | Some _ => false end in
  if among ["read_file"; "write_file"; "list_dir"; "execute"; "mount_tmpfs"; "read_memory"; "write_memory"] && missing
  then Err (Anyhow (Fmt "capability type '{}' requires a 'path' field" [AStr spec.(spec_type)]))
  else if among ["http_get"; "http_post"] && missing
  then Err (Anyhow (Fmt "capability type '{}' requires a 'path' (URL pattern) field" [AStr spec.(spec_type)]))
  else ok_or (parse_capability_from_str spec.(spec_type) spec.(spec_path)) (unknown_capability spec.(spec_type)).

Definition capability_allowed_by (allowlist : list Capability) (capability : Capability) : bool :=
  existsb (is_subset_of capability) allowlist.

(** [capability_allowlist_from_env]; a set variable holds text, or bytes that are not. *)
Definition capability_allowlist_from_env `{M : McpLib} (var : option (option string))
  : result (option (list Capability)) AnyError :=
  match var with
  | None => Ok None
  | Some None =>
      Err (Anyhow (Lit "NEXUS_MCP_CAPABILITY_ALLOWLIST must be a UTF-8 JSON array of capability objects"))
  | Some (Some raw) =>
      match parse_specs raw with
      | None =>
          Err (Anyhow (Fmt "NEXUS_MCP_CAPABILITY_ALLOWLIST must be a JSON array of capability objects: {e}" [AOpaque]))
      | Some specs =>
          let? l := result_mapM (λ spec,
            let? capability := parse_capability spec in
            let? sane := result_map_err
              (λ _, Anyhow (Fmt "invalid NEXUS_MCP_CAPABILITY_ALLOWLIST entry {:?}: {e}" [AOpaque; AOpaque]))
              (sanitize_token_request capability None) in
            Ok sane.1) specs in
          Ok (Some l)
      end
  end.

Definition no_allowlist : AnyError :=
  Nexus (CapabilityDenied (Lit "capability not permitted by active profile: no operator allowlist configured")).
Definition not_in_allowlist : AnyError :=
  Nexus (CapabilityDenied (Lit "capability not permitted by active profile: requested capability not in allowlist")).

Definition ensure_operator_allowlisted (g : GateConfig) (capability : Capability) : result () AnyError :=
  match g.(capability_allowlist) with
  | None => Err no_allowlist
  | Some allowlist => if capability_allowed_by allowlist capability then Ok () else Err not_in_allowlist
  end.

(** ** Checks on tokens *)

Fixpoint check_tokens_fresh (now : DateTime) (tokens : list CapabilityToken) : result () NexusError :=
  match tokens with
  | [] => Ok ()
  | token :: tokens =>
      if is_valid now token then check_tokens_fresh now tokens
      else Err (InvalidCapability (Lit (safe_message TokenExpired)))
  end.

Fixpoint check_permitted (tokens : list CapabilityToken) (manifest : CapabilityProfileManifest) : result () NexusError :=
  match tokens with
  | [] => Ok ()
  | token :: tokens =>
      if existsb (λ allowed, allows allowed token.(tok_capability)) manifest.(capabilities)
      then check_permitted tokens manifest
      else Err (CapabilityDenied (Fmt "capability not permitted by active profile: {}"
                  [AStr (description token.(tok_capability))]))
  end.
Definition check_tokens_against_profile (now : DateTime) (tokens : list CapabilityToken)
    (manifest : CapabilityProfileManifest) : result () NexusError :=
  let? _ := check_tokens_fresh now tokens in check_permitted tokens manifest.

Definition caller_has_memory_preview (now : DateTime) (tokens : list CapabilityToken) : bool :=
  existsb (λ token, token_allows now token MemoryPreview) tokens.

Section Minting.
Context `{U : UrlLib} `{C : CryptoLib} `{M : McpLib}.

Definition check_tokens_against_active_profile (g : GateConfig) (m : CapabilityManager) (now : DateTime)
    (tokens : list CapabilityToken) : result () AnyError :=
  if existsb (λ token, is_revoked m token.(tok_id)) tokens
  then Err (Anyhow (Lit "capability token has been revoked"))
  else result_map_err Nexus
         match g.(capability_profile) with
         | Some profile => check_tokens_against_profile now tokens profile
         | None => check_tokens_fresh now tokens
         end.

(** One token per capability, up to the first refusal; what was minted stays registered.
    [ids] are the identifiers drawn, from [k] on. *)
Fixpoint attenuate_all (m : CapabilityManager) (parent : Uuid) (now : DateTime) (ids : nat → Uuid) (k : nat)
    (requests : list (Capability * Z)) : CapabilityManager * result (list CapabilityToken) AnyError :=
  match requests with
  | [] => (m, Ok [])
  | (capability, secs) :: requests =>
      match attenuate m parent capability "mcp_client" (from_secs secs) now (ids k) with
      | Err _ =>
          (m, Err (Nexus (CapabilityDenied (Lit "capability not permitted by active profile: requested capability outside parent token scope"))))
      | Ok (token, m) =>
          let '(m, r) := attenuate_all m parent now ids (S k) requests in
          (m, let? tokens := r in Ok (token :: tokens))
      end
  end.

Fixpoint issue_all (m : CapabilityManager) (allowlist : list Capability) (now : DateTime) (ids : nat → Uuid) (k : nat)
    (requests : list (Capability * Z)) : CapabilityManager * result (list CapabilityToken) AnyError :=
  match requests with
  | [] => (m, Ok [])
  | (capability, secs) :: requests =>
      if capability_allowed_by allowlist capability then
        match issue m capability "mcp_operator_allowlist" (from_secs secs) now (ids k) with
        | Err e => (m, Err (Nexus e))
        | Ok (token, m) =>
            let '(m, r) := issue_all m allowlist now ids (S k) requests in
            (m, let? tokens := r in Ok (token :: tokens))
        end
      else (m, Err not_in_allowlist)
  end.

Definition execute_wasi_tokens (g : GateConfig) (m : CapabilityManager) (now : DateTime) (ids : nat → Uuid)
    (capabilities : list Capability) (parent_token_id : option string)
  : CapabilityManager * result (list CapabilityToken) AnyError :=
  match capabilities with
  | [] => (m, Ok [])
  | _ =>
      match result_mapM (λ c, sanitize_token_request c None) capabilities with
      | Err e => (m, Err e)
      | Ok sanitized =>
          match parent_token_id with
          | Some text =>
              match parse_uuid text with
              | None => (m, Err (Anyhow (Fmt "invalid parent_token_id '{parent_token_id}': {e}" [AStr text; AOpaque])))
              | Some parent => attenuate_all m parent now ids 0 sanitized
              end
          | None =>
              match g.(capability_allowlist) with
              | None => (m, Err no_allowlist)
              | Some allowlist => issue_all m allowlist now ids 0 sanitized
              end
          end
      end
  end.
End Minting.

(** ** Module paths *)

Definition pop_comps (cs : list Component) : option (list Component) :=
  match last cs with
  | None | Some RootDir => None
  | Some _ => Some (removelast cs)
  end.
Definition lexical_step (is_absolute : bool) (normalized : list Component) (c : Component) : list Component :=
  match c with
  | CurDir => normalized
  | ParentDir =>
      match pop_comps normalized with
      | Some normalized => normalized
      | None => if is_absolute then normalized else normalized ++ [ParentDir]
      end
  | _ => path_push normalized c
  end.
Definition lexical_normalize_path (path : PathBuf) : list Component :=
  fold_left (lexical_step (starts_with "/" path)) (components path) [].

Definition path_is_lexically_allowed (path : PathBuf) (allowed_dirs : list PathBuf) : bool :=
  existsb (λ dir, comps_prefix (lexical_normalize_path dir) (lexical_normalize_path path)) allowed_dirs.

Definition is_file (fs : Fs) (p : PathBuf) : bool :=
  match resolve fs p with Ok loc => bool_decide (node_at fs loc = Some NFile) | Err _ => false end.

Definition resolve_wasm_path (fs : Fs) (wasm_path : PathBuf) (allowed_dirs : list PathBuf) : result PathBuf AnyError :=
  let outside := Nexus (FilesystemError (Fmt "wasm path '{}' is outside allowed MCP module directories" [AStr wasm_path])) in
  if negb (path_is_lexically_allowed (absolute_mount_path fs wasm_path) allowed_dirs) then Err outside
  else match canonicalize fs wasm_path with
       | Err _ => Err (Nexus (FilesystemError (Fmt "wasm path '{}' not found or inaccessible" [AStr wasm_path])))
       | Ok canonical =>
           if negb (is_file fs canonical)
           then Err (Nexus (FilesystemError (Fmt "wasm path '{}' is not a file" [AStr wasm_path])))
           else if existsb (λ dir, comps_prefix (components dir) (components canonical)) allowed_dirs
           then Ok canonical
           else Err outside
       end.

(** [canonicalize_module_dirs] and [allowed_wasm_module_dirs], which share the loop. *)
Definition canonical_dir (fs : Fs) (what : string) (dir : PathBuf) : result PathBuf AnyError :=
  match canonicalize fs dir with
  | Err _ => Err (Anyhow (Fmt (what +:+ " '{}': {e}") [AStr dir; AOpaque]))
  | Ok canonical =>
      if is_dir fs canonical then Ok canonical
      else Err (Anyhow (Fmt (what +:+ " '{}': not a directory") [AStr dir]))
  end.
Definition canonicalize_module_dirs (fs : Fs) (dirs : list PathBuf) : result (list PathBuf) AnyError :=
  match dirs with
  | [] => Err (Anyhow (Lit "profile execution.module_dirs must contain at least one directory"))
  | _ => result_mapM (canonical_dir fs "invalid profile module dir") dirs
  end.
