(* ===== verification/Speculative.v ===== *)
(** * Speculative recovery: [src/hypervisor/speculative.rs]

    [fork_and_race] launches branches and takes the first success.  The order in which
    the branches complete is the interface [Scheduler], any permutation of the launched
    ones; a branch acts on the shared state [S] when it completes, and one that exceeds
    its time-out answers [None].  [speculative_execute] of [src/hypervisor/mod.rs] is the
    instance whose branches run from a snapshot on the hypervisor. *)

From S2P Require Import Prelude Errors Floats UrlGuard LexPath Capability Tokens Compression.
From S2P Require Import Snapshot Differential SnapshotManager Fuel Failure Telemetry Instinct Execution.

Inductive SelectionStrategy := FirstSuccess | WaitAll.
Record SpeculativeConfig := {
  max_branches : nat;
  branch_timeout_ms : Z;
  selection_strategy : SelectionStrategy;
}.
Definition SpeculativeConfig_default : SpeculativeConfig :=
  {| max_branches := 4; branch_timeout_ms := 5000; selection_strategy := FirstSuccess |}.

Record SpeculativeBranch := {
  branch_id : Uuid;
  base_snapshot_id : Uuid;
  branch_tool : ToolDefinition;
  branch_strategy : RecoveryAction;
}.
Definition branch_new (id base : Uuid) (tool : ToolDefinition) (strategy : RecoveryAction) : SpeculativeBranch :=
  {| branch_id := id; base_snapshot_id := base; branch_tool := tool; branch_strategy := strategy |}.

Record BranchOutcome := {
  outcome_id : Uuid;
  outcome_succeeded : bool;
  outcome_output : option ToolOutput;
  outcome_error : option Msg;
  elapsed : Z;
  timed_out : bool;
}.
Record SpeculativeResult := {
  winner : BranchOutcome;
  branches_tried : nat;
  branches_succeeded : nat;
}.

Class Scheduler := {
  completion_order : list SpeculativeBranch → list SpeculativeBranch;
  completion_perm l : completion_order l ≡ₚ l;
}.

(** What a branch reports: how long it took and, unless it timed out, its result. *)
Definition Report : Type := Z * option (result ToolOutput NexusError).

Definition outcome_of (b : SpeculativeBranch) (r : Report) : BranchOutcome :=
  match r.2 with
  | Some (Ok output) =>
      {| outcome_id := b.(branch_id); outcome_succeeded := output.(out_success); outcome_output := Some output;
         outcome_error := if output.(out_success) then None else Lit <$> output.(out_error);
         elapsed := r.1; timed_out := false |}
  | Some (Err e) =>
      {| outcome_id := b.(branch_id); outcome_succeeded := false; outcome_output := None;
         outcome_error := Some (Fmt "{e}" [AOpaque]); elapsed := r.1; timed_out := false |}
  | None =>
      {| outcome_id := b.(branch_id); outcome_succeeded := false; outcome_output := None;
         outcome_error := Some (Fmt "branch timed out after {timeout:?}" [AOpaque]);
         elapsed := r.1; timed_out := true |}
  end.

Section Race.
Context {S : Type} `{Sch : Scheduler}.
Variable exec : S → SpeculativeBranch → option (S * Report).

Definition no_winner (tried : nat) : NexusError :=
  WasmError (Fmt "all {tried} speculative branches failed or timed out without a success [{}]"
               [ANum (Z.of_nat tried); AOpaque]).

(** The completion loop. *)
Fixpoint race (strategy : SelectionStrategy) (tried succeeded : nat) (completed : list BranchOutcome)
    (running : list SpeculativeBranch) (s : S) : option (S * result SpeculativeResult NexusError) :=
  match running with
  | [] =>
      Some (s, match find outcome_succeeded completed with
               | Some w => Ok {| winner := w; branches_tried := tried; branches_succeeded := succeeded |}
               | None => Err (no_winner tried)
               end)
  | b :: running =>
      match exec s b with
      | None => None
      | Some (s, report) =>
          let outcome := outcome_of b report in
          let succeeded := if outcome.(outcome_succeeded) then Datatypes.S succeeded else succeeded in
          match strategy with
          | FirstSuccess =>
              if outcome.(outcome_succeeded)
              then Some (s, Ok {| winner := outcome; branches_tried := tried; branches_succeeded := succeeded |})
              else race strategy tried succeeded (completed ++ [outcome]) running s
          | WaitAll => race strategy tried succeeded (completed ++ [outcome]) running s
          end
      end
  end.

Definition launched (branches : list SpeculativeBranch) (config : SpeculativeConfig) : list SpeculativeBranch :=
  take (Nat.max config.(max_branches) 1) branches.

Definition fork_and_race (branches : list SpeculativeBranch) (config : SpeculativeConfig) (s : S)
  : option (S * result SpeculativeResult NexusError) :=
  match branches with
  | [] => Some (s, Err (ConfigError (Lit "speculative execution requires at least one branch")))
  | _ =>
      let launched := launched branches config in
      race config.(selection_strategy) (length launched) 0 [] (completion_order launched) s
  end.

(** ** What a race amounts to *)

(** The branches of a list running to completion one after the other. *)
Inductive runs : S → list SpeculativeBranch → list BranchOutcome → S → Prop :=
| runs_nil s : runs s [] [] s
| runs_cons s s1 s2 b bs report outs :
    exec s b = Some (s1, report) → runs s1 bs outs s2 → runs s (b :: bs) (outcome_of b report :: outs) s2.

Definition wins (outs : list BranchOutcome) : nat := length (List.filter outcome_succeeded outs).

(** The first success in the order of completion: the failures before it, the winner and
    the rest. *)
Record first_success (s : S) (order : list SpeculativeBranch) (s2 : S) (rest : list SpeculativeBranch)
    (w : BranchOutcome) : Prop := {
  fs_split : ∃ before b outs s1 took output,
    order = before ++ b :: rest ∧ runs s before outs s1 ∧ wins outs = 0%nat
    ∧ exec s1 b = Some (s2, (took, Some (Ok output))) ∧ output.(out_success) = true
    ∧ w = outcome_of b (took, Some (Ok output));
}.

Lemma outcome_won b report : outcome_succeeded (outcome_of b report) = true →
  ∃ took output, report = (took, Some (Ok output)) ∧ output.(out_success) = true.
Proof.
  destruct report as [took [[output|e]|]]; cbn; [|done..]. intros H. by exists took, output.
Qed.

Lemma first_success_later s s1 s2 b order rest w report :
  exec s b = Some (s1, report) → outcome_succeeded (outcome_of b report) = false →
  first_success s1 order s2 rest w → first_success s (b :: order) s2 rest w.
Proof.
  intros He Hf [(before & b' & outs & s1' & took & output & -> & Hr & Hw & Hrest)]. constructor.
  exists (b :: before), b', (outcome_of b report :: outs), s1', took, output.
  split; [done|]. split; [by eapply runs_cons|]. split; [|done]. unfold wins. cbn. by rewrite Hf.
Qed.

Lemma first_success_now s s1 b order report :
  exec s b = Some (s1, report) → outcome_succeeded (outcome_of b report) = true →
  first_success s (b :: order) s1 order (outcome_of b report).
Proof.
  intros He Hw. destruct (outcome_won _ _ Hw) as (took & output & -> & Hs). constructor.
  exists [], b, [], s, took, output. split_and!; try done. by constructor.
Qed.

Lemma wins_snoc l o : wins (l ++ [o]) = (wins l + if outcome_succeeded o then 1 else 0)%nat.
Proof. unfold wins. rewrite List.filter_app, length_app. cbn. by destruct (outcome_succeeded o). Qed.

Lemma find_none_wins (l : list BranchOutcome) : wins l = 0%nat → find outcome_succeeded l = None.
Proof.
  unfold wins. induction l as [|a l IH]; [done|]. cbn. destruct (outcome_succeeded a); [done|exact IH].
Qed.

Lemma runs_total s order : (∀ s b, is_Some (exec s b)) → ∃ outs s', runs s order outs s'.
Proof.
  intros Ht. revert s. induction order as [|b order IH]; intros s; [by eexists _, _; constructor|].
  destruct (Ht s b) as [[s1 report] He]. destruct (IH s1) as (outs & s2 & Hr).
  eexists _, _. by econstructor.
Qed.

Lemma race_wait_all tried n completed order s outs s' :
  runs s order outs s' → n = wins completed →
  race WaitAll tried n completed order s
  = Some (s', match find outcome_succeeded (completed ++ outs) with
              | Some w => Ok {| winner := w; branches_tried := tried; branches_succeeded := (n + wins outs)%nat |}
              | None => Err (no_winner tried)
              end).
Proof.
  intros Hr. revert n completed. induction Hr as [s|s s1 s2 b bs report outs He Hr IH]; intros n completed Hn.
  - cbn [race]. rewrite app_nil_r. unfold wins. cbn. by rewrite Nat.add_0_r.
  - cbn [race]. rewrite He, IH by (rewrite wins_snoc; destruct (outcome_succeeded _); lia).
    rewrite <- app_assoc. cbn [app]. unfold wins at 2. cbn [List.filter].
    destruct (outcome_succeeded (outcome_of b report)); cbn [length]; [|done].
    fold (wins outs). by rewrite Nat.add_succ_r.
Qed.

Lemma race_first tried completed order s outs sall :
  runs s order outs sall → wins completed = 0%nat →
  match find outcome_succeeded outs with
  | Some w => ∃ s' rest, first_success s order s' rest w
      ∧ race FirstSuccess tried 0 completed order s
        = Some (s', Ok {| winner := w; branches_tried := tried; branches_succeeded := 1 |})
  | None => race FirstSuccess tried 0 completed order s = Some (sall, Err (no_winner tried))
  end.
Proof.
  intros Hr. revert completed. induction Hr as [s|s s1 s2 b bs report outs He Hr IH]; intros completed Hc.
  - cbn [find race]. apply find_none_wins in Hc. by rewrite Hc.
  - cbn [find race]. rewrite He. destruct (outcome_succeeded (outcome_of b report)) eqn:Hw.
    + eexists _, _. split; [by eapply first_success_now|done].
    + specialize (IH (completed ++ [outcome_of b report]) ltac:(by rewrite wins_snoc, Hc, Hw)).
      destruct (find outcome_succeeded outs) as [w|]; [|done].
      destruct IH as (s' & rest & Hf & Hrace). exists s', rest. split; [by eapply first_success_later|done].
Qed.
End Race.

(** A race returns the first success.  Let [outs] be the outcomes of the launched
    branches, at most [max_branches] of them, all run in the order of completion.  The
    race answers, and its winner is the first success in [outs], under either selection
    strategy; without one it fails.  [FirstSuccess] stops in the state the winner left,
    so no later branch runs; [WaitAll] runs them all and counts the successes. *)
Theorem race_returns_first_success {S : Type} `{Sch : Scheduler} (exec : S → SpeculativeBranch → option (S * Report))
    (branches : list SpeculativeBranch) (config : SpeculativeConfig) (s : S) :
  (∀ s b, is_Some (exec s b)) → branches ≠ [] →
  let order := completion_order (launched branches config) in
  ∃ outs sall s' r, runs exec s order outs sall ∧ fork_and_race exec branches config s = Some (s', r)
    ∧ match find outcome_succeeded outs with
      | Some w => ∃ n, r = Ok {| winner := w; branches_tried := length order; branches_succeeded := n |}
          ∧ match config.(selection_strategy) with
            | FirstSuccess => n = 1%nat ∧ ∃ rest, first_success exec s order s' rest w
            | WaitAll => n = wins outs ∧ s' = sall
            end
      | None => r = Err (no_winner (length order)) ∧ s' = sall
      end.
Proof.
  intros Ht Hne order. destruct (runs_total exec s order Ht) as (outs & sall & Hr).
  exists outs, sall. unfold fork_and_race. destruct branches as [|b bs]; [done|].
  rewrite <- (Permutation_length (completion_perm (launched (b :: bs) config))). fold order.
  destruct (selection_strategy config).
  - pose proof (race_first exec (length order) [] order s outs sall Hr eq_refl) as H.
    destruct (find outcome_succeeded outs) as [w|].
    + destruct H as (s' & rest & Hf & Hrace). eexists _, _. split; [done|]. split; [exact Hrace|].
      exists 1%nat. split; [done|]. split; [done|]. by exists rest.
    + eexists _, _. split; [done|]. by split; [exact H|].
  - pose proof (race_wait_all exec (length order) 0 [] order s outs sall Hr eq_refl) as H. cbn [app Nat.add] in H.
    eexists _, _. split; [done|]. split; [exact H|].
    destruct (find outcome_succeeded outs) as [w|]; [|done]. by exists (wins outs).
Qed.

(** ** Branches on the hypervisor *)

Section Speculate.
Context `{U : UrlLib} `{C : CryptoLib} `{Zs : ZstdLib} `{Hi : HashIter} `{E : SnapEnv} `{Io : InstinctIo} `{G : Guest}
  `{Sch : Scheduler}.

(** [execute_tool_from_snapshot] of each branch; without a pool it runs to its end when it
    is first polled, so its time-out cannot fire.  [calls] are the branches' readings. *)
Definition speculative_execute (dbg : Capability → string) (calls : Uuid → Call) (h : NexusHypervisor)
    (branches : list SpeculativeBranch) (config : SpeculativeConfig)
  : option (NexusHypervisor * result SpeculativeResult NexusError) :=
  fork_and_race (λ h b,
    let c := calls b.(branch_id) in
    match execute_tool_from_snapshot_with_tokens dbg h c b.(base_snapshot_id) b.(branch_tool) [] with
    | None => None
    | Some (h, r) => Some (h, (c.(call_duration_ms), Some r))
    end) branches config h.
End Speculate.

(** ** A concrete race *)

Module ToyRace.
#[export] Instance schedule : Scheduler.
Proof. exists (λ l, reverse l). intros l. apply reverse_Permutation. Defined.
Definition branch (n : N) : SpeculativeBranch :=
  branch_new n 0%N (ToolDefinition_new "t" []) (RecoveryAction_new "advice" Static).
Definition output (ok : bool) : ToolOutput :=
  {| out_success := ok; out_result := None; out_error := None; rollback_performed := false; out_time_ms := 0;
     out_fuel_consumed := 0; error_log := None; out_snapshot_id := None |}.
(** Branches 2 and 3 succeed; the state counts the branches that have run. *)
Definition exec (n : nat) (b : SpeculativeBranch) : option (nat * Report) :=
  Some (Datatypes.S n, (7, Some (Ok (output (2 <=? Z.of_N b.(branch_id)))))).
Definition config : SpeculativeConfig :=
  {| max_branches := 3; branch_timeout_ms := 100; selection_strategy := FirstSuccess |}.
End ToyRace.
#[local] Existing Instances ToyRace.schedule.

Lemma race_returns_first_success_witness :
  ∃ outs sall r, runs ToyRace.exec 0%nat (ToyRace.branch <$> [0; 2; 1]%N) outs sall
    ∧ fork_and_race ToyRace.exec (ToyRace.branch <$> [1; 2; 0; 3]%N) ToyRace.config 0%nat = Some (2%nat, Ok r)
    ∧ r.(winner).(outcome_id) = 2%N ∧ r.(branches_tried) = 3%nat ∧ r.(branches_succeeded) = 1%nat.
Proof.
  destruct (race_returns_first_success ToyRace.exec (ToyRace.branch <$> [1; 2; 0; 3]%N) ToyRace.config 0%nat)
    as (outs & sall & s' & r & Hruns & Hrace & _); [by eexists|done|].
  assert (fork_and_race ToyRace.exec (ToyRace.branch <$> [1; 2; 0; 3]%N) ToyRace.config 0%nat
    = Some (2%nat, Ok {| winner := outcome_of (ToyRace.branch 2) (7, Some (Ok (ToyRace.output true)));
                         branches_tried := 3; branches_succeeded := 1 |})) as Hx by (vm_compute; reflexivity).
  eexists outs, sall, _. split; [exact Hruns|]. split; [exact Hx|]. repeat split.
Defined.
