(* ===== verification/McpServer.v ===== *)
(** * The handlers of the MCP server: [NexusMcpServer] of [src/bin/nexus_mcp.rs]

    A request is handled in one step: the handler checks the gate, mints tokens, calls the
    hypervisor and answers; [None] is a panic.  [Reads] holds what it reads of its
    surroundings: the disk, module bytes, the readings of the executions it starts and
    fresh identifiers.  The JSON input of a tool is part of its [Call].  The handlers of
    proofs and of the AEON service, and those that only read, are in [McpHandlers]. *)

From S2P Require Import Prelude Errors Floats UrlGuard LexPath Capability Tokens HostFs Wasi Compression.
From S2P Require Import Snapshot Differential SnapshotManager Fuel Failure Telemetry Instinct Execution.
From S2P Require Import WasiExecution Speculative Profile McpGate.

(** ** Requests *)

Record ExecuteParams := { ex_wasm_path : string; ex_entry : option string }.
Record ExecuteWasiParams := {
  wa_wasm_path : string;
  wa_entry : option string;
  wa_capabilities : option (list CapabilitySpec);
  wa_parent_token_id : option string;
}.
Record SnapshotCreateParams := { label : option string; sc_source : option string }.
Record SnapshotRollbackParams := {
  ro_snapshot_id : string;
  include_restored_state : option bool;
  caller_capabilities : option (list CapabilitySpec);
  ro_parent_token_id : option string;
  expected_digest : option string;
}.
Record IssueTokenParams := { is_capability : string; is_path : option string; is_validity_secs : option Z }.
Record AttenuateTokenParams := {
  at_parent_token_id : string;
  at_capability : string;
  at_path : option string;
  at_validity_secs : option Z;
}.
Record ForkAndRaceParams := {
  fk_wasm_path : string;
  fk_base_snapshot_id : option string;
  fk_source : option string;
  fk_branches : list (option string);   (** the entries of the branches *)
  fk_strategy : option string;
}.
Record InstinctRegisterParams := {
  ir_failure_category : string;
  ir_operation_pattern : string;
  ir_recovery_description : string;
}.

Inductive Request :=
| RqExecute (p : ExecuteParams)
| RqExecuteRetry (p : ExecuteParams)
| RqExecuteWasi (p : ExecuteWasiParams)
| RqSnapshotCreate (p : SnapshotCreateParams)
| RqSnapshotRollback (p : SnapshotRollbackParams)
| RqIssueToken (p : IssueTokenParams)
| RqAttenuateToken (p : AttenuateTokenParams)
| RqForkAndRace (p : ForkAndRaceParams)
| RqInstinctQuery (failure_category operation : string)
| RqInstinctRegister (p : InstinctRegisterParams)
| RqInstinctRecordOutcome (instinct_id : string) (success : bool)
| RqInstinctImport (json : string).

Record RestoredStateSummary := {
  byte_len : nat;
  memory_sha256 : string;
  preview_len : nat;
  preview_base64 : string;
  restored_globals : nat;
  restored_tables : nat;
}.
Inductive Response :=
| ROutput (o : ToolOutput)
| RSnapshot (id : Uuid) (source semantics : string)
| RRollback (id : Uuid) (timestamp : DateTime) (fs_operations : nat) (restored : option RestoredStateSummary)
| RToken (id : Uuid) (capability : Capability) (expires_in_secs : Z)
| RFork (race : SpeculativeResult) (base : option Uuid) (source semantics : string)
| RSuggestions (l : list InstinctEntry)
| RRegistered (id : Z) (failure_category : string)
| RRecorded (id : string) (reinforced success : bool)
| RImported (imported skipped : Z).

Record Reads := {
  disk : Fs;
  file_bytes : PathBuf → option (list byte);
  calls : nat → Call;
  branch_calls : Uuid → Call;
  ids : nat → Uuid;
  new_instinct_id : Z;
}.
Definition clock (r : Reads) : DateTime := (r.(calls) O).(now).

Definition RESTORED_MEMORY_PREVIEW_BYTES : nat := 64.

Section Server.
Context `{U : UrlLib} `{C : CryptoLib} `{Zs : ZstdLib} `{Hi : HashIter} `{E : SnapEnv} `{Io : InstinctIo} `{G : Guest}
  `{W : WasiGuest} `{Sch : Scheduler} `{M : McpLib}.
Variable dbg : Capability → string.

Record NexusMcpServer := { hypervisor : NexusHypervisor; gate : GateConfig }.
Definition Answer : Type := option (NexusMcpServer * result Response AnyError).

Definition set_hypervisor (s : NexusMcpServer) (h : NexusHypervisor) : NexusMcpServer :=
  {| hypervisor := h; gate := s.(gate) |}.
Definition set_manager (h : NexusHypervisor) (m : CapabilityManager) : NexusHypervisor :=
  {| snapshots := h.(snapshots); capability_manager := m; fuel_policy := h.(fuel_policy);
     sandbox_fuel := h.(sandbox_fuel); config_fuel := h.(config_fuel); pool := h.(pool);
     snapshot_strategy := h.(snapshot_strategy); recovery_config := h.(recovery_config);
     max_retries := h.(max_retries); current_snapshot := h.(current_snapshot);
     latest_runtime_snapshot := h.(latest_runtime_snapshot);
     last_rollback_memory := h.(last_rollback_memory);
     last_rollback_execution_state := h.(last_rollback_execution_state);
     telemetry := h.(telemetry); instinct_store := h.(instinct_store) |}.
Definition manager (s : NexusMcpServer) : CapabilityManager := s.(hypervisor).(capability_manager).
Definition with_manager (s : NexusMcpServer) (m : CapabilityManager) : NexusMcpServer :=
  set_hypervisor s (set_manager s.(hypervisor) m).

(** [?]: the state at the time of the error stays. *)
Definition try {A} (s : NexusMcpServer) (r : result A AnyError) (k : A → Answer) : Answer :=
  match r with Ok a => k a | Err e => Some (s, Err e) end.
Definition fail (s : NexusMcpServer) (m : Msg) : Answer := Some (s, Err (Anyhow m)).
Definition finished (s : NexusMcpServer) (r : option (NexusHypervisor * result ToolOutput NexusError)) : Answer :=
  match r with
  | None => None
  | Some (h, r) =>
      Some (set_hypervisor s h, let? o := result_map_err Nexus r in Ok (ROutput o))
  end.

(** The module named by a request. *)
Definition read_module (s : NexusMcpServer) (r : Reads) (wasm_path : string) : result (list byte) AnyError :=
  let? path := resolve_wasm_path r.(disk) wasm_path s.(gate).(wasm_module_dirs) in
  ok_or (r.(file_bytes) path) (Anyhow (Lit (safe_message WasmPathInaccessible))).
Definition named_tool (name : string) (bytes : list byte) (entry : option string) : ToolDefinition :=
  let tool := ToolDefinition_new name bytes in
  match entry with Some entry => with_entry tool entry | None => tool end.

Definition do_execute (s : NexusMcpServer) (r : Reads) (p : ExecuteParams) : Answer :=
  try s (ensure_tool_allowed s.(gate) "nexus_execute") (λ _,
  try s (read_module s r p.(ex_wasm_path)) (λ bytes,
  finished s (execute_tool dbg s.(hypervisor) (r.(calls) O) (named_tool "mcp_tool" bytes p.(ex_entry))))).

Definition do_execute_retry (s : NexusMcpServer) (r : Reads) (p : ExecuteParams) : Answer :=
  try s (ensure_tool_allowed s.(gate) "nexus_execute_retry") (λ _,
  try s (read_module s r p.(ex_wasm_path)) (λ bytes,
  finished s (execute_with_retry_with_tokens dbg s.(hypervisor) r.(calls)
                (named_tool "mcp_tool" bytes p.(ex_entry)) []))).

Definition parse_capabilities (specs : option (list CapabilitySpec)) : result (list Capability) AnyError :=
  result_mapM parse_capability (default [] specs).

(** Mint the tokens of a request, then hold them against the profile. *)
Definition with_tokens (s : NexusMcpServer) (r : Reads) (caps : list Capability) (parent : option string)
    (k : NexusMcpServer → list CapabilityToken → Answer) : Answer :=
  let '(m, tokens) := execute_wasi_tokens s.(gate) (manager s) (clock r) r.(ids) caps parent in
  let s := with_manager s m in
  try s tokens (λ tokens,
  try s (check_tokens_against_active_profile s.(gate) (manager s) (clock r) tokens) (λ _, k s tokens)).

Definition do_execute_wasi (s : NexusMcpServer) (r : Reads) (p : ExecuteWasiParams) : Answer :=
  try s (ensure_tool_allowed s.(gate) "nexus_execute_wasi") (λ _,
  try s (ensure_wasi_enabled s.(gate)) (λ _,
  try s (read_module s r p.(wa_wasm_path)) (λ bytes,
  try s (parse_capabilities p.(wa_capabilities)) (λ caps,
  with_tokens s r caps p.(wa_parent_token_id) (λ s tokens,
  let tool := with_capabilities (named_tool "mcp_tool_wasi" bytes p.(wa_entry)) caps in
  try s (check_tokens_against_active_profile s.(gate) (manager s) (clock r) tokens) (λ _,
  finished s (execute_tool_wasi s.(hypervisor) (r.(calls) O) tool tokens))))))).

Definition latest_runtime_snapshot_id (h : NexusHypervisor) : option Uuid := runtime_id <$> h.(latest_runtime_snapshot).

Definition do_snapshot_create (s : NexusMcpServer) (r : Reads) (p : SnapshotCreateParams) : Answer :=
  try s (ensure_tool_allowed s.(gate) "nexus_snapshot_create") (λ _,
  try s (ensure_snapshot_enabled s.(gate)) (λ _,
  let source := default "empty_baseline" p.(sc_source) in
  if String.eqb source "latest_runtime" then
    match latest_runtime_snapshot_id s.(hypervisor) with
    | None => fail s (Lit "no latest runtime snapshot is available; call nexus_execute first or omit source for an empty/stateless baseline")
    | Some id => Some (s, Ok (RSnapshot id "latest_runtime" "runtime_capture_from_execute"))
    end
  else if negb (String.eqb source "empty_baseline") then
    fail s (Fmt "unsupported snapshot source '{source}'; expected 'latest_runtime' or omit source for the empty/stateless baseline" [AStr source])
  else
    let metadata := {| operation_name := default "mcp_snapshot" p.(label); input_hash := ""; creation_time_us := 0;
                       memory_pages := 0; preconditions := [] |} in
    let c := r.(calls) O in
    let '(m, res) := create_snapshot s.(hypervisor).(snapshots) [] FilesystemDiff_new
                       {| captured_globals := []; captured_tables := [] |} metadata c.(new_id) c.(now) c.(create_us) in
    let s := set_hypervisor s (set_snapshots s.(hypervisor) m) in
    try s (result_map_err Nexus res) (λ snapshot,
    Some (s, Ok (RSnapshot snapshot.(snap_id) "empty_baseline" "empty_stateless_baseline_no_wasm_memory_or_execution_state"))))).

Definition restored_state_summary (result : RollbackResult) (include_memory_preview : bool) : RestoredStateSummary :=
  let preview_len :=
    if include_memory_preview then Nat.min (length result.(rb_memory)) RESTORED_MEMORY_PREVIEW_BYTES else O in
  {| byte_len := length result.(rb_memory); memory_sha256 := sha256_hex result.(rb_memory);
     preview_len := preview_len; preview_base64 := base64_encode (take preview_len result.(rb_memory));
     restored_globals := length result.(rb_execution_state).(captured_globals);
     restored_tables := length result.(rb_execution_state).(captured_tables) |}.

Definition snapshot_content_digest (h : NexusHypervisor) (id : Uuid) : option string :=
  memory_checksum <$> ring_get h.(snapshots).(buffer) id.
Definition digest_matches (h : NexusHypervisor) (id : Uuid) (expected : option string) : bool :=
  match expected with
  | None => true
  | Some expected =>
      match snapshot_content_digest h id with
      | Some actual => String.eqb (to_ascii_lowercase actual) (to_ascii_lowercase expected)
      | None => false
      end
  end.

Definition do_snapshot_rollback (s : NexusMcpServer) (r : Reads) (p : SnapshotRollbackParams) : Answer :=
  try s (ensure_tool_allowed s.(gate) "nexus_snapshot_rollback") (λ _,
  try s (ensure_snapshot_enabled s.(gate)) (λ _,
  match parse_uuid p.(ro_snapshot_id) with
  | None => fail s (Fmt "Invalid snapshot UUID: {e}" [AOpaque])
  | Some id =>
      try s (parse_capabilities p.(caller_capabilities)) (λ caps,
      if negb (digest_matches s.(hypervisor) id p.(expected_digest)) then fail s (Lit "snapshot digest mismatch")
      else
        with_tokens s r caps p.(ro_parent_token_id) (λ s tokens,
        match rollback_snapshot s.(hypervisor) id (clock r) with
        | None => None
        | Some (h, Err e) => Some (set_hypervisor s h, Err (Nexus e))
        | Some (h, Ok result) =>
            let restored :=
              if default false p.(include_restored_state)
              then Some (restored_state_summary result (caller_has_memory_preview (clock r) tokens))
              else None in
            Some (set_hypervisor s h,
                  Ok (RRollback result.(rb_snapshot_id) result.(rb_timestamp) (length result.(rb_fs_operations)) restored))
        end))
  end)).

Definition token_response (token : CapabilityToken) (capability : Capability) (secs : Z) : Response :=
  RToken token.(tok_id) capability secs.

Definition do_issue_token (s : NexusMcpServer) (r : Reads) (p : IssueTokenParams) : Answer :=
  try s (ensure_tool_allowed s.(gate) "nexus_issue_token") (λ _,
  let http := String.eqb p.(is_capability) "http_get" || String.eqb p.(is_capability) "http_post" in
  let pattern := match p.(is_path) with
                 | Some url => if http then validate_http_capability_pattern url else Ok ()
                 | None => Ok ()
                 end in
  try s (result_map_err (λ _, Anyhow (Fmt "{}" [AOpaque])) pattern) (λ _,
  try s (ok_or (parse_capability_from_str p.(is_capability) p.(is_path)) (unknown_capability p.(is_capability))) (λ capability,
  try s (sanitize_token_request capability p.(is_validity_secs)) (λ '(capability, validity_secs),
  try s (ensure_operator_allowlisted s.(gate) capability) (λ _,
  match issue (manager s) capability "mcp_client" (from_secs validity_secs) (clock r) (r.(ids) O) with
  | Err e => Some (s, Err (Nexus e))
  | Ok (token, m) => Some (with_manager s m, Ok (token_response token capability validity_secs))
  end))))).

Definition do_attenuate_token (s : NexusMcpServer) (r : Reads) (p : AttenuateTokenParams) : Answer :=
  try s (ensure_tool_allowed s.(gate) "nexus_attenuate_token") (λ _,
  match parse_uuid p.(at_parent_token_id) with
  | None => fail s (Fmt "invalid parent_token_id UUID: {e}" [AOpaque])
  | Some parent_id =>
      try s (ok_or (parse_capability_from_str p.(at_capability) p.(at_path)) (unknown_capability p.(at_capability))) (λ capability,
      try s (sanitize_token_request capability p.(at_validity_secs)) (λ '(capability, validity_secs),
      match attenuate (manager s) parent_id capability "mcp_client" (from_secs validity_secs) (clock r) (r.(ids) O) with
      | Err e => Some (s, Err (Nexus e))
      | Ok (token, m) => Some (with_manager s m, Ok (token_response token capability validity_secs))
      end))
  end).

Definition resolve_fork_base_snapshot (s : NexusMcpServer) (p : ForkAndRaceParams)
  : result (option Uuid * string * string) AnyError :=
  match p.(fk_base_snapshot_id), p.(fk_source) with
  | Some _, Some _ =>
      Err (Anyhow (Lit "base_snapshot_id and source are mutually exclusive; provide one snapshot seed or omit both for from-scratch racing"))
  | Some text, None =>
      match parse_uuid text with
      | None => Err (Anyhow (Fmt "Invalid base_snapshot_id UUID: {e}" [AOpaque]))
      | Some id => Ok (Some id, "explicit_snapshot_id", "fork_from_captured_runtime_snapshot")
      end
  | None, Some source =>
      if negb (String.eqb source "latest_runtime") then
        Err (Anyhow (Fmt "unsupported fork_and_race snapshot source '{source}'; expected 'latest_runtime' or omit source for from-scratch racing" [AStr source]))
      else match latest_runtime_snapshot_id s.(hypervisor) with
           | None => Err (Anyhow (Lit "no latest runtime snapshot is available; call nexus_execute first or omit source for from-scratch racing"))
           | Some id => Ok (Some id, "latest_runtime", "fork_from_captured_runtime_snapshot")
           end
  | None, None => Ok (None, "from_scratch", "from_scratch_no_snapshot_restore")
  end.

(** A branch runs from the base snapshot, or from scratch. *)
Definition run_branch (r : Reads) (base : option Uuid) (h : NexusHypervisor) (b : SpeculativeBranch)
  : option (NexusHypervisor * Report) :=
  let c := r.(branch_calls) b.(branch_id) in
  match (match base with
         | Some id => execute_tool_from_snapshot_with_tokens dbg h c id b.(branch_tool) []
         | None => execute_tool dbg h c b.(branch_tool)
         end) with
  | None => None
  | Some (h, res) => Some (h, (c.(call_duration_ms), Some res))
  end.

Definition do_fork_and_race (s : NexusMcpServer) (r : Reads) (p : ForkAndRaceParams) : Answer :=
  try s (ensure_tool_allowed s.(gate) "nexus_fork_and_race") (λ _,
  try s (ensure_fork_enabled s.(gate)) (λ _,
  try s (read_module s r p.(fk_wasm_path)) (λ bytes,
  try s (resolve_fork_base_snapshot s p) (λ '(base, source, semantics),
  let branch_base := default (r.(ids) O) base in
  let branches := imap (λ k entry, branch_new (r.(ids) (S k)) branch_base (named_tool "fork_branch" bytes entry)
                                     (RecoveryAction_new "mcp_fork_branch" Static)) p.(fk_branches) in
  let strategy := match p.(fk_strategy) with
                  | Some name => if String.eqb name "wait_all" then WaitAll else FirstSuccess
                  | None => FirstSuccess
                  end in
  let config := {| max_branches := length branches; branch_timeout_ms := 30000; selection_strategy := strategy |} in
  match fork_and_race (run_branch r base) branches config s.(hypervisor) with
  | None => None
  | Some (h, res) =>
      Some (set_hypervisor s h, let? race := result_map_err Nexus res in Ok (RFork race base source semantics))
  end)))).

Definition with_store (s : NexusMcpServer) (k : InstinctStore → Answer) : Answer :=
  match s.(hypervisor).(instinct_store) with
  | None => fail s (Lit "instinct store not initialised")
  | Some store => k store
  end.
Definition stored (s : NexusMcpServer) {A} (r : InstinctStore * result A NexusError) (answer : A → Response) : Answer :=
  Some (set_hypervisor s (set_instincts s.(hypervisor) r.1),
        let? a := result_map_err Nexus r.2 in Ok (answer a)).
Definition mode_of (category : string) : result FailureMode AnyError :=
  ok_or (failure_mode_from_category category) (Anyhow (Fmt "unrecognised failure category '{category}'" [AStr category])).

Definition do_instinct_query (s : NexusMcpServer) (failure_category operation : string) : Answer :=
  try s (ensure_tool_allowed s.(gate) "nexus_instinct_query") (λ _,
  try s (ensure_instinct_enabled s.(gate)) (λ _,
  with_store s (λ store,
  try s (mode_of failure_category) (λ mode,
  Some (s, Ok (RSuggestions (query store mode operation))))))).

Definition pattern_char (c : ascii) : bool :=
  ((48 <=? code c) && (code c <=? 57) || (65 <=? code c) && (code c <=? 90) || (97 <=? code c) && (code c <=? 122)
   || (code c =? 95) || (code c =? 45))%nat.
Definition valid_pattern (pattern : string) : bool :=
  String.eqb pattern "*"
  || forallb pattern_char (String.list_ascii_of_string pattern) && (String.length pattern <=? 128)%nat.

Definition do_instinct_register (s : NexusMcpServer) (r : Reads) (p : InstinctRegisterParams) : Answer :=
  try s (ensure_tool_allowed s.(gate) "nexus_instinct_register") (λ _,
  try s (ensure_instinct_enabled s.(gate)) (λ _,
  with_store s (λ store,
  if (1024 <? String.length p.(ir_recovery_description))%nat
  then fail s (Fmt "recovery_description exceeds {MAX_DESC_LEN} characters" [ANum 1024])
  else if negb (valid_pattern p.(ir_operation_pattern))
  then fail s (Lit "operation_pattern must be '*' or a name containing only alphanumerics, underscores, and hyphens (max 128 chars)")
  else
    try s (result_map_err (λ _, Anyhow (Fmt "unknown failure_category: {e}" [AOpaque])) (mode_of p.(ir_failure_category))) (λ mode,
    stored s (register store mode p.(ir_operation_pattern) p.(ir_recovery_description) r.(new_instinct_id) (clock r))
      (λ id, RRegistered id p.(ir_failure_category)))))).

Definition do_instinct_record_outcome (s : NexusMcpServer) (r : Reads) (instinct_id : string) (success : bool) : Answer :=
  try s (ensure_tool_allowed s.(gate) "nexus_instinct_record_outcome") (λ _,
  try s (ensure_instinct_enabled s.(gate)) (λ _,
  with_store s (λ store,
  match parse_uuid instinct_id with
  | None => fail s (Fmt "invalid instinct UUID: {e}" [AOpaque])
  | Some id =>
      stored s ((if success then store_record_success else store_record_failure) store (Z.of_N id) (clock r))
        (λ reinforced, RRecorded instinct_id reinforced success)
  end))).

Definition do_instinct_import (s : NexusMcpServer) (json : string) : Answer :=
  try s (ensure_tool_allowed s.(gate) "nexus_instinct_import") (λ _,
  with_store s (λ store,
  if 10485760 <? len (string_bytes json) then fail s (Lit "json payload exceeds 10 MiB limit")
  else stored s (import_all store (string_bytes json)) (λ '(imported, skipped), RImported imported skipped))).

Definition handle (s : NexusMcpServer) (r : Reads) (rq : Request) : Answer :=
  match rq with
  | RqExecute p => do_execute s r p
  | RqExecuteRetry p => do_execute_retry s r p
  | RqExecuteWasi p => do_execute_wasi s r p
  | RqSnapshotCreate p => do_snapshot_create s r p
  | RqSnapshotRollback p => do_snapshot_rollback s r p
  | RqIssueToken p => do_issue_token s r p
  | RqAttenuateToken p => do_attenuate_token s r p
  | RqForkAndRace p => do_fork_and_race s r p
  | RqInstinctQuery c o => do_instinct_query s c o
  | RqInstinctRegister p => do_instinct_register s r p
  | RqInstinctRecordOutcome i b => do_instinct_record_outcome s r i b
  | RqInstinctImport j => do_instinct_import s j
  end.
End Server.

(** ** What clients can be granted *)

(** Capabilities whose containment is that of [allows]: all but the memory scopes, which
    have the widening pair, and [None], which grants nothing. *)
Definition plain (c : Capability) : Prop :=
  match c with ReadMemory _ | WriteMemory _ | NoCap => False | _ => True end.

(** The operator listed it. *)
Definition listed (allowlist : option (list Capability)) (c : Capability) : Prop :=
  ∃ l a, allowlist = Some l ∧ a ∈ l ∧ allows a c = true.

(** The agent whose memory a scope is part of. *)
Definition scope_agent (s : MemoryScope) : string :=
  match s with Agent agent_id | Session agent_id _ => agent_id | Namespace namespace => namespace end.
(** How far attenuation can widen a capability: a memory scope to all memory of its agent. *)
Definition whole_agent (c : Capability) : Capability :=
  match c with
  | ReadMemory s => ReadMemory (Agent (scope_agent s))
  | WriteMemory s => WriteMemory (Agent (scope_agent s))
  | c => c
  end.
(** It is covered by what the operator listed, widened that far. *)
Definition reached (allowlist : option (list Capability)) (c : Capability) : Prop :=
  ∃ l a, allowlist = Some l ∧ a ∈ l ∧ allows (whole_agent a) c = true.

Lemma scope_subset_agent s p : scope_is_subset_of s p = true → scope_is_subset_of s (Agent (scope_agent p)) = true.
Proof. by destruct s, p; cbn; rewrite ?andb_true_iff; intros; destruct_and?. Qed.
Lemma whole_agent_allows a c : allows a c = true → allows (whole_agent a) c = true.
Proof. destruct a, c; try done; apply scope_subset_agent. Qed.
Lemma reached_trans al p c : reached al p → p ≠ AllCaps → allows p c = true → reached al c.
Proof.
  intros (l & a & -> & Hin & Ha) Hp Hc. exists l, a. split_and!; [done|done|].
  apply (allows_trans _ p c); [done| |done|done]. by destruct p as [| | | | | | | | |[]|[]| |], a.
Qed.

Record token_confined (allowlist : option (list Capability)) (t : CapabilityToken) : Prop := {
  tc_specific : t.(tok_capability) ≠ AllCaps;
  tc_lifetime : t.(tok_expires_at) ≤ t.(tok_issued_at) + from_secs MAX_TOKEN_VALIDITY_SECS;
  tc_listed : plain t.(tok_capability) → listed allowlist t.(tok_capability);
  tc_reached : t.(tok_capability) ≠ NoCap → reached allowlist t.(tok_capability);
}.

Section Confinement.
Context `{U : UrlLib} `{C : CryptoLib} `{CL : !CryptoLaws C} `{M : McpLib}.

Definition registered (m : CapabilityManager) (t : CapabilityToken) : Prop := m.(active_tokens) !! t.(tok_id) = Some t.
Definition safe (allowlist : option (list Capability)) (m : CapabilityManager) : Prop :=
  manager_ok m ∧ ∀ id t, m.(active_tokens) !! id = Some t → token_confined allowlist t.

Lemma safe_registered al m t : safe al m → registered m t → token_confined al t.
Proof. intros [_ H]. apply H. Qed.

Lemma plain_subset c p : plain c → c ≠ AllCaps → is_subset_of c p = true → p ≠ AllCaps → plain p ∧ allows p c = true.
Proof. intros Hc Ha Hs Hp. destruct c, p; try done. Qed.
Lemma plain_listed al c p : plain c → is_subset_of c p = true → c ≠ AllCaps → p ≠ AllCaps →
  (plain p → listed al p) → listed al c.
Proof.
  intros Hc Hs Ha Hp Hl. destruct (plain_subset c p) as [Hpp Hac]; [done..|].
  destruct (Hl Hpp) as (l & a & -> & Hin & Hap). exists l, a. split_and!; [done..|].
  apply (allows_trans a p c); try done. by destruct p, a.
Qed.

Lemma register_confined al m t : safe al m → manager_ok (Tokens.register m t) → token_confined al t → safe al (Tokens.register m t).
Proof.
  intros [_ Hs] Hok Ht. split; [done|]. intros id t'. cbn [active_tokens Tokens.register].
  intros [[_ <-]|[_ H]]%lookup_insert_Some; [done|by eapply Hs].
Qed.

Lemma issue_safe al m c by_ secs now id t m' :
  safe al m → fresh m id → issue m c by_ (from_secs secs) now id = Ok (t, m') →
  secs ≤ MAX_TOKEN_VALIDITY_SECS → c ≠ AllCaps →
  (∃ l, al = Some l ∧ capability_allowed_by l c = true) → safe al m'.
Proof.
  intros Hs Hf Hi Hsecs Hc (l & -> & Hl).
  assert (manager_ok m') as Hok by (eapply manager_ok_step; [apply Hs|by econstructor]).
  apply issue_Ok in Hi as (-> & _ & _ & Hcap & _ & Hiss & Hexp & _).
  apply register_confined; [done..|]. split; rewrite ?Hcap; [done| | |].
  - rewrite Hiss, Hexp. unfold from_secs. lia.
  - intros Hp. apply existsb_exists in Hl as (a & Ha%list_elem_of_In & Hsub). exists l, a. split_and!; [done..|].
    destruct (is_subset_of_allows _ _ Hsub) as [->|[->|[? _]]]; [done|by destruct c|done].
  - intros Hn. apply existsb_exists in Hl as (a & Ha%list_elem_of_In & Hsub). exists l, a. split_and!; [done..|].
    apply whole_agent_allows. destruct (is_subset_of_allows _ _ Hsub) as [?|[->|[? _]]]; [done|by destruct c|done].
Qed.

Lemma attenuate_safe al m pid c by_ secs now id t m' :
  safe al m → fresh m id → attenuate m pid c by_ (from_secs secs) now id = Ok (t, m') →
  secs ≤ MAX_TOKEN_VALIDITY_SECS → c ≠ AllCaps → safe al m'.
Proof.
  intros Hs Hf Hi Hsecs Hc.
  assert (manager_ok m') as Hok by (eapply manager_ok_step; [apply Hs|by eapply step_attenuate]).
  apply attenuate_Ok in Hi as (p & Hp & -> & _ & Hsub & _ & Hcap & _ & Hiss & Hexp & _).
  destruct (proj2 Hs pid p Hp) as [Hpa _ Hpl Hpr].
  apply register_confined; [done..|]. split; rewrite ?Hcap; [done| | |].
  - rewrite Hiss, Hexp. unfold from_secs. lia.
  - intros Hpc. by eapply plain_listed.
  - intros Hn. destruct (is_subset_of_allows _ _ Hsub) as [?|[?|[Ha _]]]; [done|done|].
    apply (reached_trans al p.(tok_capability)); [|done|done]. apply Hpr. intros He. by rewrite He in Ha.
Qed.

(** Minting a list of tokens. *)
Definition minted (al : option (list Capability)) (m m' : CapabilityManager) (caps : list Capability)
    (r : result (list CapabilityToken) AnyError) : Prop :=
  safe al m' ∧ (∀ id t, m.(active_tokens) !! id = Some t → m'.(active_tokens) !! id = Some t)
  ∧ ∀ tokens, r = Ok tokens → tok_capability <$> tokens = caps ∧ Forall (registered m') tokens.

Definition fresh_from (m : CapabilityManager) (ids : nat → Uuid) (k : nat) : Prop :=
  (∀ j, (k ≤ j)%nat → fresh m (ids j)) ∧ ∀ i j, ids i = ids j → i = j.

Lemma fresh_from_register m ids k t : fresh_from m ids k → t.(tok_id) = ids k → fresh_from (Tokens.register m t) ids (S k).
Proof.
  intros [Hf Hinj] Ht. split; [|done]. intros j Hj. destruct (Hf j) as [Ha Hr]; [lia|]. split; [|done].
  cbn. rewrite lookup_insert_ne; [done|]. rewrite Ht. intros He%Hinj. lia.
Qed.

Lemma minted_nil al m : safe al m → minted al m m [] (Ok []).
Proof. intros H. split_and!; [done|done|]. by intros tokens [= <-]. Qed.
Lemma minted_err al m caps e : safe al m → minted al m m caps (Err e).
Proof. by intros H. Qed.
Lemma minted_cons al m m' ids k t caps r :
  fresh_from m ids k → t.(tok_id) = ids k → minted al (Tokens.register m t) m' caps r →
  minted al m m' (t.(tok_capability) :: caps) (let? tokens := r in Ok (t :: tokens)).
Proof.
  intros [Hf _] Hid (Hs & Hkeep & Hr). split_and!; [done| |].
  - intros id t' Ht'. apply Hkeep. cbn. rewrite lookup_insert_ne; [done|].
    intros <-. destruct (Hf k) as [Ha _]; [lia|]. by rewrite Hid, Ha in Ht'.
  - destruct r as [ts|]; cbn; [|done]. intros tokens [= <-]. destruct (Hr ts eq_refl) as [<- Hreg]. split; [done|].
    constructor; [|done]. apply Hkeep. cbn. apply lookup_insert_eq.
Qed.

Definition bounded_request (q : Capability * Z) : Prop := q.1 ≠ AllCaps ∧ q.2 ≤ MAX_TOKEN_VALIDITY_SECS.

Lemma attenuate_all_minted al parent now ids requests : ∀ m k,
  safe al m → fresh_from m ids k → Forall bounded_request requests →
  minted al m (attenuate_all m parent now ids k requests).1 requests.*1 (attenuate_all m parent now ids k requests).2.
Proof.
  induction requests as [|[c secs] requests IH]; intros m k Hs Hf Hb; [by apply minted_nil|].
  apply Forall_cons in Hb as [[Hc Hsecs] Hb]. cbn [attenuate_all].
  destruct (attenuate m parent c "mcp_client" (from_secs secs) now (ids k)) as [[t m1]|e] eqn:Ha; [|by apply minted_err].
  assert (safe al m1) as Hs1 by (eapply (attenuate_safe al m); [exact Hs|apply (proj1 Hf k); lia|exact Ha|done|done]).
  apply attenuate_Ok in Ha as (_ & _ & -> & _ & _ & Hid & Hcap & _).
  specialize (IH (Tokens.register m t) (S k) Hs1 (fresh_from_register _ _ _ _ Hf Hid) Hb).
  destruct (attenuate_all (Tokens.register m t) parent now ids (S k) requests) as [m' r]. cbn in *. rewrite <- Hcap.
  by eapply minted_cons.
Qed.

Lemma issue_all_minted al l now ids requests : ∀ m k,
  al = Some l → safe al m → fresh_from m ids k → Forall bounded_request requests →
  minted al m (issue_all m l now ids k requests).1 requests.*1 (issue_all m l now ids k requests).2.
Proof.
  induction requests as [|[c secs] requests IH]; intros m k Hal Hs Hf Hb; [by apply minted_nil|].
  apply Forall_cons in Hb as [[Hc Hsecs] Hb]. cbn [issue_all].
  destruct (capability_allowed_by l c) eqn:Hl; [|by apply minted_err].
  destruct (issue m c "mcp_operator_allowlist" (from_secs secs) now (ids k)) as [[t m1]|e] eqn:Ha; [|by apply minted_err].
  assert (safe al m1) as Hs1 by (eapply (issue_safe al m); [exact Hs|apply (proj1 Hf k); lia|exact Ha|done|done|by exists l]).
  apply issue_Ok in Ha as (-> & _ & Hid & Hcap & _).
  specialize (IH (Tokens.register m t) (S k) Hal Hs1 (fresh_from_register _ _ _ _ Hf Hid) Hb).
  destruct (issue_all (Tokens.register m t) l now ids (S k) requests) as [m' r]. cbn in *. rewrite <- Hcap.
  by eapply minted_cons.
Qed.

Lemma sanitize_Ok c secs q : sanitize_token_request c secs = Ok q → q.1 = c ∧ bounded_request q.
Proof. destruct c; intros [= <-]; (split; [done|]); (split; [done|]); cbn; unfold MAX_TOKEN_VALIDITY_SECS; lia. Qed.
Lemma sanitize_all_Ok caps requests :
  result_mapM (λ c, sanitize_token_request c None) caps = Ok requests →
  requests.*1 = caps ∧ Forall bounded_request requests.
Proof.
  revert requests. induction caps as [|c caps IH]; intros requests; cbn [result_mapM].
  - by intros [= <-].
  - destruct (sanitize_token_request c None) as [q|] eqn:Hq; [|done].
    destruct (result_mapM _ caps) as [qs|]; [|done]. intros [= <-]. apply sanitize_Ok in Hq as [<- Hb].
    destruct (IH qs eq_refl) as [<- Hbs]. split; [done|by constructor].
Qed.

Lemma execute_wasi_tokens_minted g m now ids caps parent :
  safe g.(capability_allowlist) m → fresh_from m ids 0 →
  minted g.(capability_allowlist) m (execute_wasi_tokens g m now ids caps parent).1 caps
    (execute_wasi_tokens g m now ids caps parent).2.
Proof.
  intros Hs Hf. unfold execute_wasi_tokens. destruct caps as [|c0 caps0]; [by apply minted_nil|].
  destruct (result_mapM _ _) as [requests|] eqn:Hq; [|by apply minted_err].
  apply sanitize_all_Ok in Hq as [<- Hb]. destruct parent as [text|].
  - destruct (parse_uuid text); [|by apply minted_err]. by apply attenuate_all_minted.
  - destruct (capability_allowlist g) as [l|] eqn:Hl; [|by apply minted_err]. by apply issue_all_minted.
Qed.
End Confinement.

(** ** What a request leaves alone *)

Section Frames.
Context `{U : UrlLib} `{C : CryptoLib} `{Zs : ZstdLib} `{Hi : HashIter} `{E : SnapEnv} `{Io : InstinctIo} `{G : Guest}
  `{W : WasiGuest} `{Sch : Scheduler} `{M : McpLib}.
Variable dbg : Capability → string.

(** The executions of the hypervisor keep its capability manager. *)
Definition keeps (h h' : NexusHypervisor) : Prop := h'.(capability_manager) = h.(capability_manager).

Lemma keeps_trans h1 h2 h3 : keeps h1 h2 → keeps h2 h3 → keeps h1 h3.
Proof. unfold keeps. congruence. Qed.

Lemma execute_tool_inner_keeps h c tool tokens pre restored h' res :
  execute_tool_inner dbg h c tool tokens pre restored = Some (h', res) → keeps h h'.
Proof.
  unfold execute_tool_inner. intros H. destruct (apply_budget_frame h c tool) as [[Hb _ _ _] _].
  repeat case_match; simplify_eq; try done.
  all: repeat match goal with
    | Hc : create_runtime_snapshot _ _ _ _ _ _ _ = _ |- _ => apply create_runtime_snapshot_frame in Hc as [[Hc _ _ _] _]
    | Hf : finish_run _ _ _ _ _ = _ |- _ => apply finish_run_frame in Hf as [Hf _ _ _]
    end; unfold keeps; cbn in *; congruence.
Qed.

Lemma rollback_snapshot_keeps (h h' : NexusHypervisor) id t res : rollback_snapshot h id t = Some (h', res) → keeps h h'.
Proof. unfold rollback_snapshot. intros H. repeat case_match; by simplify_eq. Qed.

Lemma from_snapshot_keeps h c id tool tokens h' res :
  execute_tool_from_snapshot_with_tokens dbg h c id tool tokens = Some (h', res) → keeps h h'.
Proof.
  unfold execute_tool_from_snapshot_with_tokens. intros H.
  destruct (authorize_call h c tool tokens) as [[[]|]|]; simplify_eq; [|done].
  destruct (rollback_snapshot h id (now c)) as [[h1 [rb|]]|] eqn:Hr; simplify_eq; apply rollback_snapshot_keeps in Hr; [|done].
  apply execute_tool_inner_keeps in H. by eapply keeps_trans.
Qed.

Lemma retry_loop_keeps calls : ∀ attempt h tool tokens pending h' res,
  retry_loop dbg attempt calls h tool tokens pending = Some (h', res) → keeps h h'.
Proof.
  induction calls as [|c calls IH]; intros attempt h tool tokens pending h' res; cbn [retry_loop]; [by intros [= <- _]|].
  destruct (execute_tool_with_tokens dbg h c tool tokens) as [[h1 r1]|] eqn:H1; [|done].
  apply execute_tool_inner_keeps in H1. intros H. eapply keeps_trans; [exact H1|]. clear H1.
  repeat case_match; simplify_eq; try done.
  all: by apply IH in H.
Qed.

Lemma execute_tool_wasi_keeps h c tool tokens h' res :
  execute_tool_wasi h c tool tokens = Some (h', res) → keeps h h'.
Proof.
  unfold execute_tool_wasi, finish_wasi. intros H. repeat case_match; by simplify_eq.
Qed.

Lemma run_branch_keeps r base h b h' rep : run_branch dbg r base h b = Some (h', rep) → keeps h h'.
Proof.
  unfold run_branch. intros H. repeat case_match; simplify_eq.
  - by eapply from_snapshot_keeps.
  - by eapply execute_tool_inner_keeps.
Qed.

Lemma race_keeps exec strategy tried running : ∀ succeeded completed h h' res,
  (∀ h b h' rep, exec h b = Some (h', rep) → keeps h h') →
  race exec strategy tried succeeded completed running h = Some (h', res) → keeps h h'.
Proof.
  induction running as [|b running IH]; intros succeeded completed h h' res Hx; cbn [race]; [by intros [= <- _]|].
  destruct (exec h b) as [[h1 rep]|] eqn:H1; [|done]. apply Hx in H1. intros H. eapply keeps_trans; [exact H1|].
  repeat case_match; simplify_eq; [done|..]; by eapply IH.
Qed.
Lemma fork_and_race_keeps exec branches config h h' res :
  (∀ h b h' rep, exec h b = Some (h', rep) → keeps h h') →
  fork_and_race exec branches config h = Some (h', res) → keeps h h'.
Proof. unfold fork_and_race. intros Hx H. case_match; simplify_eq; [done|]. by eapply race_keeps. Qed.
End Frames.

(** ** The tokens of a served server *)

Section Served.
Context `{U : UrlLib} `{C : CryptoLib} `{CL : !CryptoLaws C} `{Zs : ZstdLib} `{Hi : HashIter} `{E : SnapEnv}
  `{Io : InstinctIo} `{G : Guest} `{W : WasiGuest} `{Sch : Scheduler} `{M : McpLib}.
Variable dbg : Capability → string.

(** A server as it starts, and after any requests, each with fresh identifiers. *)
Inductive served : NexusMcpServer → Prop :=
| served_start s key : manager s = manager_new key → served s
| served_request s r rq s' res :
    served s → fresh_from (manager s) r.(ids) 0 → handle dbg s r rq = Some (s', res) → served s'.

Definition server_ok (s : NexusMcpServer) : Prop := safe s.(gate).(capability_allowlist) (manager s).
Definition confined (g : GateConfig) (a : Answer) : Prop :=
  ∀ s' res, a = Some (s', res) → s'.(gate) = g ∧ server_ok s'.

Lemma confined_stop s res : server_ok s → confined s.(gate) (Some (s, res)).
Proof. by intros Hs s' res' [= <- <-]. Qed.
Lemma confined_keeps s h res : server_ok s → keeps s.(hypervisor) h → confined s.(gate) (Some (set_hypervisor s h, res)).
Proof.
  intros Hs Hk s' res' [= <- <-]. split; [done|]. unfold server_ok, manager. cbn. by rewrite Hk.
Qed.
Lemma confined_try {A} s (r : result A AnyError) k :
  server_ok s → (∀ a, r = Ok a → confined s.(gate) (k a)) → confined s.(gate) (try s r k).
Proof. intros Hs Hk. destruct r; [by apply Hk|by apply confined_stop]. Qed.
Lemma confined_finished s r :
  server_ok s → (∀ h res, r = Some (h, res) → keeps s.(hypervisor) h) → confined s.(gate) (finished s r).
Proof. intros Hs Hk. destruct r as [[h r]|]; [|done]. apply confined_keeps; [done|by eapply Hk]. Qed.
Lemma confined_manager s m res :
  safe s.(gate).(capability_allowlist) m → confined s.(gate) (Some (with_manager s m, res)).
Proof. by intros Hm s' res' [= <- <-]. Qed.
Lemma confined_with_tokens s r caps parent k :
  server_ok s → fresh_from (manager s) r.(ids) 0 →
  (∀ m tokens, safe s.(gate).(capability_allowlist) m → confined s.(gate) (k (with_manager s m) tokens)) →
  confined s.(gate) (with_tokens s r caps parent k).
Proof.
  intros Hs Hf Hk. unfold with_tokens.
  destruct (execute_wasi_tokens_minted s.(gate) (manager s) (clock r) r.(ids) caps parent Hs Hf) as [Hm _].
  destruct (execute_wasi_tokens _ _ _ _ _ _) as [m tokens]. cbn in Hm. change s.(gate) with (with_manager s m).(gate).
  apply confined_try; [done|]. intros ts _. apply confined_try; [done|]. intros _ _. by apply Hk.
Qed.
Lemma confined_with_store s k :
  server_ok s → (∀ store, confined s.(gate) (k store)) → confined s.(gate) (with_store s k).
Proof. intros Hs Hk. unfold with_store. case_match; [done|by apply confined_stop]. Qed.
Lemma confined_stored {A} s r (answer : A → Response) : server_ok s → confined s.(gate) (stored s r answer).
Proof. intros Hs. by apply confined_keeps. Qed.
Lemma confined_if (b : bool) g (x y : Answer) : confined g x → confined g y → confined g (if b then x else y).
Proof. by destruct b. Qed.

Lemma ensure_operator_Ok g c u :
  ensure_operator_allowlisted g c = Ok u → ∃ l, g.(capability_allowlist) = Some l ∧ capability_allowed_by l c = true.
Proof. unfold ensure_operator_allowlisted. case_match; [|done]. case_match; [|done]. intros _. by eexists. Qed.

(** Down to the calls of the hypervisor. *)
Ltac confine :=
  repeat first
    [ apply confined_stop; assumption
    | apply confined_try; [assumption|intros ? ?]
    | apply confined_with_store; [assumption|intros ?]
    | apply confined_stored; assumption
    | apply confined_if
    | progress unfold fail
    | progress cbn zeta ].

(** The bounds of a sanitized request. *)
Ltac minting :=
  match goal with H : sanitize_token_request _ _ = Ok ?q |- _ =>
    destruct q as [c0 secs0]; apply sanitize_Ok in H as (_ & Hc & Hsecs); cbn in Hc, Hsecs
  end.

Lemma handle_confined s r rq : server_ok s → fresh_from (manager s) r.(ids) 0 → confined s.(gate) (handle dbg s r rq).
Proof.
  intros Hs Hf. destruct rq as [p|p|p|p|p|p|p|p|c o|p|i b|j]; cbn [handle].
  - unfold do_execute. confine. apply confined_finished; [done|]. intros h res. apply execute_tool_inner_keeps.
  - unfold do_execute_retry. confine. apply confined_finished; [done|]. intros h res. apply retry_loop_keeps.
  - unfold do_execute_wasi. confine. apply confined_with_tokens; [done..|]. intros m tokens Hm.
    change s.(gate) with (with_manager s m).(gate). apply confined_try; [done|]. intros _ _.
    apply confined_finished; [done|]. intros h res. apply execute_tool_wasi_keeps.
  - unfold do_snapshot_create. confine.
    + case_match; confine.
    + destruct (create_snapshot _ _ _ _ _ _ _ _) as [m res].
      change s.(gate) with (set_hypervisor s (set_snapshots s.(hypervisor) m)).(gate). confine.
  - unfold do_snapshot_rollback. confine. case_match; confine. apply confined_with_tokens; [done..|]. intros m tokens Hm.
    destruct (rollback_snapshot _ _ _) as [[h [rb|e]]|] eqn:Hr; apply rollback_snapshot_keeps in Hr || done.
    all: change s.(gate) with (with_manager s m).(gate); by apply confined_keeps.
  - unfold do_issue_token. confine. minting.
    destruct (issue _ _ _ _ _ _) as [[t m]|] eqn:Hi'; confine. apply confined_manager.
    eapply issue_safe; [exact Hs|by apply (proj1 Hf 0%nat)|exact Hi'|done..|eapply ensure_operator_Ok; eassumption].
  - unfold do_attenuate_token. confine. case_match; confine. minting.
    destruct (attenuate _ _ _ _ _ _ _) as [[t m]|] eqn:Hi'; confine. apply confined_manager.
    eapply attenuate_safe; [exact Hs|by apply (proj1 Hf 0%nat)|exact Hi'|done..].
  - unfold do_fork_and_race. confine. match goal with q : _ * _ * _ |- _ => destruct q as [[base source] semantics] end.
    destruct (fork_and_race _ _ _ _) as [[h res]|] eqn:Hr; [|done]. apply confined_keeps; [done|].
    eapply fork_and_race_keeps, Hr. apply run_branch_keeps.
  - unfold do_instinct_query. confine.
  - unfold do_instinct_register. confine.
  - unfold do_instinct_record_outcome. confine. case_match; confine.
  - unfold do_instinct_import. confine.
Qed.

Lemma served_ok s : served s → server_ok s.
Proof.
  induction 1 as [s key Hm|s r rq s' res Hs IH Hf Hh].
  - split; rewrite Hm; [apply manager_ok_new|]. intros id t Ht. cbn in Ht. by rewrite lookup_empty in Ht.
  - by destruct (handle_confined s r rq IH Hf s' res Hh).
Qed.
End Served.

(** ** What an answer shows *)

Section Answers.
Context `{U : UrlLib} `{C : CryptoLib} `{CL : !CryptoLaws C} `{Zs : ZstdLib} `{Hi : HashIter} `{E : SnapEnv}
  `{Io : InstinctIo} `{G : Guest} `{W : WasiGuest} `{Sch : Scheduler} `{M : McpLib}.

Lemma try_Ok {A} s (r : result A AnyError) k s' (a : Response) :
  try s r k = Some (s', Ok a) → ∃ x, r = Ok x ∧ k x = Some (s', Ok a).
Proof. destruct r; [by eexists|done]. Qed.

(** The profile lists something that covers it. *)
Definition permitted (profile : option CapabilityProfileManifest) (c : Capability) : Prop :=
  ∀ p, profile = Some p → ∃ a, a ∈ p.(capabilities) ∧ allows a c = true.
(** What a client can hold: nothing unlimited, and only what operator and profile list. *)
Definition granted (g : GateConfig) (c : Capability) : Prop :=
  c ≠ AllCaps ∧ (plain c → listed g.(capability_allowlist) c) ∧ permitted g.(capability_profile) c.

Lemma check_permitted_Ok tokens p :
  check_permitted tokens p = Ok () → Forall (λ t, ∃ a, a ∈ p.(capabilities) ∧ allows a t.(tok_capability) = true) tokens.
Proof.
  induction tokens as [|t tokens IH]; cbn; [by constructor|]. destruct (existsb _ _) eqn:He; [|done]. intros H.
  constructor; [|by apply IH]. apply existsb_exists in He as (a & Ha%list_elem_of_In & ?). by exists a.
Qed.

Lemma with_tokens_Ok s r caps parent k s' (a : Response) :
  server_ok s → fresh_from (manager s) r.(ids) 0 → with_tokens s r caps parent k = Some (s', Ok a) →
  ∃ m tokens, k (with_manager s m) tokens = Some (s', Ok a)
    ∧ tok_capability <$> tokens = caps ∧ Forall (granted s.(gate)) caps.
Proof using CL.
  intros Hs Hf. unfold with_tokens.
  destruct (execute_wasi_tokens_minted s.(gate) (manager s) (clock r) r.(ids) caps parent Hs Hf) as (Hm & _ & Hts).
  destruct (execute_wasi_tokens _ _ _ _ _ _) as [m r0]. cbn in Hm, Hts.
  intros (tokens & -> & ([] & Hch & Hk)%try_Ok)%try_Ok. exists m, tokens. split; [done|].
  destruct (Hts tokens eq_refl) as [<- Hreg]. split; [done|]. apply Forall_fmap, Forall_forall. intros t Ht. cbn.
  destruct (safe_registered _ _ t Hm) as [Hall _ Hlist _]; [exact (proj1 (Forall_forall _ _) Hreg t Ht)|].
  split_and!; [done|done|]. intros p Hp. unfold check_tokens_against_active_profile in Hch. cbn [with_manager gate set_hypervisor] in Hch.
  destruct (existsb _ tokens); [done|]. rewrite Hp in Hch. unfold check_tokens_against_profile in Hch.
  destruct (check_tokens_fresh _ _) as [[]|]; [|done]. cbn in Hch.
  destruct (check_permitted tokens p) as [[]|] eqn:Hc; [|done]. apply check_permitted_Ok in Hc.
  exact (proj1 (Forall_forall _ _) Hc t Ht).
Qed.

Lemma read_module_Ok s r path bytes :
  read_module s r path = Ok bytes →
  ∃ canonical, canonicalize r.(disk) path = Ok canonical ∧ is_file r.(disk) canonical = true
    ∧ (∃ dir, dir ∈ s.(gate).(wasm_module_dirs) ∧ comps_prefix (components dir) (components canonical) = true)
    ∧ r.(file_bytes) canonical = Some bytes.
Proof.
  unfold read_module, resolve_wasm_path. destruct (path_is_lexically_allowed _ _); cbn [negb]; [|done].
  destruct (canonicalize _ _) as [p|]; [|done]. destruct (is_file _ p) eqn:Hfile; cbn [negb]; [|done].
  destruct (existsb _ _) eqn:He; [|done]. cbn. destruct (file_bytes r p) as [b|] eqn:Hb; [|done]. intros [= <-].
  exists p. split_and!; [done|done| |done]. apply existsb_exists in He as (d & Hd%list_elem_of_In & ?). by exists d.
Qed.

Lemma memory_preview_held now tokens :
  caller_has_memory_preview now tokens = true →
  ∃ t, t ∈ tokens ∧ (t.(tok_capability) = AllCaps ∨ t.(tok_capability) = MemoryPreview).
Proof.
  intros (t & Ht%list_elem_of_In & [_ Ha]%andb_true_iff)%existsb_exists. exists t. split; [done|].
  destruct (tok_capability t); try done; auto.
Qed.
End Answers.

(** ** The properties *)

Section Theorems.
Context `{U : UrlLib} `{C : CryptoLib} `{CL : !CryptoLaws C} `{Zs : ZstdLib} `{Hi : HashIter} `{E : SnapEnv}
  `{Io : InstinctIo} `{G : Guest} `{W : WasiGuest} `{Sch : Scheduler} `{M : McpLib}.
Variable dbg : Capability → string.


(** Memory is only shown to those who may preview it.  A rollback answer holds at most
    64 bytes of the restored memory, and it holds any only when the caller asked for a
    preview capability that the operator's allowlist covers and the profile permits. *)
Theorem memory_preview_needs_authority (s s' : NexusMcpServer) (r : Reads) (p : SnapshotRollbackParams)
    (id : Uuid) (at_ : DateTime) (ops : nat) (sum : RestoredStateSummary) :
  served dbg s → fresh_from (manager s) r.(ids) 0 →
  do_snapshot_rollback s r p = Some (s', Ok (RRollback id at_ ops (Some sum))) →
  ∃ shown : list byte,
    sum.(preview_base64) = base64_encode shown ∧ length shown = sum.(preview_len) ∧ (sum.(preview_len) ≤ 64)%nat
    ∧ ((0 < sum.(preview_len))%nat →
       ensure_tool_allowed s.(gate) "nexus_snapshot_rollback" = Ok ()
       ∧ (∃ caps, parse_capabilities p.(caller_capabilities) = Ok caps ∧ MemoryPreview ∈ caps)
       ∧ listed s.(gate).(capability_allowlist) MemoryPreview ∧ permitted s.(gate).(capability_profile) MemoryPreview).
Proof using CL.
  intros Hs Hf. unfold do_snapshot_rollback. intros ([] & Htool & ([] & _ & Hrun)%try_Ok)%try_Ok.
  destruct (parse_uuid _); [|done]. apply try_Ok in Hrun as (caps & Hcaps & Hrun).
  destruct (negb _); [done|].
  apply (with_tokens_Ok s r) in Hrun as (m & tokens & Hrun & Hcap & Hg); [|by apply (served_ok dbg)|done].
  destruct (rollback_snapshot _ _ _) as [[h [result|]]|]; [|done..].
  destruct (default false _); [|done]. injection Hrun as _ _ _ _ <-. eexists. split; [reflexivity|]. cbn [restored_state_summary preview_len].
  rewrite length_take. unfold RESTORED_MEMORY_PREVIEW_BYTES.
  destruct (caller_has_memory_preview _ tokens) eqn:Hp; [|by split_and!; [lia..|]; intros ?%Nat.lt_irrefl].
  split_and!; [lia..|]. intros _. split; [done|].
  apply memory_preview_held in Hp as (t & Ht & Hheld).
  assert (t.(tok_capability) ∈ caps) as Hin by (rewrite <- Hcap; by apply list_elem_of_fmap_2).
  destruct (proj1 (Forall_forall _ _) Hg _ Hin) as (Hall & Hlist & Hperm). destruct Hheld as [?|He]; [done|].
  rewrite He in *. split; [by exists caps|]. split; [by apply Hlist|done].
Qed.

(** The tool and the switch of each request. *)
Definition tool_of (rq : Request) : string :=
  match rq with
  | RqExecute _ => "nexus_execute"
  | RqExecuteRetry _ => "nexus_execute_retry"
  | RqExecuteWasi _ => "nexus_execute_wasi"
  | RqSnapshotCreate _ => "nexus_snapshot_create"
  | RqSnapshotRollback _ => "nexus_snapshot_rollback"
  | RqIssueToken _ => "nexus_issue_token"
  | RqAttenuateToken _ => "nexus_attenuate_token"
  | RqForkAndRace _ => "nexus_fork_and_race"
  | RqInstinctQuery _ _ => "nexus_instinct_query"
  | RqInstinctRegister _ => "nexus_instinct_register"
  | RqInstinctRecordOutcome _ _ => "nexus_instinct_record_outcome"
  | RqInstinctImport _ => "nexus_instinct_import"
  end.
Definition switch_of (rq : Request) (g : GateConfig) : result () AnyError :=
  match rq with
  | RqExecuteWasi _ => ensure_wasi_enabled g
  | RqSnapshotCreate _ | RqSnapshotRollback _ => ensure_snapshot_enabled g
  | RqForkAndRace _ => ensure_fork_enabled g
  | RqInstinctQuery _ _ | RqInstinctRegister _ | RqInstinctRecordOutcome _ _ => ensure_instinct_enabled g
  | RqExecute _ | RqExecuteRetry _ | RqIssueToken _ | RqAttenuateToken _ | RqInstinctImport _ => Ok ()
  end.

Lemma gate_refuses s r rq e :
  (let? _ := ensure_tool_allowed s.(gate) (tool_of rq) in switch_of rq s.(gate)) = Err e →
  handle dbg s r rq = Some (s, Err e).
Proof using Type.
  intros H. destruct (ensure_tool_allowed _ _) as [[]|] eqn:Ht; cbn in H.
  - destruct rq; try done; cbn [tool_of switch_of] in *;
      unfold handle, do_execute_wasi, do_snapshot_create, do_snapshot_rollback, do_fork_and_race, do_instinct_query,
        do_instinct_register, do_instinct_record_outcome, try; by rewrite Ht, H.
  - injection H as <-. destruct rq; cbn [tool_of] in Ht;
      unfold handle, do_execute, do_execute_retry, do_execute_wasi, do_snapshot_create, do_snapshot_rollback, do_issue_token,
        do_attenuate_token, do_fork_and_race, do_instinct_query, do_instinct_register, do_instinct_record_outcome,
        do_instinct_import, try; by rewrite Ht.
Qed.

Lemma read_only_changes_nothing s r rq :
  s.(gate).(forced_tool_allowlist) = Some NEXUS_MCP_HTTP_READ_ONLY_TOOL_ALLOWLIST → ∃ res, handle dbg s r rq = Some (s, res).
Proof using Type.
  intros Hro. destruct (ensure_tool_allowed s.(gate) (tool_of rq)) as [u|e] eqn:Ht.
  2:{ exists (Err e). apply gate_refuses. by rewrite Ht. }
  unfold ensure_tool_allowed in Ht. rewrite Hro in Ht. destruct rq as [| | | | | | | |c o| | |]; try done.
  cbn [handle]. unfold do_instinct_query, with_store, try, fail. repeat case_match; eauto.
Qed.
End Theorems.

(** ** A concrete server *)

Module ToyServer.
#[local] Existing Instances Tokens.Toy.crypto Tokens.Toy.crypto_laws Tokens.Toy.url ToyZstd.zstd ToyZstd.zstd_laws
  ToySnap.env ToyInstinct.io ToyExec.guest ToyWasi.guest ToyRace.schedule.
#[export] Instance mcp_lib : McpLib :=
  {| parse_uuid s := if String.eqb s "1" then Some 1%N else None; parse_specs _ := None;
     base64_encode bs := String.string_of_list_byte bs |}.

Definition disk : Fs :=
  {| nodes := {[ ["data"] := NDir; ["m.wasm"; "data"] := NFile ]}; cwd := ["data"]; may_create _ := true |}.
Definition profile (instinct : bool) : CapabilityProfileManifest :=
  {| name := "ops"; capabilities := [ReadFile "/"; MemoryPreview];
     mcp := {| tool_allowlist := None; snapshot_enabled := true; fork_enabled := false; proof_enabled := false;
               wasi_enabled := true; instinct_enabled := instinct; retry_enabled := false |};
     execution := {| module_dirs := ["/data"]; daemon_auth_required := true |} |}.
Definition gate : GateConfig :=
  {| wasm_module_dirs := ["/data"]; capability_allowlist := Some [ReadFile "/data"; MemoryPreview];
     capability_profile := Some (profile false); forced_tool_allowlist := None |}.
Definition server : NexusMcpServer :=
  {| hypervisor := set_manager (ToyExec.hv 0) (manager_new Tokens.Toy.key); McpServer.gate := gate |}.
Definition reads (base : nat) : Reads :=
  {| McpServer.disk := disk; file_bytes _ := Some [x00]; calls k := ToyExec.call (N.of_nat (base + k));
     branch_calls id := ToyExec.call id; ids k := N.of_nat (100 + k); new_instinct_id := 9 |}.
Definition state_of (a : Answer) : NexusMcpServer := match a with Some (s, _) => s | None => server end.

Definition wasi : ExecuteWasiParams :=
  {| wa_wasm_path := "m.wasm"; wa_entry := None;
     wa_capabilities := Some [{| spec_type := "read_file"; spec_path := Some "/data/in" |}]; wa_parent_token_id := None |}.
Definition execute : ExecuteParams := {| ex_wasm_path := "/data/m.wasm"; ex_entry := None |}.
Definition rollback : SnapshotRollbackParams :=
  {| ro_snapshot_id := "1"; include_restored_state := Some true;
     caller_capabilities := Some [{| spec_type := "memory_preview"; spec_path := None |}];
     ro_parent_token_id := None; expected_digest := None |}.

Lemma fresh_start s base : (manager s).(active_tokens) = ∅ → (manager s).(revoked_tokens) = ∅ →
  fresh_from (manager s) (reads base).(ids) 0.
Proof. intros Ha Hr. split; [intros j _; split; [by rewrite Ha|by rewrite Hr]|]. cbn [ids reads]. lia. Qed.
Lemma served_server : served ToyExec.dbg server.
Proof. by apply (served_start _ _ Tokens.Toy.key). Qed.
Definition after_wasi : Answer := do_execute_wasi server (reads 1) wasi.
Definition after_execute : NexusMcpServer := state_of (do_execute ToyExec.dbg server (reads 1) execute).
Definition after_rollback : Answer := do_snapshot_rollback after_execute (reads 1) rollback.
Definition ok_answer (a : Answer) : bool := match a with Some (_, Ok _) => true | _ => false end.

Lemma served_after_execute : served ToyExec.dbg after_execute ∧ fresh_from (manager after_execute) (reads 1).(ids) 0.
Proof.
  split; [|apply fresh_start; vm_compute; reflexivity].
  destruct (do_execute ToyExec.dbg server (reads 1) execute) as [[s res]|] eqn:Hx.
  - assert (after_execute = s) as -> by (unfold after_execute; by rewrite Hx).
    eapply (served_request _ server (reads 1) (RqExecute execute)); [apply served_server|by apply fresh_start|exact Hx].
  - assert (after_execute = server) as -> by (unfold after_execute; by rewrite Hx). apply served_server.
Qed.
End ToyServer.
#[local] Existing Instances Tokens.Toy.crypto Tokens.Toy.crypto_laws Tokens.Toy.url ToyZstd.zstd ToyZstd.zstd_laws
  ToySnap.env ToyInstinct.io ToyExec.guest ToyWasi.guest ToyRace.schedule ToyServer.mcp_lib.


Lemma memory_preview_needs_authority_witness :
  ToyServer.ok_answer ToyServer.after_rollback = true
  ∧ listed ToyServer.after_execute.(gate).(capability_allowlist) MemoryPreview.
Proof.
  split; [vm_compute; reflexivity|].
  assert (match ToyServer.after_rollback with
          | Some (_, Ok (RRollback _ _ _ (Some sum))) => sum.(preview_len) = 64%nat | _ => False end) as Ha
    by (vm_compute; reflexivity).
  destruct ToyServer.after_rollback as [[s' [[]|e]]|] eqn:Hx; try (destruct Ha; fail).
  destruct restored as [sum|]; [|destruct Ha].
  destruct (memory_preview_needs_authority ToyExec.dbg ToyServer.after_execute s' (ToyServer.reads 1) ToyServer.rollback
    _ _ _ sum (proj1 ToyServer.served_after_execute) (proj2 ToyServer.served_after_execute) Hx) as (_ & _ & _ & _ & H).
  apply H. rewrite Ha. lia.
Defined.

(** [nexus_instinct_import] works where the profile switches the instinct tools off. *)
Lemma import_ignores_instinct_switch (s : NexusMcpServer) (store : InstinctStore) (json : string) :
  s.(gate) = ToyServer.gate → s.(hypervisor).(instinct_store) = Some store → len (string_bytes json) ≤ 10485760 →
  ensure_instinct_enabled s.(gate) = Err (profile_denial (Lit "instinct tools are disabled by the active profile"))
  ∧ ∃ res, do_instinct_import s json
      = Some (set_hypervisor s (set_instincts s.(hypervisor) (import_all store (string_bytes json)).1), res).
Proof.
  intros Hg Hs Hl. rewrite Hg. split; [reflexivity|]. unfold do_instinct_import, with_store, try.
  rewrite Hg, Hs. destruct (Z.ltb_spec 10485760 (len (string_bytes json))) as [H|H]; [lia|]. eexists. reflexivity.
Qed.
