(* ===== verification/Tenants.v ===== *)
(** * Tenants of the HTTP transport: [src/bin/nexus_mcp.rs], features [mcp-http] and
    [tenant-registry-postgres]

    Who may call the HTTP server and how often: the tenants file, the registry read from
    PostgreSQL, the check of a request's bearer key, and the rate limit.  Instants are in
    nanoseconds.  SHA-256, the JSON of the tenants file and the names of the SSL modes are
    [TenantLib]; what the database answers is an argument.  The outer [None] of a parser
    of hashes is the panic of a slice that splits a character. *)

From Stdlib Require Import Sorting.Sorted.
From S2P Require Import Prelude Errors UrlGuard Egress McpGate.

Record TenantInfo := { tenant_id : string; rate_limit_rpm : Z }.
Record TenantConfigFileEntry := {
  entry_tenant_id : string;
  api_key_sha256 : string;
  entry_rate_limit_rpm : option Z;
}.
Notation TenantSnapshot := (gmap string TenantInfo).

Inductive PgSslMode := SslDisable | SslAllow | SslPrefer | SslRequire | SslVerifyCa | SslVerifyFull.

Class TenantLib := {
  sha256 : list byte → list byte;
  parse_tenants_json : string → option (list TenantConfigFileEntry);
  parse_ssl_mode : string → option PgSslMode;
}.
Class TenantLaws (T : TenantLib) : Prop := { sha256_length bs : length (sha256 bs) = 32%nat }.

Definition NEXUS_MCP_HTTP_DEFAULT_TENANT_RATE_LIMIT_RPM : Z := 60.
Definition NEXUS_MCP_HTTP_TENANT_ID_FALLBACK : string := "default".
Definition NEXUS_MCP_TENANT_DB_RELATION_DEFAULT : string := "api_keys".
Definition NEXUS_MCP_TENANT_ACTIVE_API_KEYS_VIEW : string := "active_api_keys".
Definition NEXUS_MCP_TENANT_REFRESH_SECS_DEFAULT : Z := 20.
Definition NEXUS_MCP_TENANT_MAX_STALE_SECS_DEFAULT : Z := 60.
Definition NEXUS_MCP_TENANT_DB_TIMEOUT_SECS_DEFAULT : Z := 10.

(** ** Texts *)

(** [str::split_once] on one ASCII character. *)
Fixpoint split_once (c : ascii) (s : string) : option (string * string) :=
  match s with
  | EmptyString => None
  | String a s' =>
      if Ascii.eqb a c then Some (EmptyString, s')
      else match split_once c s' with Some (p, q) => Some (String a p, q) | None => None end
  end.
Definition eq_ignore_ascii_case (s t : string) : bool := String.eqb (to_ascii_lowercase s) (to_ascii_lowercase t).

(** [from_str_radix] of an unsigned integer up to [max]: an optional plus sign, then digits. *)
Definition digit_of (radix : Z) (a : ascii) : option Z :=
  let c := Z.of_nat (code a) in
  let v := if (48 <=? c) && (c <=? 57) then c - 48
           else if (97 <=? c) && (c <=? 122) then c - 87
           else if (65 <=? c) && (c <=? 90) then c - 55
           else 36 in
  if v <? radix then Some v else None.
Fixpoint radix_loop (radix max v : Z) (s : string) : option Z :=
  match s with
  | EmptyString => Some v
  | String a s =>
      match digit_of radix a with
      | None => None
      | Some d => let v := v * radix + d in if max <? v then None else radix_loop radix max v s
      end
  end.
Definition from_str_radix (radix max : Z) (s : string) : option Z :=
  let digits := match s with
                | String a (String _ _ as rest) => if Ascii.eqb a "+"%char then rest else s
                | _ => s
                end in
  match digits with EmptyString => None | _ => radix_loop radix max 0 digits end.

Definition normalize_http_token (raw : string) : option string :=
  let token := trim raw in if decide (token = "") then None else Some token.
Definition parse_bearer_token (raw : string) : option string :=
  match split_once " "%char raw with
  | None => None
  | Some (scheme, value) => if eq_ignore_ascii_case scheme "bearer" then normalize_http_token value else None
  end.

(** Two digits at a time; a slice must not end inside a character. *)
Definition continues_char (s : string) : bool :=
  match s with EmptyString => false | String a _ => (128 <=? code a)%nat && (code a <? 192)%nat end.
Fixpoint parse_hex_pairs (s : string) : option (result (list byte) AnyError) :=
  match s with
  | String a (String b rest) =>
      if continues_char rest then None
      else match from_str_radix 16 U8_MAX (String a (String b EmptyString)) with
           | None => Some (Err (Anyhow (Lit "tenant api key hash must be hex")))
           | Some v => (λ r, let? bytes := r in Ok (byte_of_Z v :: bytes)) <$> parse_hex_pairs rest
           end
  | _ => Some (Ok [])
  end.
Definition parse_hex_sha256 (raw : string) : option (result (list byte) AnyError) :=
  if negb (String.length raw =? 64)%nat then Some (Err (Anyhow (Lit "invalid SHA-256 hex length")))
  else parse_hex_pairs raw.

Definition sha256_hex (raw : list byte) : string := hex_lower raw.

(** ** The tenants file and the single key *)

Section Config.
Context `{T : TenantLib}.

Definition sha256_hex_bytes (raw : string) : string := sha256_hex (sha256 (string_bytes raw)).

Definition bail {A} (m : Msg) : option (result A AnyError) := Some (Err (Anyhow m)).

Fixpoint config_loop (tenant_ids tenant_hashes : gset string) (tenant_configs : TenantSnapshot)
    (tenants : list TenantConfigFileEntry) : option (result TenantSnapshot AnyError) :=
  match tenants with
  | [] => Some (Ok tenant_configs)
  | tenant :: tenants =>
      let id := trim tenant.(entry_tenant_id) in
      if decide (id = "") then bail (Lit "tenant_id must not be empty")
      else if decide (id ∈ tenant_ids) then bail (Fmt "duplicate tenant_id '{tenant_id}'" [AStr id])
      else
        let text := trim tenant.(api_key_sha256) in
        match parse_hex_sha256 text with
        | None => None
        | Some (Err e) => Some (Err e)
        | Some (Ok bytes) =>
            let hash := sha256_hex bytes in
            if decide (hash ∈ tenant_hashes)
            then bail (Fmt "duplicate tenant api_key_sha256 '{api_key_sha256_str}'" [AStr text])
            else
              let rpm := default NEXUS_MCP_HTTP_DEFAULT_TENANT_RATE_LIMIT_RPM tenant.(entry_rate_limit_rpm) in
              if rpm =? 0
              then bail (Fmt "rate_limit_rpm for tenant '{tenant_id}' must be greater than 0" [AStr id])
              else config_loop ({[id]} ∪ tenant_ids) ({[hash]} ∪ tenant_hashes)
                     (<[hash := {| tenant_id := id; rate_limit_rpm := rpm |}]> tenant_configs) tenants
        end
  end.
Definition parse_tenant_config_file (contents : option string) : option (result TenantSnapshot AnyError) :=
  match contents with
  | None => bail (Fmt "failed to read tenants file '{}': {error}" [AOpaque; AOpaque])
  | Some contents =>
      match parse_tenants_json contents with
      | None => bail (Fmt "invalid tenants JSON: {error}" [AOpaque])
      | Some [] => bail (Lit "tenant configuration must contain at least one tenant")
      | Some tenants => config_loop ∅ ∅ ∅ tenants
      end
  end.

(** The environment. *)
Definition not_unicode {A} (m : string) : result A AnyError := Err (Anyhow (Lit m)).
Definition parse_mcp_http_token (var : EnvVar) : result (option string) AnyError :=
  match var with
  | Present token => Ok (normalize_http_token token)
  | NotPresent => Ok None
  | NotUnicode => not_unicode "NEXUS_MCP_HTTP_TOKEN must be valid UTF-8"
  end.
Definition parse_mcp_http_tenants_path (var : EnvVar) : result (option string) AnyError :=
  match var with
  | Present path => Ok (normalize_http_token path)
  | NotPresent => Ok None
  | NotUnicode => not_unicode "NEXUS_MCP_HTTP_TENANTS must be valid UTF-8 path"
  end.

(** [parse_tenant_auth_state_from_file]: the snapshot of the registry; [read] is the disk. *)
Definition parse_tenant_auth_state_from_file (tenants_var token_var : EnvVar) (read : string → option string)
  : option (result (option TenantSnapshot) AnyError) :=
  match parse_mcp_http_tenants_path tenants_var with
  | Err e => Some (Err e)
  | Ok (Some path) =>
      (λ r, let? tenants :=
              result_map_err (λ _, Anyhow (Fmt "failed to load {NEXUS_MCP_HTTP_TENANTS_ENV}='{path}': {error}" [AStr path; AOpaque])) r in
            Ok (Some tenants)) <$> parse_tenant_config_file (read path)
  | Ok None =>
      Some (let? token := parse_mcp_http_token token_var in
            Ok ((λ token, {[ sha256_hex_bytes token :=
                   {| tenant_id := NEXUS_MCP_HTTP_TENANT_ID_FALLBACK;
                      rate_limit_rpm := NEXUS_MCP_HTTP_DEFAULT_TENANT_RATE_LIMIT_RPM |} ]}) <$> token))
  end.

Inductive TenantSource := File | Postgres.
Definition parse_tenant_source (var : EnvVar) : result TenantSource AnyError :=
  let source := to_ascii_lowercase (trim (match var with Present v => v | _ => "file" end)) in
  if String.eqb source "file" then Ok File
  else if String.eqb source "postgres" then Ok Postgres
  else Err (Anyhow (Lit "invalid NEXUS_MCP_TENANT_SOURCE; expected 'file' or 'postgres'")).
End Config.

(** ** The registry in PostgreSQL *)

Record PgSettings := {
  relation : string;
  refresh_interval : Z;
  max_stale : Z;
  refresh_timeout : Z;
  db_url : string;
}.
Record TenantSnapshotState := { held : TenantSnapshot; refreshed_at : option Z }.
Record TenantRow := {
  key_sha256 : option string;          (** [None]: the column does not decode *)
  workspace_id : option string;
  row_rate_limit_rpm : option (option Z);
}.
(** How the await of one load ends. *)
Inductive LoadOutcome := Loaded (r : result TenantSnapshot AnyError) | TimedOut.

Definition Snapshot_empty : TenantSnapshotState := {| held := ∅; refreshed_at := None |}.
Definition Snapshot_fresh (s : TenantSnapshot) (now : Z) : TenantSnapshotState :=
  {| held := s; refreshed_at := Some now |}.

Section Postgres.
Context `{T : TenantLib}.

Definition parse_tenant_env_u64 (name : string) (var : EnvVar) (dflt : Z) : result Z AnyError :=
  match var with
  | Present value => ok_or (from_str_radix 10 U64_MAX value) (Anyhow (Fmt "{name} must be an unsigned integer: {error}" [AStr name; AOpaque]))
  | NotPresent => Ok dflt
  | NotUnicode => Err (Anyhow (Fmt "{name} must be valid UTF-8" [AStr name]))
  end.
Definition parse_tenant_db_url (var : EnvVar) : result (option string) AnyError :=
  match var with
  | Present url => Ok (normalize_http_token url)
  | NotPresent => Ok None
  | NotUnicode => not_unicode "NEXUS_MCP_TENANT_DB_URL must be valid UTF-8"
  end.
Definition relation_char (a : ascii) : bool :=
  let c := code a in
  ((48 <=? c) && (c <=? 57) || (65 <=? c) && (c <=? 90) || (97 <=? c) && (c <=? 122) || (c =? 95) || (c =? 46))%nat.
Definition parse_tenant_db_relation (var : EnvVar) : result string AnyError :=
  let relation := trim (match var with Present v => v | _ => NEXUS_MCP_TENANT_DB_RELATION_DEFAULT end) in
  if negb (forallb relation_char (String.list_ascii_of_string relation)) || bool_decide (relation = "")
  then Err (Anyhow (Lit "NEXUS_MCP_TENANT_DB_RELATION must be a non-empty relation name"))
  else Ok relation.

(** The settings that [build_postgres_tenant_registry] reads. *)
Definition postgres_settings (relation_var refresh stale timeout url : EnvVar) : result PgSettings AnyError :=
  let? relation := parse_tenant_db_relation relation_var in
  let? refresh_secs := parse_tenant_env_u64 "NEXUS_MCP_TENANT_REFRESH_SECS" refresh NEXUS_MCP_TENANT_REFRESH_SECS_DEFAULT in
  if refresh_secs =? 0 then Err (Anyhow (Lit "NEXUS_MCP_TENANT_REFRESH_SECS must be greater than 0"))
  else
    let? stale_secs := parse_tenant_env_u64 "NEXUS_MCP_TENANT_MAX_STALE_SECS" stale NEXUS_MCP_TENANT_MAX_STALE_SECS_DEFAULT in
    if (stale_secs =? 0) || (stale_secs <? refresh_secs)
    then Err (Anyhow (Lit "NEXUS_MCP_TENANT_MAX_STALE_SECS must be >= NEXUS_MCP_TENANT_REFRESH_SECS and greater than 0"))
    else
      let? timeout_secs := parse_tenant_env_u64 "NEXUS_MCP_TENANT_DB_TIMEOUT_SECS" timeout NEXUS_MCP_TENANT_DB_TIMEOUT_SECS_DEFAULT in
      if timeout_secs =? 0 then Err (Anyhow (Lit "NEXUS_MCP_TENANT_DB_TIMEOUT_SECS must be greater than 0"))
      else
        let? url := parse_tenant_db_url url in
        let? url := ok_or url (Anyhow (Lit "NEXUS_MCP_TENANT_DB_URL is required when NEXUS_MCP_TENANT_SOURCE is set to 'postgres'")) in
        Ok {| relation := relation; refresh_interval := from_secs refresh_secs; max_stale := from_secs stale_secs;
              refresh_timeout := from_secs timeout_secs; db_url := url |}.

Definition parse_tenant_db_ssl_mode (db_url : string) : option PgSslMode :=
  match split_once "?"%char db_url with
  | None => None
  | Some (_, query) =>
      head (omap (λ '(key, value), if eq_ignore_ascii_case key "sslmode" then parse_ssl_mode value else None)
              (omap (split_once "="%char) (split_on "&"%char query)))
  end.
Definition tenant_db_ssl_mode (db_url : string) : PgSslMode :=
  match parse_tenant_db_ssl_mode db_url with
  | Some SslVerifyCa => SslVerifyCa
  | Some SslVerifyFull => SslVerifyFull
  | Some _ | None => SslRequire
  end.

(** *** The query *)

Definition dquote : ascii := ascii_of_nat 34.
Fixpoint double_quotes (s : string) : string :=
  match s with
  | EmptyString => EmptyString
  | String a s => if Ascii.eqb a dquote then String dquote (String dquote (double_quotes s)) else String a (double_quotes s)
  end.
Definition quote_postgres_relation_identifier (relation : string) : string :=
  join "." ((λ segment, String dquote (double_quotes segment +:+ String dquote EmptyString)) <$> split_on "."%char relation).
Definition format_tenant_query (relation : string) (use_status_filter : bool) : string :=
  "SELECT key_sha256, workspace_id::text AS workspace_id, rate_limit_rpm::bigint AS rate_limit_rpm FROM " +:+ relation
    +:+ (if use_status_filter then " WHERE status = 'active'" else "").
Definition relation_uses_status_filter (relation : string) : bool :=
  negb (String.eqb relation NEXUS_MCP_TENANT_ACTIVE_API_KEYS_VIEW).

(** [exists_ r] is the database's answer about a relation, [fetch q] the rows of a query;
    [None] is an error of the driver. *)
Definition db_error : AnyError := Anyhow (Fmt "{error}" [AOpaque]).
Definition resolve_postgres_relation (exists_ : string → option bool) (relation : string) : result string AnyError :=
  if String.eqb relation NEXUS_MCP_TENANT_DB_RELATION_DEFAULT then
    let? found := ok_or (exists_ NEXUS_MCP_TENANT_ACTIVE_API_KEYS_VIEW) db_error in
    Ok (if found : bool then NEXUS_MCP_TENANT_ACTIVE_API_KEYS_VIEW else relation)
  else Ok relation.

Fixpoint load_rows (default_rpm : Z) (snapshot : TenantSnapshot) (rows : list TenantRow)
  : option (result TenantSnapshot AnyError) :=
  match rows with
  | [] => Some (Ok snapshot)
  | row :: rows =>
      match row.(key_sha256) with
      | None => Some (Err db_error)
      | Some raw_hash =>
          let key := to_ascii_lowercase (trim raw_hash) in
          match parse_hex_sha256 key with
          | None => None
          | Some (Err e) => Some (Err e)
          | Some (Ok _) =>
              match row.(workspace_id), row.(row_rate_limit_rpm) with
              | Some id, Some rpm =>
                  let rpm := default (if default_rpm <=? 9223372036854775807 then default_rpm else 0) rpm in
                  if rpm <? 0 then bail (Fmt "rate_limit_rpm for tenant '{tenant_id}' must be a non-negative integer" [AStr id])
                  else if rpm =? 0 then bail (Fmt "rate_limit_rpm for tenant '{tenant_id}' must be greater than 0" [AStr id])
                  else match snapshot !! key with
                       | Some _ => bail (Lit "duplicate tenant api_key_sha256 in tenant registry snapshot")
                       | None => load_rows default_rpm (<[key := {| tenant_id := id; rate_limit_rpm := rpm |}]> snapshot) rows
                       end
              | _, _ => Some (Err db_error)
              end
          end
      end
  end.
Definition load_postgres_tenant_snapshot (exists_ : string → option bool) (fetch : string → option (list TenantRow))
    (relation : string) (default_rpm : Z) : option (result TenantSnapshot AnyError) :=
  match resolve_postgres_relation exists_ relation with
  | Err e => Some (Err e)
  | Ok resolved =>
      match fetch (format_tenant_query (quote_postgres_relation_identifier resolved) (relation_uses_status_filter resolved)) with
      | None => Some (Err db_error)
      | Some rows => load_rows default_rpm ∅ rows
      end
  end.

(** *** Freshness *)

(** [Instant::duration_since] saturates. *)
Definition duration_since (now earlier : Z) : Z := Z.max 0 (now - earlier).

Definition clear_if_stale (st : TenantSnapshotState) (stale : Z) (now : Z) : TenantSnapshotState :=
  match st.(refreshed_at) with
  | None => st
  | Some at_ => if duration_since now at_ <? stale then st else Snapshot_empty
  end.

Definition refresh_timeout_budget (st : TenantSnapshotState) (stale configured now : Z) : Z :=
  if bool_decide (st.(held) = ∅) then configured
  else match st.(refreshed_at) with
       | None => configured
       | Some at_ =>
           let budget := stale - duration_since now at_ in
           if 0 <? budget then Z.min configured budget else configured
       end.

(** One refresh, from [now] to [ended]. *)
Definition refresh_postgres_tenants_with_loader (st : TenantSnapshotState) (stale now : Z) (outcome : LoadOutcome) (ended : Z)
  : TenantSnapshotState * result () AnyError :=
  let st := clear_if_stale st stale now in
  match outcome with
  | Loaded (Ok snapshot) => (Snapshot_fresh snapshot ended, Ok ())
  | Loaded (Err e) => (clear_if_stale st stale ended, Err e)
  | TimedOut => (clear_if_stale st stale ended, Err (Anyhow (Lit "tenant registry refresh from PostgreSQL timed out")))
  end.

(** One turn of [refresh_postgres_tenants_loop]: the refresh of a task, whose failure the
    loop observes; the outcome [None] is a panic of the load. *)
Definition refresh_turn (st : TenantSnapshotState) (stale now : Z) (outcome : option LoadOutcome) (ended observed : Z)
  : TenantSnapshotState :=
  match outcome with
  | None => clear_if_stale (clear_if_stale st stale now) stale observed
  | Some outcome =>
      match refresh_postgres_tenants_with_loader st stale now outcome ended with
      | (st, Ok _) => st
      | (st, Err _) => clear_if_stale st stale observed
      end
  end.
End Postgres.

(** ** Requests *)

Inductive Registry := FileTenantRegistry (s : TenantSnapshot) | PostgresTenantRegistry (st : TenantSnapshotState).
Definition current_snapshot (r : Registry) : TenantSnapshot :=
  match r with FileTenantRegistry s => s | PostgresTenantRegistry st => st.(held) end.

Record TenantRateWindow := { window_start : Z; request_count : Z }.
Record TenantAuthState := { registry : Registry; rate_limits : gmap string TenantRateWindow }.
Definition TenantAuthState_new (r : Registry) : TenantAuthState := {| registry := r; rate_limits := ∅ |}.

(** The window of one tenant, and whether the request is blocked. *)
Definition window_turn (window : option TenantRateWindow) (limit_rpm now : Z) : TenantRateWindow * bool :=
  let window := default {| window_start := now; request_count := 0 |} window in
  let window := if from_secs 60 <=? duration_since now window.(window_start)
                then {| window_start := now; request_count := 0 |} else window in
  if limit_rpm <=? window.(request_count) then (window, true)
  else ({| window_start := window.(window_start); request_count := window.(request_count) + 1 |}, false).
Definition rate_limit_blocked (state : TenantAuthState) (id : string) (limit_rpm now : Z) : TenantAuthState * bool :=
  let '(window, blocked) := window_turn (state.(rate_limits) !! id) limit_rpm now in
  ({| registry := state.(registry); rate_limits := <[id := window]> state.(rate_limits) |}, blocked).

Section Requests.
Context `{T : TenantLib}.

Definition tenant_for_token (snapshot : TenantSnapshot) (token_hash : string) : option TenantInfo := snapshot !! token_hash.

(** The answer to a request: refused, or passed on for a tenant. *)
Inductive HttpAnswer := UNAUTHORIZED | TOO_MANY_REQUESTS | NextRun (tenant : option string).

(** [header] is the authorization header when it is visible ASCII. *)
Definition require_bearer_token (auth : option TenantAuthState) (header : option string) (now : Z)
  : option TenantAuthState * HttpAnswer :=
  match auth with
  | None => (None, NextRun None)
  | Some state =>
      match header ≫= parse_bearer_token with
      | None => (auth, UNAUTHORIZED)
      | Some key =>
          match tenant_for_token (current_snapshot state.(registry)) (sha256_hex_bytes key) with
          | None => (auth, UNAUTHORIZED)
          | Some tenant =>
              let '(state, blocked) := rate_limit_blocked state tenant.(tenant_id) tenant.(rate_limit_rpm) now in
              (Some state, if blocked : bool then TOO_MANY_REQUESTS else NextRun (Some tenant.(tenant_id)))
          end
      end
  end.

(** The check of [run_mcp_http_server] before it binds. *)
Definition is_loopback_addr (ip : IpAddr) : bool :=
  match ip with IpV4 ip => v4_is_loopback ip | IpV6 ip => v6_is_loopback ip end.
Definition check_bind (auth : option TenantAuthState) (ip : IpAddr) : result () AnyError :=
  match auth with
  | None => if is_loopback_addr ip then Ok ()
            else Err (Anyhow (Lit "tenant auth source is required for non-loopback HTTP bind"))
  | Some _ => Ok ()
  end.
End Requests.

(** ** Lemmas on hashes *)

Lemma digit_of_hex v : 0 ≤ v < 16 → digit_of 16 (hex_digit v) = Some v.
Proof.
  intros Hv. pose proof (hex_digit_ind (λ v a, match digit_of 16 a with Some d => d =? v | None => false end) eq_refl v Hv) as H. cbv beta in H.
  destruct (digit_of 16 (hex_digit v)); [|done]. apply Z.eqb_eq in H. by subst.
Qed.
Lemma hex_digit_plain v : 0 ≤ v < 16 → Ascii.eqb (hex_digit v) "+"%char = false ∧ (code (hex_digit v) < 128)%nat.
Proof.
  intros Hv. pose proof (hex_digit_ind (λ _ a, negb (Ascii.eqb a "+"%char) && (code a <? 128)%nat) eq_refl v Hv) as H. cbv beta in H.
  apply andb_true_iff in H as [H1%negb_true_iff H2%Nat.ltb_lt]. done.
Qed.

Lemma from_hex_byte b :
  from_str_radix 16 U8_MAX (String (hex_digit (Z_of_byte b / 16)) (String (hex_digit (Z_of_byte b mod 16)) EmptyString))
  = Some (Z_of_byte b).
Proof.
  pose proof (Z_of_byte_range b) as Hb. destruct (byte_nibbles b) as (Hhi & Hlo & Heq).
  unfold from_str_radix. rewrite (proj1 (hex_digit_plain _ Hhi)). cbn [radix_loop].
  rewrite (digit_of_hex _ Hhi), (digit_of_hex _ Hlo). unfold U8_MAX.
  destruct (Z.ltb_spec 255 (0 * 16 + Z_of_byte b / 16)); [lia|].
  destruct (Z.ltb_spec 255 ((0 * 16 + Z_of_byte b / 16) * 16 + Z_of_byte b mod 16)); [lia|]. f_equal. lia.
Qed.

Lemma parse_hex_pairs_sha256_hex bs : parse_hex_pairs (sha256_hex bs) = Some (Ok bs).
Proof.
  unfold sha256_hex. induction bs as [|b bs IH]; [done|]. cbn [hex_lower parse_hex_pairs].
  assert (continues_char (hex_lower bs) = false) as ->.
  { destruct bs as [|b' bs]; [done|]. cbn [hex_lower continues_char].
    destruct (hex_digit_plain (Z_of_byte b' / 16)) as [_ Hc]; [apply byte_nibbles|].
    apply andb_false_iff. left. by apply Nat.leb_gt. }
  rewrite from_hex_byte, IH. cbn. by rewrite byte_of_Z_of_byte.
Qed.
Lemma sha256_hex_inj a b : sha256_hex a = sha256_hex b → a = b.
Proof. intros H. pose proof (parse_hex_pairs_sha256_hex b) as Hb. rewrite <- H, parse_hex_pairs_sha256_hex in Hb. congruence. Qed.
Lemma sha256_hex_length bs : String.length (sha256_hex bs) = (2 * length bs)%nat.
Proof. apply hex_lower_length. Qed.
Lemma parse_hex_sha256_hex bs : length bs = 32%nat → parse_hex_sha256 (sha256_hex bs) = Some (Ok bs).
Proof. intros H. unfold parse_hex_sha256. rewrite sha256_hex_length, H. cbn [Nat.mul Nat.add Nat.eqb negb]. apply parse_hex_pairs_sha256_hex. Qed.

(** A text with plus signs is taken for a hash, and one with a character of two bytes at
    an odd place panics. *)
Lemma plus_signs_accepted : parse_hex_sha256 (String.concat "" (replicate 32 "+f")) = Some (Ok (replicate 32 x0f)).
Proof. vm_compute. reflexivity. Qed.
Lemma wide_character_panics :
  parse_hex_sha256 (String "a" (String (ascii_of_nat 195) (String (ascii_of_nat 169)
    (String.concat "" (replicate 61 "a"))))) = None.
Proof. vm_compute. reflexivity. Qed.

(** ** The tenants file *)

Definition info_of (e : TenantConfigFileEntry) : TenantInfo :=
  {| tenant_id := trim e.(entry_tenant_id);
     rate_limit_rpm := default NEXUS_MCP_HTTP_DEFAULT_TENANT_RATE_LIMIT_RPM e.(entry_rate_limit_rpm) |}.
(** The hash written in an entry. *)
Definition hash_of (e : TenantConfigFileEntry) (bytes : list byte) : Prop :=
  parse_hex_sha256 (trim e.(api_key_sha256)) = Some (Ok bytes).

Lemma config_loop_Ok tenants : ∀ ids hashes acc snap,
  dom acc = hashes → config_loop ids hashes acc tenants = Some (Ok snap) →
  NoDup (tenant_id ∘ info_of <$> tenants) ∧ Forall (λ e, tenant_id (info_of e) ∉ ids) tenants
  ∧ ∀ h info, snap !! h = Some info ↔
      acc !! h = Some info ∨ ∃ e bytes, e ∈ tenants ∧ hash_of e bytes ∧ h = sha256_hex bytes ∧ info = info_of e.
Proof.
  induction tenants as [|e tenants IH]; intros ids hashes acc snap Hdom; cbn [config_loop].
  { intros [= <-]. split_and!; [constructor|constructor|]. intros h info. split; [by left|]. intros [?|(? & ? & ?%elem_of_nil & _)]; done. }
  case_decide as Hne; [done|]. case_decide as Hid; [done|].
  destruct (parse_hex_sha256 _) as [[bytes|]|] eqn:Hh; [|done..]. case_decide as Hdup; [done|].
  destruct (_ =? 0) eqn:Hrpm; [done|]. intros Hrun.
  apply IH in Hrun as (Hnd & Hout & Hsnap); [|rewrite <- Hdom; apply dom_insert_L].
  assert (acc !! sha256_hex bytes = None) as Hnone by (apply not_elem_of_dom; by rewrite Hdom).
  split_and!.
  - constructor; [|done]. intros (e' & He & Hin)%list_elem_of_fmap.
    pose proof (proj1 (Forall_forall _ _) Hout e' Hin) as Hn. cbn in He, Hn. set_solver.
  - constructor; [done|]. eapply Forall_impl; [exact Hout|]. cbn. set_solver.
  - intros h info. rewrite Hsnap, lookup_insert_Some. split.
    + intros [[[<- <-]|[_ Ha]]|(e' & b & Hin & Hb)]; [right|by left|right].
      * exists e, bytes. split_and!; [by left|done..].
      * exists e', b. split; [by right|done].
    + intros [Ha|(e' & b & [->|Hin]%elem_of_cons & Hb & -> & ->)].
      * left. right. split; [congruence|done].
      * left. left. unfold hash_of in Hb. rewrite Hh in Hb. by injection Hb as ->.
      * right. by exists e', b.
Qed.

(** ** The rate limit *)

(** Instants of [l] from [lo] on, before [hi]. *)
Definition within (lo hi : Z) (l : list Z) : nat := length (filter (λ x, lo ≤ x < hi) l).

Lemma within_app lo hi l k : within lo hi (l ++ k) = (within lo hi l + within lo hi k)%nat.
Proof. unfold within. by rewrite filter_app, length_app. Qed.
Lemma within_none lo hi l : Forall (λ x, x < lo ∨ hi ≤ x) l → within lo hi l = 0%nat.
Proof.
  unfold within. induction 1 as [|x l Hx _ IH]; [done|]. rewrite filter_cons. case_decide; [lia|done].
Qed.
Lemma within_le lo hi l : (within lo hi l ≤ length l)%nat.
Proof. unfold within. induction l as [|x l IH]; [done|]. rewrite filter_cons. case_decide; cbn; lia. Qed.
Lemma within_all lo hi l : Forall (λ x, lo ≤ x < hi) l → within lo hi l = length l.
Proof.
  unfold within. induction 1 as [|x l Hx _ IH]; [done|]. rewrite filter_cons. case_decide; [cbn; lia|done].
Qed.
Lemma within_cons_out lo hi x l : x < lo → (within lo hi (x :: l) ≤ length l)%nat.
Proof. intros H. unfold within. rewrite filter_cons. case_decide; [lia|]. apply within_le. Qed.

Definition MINUTE : Z := from_secs 60.

(** What the window of a tenant knows of the requests admitted so far: those of the
    current window, the first of which opened it, and older ones, of which fewer than the
    limit came within a minute before it. *)
Record window_inv (limit : nat) (window : option TenantRateWindow) (admitted : list Z) (last : Z) : Prop := {
  wi_window : match window with
              | None => admitted = []
              | Some w => ∃ old cur, admitted = old ++ w.(window_start) :: cur
                  ∧ w.(request_count) = Z.of_nat (S (length cur)) ∧ (S (length cur) ≤ limit)%nat
                  ∧ Forall (λ x, w.(window_start) ≤ x ≤ last) (w.(window_start) :: cur)
                  ∧ Forall (λ x, x ≤ w.(window_start)) old
                  ∧ ∀ lo hi, w.(window_start) - MINUTE < lo → (within lo hi old < limit)%nat
              end;
  wi_minute t : (0 < limit)%nat → (within t (t + MINUTE) admitted < 2 * limit)%nat;
}.

Lemma window_inv_start limit last : window_inv limit None [] last.
Proof. split; [done|]. intros t H. cbn. lia. Qed.

(** The window that a request opens. *)
Lemma window_inv_open limit old now :
  (0 < limit)%nat → Forall (λ x, x ≤ now) old → (∀ lo hi, now - MINUTE < lo → (within lo hi old < limit)%nat) →
  (∀ t, (within t (t + MINUTE) old < 2 * limit)%nat) →
  window_inv limit (Some {| window_start := now; request_count := 1 |}) (old ++ [now]) now.
Proof.
  intros Hl Hle Hrecent Hm. split.
  - exists old, []. cbn. split_and!; try done; repeat constructor; lia.
  - intros t _. rewrite within_app. pose proof (within_le t (t + MINUTE) [now]) as H1. cbn [length] in H1.
    destruct (Z.lt_ge_cases (now - MINUTE) t) as [Ht|Ht].
    + specialize (Hrecent t (t + MINUTE) Ht). lia.
    + rewrite (within_none _ _ [now]) by (repeat constructor; lia). specialize (Hm t). lia.
Qed.

Lemma window_turn_inv limit window admitted last lim now window' (blocked : bool) :
  window_inv limit window admitted last → last ≤ now → 1 ≤ lim ≤ Z.of_nat limit →
  window_turn window lim now = (window', blocked) →
  window_inv limit (Some window') (admitted ++ if blocked then [] else [now]) now
  ∧ (blocked = true → lim ≤ Z.of_nat (within (now - MINUTE + 1) (now + 1) admitted)).
Proof.
  intros [Hw Hm] Hlast Hlim. assert (0 < limit)%nat as Hpos by lia.
  assert (∀ t, (within t (t + MINUTE) admitted < 2 * limit)%nat) as Hmin by auto.
  unfold window_turn, duration_since. fold MINUTE. assert (0 < MINUTE) as HM by done.
  destruct window as [[start count]|]; cbn [from_option id window_start request_count].
  2:{ rewrite Hw. replace (MINUTE <=? Z.max 0 (now - now)) with false by (symmetry; apply Z.leb_gt; lia). cbn [window_start request_count].
      destruct (Z.leb_spec lim 0); [lia|]. intros [= <- <-]. split; [|done].
      apply window_inv_open; [done|by constructor|intros; by cbn|intros; cbn; lia]. }
  cbn [window_start request_count] in Hw. destruct Hw as (old & cur & -> & -> & Hcount & Hcur & Hold & Hrecent).
  assert (Forall (λ x, x ≤ now) (old ++ start :: cur)) as Hall.
  { apply Forall_app. apply Forall_cons in Hcur as [? Hcur']. split; [eapply Forall_impl; [exact Hold|]; cbn; lia|].
    constructor; [lia|]. eapply Forall_impl; [exact Hcur'|]. cbn. lia. }
  destruct (Z.leb_spec MINUTE (Z.max 0 (now - start))) as [Hnew|Hsame]; cbn [window_start request_count].
  - destruct (Z.leb_spec lim 0); [lia|]. intros [= <- <-]. split; [|done]. apply window_inv_open; [done|done| |done].
    intros lo hi Hlo. rewrite within_app, (within_none _ _ old) by (eapply Forall_impl; [exact Hold|]; cbn; lia).
    pose proof (within_cons_out lo hi start cur ltac:(lia)). lia.
  - destruct (Z.leb_spec lim (Z.of_nat (S (length cur)))) as [Hb|Hb]; intros [= <- <-].
    + rewrite app_nil_r. split.
      * split; [|done]. exists old, cur. cbn. split_and!; try done. eapply Forall_impl; [exact Hcur|]. cbn. lia.
      * intros _. rewrite within_app, (within_all _ _ (start :: cur)); [cbn [length]; lia|].
        eapply Forall_impl; [exact Hcur|]. cbn. lia.
    + split; [|done]. rewrite <- app_assoc. cbn [app]. split.
      * exists old, (cur ++ [now]). cbn [window_start request_count]. rewrite length_app. cbn [length]. split_and!; try done; try lia.
        rewrite app_comm_cons. apply Forall_app. apply Forall_cons in Hcur as [? ?]. split; [|repeat constructor; lia].
        constructor; [lia|]. eapply Forall_impl; [eassumption|]. cbn. lia.
      * intros t _. rewrite app_comm_cons, !within_app.
        pose proof (within_le t (t + MINUTE) (start :: cur)) as H1. pose proof (within_le t (t + MINUTE) [now]) as H2.
        cbn [length] in H1, H2.
        destruct (Z.lt_ge_cases start t) as [Ht|Ht].
        { pose proof (within_cons_out t (t + MINUTE) start cur Ht).
          rewrite (within_none _ _ old) by (eapply Forall_impl; [exact Hold|]; cbn; lia). lia. }
        destruct (Z.lt_ge_cases (start - MINUTE) t) as [Hr|Hr].
        { specialize (Hrecent t (t + MINUTE) Hr). lia. }
        rewrite (within_none _ _ (start :: cur)).
        2:{ eapply Forall_impl; [exact Hcur|]. cbn. lia. }
        rewrite (within_none _ _ [now]) by (repeat constructor; apply Forall_cons in Hcur as [? _]; lia).
        specialize (Hmin t). rewrite within_app in Hmin. lia.
Qed.

(** ** Sequences of requests *)

#[export] Instance HttpAnswer_eq_dec : EqDecision HttpAnswer.
Proof. solve_decision. Defined.

Definition admitted (id : string) (answers : list (Z * HttpAnswer)) : list Z :=
  fst <$> filter (λ '(_, a), a = NextRun (Some id)) answers.
Lemma admitted_cons id now a answers :
  admitted id ((now, a) :: answers) = (if decide (a = NextRun (Some id)) then [now] else []) ++ admitted id answers.
Proof. unfold admitted. rewrite filter_cons. repeat case_decide; by simplify_eq/=. Qed.

Lemma window_inv_later limit w l last last' : last ≤ last' → window_inv limit w l last → window_inv limit w l last'.
Proof.
  intros Hle [Hw Hm]. split; [|done]. destruct w as [w|]; [|done].
  destruct Hw as (old & cur & -> & ? & ? & Hcur & ? & ?). exists old, cur. split_and!; try done.
  eapply Forall_impl; [exact Hcur|]. cbn. lia.
Qed.

Section Serve.
Context `{T : TenantLib}.

Fixpoint serve (auth : option TenantAuthState) (requests : list (option string * Z))
  : option TenantAuthState * list (Z * HttpAnswer) :=
  match requests with
  | [] => (auth, [])
  | (header, now) :: requests =>
      let '(auth, answer) := require_bearer_token auth header now in
      let '(auth, answers) := serve auth requests in
      (auth, (now, answer) :: answers)
  end.

(** Every key of a tenant has a positive limit, at most [limit]. *)
Definition limited (limit : string → nat) (r : Registry) : Prop :=
  ∀ h info, current_snapshot r !! h = Some info → 1 ≤ info.(rate_limit_rpm) ≤ Z.of_nat (limit info.(tenant_id)).

Lemma require_inv limit state adm last header now :
  limited limit state.(registry) → (∀ id, window_inv (limit id) (state.(rate_limits) !! id) (adm id) last) → last ≤ now →
  ∃ state' answer, require_bearer_token (Some state) header now = (Some state', answer)
    ∧ state'.(registry) = state.(registry)
    ∧ (∀ id, window_inv (limit id) (state'.(rate_limits) !! id)
         (adm id ++ if decide (answer = NextRun (Some id)) then [now] else []) now)
    ∧ (answer = TOO_MANY_REQUESTS → ∃ key info, header ≫= parse_bearer_token = Some key
         ∧ current_snapshot state.(registry) !! sha256_hex_bytes key = Some info
         ∧ info.(rate_limit_rpm) ≤ Z.of_nat (within (now - MINUTE + 1) (now + 1) (adm info.(tenant_id)))).
Proof.
  intros Hlim Hinv Hlast. cbn [require_bearer_token].
  assert (∀ id, window_inv (limit id) (state.(rate_limits) !! id) (adm id ++ []) now) as Hsame.
  { intros id. rewrite app_nil_r. by eapply window_inv_later. }
  destruct (header ≫= parse_bearer_token) as [key|] eqn:Hkey; [|by exists state, UNAUTHORIZED].
  unfold tenant_for_token. destruct (current_snapshot _ !! _) as [info|] eqn:Hinfo; [|by exists state, UNAUTHORIZED].
  unfold rate_limit_blocked. destruct (window_turn _ _ _) as [w blocked] eqn:Hturn.
  destruct (window_turn_inv _ _ _ _ _ _ _ _ (Hinv info.(tenant_id)) Hlast (Hlim _ _ Hinfo) Hturn) as [Hw Hb].
  eexists _, _. split; [reflexivity|]. split; [done|]. split.
  - intros id. cbn [rate_limits]. destruct (decide (id = info.(tenant_id))) as [->|Hne].
    + rewrite lookup_insert_eq. destruct blocked; [by rewrite decide_False by done|by rewrite decide_True by done].
    + rewrite lookup_insert_ne by done. rewrite decide_False by (destruct blocked; congruence). apply Hsame.
  - destruct blocked; [|done]. intros _. exists key, info. split_and!; [done|done|by apply Hb].
Qed.

Lemma serve_inv limit requests : ∀ state adm last auth answers,
  limited limit state.(registry) → (∀ id, window_inv (limit id) (state.(rate_limits) !! id) (adm id) last) →
  StronglySorted Z.le (last :: (snd <$> requests)) → serve (Some state) requests = (auth, answers) →
  ∃ state' last', auth = Some state' ∧ state'.(registry) = state.(registry)
    ∧ (∀ t, Forall (λ x, x ≤ t) (last :: (snd <$> requests)) → last' ≤ t)
    ∧ ∀ id, window_inv (limit id) (state'.(rate_limits) !! id) (adm id ++ admitted id answers) last'.
Proof.
  induction requests as [|[header now] requests IH]; intros state adm last auth answers Hlim Hinv Hsort; cbn [serve].
  { intros [= <- <-]. exists state, last. split_and!; [done|done|by intros t [? _]%Forall_cons|]. intros id. by rewrite app_nil_r. }
  apply StronglySorted_inv in Hsort as [Hsort Hle]. apply Forall_cons in Hle as [Hle _]. cbn in Hle.
  destruct (require_inv limit state adm last header now Hlim Hinv Hle) as (state1 & a & -> & Hreg & Hinv1 & _).
  destruct (serve (Some state1) requests) as [auth1 answers1] eqn:Hs. intros [= <- <-].
  destruct (IH state1 _ now auth1 answers1 ltac:(by rewrite Hreg) Hinv1 Hsort Hs) as (state' & last' & -> & Hreg' & Hlast & Hfin).
  exists state', last'. split_and!; [done|congruence| |].
  - intros t [_ Ht]%Forall_cons. by apply Hlast.
  - intros id. specialize (Hfin id). by rewrite <- app_assoc, <- admitted_cons in Hfin.
Qed.
End Serve.

(** ** Refreshes of the registry *)

Record Turn := { began : Z; outcome : option LoadOutcome; ended : Z; observed : Z }.
Definition run_turns (stale : Z) (turns : list Turn) : TenantSnapshotState :=
  fold_left (λ st t, refresh_turn st stale t.(began) t.(outcome) t.(ended) t.(observed)) turns Snapshot_empty.

Lemma clear_cases st stale now :
  clear_if_stale st stale now = Snapshot_empty
  ∨ clear_if_stale st stale now = st ∧ ∀ at_, st.(refreshed_at) = Some at_ → duration_since now at_ < stale.
Proof.
  unfold clear_if_stale. destruct (refreshed_at st) as [at_|]; [|by right].
  destruct (Z.ltb_spec (duration_since now at_) stale); [right|by left]. split; [done|]. by intros ? [= <-].
Qed.

(** The snapshot after a turn: of this load, empty, or the one before it and not stale. *)
Lemma refresh_turn_cases st stale t :
  let st' := refresh_turn st stale t.(began) t.(outcome) t.(ended) t.(observed) in
  (∃ s, t.(outcome) = Some (Loaded (Ok s)) ∧ st' = Snapshot_fresh s t.(ended))
  ∨ st' = Snapshot_empty
  ∨ st' = st ∧ ∀ at_, st.(refreshed_at) = Some at_ → duration_since t.(observed) at_ < stale.
Proof.
  cbn. unfold refresh_turn, refresh_postgres_tenants_with_loader.
  destruct t.(outcome) as [[[s|e]|]|]; [left; by exists s|right..].
  all: repeat match goal with |- context [clear_if_stale ?st ?stale ?now] =>
         lazymatch st with context [clear_if_stale] => fail | _ =>
           destruct (clear_cases st stale now) as [-> | [-> ?]]
         end end; try (by left); try (by right).
Qed.

Lemma run_turns_snapshot stale turns :
  run_turns stale turns = Snapshot_empty
  ∨ ∃ t s, t ∈ turns ∧ t.(outcome) = Some (Loaded (Ok s)) ∧ run_turns stale turns = Snapshot_fresh s t.(ended).
Proof.
  induction turns as [|t turns IH] using rev_ind; [by left|]. unfold run_turns in *. rewrite fold_left_snoc.
  destruct (refresh_turn_cases (fold_left (λ st t, refresh_turn st stale t.(began) t.(outcome) t.(ended) t.(observed)) turns Snapshot_empty) stale t)
    as [(s & Ho & ->)|[->|[-> _]]]; [right|by left|].
  - exists t, s. split_and!; [apply elem_of_app; right; by left|done..].
  - destruct IH as [?|(t' & s & ? & ? & ?)]; [by left|right]. exists t', s. split_and!; [apply elem_of_app; by left|done..].
Qed.

(** ** The properties *)

Section Theorems.
Context `{T : TenantLib}.

(** C38: with a tenants file, exactly the holders of the configured keys get in.  When the
    file loads, tenants have distinct names; a request is refused as unauthorised exactly
    when it presents no key whose SHA-256 is the hash of an entry, and a request that is
    passed on runs for the tenant of such an entry. *)
Theorem file_tenants_authenticate (contents : string) (tenants : list TenantConfigFileEntry) (snap : TenantSnapshot)
    (limits : gmap string TenantRateWindow) (header : option string) (now : Z) :
  parse_tenants_json contents = Some tenants → parse_tenant_config_file (Some contents) = Some (Ok snap) →
  let presented e := ∃ key, header ≫= parse_bearer_token = Some key ∧ e ∈ tenants ∧ hash_of e (sha256 (string_bytes key)) in
  let answer := (require_bearer_token (Some {| registry := FileTenantRegistry snap; rate_limits := limits |}) header now).2 in
  NoDup (tenant_id ∘ info_of <$> tenants)
  ∧ (answer = UNAUTHORIZED ↔ ¬ ∃ e, presented e)
  ∧ ∀ id, answer = NextRun id → ∃ e, presented e ∧ id = Some (trim e.(entry_tenant_id)).
Proof.
  intros Hjson Hfile presented. unfold parse_tenant_config_file in Hfile. rewrite Hjson in Hfile.
  assert (config_loop ∅ ∅ ∅ tenants = Some (Ok snap)) as Hloop by (by destruct tenants).
  destruct (config_loop_Ok tenants ∅ ∅ ∅ snap dom_empty_L Hloop) as (Hnd & _ & Hsnap).
  assert (∀ key info, snap !! sha256_hex_bytes key = Some info ↔
            ∃ e, e ∈ tenants ∧ hash_of e (sha256 (string_bytes key)) ∧ info = info_of e) as Hin.
  { intros key info. rewrite Hsnap, lookup_empty. split.
    - intros [?|(e & b & ? & Hb & Heq%sha256_hex_inj & ->)]; [done|]. rewrite <- Heq in Hb. by exists e.
    - intros (e & ? & ? & ->). right. by exists e, (sha256 (string_bytes key)). }
  split; [exact Hnd|]. cbn [require_bearer_token registry current_snapshot]. unfold presented. clear presented.
  destruct (header ≫= parse_bearer_token) as [key|] eqn:Hkey.
  2:{ split; [|done]. split; [|done]. by intros _ (e & ? & ? & _). }
  unfold tenant_for_token. destruct (snap !! sha256_hex_bytes key) as [info|] eqn:Hl.
  2:{ split; [|done]. split; [|done]. intros _ (e & key' & [= <-] & He & Hh).
      assert (snap !! sha256_hex_bytes key = Some (info_of e)) by (apply Hin; by exists e). congruence. }
  apply Hin in Hl as (e & He & Hh & ->). destruct (rate_limit_blocked _ _ _ _) as [st blocked].
  split.
  - split; [by destruct blocked|]. intros Hn. destruct Hn. exists e, key. done.
  - destruct blocked; [done|]. intros id [= <-]. exists e. split; [by exists key|done].
Qed.

(** C39: the rate limit bounds what a tenant gets, and refuses nothing below it.  Requests
    are checked in the order of their clock readings, against one set of keys with
    positive limits.  Then of one tenant fewer than twice its limit pass within any
    minute, and a request is only refused when its key's limit was reached by requests of
    that tenant that passed within the minute before. *)
Theorem tenant_rate_limited (limit : string → nat) (r : Registry) (requests : list (option string * Z))
    (auth : option TenantAuthState) (answers : list (Z * HttpAnswer)) :
  limited limit r → StronglySorted Z.le (snd <$> requests) →
  serve (Some (TenantAuthState_new r)) requests = (auth, answers) →
  (∀ id t, (0 < limit id)%nat → (within t (t + MINUTE) (admitted id answers) < 2 * limit id)%nat)
  ∧ ∀ header now, Forall (λ x, x ≤ now) (snd <$> requests) →
      (require_bearer_token auth header now).2 = TOO_MANY_REQUESTS →
      ∃ key info, header ≫= parse_bearer_token = Some key ∧ current_snapshot r !! sha256_hex_bytes key = Some info
        ∧ info.(rate_limit_rpm) ≤ Z.of_nat (within (now - MINUTE + 1) (now + 1) (admitted info.(tenant_id) answers)).
Proof.
  intros Hlim Hsort Hs.
  destruct requests as [|[h0 t0] requests].
  { injection Hs as <- <-. split; [intros id t H; cbn; lia|]. intros header now _ Ha.
    destruct (require_inv limit (TenantAuthState_new r) (λ _, []) now header now Hlim
      (λ id, window_inv_start _ _) (Z.le_refl _)) as (st' & a & Hr & _ & _ & Hrefused).
    rewrite Hr in Ha. destruct (Hrefused Ha) as (key & info & ? & ? & H). by exists key, info. }
  assert (StronglySorted Z.le (t0 :: (snd <$> (h0, t0) :: requests))) as Hsort'.
  { constructor; [done|]. cbn in *. apply StronglySorted_inv in Hsort as [_ ?]. by constructor. }
  destruct (serve_inv limit ((h0, t0) :: requests) (TenantAuthState_new r) (λ _, []) t0 auth answers Hlim
    (λ id, window_inv_start _ _) Hsort' Hs) as (state & last & -> & Hreg & Hlast & Hinv).
  split; [intros id t Hp; by apply (wi_minute _ _ _ _ (Hinv id))|]. intros header now Hnow Ha.
  destruct (require_inv limit state (λ id, admitted id answers) last header now ltac:(by rewrite Hreg) Hinv)
    as (st' & a & Hr & _ & _ & Hrefused).
  { apply Hlast. constructor; [|done]. by apply Forall_cons in Hnow as [? _]. }
  rewrite Hr in Ha. rewrite Hreg in Hrefused. by apply Hrefused.
Qed.

(** A revoked key stops working.  Loads that succeed end within the timeout, and none
    that starts after the revocation returns the key.  Then once a refresh ends later than
    the revocation by the timeout and the staleness bound, whether that refresh succeeds,
    fails, times out or panics, the registry in force does not hold the key.  And a
    refresh is never starved: its budget is positive, within the configured timeout, and
    runs out before the snapshot in force exceeds the staleness bound. *)
Theorem revoked_key_stops_working (stale timeout revoked : Z) (key : string) (turns : list Turn) (last : Turn) :
  0 < timeout →
  (∀ t s, t ∈ turns ++ [last] → t.(outcome) = Some (Loaded (Ok s)) →
     t.(ended) ≤ t.(began) + timeout ∧ (revoked ≤ t.(began) → s !! key = None)) →
  revoked + timeout + stale ≤ last.(ended) ≤ last.(observed) → 0 < stale →
  (run_turns stale (turns ++ [last])).(held) !! key = None
  ∧ ∀ st now, let st := clear_if_stale st stale now in
      let budget := refresh_timeout_budget st stale timeout now in
      0 < budget ≤ timeout
      ∧ ∀ at_, st.(held) ≠ ∅ → st.(refreshed_at) = Some at_ → now + budget - at_ ≤ stale.
Proof.
  intros Htime Hloads Hlate Hstale. split.
  - unfold run_turns. rewrite fold_left_snoc. fold (run_turns stale turns).
    destruct (refresh_turn_cases (run_turns stale turns) stale last) as [(s & Ho & ->)|[->|[-> Hfresh]]].
    + cbn. destruct (Hloads last s) as [? Hno]; [apply elem_of_app; right; by left|done|]. apply Hno. lia.
    + by apply lookup_empty.
    + destruct (run_turns_snapshot stale turns) as [->|(t & s & Ht & Ho & He)]; [by apply lookup_empty|].
      rewrite He in *. cbn in *. specialize (Hfresh _ eq_refl). unfold duration_since in Hfresh.
      destruct (Hloads t s) as [? Hno]; [apply elem_of_app; by left|done|]. apply Hno. lia.
  - intros st0 now st budget. unfold budget, refresh_timeout_budget.
    case_bool_decide as Hempty; [split; [lia|done]|].
    destruct (clear_cases st0 stale now) as [Hc|[Hc Hfresh]]; fold st in Hc.
    { rewrite Hc in Hempty. by destruct Hempty. }
    rewrite Hc in *. destruct (refreshed_at st0) as [at_|] eqn:Hat; [|split; [lia|done]].
    specialize (Hfresh at_ eq_refl). destruct (Z.ltb_spec 0 (stale - duration_since now at_)); [|lia].
    split; [lia|]. intros at' _ [= <-]. unfold duration_since in *. lia.
Qed.
End Theorems.

(** The relation that passes the check is quoted into segments without quotes. *)
Definition segment_char (a : ascii) : Prop := relation_char a = true ∧ a ≠ "."%char.
Lemma relation_char_plain a : relation_char a = true → a ≠ dquote.
Proof. by intros H ->. Qed.
Lemma double_quotes_plain s :
  Forall (λ a, a ≠ dquote) (String.list_ascii_of_string s) → double_quotes s = s.
Proof.
  induction s as [|a s IH]; [done|]. cbn [String.list_ascii_of_string double_quotes]. intros [Ha Hs]%Forall_cons.
  destruct (Ascii.eqb_spec a dquote); [done|]. by rewrite IH.
Qed.
Lemma split_on_chars (P : ascii → Prop) c s :
  Forall P (String.list_ascii_of_string s) →
  Forall (λ p, Forall (λ a, P a ∧ a ≠ c) (String.list_ascii_of_string p)) (split_on c s).
Proof.
  induction s as [|a s IH]; cbn [String.list_ascii_of_string split_on]; [intros _; repeat constructor|].
  intros [Ha Hs]%Forall_cons. specialize (IH Hs). destruct (Ascii.eqb_spec a c) as [->|Hne].
  - constructor; [constructor|done].
  - destruct (split_on c s) as [|p ps]; [by repeat constructor|]. apply Forall_cons in IH as [Hp Hps].
    constructor; [|done]. by constructor.
Qed.
Lemma quoted_relation_inert var relation :
  parse_tenant_db_relation var = Ok relation →
  ∃ segments, Forall (λ p, Forall segment_char (String.list_ascii_of_string p)) segments
    ∧ quote_postgres_relation_identifier relation
      = join "." ((λ p, String dquote (p +:+ String dquote EmptyString)) <$> segments).
Proof.
  unfold parse_tenant_db_relation. set (rel := trim _). destruct (forallb _ _) eqn:Hf; [|done]. cbn [negb orb].
  case_bool_decide; [done|]. intros [= <-]. exists (split_on "."%char rel).
  assert (Forall (λ p, Forall segment_char (String.list_ascii_of_string p)) (split_on "."%char rel)) as Hs.
  { apply (split_on_chars (λ a, relation_char a = true)). apply Forall_forall. intros a Ha.
    rewrite forallb_forall in Hf. by apply Hf, list_elem_of_In. }
  split; [done|]. unfold quote_postgres_relation_identifier. f_equal. apply list_fmap_ext. intros i p Hp.
  rewrite double_quotes_plain; [done|]. pose proof (Forall_lookup_1 _ _ _ _ Hs Hp) as Hseg.
  eapply Forall_impl; [exact Hseg|]. intros a [Ha _]. by apply relation_char_plain.
Qed.

(** A database connection is always encrypted, and a server without keys only serves its
    own host. *)
Lemma ssl_never_downgraded `{T : TenantLib} url :
  tenant_db_ssl_mode url ∈ [SslRequire; SslVerifyCa; SslVerifyFull].
Proof. unfold tenant_db_ssl_mode. repeat case_match; set_solver. Qed.
Lemma unauthenticated_is_local auth ip : check_bind auth ip = Ok () → auth = None → is_loopback_addr ip = true.
Proof. intros H ->. cbn in H. by case_match. Qed.

(** ** Concrete tenants *)

Module ToyTenants.
Definition digest (bs : list byte) : list byte := take 32 (bs ++ replicate 32 x00).
Definition entries : list TenantConfigFileEntry :=
  [ {| entry_tenant_id := " acme "; api_key_sha256 := sha256_hex (digest (string_bytes "k1")); entry_rate_limit_rpm := Some 2 |};
    {| entry_tenant_id := "bolt"; api_key_sha256 := sha256_hex (digest (string_bytes "k2")); entry_rate_limit_rpm := None |} ].
#[export] Instance lib : TenantLib :=
  {| sha256 := digest; parse_tenants_json _ := Some entries; parse_ssl_mode _ := None |}.
#[export] Instance laws : TenantLaws lib.
Proof. split. intros bs. change (length (digest bs) = 32%nat). unfold digest. rewrite length_take, length_app, length_replicate. lia. Qed.
Definition snapshot : TenantSnapshot :=
  match parse_tenant_config_file (Some "") with Some (Ok s) => s | _ => ∅ end.
Definition header : option string := Some "Bearer  k1 ".
Definition sec (n : Z) : Z := from_secs n.
(** Two requests late in a window, then a new window. *)
Definition requests : list (option string * Z) :=
  [(header, sec 0); (header, sec 59); (header, sec 59); (header, sec 60); (header, sec 61); (Some "Bearer nobody", sec 61)].
Definition limit (id : string) : nat := if decide (id = "acme") then 2 else 60.

Lemma snapshot_loads : parse_tenant_config_file (Some "") = Some (Ok snapshot).
Proof.
  assert (match parse_tenant_config_file (Some "") with Some (Ok _) => true | _ => false end = true) as H by (vm_compute; reflexivity).
  unfold snapshot. by destruct (parse_tenant_config_file (Some "")) as [[s|]|].
Qed.
Definition key_of (st : TenantSnapshotState) (key : string) : option string :=
  tenant_id <$> st.(held) !! sha256_hex_bytes key.
Lemma limits : limited limit (FileTenantRegistry snapshot).
Proof.
  assert (map_Forall (λ _ info, 1 ≤ info.(rate_limit_rpm) ≤ Z.of_nat (limit info.(tenant_id))) snapshot) as H.
  { apply (bool_decide_unpack _). vm_compute. done. }
  intros h info Hl. by apply (H h info).
Qed.
Definition turn (b : Z) (o : option LoadOutcome) : Turn := {| began := b; outcome := o; ended := b + 1; observed := b + 2 |}.
End ToyTenants.
#[local] Existing Instances ToyTenants.lib ToyTenants.laws.

Lemma file_tenants_authenticate_witness :
  (require_bearer_token (Some (TenantAuthState_new (FileTenantRegistry ToyTenants.snapshot))) ToyTenants.header 0).2
    = NextRun (Some "acme")
  ∧ ∃ e, e ∈ ToyTenants.entries ∧ Some "acme" = Some (trim e.(entry_tenant_id)).
Proof.
  split; [vm_compute; reflexivity|].
  destruct (file_tenants_authenticate (T := ToyTenants.lib) "" ToyTenants.entries ToyTenants.snapshot ∅ ToyTenants.header 0 eq_refl ToyTenants.snapshot_loads)
    as (_ & _ & Hrun).
  destruct (Hrun (Some "acme") ltac:(vm_compute; reflexivity)) as (e & (key & _ & He & _) & Hid). exists e. split; [exact He|exact Hid].
Defined.

Lemma tenant_rate_limited_witness :
  let '(auth, answers) := serve (Some (TenantAuthState_new (FileTenantRegistry ToyTenants.snapshot))) ToyTenants.requests in
  admitted "acme" answers = [ToyTenants.sec 0; ToyTenants.sec 59; ToyTenants.sec 60; ToyTenants.sec 61]
  ∧ (within (ToyTenants.sec 59) (ToyTenants.sec 59 + MINUTE) (admitted "acme" answers) < 4)%nat.
Proof.
  assert (admitted "acme" (serve (Some (TenantAuthState_new (FileTenantRegistry ToyTenants.snapshot))) ToyTenants.requests).2
    = [ToyTenants.sec 0; ToyTenants.sec 59; ToyTenants.sec 60; ToyTenants.sec 61]) as Ha by (vm_compute; reflexivity).
  destruct (serve _ ToyTenants.requests) as [auth answers] eqn:Hs. split; [exact Ha|].
  apply (proj1 (tenant_rate_limited ToyTenants.limit (FileTenantRegistry ToyTenants.snapshot) ToyTenants.requests auth answers
    ToyTenants.limits ltac:(repeat constructor; vm_compute; discriminate) Hs) "acme" (ToyTenants.sec 59)).
  vm_compute. repeat constructor.
Defined.

Lemma revoked_key_stops_working_witness :
  let loaded := ToyTenants.turn 0 (Some (Loaded (Ok ToyTenants.snapshot))) in
  ToyTenants.key_of (run_turns 20 [loaded; ToyTenants.turn 10 None]) "k1" = Some "acme"
  ∧ (run_turns 20 ([loaded; ToyTenants.turn 10 None] ++ [ToyTenants.turn 30 (Some TimedOut)])).(held)
      !! sha256_hex_bytes "k1" = None.
Proof.
  split; [vm_compute; reflexivity|].
  refine (proj1 (revoked_key_stops_working 20 5 1 (sha256_hex_bytes "k1") [ToyTenants.turn 0 (Some (Loaded (Ok ToyTenants.snapshot)));
    ToyTenants.turn 10 None] (ToyTenants.turn 30 (Some TimedOut)) eq_refl _ _ eq_refl)).
  - generalize ToyTenants.snapshot. intros snap t s [->|[->|[->|[]%elem_of_nil]%elem_of_cons]%elem_of_cons]%elem_of_cons Ho;
      cbn in Ho |- *; try discriminate Ho; split; lia.
  - cbn. lia.
Defined.

(** Between refreshes nothing is evicted: with a staleness bound of 60 and a refresh every
    40, a snapshot loaded at 1 and not refreshed at 40 is in force until the next turn, at 80. *)
Lemma snapshot_outlives_bound :
  let turns := [ToyTenants.turn 0 (Some (Loaded (Ok ToyTenants.snapshot))); ToyTenants.turn 40 (Some TimedOut)] in
  ToyTenants.key_of (run_turns 60 turns) "k1" = Some "acme" ∧ (run_turns 60 turns).(refreshed_at) = Some 1
  ∧ 60 < duration_since 79 1.
Proof. vm_compute. repeat constructor. Qed.
