(* ===== verification/Negotiator.v ===== *)
(** * Negotiating a denied request: [src/security/negotiator.rs]

    When a request is denied, remembered evidence may single out a strict part of it that
    the caller is entitled to.  The memory client is the parameter [search]; capabilities
    are compared as Rust's derived [==] does, paths by components.  The two assertions of
    the code are the answer [None]. *)

From S2P Require Import Prelude Errors Floats UrlGuard LexPath Capability Tokens.

Definition MAX_NEGOTIATION_ROUNDS : nat := 2.

Record MemoryHit := { hit_id : string; content : string; score : option f64 }.

Record NegotiationOutcome := {
  narrowed_capabilities : list Capability;
  rounds : nat;
  evidence_hits : list MemoryHit;
}.

(** [==] on capabilities. *)
Definition cap_eqb (a b : Capability) : bool :=
  match a, b with
  | ReadFile p, ReadFile q | WriteFile p, WriteFile q | ListDirectory p, ListDirectory q
  | ExecuteBinary p, ExecuteBinary q | MountTmpfs p, MountTmpfs q => pathbuf_eqb p q
  | HttpGet p, HttpGet q | HttpPost p, HttpPost q => bool_decide (p = q)
  | MemoryPreview, MemoryPreview | MemoryRecall, MemoryRecall | AllCaps, AllCaps | NoCap, NoCap => true
  | ReadMemory s, ReadMemory t | WriteMemory s, WriteMemory t => bool_decide (s = t)
  | _, _ => false
  end.
Definition has_cap (l : list Capability) (c : Capability) : bool := existsb (cap_eqb c) l.
Fixpoint caps_eqb (a b : list Capability) : bool :=
  match a, b with
  | [], [] => true
  | x :: a, y :: b => cap_eqb x y && caps_eqb a b
  | _, _ => false
  end.

Section Negotiate.
(** The [Debug] text of a capability. *)
Variable capability_debug : Capability → string.

Definition negotiation_query (original previous : list Capability) (round : nat) : string :=
  "capability denial negotiation round " +:+ fmt_u (Z.of_nat round)
  +:+ "; original required capabilities: " +:+ join ", " (description <$> original)
  +:+ "; previous attempted capabilities: " +:+ join ", " (description <$> previous)
  +:+ "; suggest only a strict subset already present in original required capabilities".

Definition capability_aliases (c : Capability) : list string :=
  match c with
  | ReadFile p => ["readfile"; to_ascii_lowercase ("read file " +:+ p)]
  | WriteFile p => ["writefile"; to_ascii_lowercase ("write file " +:+ p)]
  | ListDirectory p => ["listdirectory"; to_ascii_lowercase ("list directory " +:+ p)]
  | HttpGet u => ["httpget"; to_ascii_lowercase ("http get " +:+ u)]
  | HttpPost u => ["httppost"; to_ascii_lowercase ("http post " +:+ u)]
  | ExecuteBinary p => ["executebinary"; to_ascii_lowercase ("execute binary " +:+ p)]
  | MountTmpfs p => ["mounttmpfs"; to_ascii_lowercase ("mount tmpfs " +:+ p)]
  | MemoryPreview => ["nexus:memory_preview"]
  | MemoryRecall => ["memoryrecall"; "memory_recall"]
  | ReadMemory s => ["read_memory:" +:+ scope_to_string s; "readmemory"]
  | WriteMemory s => ["write_memory:" +:+ scope_to_string s; "writememory"]
  | AllCaps => ["all"]
  | NoCap => ["none"]
  end.

Definition capability_matches (content : string) (c : Capability) : bool :=
  if decide (content = "") then false
  else contains_str (to_ascii_lowercase (description c)) content
       || contains_str (to_ascii_lowercase (capability_debug c)) content
       || existsb (λ alias, contains_str alias content) (capability_aliases c).

Definition candidates_from_hits (original : list Capability) (hits : list MemoryHit) : list Capability :=
  let content := to_ascii_lowercase (join (String "010" EmptyString) (content <$> hits)) in
  List.filter (capability_matches content) original.

Definition strict_intersection (original candidates : list Capability) : list Capability :=
  let narrowed :=
    fold_left (λ narrowed c, if has_cap candidates c && negb (has_cap narrowed c) then narrowed ++ [c] else narrowed)
      original [] in
  let narrowed := List.filter (has_cap original) narrowed in
  if (length original <=? length narrowed)%nat then [] else narrowed.

Variable search : nat → string → nat → list MemoryHit.
Variable authorize : list Capability → bool.

(** The rounds that are left; [round] is the number of the next one. *)
Fixpoint negotiate (todo : nat) (round : nat) (original previous : list Capability)
  : option (option NegotiationOutcome) :=
  match todo with
  | O => Some None
  | S todo =>
      let query := negotiation_query original previous round in
      let hits := search round query (Nat.max (length original) 1) in
      let narrowed := strict_intersection original (candidates_from_hits original hits) in
      if negb (forallb (has_cap original) narrowed) then None
      else if negb (length narrowed <? length original)%nat then None
      else if bool_decide (narrowed = []) then negotiate todo (S round) original previous
      else if caps_eqb narrowed previous then negotiate todo (S round) original previous
      else if authorize narrowed
      then Some (Some {| narrowed_capabilities := narrowed; rounds := round; evidence_hits := hits |})
      else negotiate todo (S round) original narrowed
  end.

Definition negotiate_capability_denial_with_authorizer (original : list Capability) : option (option NegotiationOutcome) :=
  match original with
  | [] => Some None
  | _ => negotiate MAX_NEGOTIATION_ROUNDS 1 original original
  end.

(** ** Lemmas *)

Lemma cap_eqb_refl c : cap_eqb c c = true.
Proof. destruct c; try done; by apply bool_decide_eq_true. Qed.
Lemma has_cap_elem l c : c ∈ l → has_cap l c = true.
Proof. intros Hc. apply existsb_exists. exists c. split; [by apply list_elem_of_In|apply cap_eqb_refl]. Qed.

Lemma elem_of_sublist {A} (l k : list A) x : l `sublist_of` k → x ∈ l → x ∈ k.
Proof. intros Hs Hx. by apply (elem_of_submseteq l k x Hx), sublist_submseteq. Qed.

(** The intersection picks a sublist without repetitions. *)
Lemma intersection_sublist candidates original acc :
  ∃ l, fold_left (λ narrowed c, if has_cap candidates c && negb (has_cap narrowed c) then narrowed ++ [c] else narrowed)
         original acc = acc ++ l ∧ l `sublist_of` original
       ∧ (∀ a, a ∈ l → has_cap candidates a = true).
Proof.
  revert acc. induction original as [|c original IH]; intros acc; cbn [fold_left].
  { exists []. rewrite app_nil_r. split_and!; [done|constructor|]. by intros a ?%elem_of_nil. }
  destruct (has_cap candidates c) eqn:Hc; cbn [andb].
  - destruct (has_cap acc c); cbn [negb].
    + destruct (IH acc) as (l & -> & Hs & Ha). exists l. split_and!; [done|by constructor|done].
    + destruct (IH (acc ++ [c])) as (l & -> & Hs & Ha). exists (c :: l). rewrite <- app_assoc.
      split_and!; [done|by constructor|]. intros a [->|?]%elem_of_cons; auto.
  - destruct (IH acc) as (l & -> & Hs & Ha). exists l. split_and!; [done|by constructor|done].
Qed.

Lemma strict_intersection_spec original candidates :
  original ≠ [] →
  let narrowed := strict_intersection original candidates in
  narrowed `sublist_of` original ∧ (length narrowed < length original)%nat
  ∧ (∀ a, a ∈ narrowed → has_cap candidates a = true).
Proof.
  intros Hne. unfold strict_intersection.
  destruct (intersection_sublist candidates original []) as (l & -> & Hs & Ha). cbn [app].
  assert (List.filter (has_cap original) l = l) as ->.
  { assert (∀ a, a ∈ l → has_cap original a = true) as Hin.
    { intros a Hl. apply has_cap_elem. by eapply elem_of_sublist. }
    clear Hs Ha. induction l as [|a l IH]; [done|]. cbn. rewrite Hin by left. f_equal. apply IH. intros b Hb. apply Hin. by right. }
  destruct (Nat.leb_spec (length original) (length l)).
  - split_and!; [apply sublist_nil_l|destruct original; [done|cbn; lia]|]. by intros a ?%elem_of_nil.
  - split_and!; [done|lia|done].
Qed.

(** What a successful negotiation returned. *)
Record narrows (original : list Capability) (o : NegotiationOutcome) : Prop := {
  nr_sublist : o.(narrowed_capabilities) `sublist_of` original;
  nr_strict : (0 < length o.(narrowed_capabilities) < length original)%nat;
  nr_authorized : authorize o.(narrowed_capabilities) = true;
  nr_evidence a : a ∈ o.(narrowed_capabilities) → has_cap (candidates_from_hits original o.(evidence_hits)) a = true;
}.

Lemma negotiate_spec todo round original previous :
  original ≠ [] →
  ∃ r, negotiate todo round original previous = Some r
    ∧ ∀ o, r = Some o → narrows original o ∧ (round ≤ o.(rounds) < round + todo)%nat.
Proof.
  intros Hne. revert round previous. induction todo as [|todo IH]; intros round previous; cbn [negotiate].
  { exists None. by split. }
  set (hits := search _ _ _).
  destruct (strict_intersection_spec original (candidates_from_hits original hits) Hne) as (Hs & Hl & Hc).
  set (narrowed := strict_intersection _ _) in *.
  assert (forallb (has_cap original) narrowed = true) as ->.
  { apply forallb_forall. intros a Ha%list_elem_of_In. apply has_cap_elem. by eapply elem_of_sublist. }
  rewrite (proj2 (Nat.ltb_lt _ _) Hl). cbn [negb].
  assert (∀ p, ∃ r, negotiate todo (S round) original p = Some r
    ∧ ∀ o, r = Some o → narrows original o ∧ (round ≤ rounds o < round + S todo)%nat) as Hnext.
  { intros p. destruct (IH (S round) p) as (r & Hr & Ho). exists r. split; [done|].
    intros o ->. destruct (Ho o eq_refl) as [? ?]. split; [done|lia]. }
  case_bool_decide as Hnil; [apply Hnext|]. destruct (caps_eqb narrowed previous); [apply Hnext|].
  destruct (authorize narrowed) eqn:Ha; [|apply Hnext].
  eexists. split; [done|]. intros o [= <-]. split; [|cbn; lia]. constructor; try done. cbn.
  split; [|done]. destruct narrowed; [done|cbn; lia].
Qed.
End Negotiate.

(** [negotiate_capability_denial]. *)
Definition negotiate_capability_denial `{C : CryptoLib} (dbg : Capability → string)
    (search : nat → string → nat → list MemoryHit) (m : CapabilityManager) (now : DateTime)
    (tokens : list CapabilityToken) (original : list Capability) : option (option NegotiationOutcome) :=
  negotiate_capability_denial_with_authorizer dbg search
    (λ narrowed, match Tokens.authorize m now tokens narrowed with Some (Ok _) => true | _ => false end) original.

(** Negotiation only narrows.  Whatever the memory suggests, the assertions of the code
    hold, and within two rounds the negotiation either gives up or returns a nonempty,
    strictly shorter sublist of the original requirements, each supported by the evidence
    of that round and each granted by a valid token of the caller. *)
Theorem negotiation_narrows `{U : UrlLib} `{C : CryptoLib} `{CL : !CryptoLaws C} (dbg : Capability → string)
    (search : nat → string → nat → list MemoryHit) (m : CapabilityManager) (now : DateTime)
    (tokens : list CapabilityToken) (original : list Capability) :
  manager_ok m → (∀ t, t ∈ tokens → 0 ≤ t.(tok_chain_depth)) →
  ∃ r, negotiate_capability_denial dbg search m now tokens original = Some r
    ∧ ∀ o, r = Some o →
        o.(narrowed_capabilities) `sublist_of` original
        ∧ (0 < length o.(narrowed_capabilities) < length original)%nat
        ∧ (1 ≤ o.(rounds) ≤ MAX_NEGOTIATION_ROUNDS)%nat
        ∧ (∀ c, c ∈ o.(narrowed_capabilities) →
             has_cap (candidates_from_hits dbg original o.(evidence_hits)) c = true
             ∧ ∃ t, t ∈ tokens ∧ valid_for m now t c).
Proof.
  intros Hm Ht. unfold negotiate_capability_denial, negotiate_capability_denial_with_authorizer.
  destruct original as [|c0 original]; [by exists None|].
  match goal with |- context [negotiate ?d ?s ?a ?l ?r ?o ?p] =>
    destruct (negotiate_spec d s a l r o p) as (res & -> & Hres); [done|] end.
  exists res. split; [done|]. intros o Ho. destruct (Hres o Ho) as [[Hs Hl Ha He] Hr].
  assert (Tokens.authorize m now tokens (narrowed_capabilities o) = Some (Ok ())) as Hok
    by (destruct (Tokens.authorize m now tokens _) as [[[]|]|]; done).
  pose proof (proj1 (proj1 (authorize_spec m now tokens _ Hm Ht)) Hok) as Hv.
  unfold MAX_NEGOTIATION_ROUNDS in *. split_and!; [done|lia|lia|lia|lia|]. auto.
Qed.

(** ** A concrete negotiation *)

Module ToyNegotiation.
#[local] Existing Instances Tokens.Toy.crypto Tokens.Toy.crypto_laws Tokens.Toy.url.
Definition original : list Capability := [ReadFile "/data/sub/x"; WriteFile "/data/sub/x"].
Definition search (round : nat) (_ : string) (_ : nat) : list MemoryHit :=
  [ {| hit_id := "1"; content := if (round =? 1)%nat then "WriteFile works" else "a ReadFile of it is enough"; score := None |} ].
Definition dbg (_ : Capability) : string := "?".
Definition answer := negotiate_capability_denial dbg search Tokens.Toy.m2 50 [Tokens.Toy.token Tokens.Toy.m2 2%N] original.
End ToyNegotiation.
#[local] Existing Instances Tokens.Toy.crypto Tokens.Toy.crypto_laws Tokens.Toy.url.

Lemma negotiation_narrows_witness :
  ∃ o, ToyNegotiation.answer = Some (Some o) ∧ o.(narrowed_capabilities) = [ReadFile "/data/sub/x"]
    ∧ o.(rounds) = 2%nat
    ∧ o.(narrowed_capabilities) `sublist_of` ToyNegotiation.original.
Proof.
  destruct (negotiation_narrows ToyNegotiation.dbg ToyNegotiation.search Tokens.Toy.m2 50
    [Tokens.Toy.token Tokens.Toy.m2 2%N] ToyNegotiation.original) as (r & Hr & Ho).
  - eapply manager_ok_steps; [apply manager_ok_new|apply Tokens.Toy.steps2].
  - intros t ->%list_elem_of_singleton. vm_compute. discriminate.
  - assert (match ToyNegotiation.answer with
      | Some (Some o) => bool_decide (o.(rounds) = 2%nat) && caps_eqb o.(narrowed_capabilities) [ReadFile "/data/sub/x"]
      | _ => false end = true) as Ha by (vm_compute; reflexivity).
    change (ToyNegotiation.answer = Some r) in Hr. rewrite Hr in Ha. destruct r as [o|]; [|discriminate Ha].
    exists o. split; [exact Hr|]. destruct (Ho o eq_refl) as (Hs & _).
    assert (∀ o', ToyNegotiation.answer = Some (Some o') → o'.(narrowed_capabilities) = [ReadFile "/data/sub/x"]
      ∧ o'.(rounds) = 2%nat) as Hx by (intros o'; vm_compute; intros Hx; injection Hx as <-; split; reflexivity).
    destruct (Hx o Hr) as [H1 H2]. split; [exact H1|]. split; [exact H2|exact Hs].
Defined.
