(* ===== verification/Health.v ===== *)
(** * Host health: [HealthValidator] of [src/hypervisor/validator/health.rs]

    What the operating system reports at one look is a [Reading]: the monotonic clock in
    milliseconds, the two memory figures and the CPU load that a refresh would give.  The
    validator's locks are held per field; an operation is one step. *)

From S2P Require Import Prelude Floats Failure Telemetry.

Record HealthConfig := {
  max_cpu_percent : f32;
  max_memory_growth_ratio : f64;
  timeout_ms : Z;
  cpu_spike_threshold : f32;
  fail_on_host_cpu : bool;
}.
Definition HealthConfig_default : HealthConfig :=
  {| max_cpu_percent := f32_of_Z 95; max_memory_growth_ratio := f64_of_Z 3; timeout_ms := 30000;
     cpu_spike_threshold := f32_of_Z 50; fail_on_host_cpu := false |}.

Record Reading := {
  clock_ms : Z;
  used_memory : Z;
  total_memory : Z;
  global_cpu : f32;
  utc : Z;
}.

Record HealthValidator := {
  config : HealthConfig;
  baseline : option ResourceSnapshot;
  start : option Z;
  last_cpu_refresh : option Z;
  last_cpu_usage : f32;
}.
Definition HealthValidator_new (c : HealthConfig) : HealthValidator :=
  {| config := c; baseline := None; start := None; last_cpu_refresh := None; last_cpu_usage := f32_of_Z 0 |}.

(** The constant of the sysinfo crate, in milliseconds. *)
Class SysInfo := { MINIMUM_CPU_UPDATE_INTERVAL : Z }.

Section Validator.
Context `{Sys : SysInfo}.

Definition set_cpu (v : HealthValidator) (refresh : option Z) (usage : f32) : HealthValidator :=
  {| config := v.(config); baseline := v.(baseline); start := v.(start);
     last_cpu_refresh := refresh; last_cpu_usage := usage |}.

Definition capture (v : HealthValidator) (r : Reading) : HealthValidator * ResourceSnapshot :=
  let interval_elapsed :=
    match v.(last_cpu_refresh) with Some t => MINIMUM_CPU_UPDATE_INTERVAL <=? r.(clock_ms) - t | None => false end in
  let '(v, cpu) :=
    if interval_elapsed then (set_cpu v (Some r.(clock_ms)) r.(global_cpu), r.(global_cpu))
    else match v.(last_cpu_refresh) with
         | None => (set_cpu v (Some r.(clock_ms)) v.(last_cpu_usage), v.(last_cpu_usage))
         | Some _ => (v, v.(last_cpu_usage))
         end in
  (v, {| cpu_usage := cpu; memory_used_mb := r.(used_memory) / 1024;
         memory_limit_mb := r.(total_memory) / 1024; res_timestamp := r.(utc) |}).

Definition start_execution (v : HealthValidator) (r : Reading) : HealthValidator :=
  let '(v, resources) := capture v r in
  {| config := v.(config); baseline := Some resources; start := Some r.(clock_ms);
     last_cpu_refresh := v.(last_cpu_refresh); last_cpu_usage := v.(last_cpu_usage) |}.

Definition memory_growth (current baseline : ResourceSnapshot) : f64 :=
  if 0 <? baseline.(memory_used_mb)
  then f64_div (f64_of_Z current.(memory_used_mb)) (f64_of_Z baseline.(memory_used_mb))
  else f64_of_Z 1.

Definition timed_out (v : HealthValidator) (r : Reading) : bool :=
  match v.(start) with Some t => v.(config).(timeout_ms) <? r.(clock_ms) - t | None => false end.

Definition validate (v : HealthValidator) (r : Reading) : HealthValidator * HealthStatus :=
  if timed_out v r then (v, HTimeout)
  else
    let '(v, current) := capture v r in
    (v, match v.(baseline) with
        | None => Healthy
        | Some baseline =>
            if v.(config).(fail_on_host_cpu) && f_lt v.(config).(max_cpu_percent) current.(cpu_usage)
            then HResourceExhausted
            else if v.(config).(fail_on_host_cpu)
                    && f_lt v.(config).(cpu_spike_threshold) (f32_sub current.(cpu_usage) baseline.(cpu_usage))
            then HResourceExhausted
            else if f_lt v.(config).(max_memory_growth_ratio) (memory_growth current baseline)
            then HResourceExhausted
            else Healthy
        end).

Definition check_corruption (v : HealthValidator) (r : Reading) : HealthValidator * option string :=
  let '(v, resources) := capture v r in
  (v, if f_lt (f64_of_Z 99) (memory_usage_percent resources) then Some "Memory usage critical"
      else if v.(config).(fail_on_host_cpu) && f_lt (f32_of_Z 99) resources.(cpu_usage)
      then Some "CPU usage stuck at maximum"
      else None).

Definition health_reset (v : HealthValidator) : HealthValidator :=
  {| config := v.(config); baseline := None; start := None;
     last_cpu_refresh := v.(last_cpu_refresh); last_cpu_usage := v.(last_cpu_usage) |}.
Definition current_resources (v : HealthValidator) (r : Reading) : HealthValidator * ResourceSnapshot := capture v r.

(** ** Runs of the validator *)

Inductive Op := OStart | OValidate | OCorruption | OReset | OResources.
Inductive Verdict := VNone | VStatus (s : HealthStatus) | VCorruption (c : option string).

Definition apply_op (v : HealthValidator) (op : Op) (r : Reading) : HealthValidator * Verdict :=
  match op with
  | OStart => (start_execution v r, VNone)
  | OValidate => let '(v, s) := validate v r in (v, VStatus s)
  | OCorruption => let '(v, c) := check_corruption v r in (v, VCorruption c)
  | OReset => (health_reset v, VNone)
  | OResources => ((current_resources v r).1, VNone)
  end.
Fixpoint verdicts (v : HealthValidator) (ops : list (Op * Reading)) : list Verdict :=
  match ops with
  | [] => []
  | (op, r) :: ops => let '(v, x) := apply_op v op r in x :: verdicts v ops
  end.

(** ** The CPU load does not matter *)

(** Everything but the CPU load. *)
Definition same_memory (a b : ResourceSnapshot) : Prop :=
  a.(memory_used_mb) = b.(memory_used_mb) ∧ a.(memory_limit_mb) = b.(memory_limit_mb).
Definition same_reading (a b : Reading) : Prop :=
  a.(clock_ms) = b.(clock_ms) ∧ a.(used_memory) = b.(used_memory) ∧ a.(total_memory) = b.(total_memory).
Record low_eq (v w : HealthValidator) : Prop := {
  le_config : v.(config) = w.(config);
  le_start : v.(start) = w.(start);
  le_refresh : v.(last_cpu_refresh) = w.(last_cpu_refresh);
  le_baseline : option_Forall2 same_memory v.(baseline) w.(baseline);
}.

Lemma capture_low v w a b :
  low_eq v w → same_reading a b → low_eq (capture v a).1 (capture w b).1 ∧ same_memory (capture v a).2 (capture w b).2.
Proof.
  intros [Hc Hs Hr Hb] (Ht & Hu & Hm). unfold capture. rewrite Hr, Ht.
  destruct (last_cpu_refresh w) as [t|] eqn:Hw; [destruct (_ <=? _)|];
    (split; [by constructor; cbn; rewrite ?Hc, ?Hs, ?Hr, ?Hw|split; cbn; by rewrite ?Hu, ?Hm]).
Qed.

Lemma memory_growth_low a b c d : same_memory a b → same_memory c d → memory_growth a c = memory_growth b d.
Proof. intros [Ha _] [Hc _]. unfold memory_growth. by rewrite Ha, Hc. Qed.
Lemma usage_low a b : same_memory a b → memory_usage_percent a = memory_usage_percent b.
Proof. intros [Ha Hb]. unfold memory_usage_percent. by rewrite Ha, Hb. Qed.

Lemma apply_op_low v w op a b :
  low_eq v w → v.(config).(fail_on_host_cpu) = false → same_reading a b →
  low_eq (apply_op v op a).1 (apply_op w op b).1 ∧ (apply_op v op a).2 = (apply_op w op b).2
  ∧ (apply_op v op a).1.(config) = v.(config).
Proof.
  intros Hlow Hcpu Hread. destruct (capture_low v w a b Hlow Hread) as [Hcap Hmem].
  assert ((capture v a).1.(config) = v.(config)) as Hcfg.
  { unfold capture. destruct (last_cpu_refresh v); [destruct (_ <=? _)|]; done. }
  pose proof Hlow as [Hc Hs Hr Hb]. pose proof Hcap as [Hc' Hs' Hr' Hb'].
  destruct op; cbn [apply_op].
  - unfold start_execution. destruct (capture v a) as [v1 x], (capture w b) as [w1 y]; cbn in *.
    split; [|done]. constructor; cbn; [done|by destruct Hread as [-> _]|done|by constructor].
  - unfold validate.
    assert (timed_out v a = timed_out w b) as ->.
    { unfold timed_out. rewrite Hs, Hc. by destruct Hread as [-> _]. }
    destruct (timed_out w b); [by split_and!|].
    destruct (capture v a) as [v1 x], (capture w b) as [w1 y]; cbn in *. split_and!; [done| |done].
    f_equal. rewrite <- Hc', Hcfg, Hcpu. cbn [andb]. destruct Hb' as [p q Hpq|]; [|done].
    by rewrite (memory_growth_low _ _ _ _ Hmem Hpq).
  - unfold check_corruption. destruct (capture v a) as [v1 x], (capture w b) as [w1 y]; cbn in *.
    split_and!; [done| |done]. rewrite <- Hc', Hcfg, Hcpu. cbn [andb]. by rewrite (usage_low _ _ Hmem).
  - split_and!; [|done|done]. constructor; cbn; [done..|constructor].
  - by split_and!.
Qed.

End Validator.

(** Unless it is opted in, host CPU load never flips a verdict.  Two runs of the same
    operations over readings that agree on time and memory give the same verdicts,
    whatever CPU loads they see. *)
Theorem host_cpu_never_flips `{Sys : SysInfo} (c : HealthConfig) (ops : list Op) (a b : list Reading) :
  c.(fail_on_host_cpu) = false → Forall2 same_reading a b →
  verdicts (HealthValidator_new c) (zip ops a) = verdicts (HealthValidator_new c) (zip ops b).
Proof.
  intros Hcpu Hab.
  assert (∀ v w, low_eq v w → v.(config) = c → verdicts v (zip ops a) = verdicts w (zip ops b)) as H.
  { revert ops. induction Hab as [|x y a b Hxy Hab IH]; intros [|op ops] v w Hlow Hv; try done. cbn [zip zip_with verdicts].
    destruct (apply_op_low v w op x y Hlow ltac:(by rewrite Hv) Hxy) as (Hl & Hverd & Hcfg).
    destruct (apply_op v op x) as [v1 r1], (apply_op w op y) as [w1 r2]; cbn in *. subst r2. f_equal.
    apply IH; [done|congruence]. }
  apply H; [|done]. constructor; [done..|constructor].
Qed.

(** A cold CPU reading is 0: within the update interval of the first look nothing else is
    reported. *)
Lemma cold_cpu_is_zero `{Sys : SysInfo} (c : HealthConfig) (first next : Reading) :
  next.(clock_ms) - first.(clock_ms) < MINIMUM_CPU_UPDATE_INTERVAL →
  let v := HealthValidator_new c in
  (capture v first).2.(cpu_usage) = f32_of_Z 0 ∧ (capture (capture v first).1 next).2.(cpu_usage) = f32_of_Z 0.
Proof.
  intros Ht. split; [done|]. unfold capture. cbn.
  apply Z.leb_gt in Ht. by rewrite Ht.
Qed.

Module ToyHealth.
#[export] Instance sys : SysInfo := {| MINIMUM_CPU_UPDATE_INTERVAL := 200 |}.
End ToyHealth.
#[local] Existing Instances ToyHealth.sys.

Lemma host_cpu_never_flips_witness :
  let low := {| clock_ms := 1000; used_memory := 4096; total_memory := 8192; global_cpu := f32_of_Z 1; utc := 0 |} in
  let high := {| clock_ms := 1000; used_memory := 4096; total_memory := 8192; global_cpu := f32_of_Z 100; utc := 0 |} in
  verdicts (HealthValidator_new HealthConfig_default) (zip [OStart; OValidate; OCorruption] [low; low; low])
  = verdicts (HealthValidator_new HealthConfig_default) (zip [OStart; OValidate; OCorruption] [high; high; high])
  ∧ verdicts (HealthValidator_new HealthConfig_default) (zip [OStart; OValidate; OCorruption] [low; low; low])
    = [VNone; VStatus Healthy; VCorruption None].
Proof.
  intros low high. split; [|vm_compute; reflexivity].
  apply (host_cpu_never_flips HealthConfig_default [OStart; OValidate; OCorruption] [low; low; low] [high; high; high]).
  - reflexivity.
  - repeat constructor.
Defined.
