(* ===== verification/Trace.v ===== *)
(** * Execution traces: [src/telemetry/trace.rs], and how [src/hypervisor/mod.rs] records them

    A trace is a bounded list of checkpoints with a replay cursor.  [record_trace] runs the
    guest again and again under growing fuel caps; one such bounded run is the parameter
    [execute_to_fuel]. *)

From S2P Require Import Prelude Errors Snapshot.

Record TraceConfig := {
  checkpoint_interval_fuel : Z;
  max_checkpoints : nat;
  capture_memory : bool;
}.
Definition TraceConfig_default : TraceConfig :=
  {| checkpoint_interval_fuel := 10000; max_checkpoints := 256; capture_memory := true |}.

Record Checkpoint := {
  sequence : nat;
  fuel_at : Z;
  memory_hash : string;
  globals : list GlobalSnapshot;
}.
Record ExecutionTrace := { trace_id : Z; tool_name : string; checkpoints : list Checkpoint }.
Definition trace_new (id : Z) (tool : string) : ExecutionTrace :=
  {| trace_id := id; tool_name := tool; checkpoints := [] |}.

Definition trace_push (t : ExecutionTrace) (fuel : Z) (hash : string) (gs : list GlobalSnapshot) (max : nat)
  : ExecutionTrace * bool :=
  if (max <=? length t.(checkpoints))%nat then (t, false)
  else
    ({| trace_id := t.(trace_id); tool_name := t.(tool_name);
        checkpoints := t.(checkpoints) ++
          [{| sequence := length t.(checkpoints); fuel_at := fuel; memory_hash := hash; globals := gs |}] |}, true).
Definition trace_len (t : ExecutionTrace) : nat := length t.(checkpoints).
Definition trace_is_empty (t : ExecutionTrace) : bool := (length t.(checkpoints) =? 0)%nat.

(** ** Replay *)

Record TraceReplay := { replayed : ExecutionTrace; cursor : nat }.
Definition replay (t : ExecutionTrace) : TraceReplay := {| replayed := t; cursor := 0 |}.
Definition set_cursor (r : TraceReplay) (c : nat) : TraceReplay := {| replayed := r.(replayed); cursor := c |}.

Definition current (r : TraceReplay) : option Checkpoint := r.(replayed).(checkpoints) !! r.(cursor).
Definition step_forward (r : TraceReplay) : TraceReplay * option Checkpoint :=
  if (r.(cursor) + 1 <? length r.(replayed).(checkpoints))%nat
  then let r := set_cursor r (r.(cursor) + 1) in (r, current r)
  else (r, None).
Definition step_backward (r : TraceReplay) : TraceReplay * option Checkpoint :=
  if (0 <? r.(cursor))%nat
  then let r := set_cursor r (r.(cursor) - 1) in (r, current r)
  else (r, None).
Definition goto_checkpoint (r : TraceReplay) (idx : nat) : TraceReplay * option Checkpoint :=
  if (idx <? length r.(replayed).(checkpoints))%nat
  then let r := set_cursor r idx in (r, current r)
  else (r, None).
Definition replay_fuel_at (r : TraceReplay) (idx : nat) : option Z := fuel_at <$> r.(replayed).(checkpoints) !! idx.
Definition position (r : TraceReplay) : nat := r.(cursor).

Inductive Move := Forward | Backward | Goto (idx : nat).
Definition move (r : TraceReplay) (m : Move) : TraceReplay * option Checkpoint :=
  match m with Forward => step_forward r | Backward => step_backward r | Goto i => goto_checkpoint r i end.

(** ** Recording *)

Record StepCapture := {
  step_fuel : Z;
  completed : bool;
  step_memory : option (list byte);
  step_globals : list GlobalSnapshot;
}.

Section Record.
Variable hash_memory : list byte → string.
(** [WasmSandbox::execute_to_fuel] of the module and input at hand. *)
Variable execute_to_fuel : Z → result StepCapture NexusError.

Definition push_step (config : TraceConfig) (t : ExecutionTrace) (step : StepCapture) : ExecutionTrace :=
  match step.(step_memory) with
  | Some mem =>
      (trace_push t step.(step_fuel) (if config.(capture_memory) then hash_memory mem else "")
         step.(step_globals) config.(max_checkpoints)).1
  | None => t
  end.

(** The loop [for k in 1..=max_checkpoints]; [k] is the next index, [left] how many remain. *)
Fixpoint record_loop (config : TraceConfig) (interval : Z) (k : Z) (todo : nat) (t : ExecutionTrace)
  : result ExecutionTrace NexusError :=
  match todo with
  | O => Ok t
  | S todo =>
      let cap := Z.min U64_MAX (interval * k) in
      let? step := execute_to_fuel cap in
      let t := push_step config t step in
      if step.(completed) then Ok t else record_loop config interval (k + 1) todo t
  end.

Definition record_trace (config : TraceConfig) (id : Z) (tool : string) (input : option (list byte))
  : result ExecutionTrace NexusError :=
  match input with
  | None => Err (SerializationError (Fmt "trace input: {e}" [AOpaque]))
  | Some _ =>
      record_loop config (Z.max config.(checkpoint_interval_fuel) 1) 1 config.(max_checkpoints) (trace_new id tool)
  end.

(** ** What is recorded *)

(** The bounded runs of a recording: one per interval, up to the first that completes. *)
Fixpoint recorded_steps (interval k : Z) (todo : nat) : result (list StepCapture) NexusError :=
  match todo with
  | O => Ok []
  | S todo =>
      let? step := execute_to_fuel (Z.min U64_MAX (interval * k)) in
      if step.(completed) then Ok [step]
      else let? rest := recorded_steps interval (k + 1) todo in Ok (step :: rest)
  end.

(** The checkpoints of some runs: those with a memory, numbered from [n]. *)
Fixpoint checkpoints_of (config : TraceConfig) (n : nat) (steps : list StepCapture) : list Checkpoint :=
  match steps with
  | [] => []
  | s :: steps =>
      match s.(step_memory) with
      | Some mem =>
          {| sequence := n; fuel_at := s.(step_fuel);
             memory_hash := if config.(capture_memory) then hash_memory mem else ""; globals := s.(step_globals) |}
          :: checkpoints_of config (S n) steps
      | None => checkpoints_of config n steps
      end
  end.

Lemma record_loop_spec config interval k todo t :
  (length t.(checkpoints) + todo ≤ config.(max_checkpoints))%nat →
  record_loop config interval k todo t
  = let? steps := recorded_steps interval k todo in
    Ok {| trace_id := t.(trace_id); tool_name := t.(tool_name);
          checkpoints := t.(checkpoints) ++ checkpoints_of config (length t.(checkpoints)) steps |}.
Proof.
  revert k t. induction todo as [|todo IH]; intros k t Hl; cbn [record_loop recorded_steps].
  { cbn. rewrite app_nil_r. by destruct t. }
  destruct (execute_to_fuel _) as [step|e]; [|done]. cbn [result_bind].
  assert (push_step config t step = {| trace_id := t.(trace_id); tool_name := t.(tool_name);
    checkpoints := t.(checkpoints) ++ checkpoints_of config (length t.(checkpoints)) [step] |}) as Hp.
  { unfold push_step, checkpoints_of. destruct (step_memory step) as [mem|].
    - unfold trace_push. rewrite (proj2 (Nat.leb_gt _ _)) by lia. done.
    - rewrite app_nil_r. by destruct t. }
  destruct (completed step); [by rewrite Hp|]. rewrite Hp, IH; cbn [checkpoints].
  2:{ rewrite length_app. unfold checkpoints_of. destruct (step_memory step); cbn; lia. }
  cbn [trace_id tool_name]. destruct (recorded_steps interval (k + 1) todo) as [steps|e]; [|done]. cbn [result_bind].
  do 2 f_equal. rewrite <- app_assoc. f_equal. cbn [checkpoints_of].
  destruct (step_memory step); cbn [app length]; rewrite length_app; cbn [length]; [by rewrite Nat.add_1_r|by rewrite Nat.add_0_r].
Qed.

Lemma recorded_steps_length interval k todo steps :
  recorded_steps interval k todo = Ok steps → (length steps ≤ todo)%nat.
Proof.
  revert k steps. induction todo as [|todo IH]; intros k steps; cbn [recorded_steps]; [by intros [= <-]|].
  intros (s & _ & H)%result_bind_Ok. destruct (completed s); [injection H as <-; cbn; lia|].
  apply result_bind_Ok in H as (rest & Hr & [= <-]). apply IH in Hr. cbn. lia.
Qed.
Lemma checkpoints_of_length config n steps : (length (checkpoints_of config n steps) ≤ length steps)%nat.
Proof.
  revert n. induction steps as [|s steps IH]; intros n; cbn; [lia|].
  destruct (step_memory s); cbn; [specialize (IH (S n))|specialize (IH n)]; lia.
Qed.
Lemma checkpoints_of_sequence config n steps i c :
  checkpoints_of config n steps !! i = Some c → c.(sequence) = (n + i)%nat.
Proof.
  revert n i. induction steps as [|s steps IH]; intros n i; cbn [checkpoints_of]; [done|].
  destruct (step_memory s); [|apply IH]. destruct i as [|i]; cbn.
  - intros [= <-]. cbn. lia.
  - intros H%IH. lia.
Qed.
End Record.

(** A recorded trace is the sequence of its bounded runs.  Recording fails only if a
    bounded run does; otherwise the checkpoints are exactly those of the runs with caps
    [interval], [2 * interval], ... (saturating) up to the first that completes, in order,
    numbered from 0, none dropped, and at most [max_checkpoints]. *)
Theorem recorded_trace (hash_memory : list byte → string) (execute_to_fuel : Z → result StepCapture NexusError)
    (config : TraceConfig) (id : Z) (tool : string) (input : list byte) :
  match recorded_steps execute_to_fuel (Z.max config.(checkpoint_interval_fuel) 1) 1 config.(max_checkpoints) with
  | Err e => record_trace hash_memory execute_to_fuel config id tool (Some input) = Err e
  | Ok steps =>
      ∃ t, record_trace hash_memory execute_to_fuel config id tool (Some input) = Ok t
        ∧ t.(checkpoints) = checkpoints_of hash_memory config 0 steps
        ∧ (length t.(checkpoints) ≤ config.(max_checkpoints))%nat
        ∧ ∀ i c, t.(checkpoints) !! i = Some c → c.(sequence) = i
  end.
Proof.
  unfold record_trace. rewrite record_loop_spec by (cbn; lia).
  destruct (recorded_steps _ _ _ _) as [steps|e] eqn:Hs; [|done]. cbn [result_bind]. eexists. split; [done|].
  split; [done|]. cbn [checkpoints trace_new app]. apply recorded_steps_length in Hs. split.
  - pose proof (checkpoints_of_length hash_memory config 0 steps). cbn [length]. lia.
  - intros i c. apply checkpoints_of_sequence.
Qed.

(** The cursor never leaves a recorded trace: over a nonempty trace, after any moves
    there is a current checkpoint, a move answers with the new current one or with nothing
    and without moving, and stepping forward and back returns to the same place. *)
Theorem replay_stays_inside (t : ExecutionTrace) (moves : list Move) (m : Move) :
  t.(checkpoints) ≠ [] →
  let r := fold_left (λ r m, (move r m).1) moves (replay t) in
  (r.(cursor) < length t.(checkpoints))%nat ∧ is_Some (current r) ∧ r.(replayed) = t
  ∧ ((move r m).2 = current (move r m).1 ∨ move r m = (r, None))
  ∧ (is_Some (step_forward r).2 → (step_backward (step_forward r).1).1 = r).
Proof.
  intros Hne r.
  assert (∀ r', (r'.(cursor) < length r'.(replayed).(checkpoints))%nat → r'.(replayed) = t →
    ∀ m, ((move r' m).1.(cursor) < length t.(checkpoints))%nat ∧ (move r' m).1.(replayed) = t
      ∧ ((move r' m).2 = current (move r' m).1 ∨ move r' m = (r', None))) as Hstep.
  { intros r' Hc Ht m'. destruct m' as [| |i]; cbn [move]; unfold step_forward, step_backward, goto_checkpoint;
      rewrite <- Ht; match goal with |- context [(?a <? ?b)%nat] => destruct (Nat.ltb_spec a b) end;
      cbn; split_and!; auto; lia. }
  assert ((r.(cursor) < length r.(replayed).(checkpoints))%nat ∧ r.(replayed) = t) as [Hc Ht].
  { subst r. induction moves as [|x moves IH] using rev_ind; cbn.
    - split; [|done]. destruct (checkpoints t); [done|cbn; lia].
    - rewrite fold_left_snoc. destruct IH as [Hc Ht]. destruct (Hstep _ Hc Ht x) as (H1 & H2 & _). by rewrite H2. }
  split; [by rewrite <- Ht|]. split; [by apply lookup_lt_is_Some|]. split; [done|].
  split; [by apply (Hstep r Hc Ht m)|].
  unfold step_forward. destruct (Nat.ltb_spec (cursor r + 1) (length (checkpoints (replayed r)))); [|by intros []].
  intros _. destruct r as [rt rc]. cbn [fst set_cursor step_backward replayed cursor].
  unfold step_backward, set_cursor. cbn [cursor replayed]. rewrite (proj2 (Nat.ltb_lt _ _)) by lia.
  cbn [fst]. f_equal. lia.
Qed.

Module ToyTrace.
Definition t : ExecutionTrace :=
  (trace_push (trace_push (trace_new 1 "t") 10 "a" [] 5).1 20 "b" [] 5).1.
End ToyTrace.
Lemma replay_stays_inside_witness :
  let r := fold_left (λ r m, (move r m).1) [Forward; Forward; Backward] (replay ToyTrace.t) in
  r.(cursor) = 0%nat ∧ (r.(cursor) < 2)%nat ∧ r.(replayed) = ToyTrace.t
  ∧ (step_backward (step_forward r).1).1 = r.
Proof.
  destruct (replay_stays_inside ToyTrace.t [Forward; Forward; Backward] (Goto 7)) as (Hc & _ & Ht & _ & Hb);
    [discriminate|].
  split; [reflexivity|]. split; [exact Hc|]. split; [exact Ht|]. apply Hb. by eexists.
Defined.
