(* ===== verification/Epoch.v ===== *)
(** * The epoch clock of a sandbox: [src/sandbox/wasm_runtime.rs]

    All runs of one sandbox share [SandboxEpoch].  A run reserves a deadline on it; when the
    supervisor's wait times out it advances the clock to that deadline, one engine epoch at
    a time, and wasmtime interrupts every guest whose deadline has passed.

    The operations come twice: as functions, for one thread alone, and as the atomic loads,
    compare-exchanges and fetch-and-adds they consist of, in the program counters [Pc], for
    any number of supervisors and workers ([epoch_step]).  A [Duration] is its nanoseconds. *)

From S2P Require Import Prelude Errors Failure.

Abbreviation Duration := Z (only parsing).
Definition as_millis (d : Duration) : Z := d / 1000000.
Definition duration_millis (d : Duration) : Z := Z.min (as_millis d) U64_MAX.

Definition EPOCH_TICK_MS : Z := 10.
Definition div_ceil (a b : Z) : Z := (a + b - 1) / b.
Definition epoch_ticks_for_time_limit (time_limit : Duration) : Z :=
  let millis := Z.max (as_millis time_limit) 1 in
  Z.min (div_ceil millis EPOCH_TICK_MS) U64_MAX.

Definition timeout_mode (time_limit observed : Duration) : FailureMode :=
  FTimeout (duration_millis time_limit) (duration_millis observed).

(** Also [Engine]'s own epoch, which [increment_engine_epoch] moves. *)
Record SandboxEpoch := { current : Z; next_deadline : Z; engine_epoch : Z }.
Definition SandboxEpoch_new : SandboxEpoch := {| current := 0; next_deadline := 1; engine_epoch := 0 |}.

Definition set_current (e : SandboxEpoch) (c : Z) : SandboxEpoch :=
  {| current := c; next_deadline := e.(next_deadline); engine_epoch := e.(engine_epoch) |}.
Definition set_next (e : SandboxEpoch) (n : Z) : SandboxEpoch :=
  {| current := e.(current); next_deadline := n; engine_epoch := e.(engine_epoch) |}.
Definition increment_engine_epoch (e : SandboxEpoch) : SandboxEpoch :=
  {| current := e.(current); next_deadline := e.(next_deadline); engine_epoch := e.(engine_epoch) + 1 |}.

(** ** One thread alone *)

(** The loop of [reserve_deadline]; [fuel] bounds its rounds. *)
Fixpoint reserve_loop (fuel : nat) (e : SandboxEpoch) (ticks deadline : Z) : option (SandboxEpoch * Z) :=
  match fuel with
  | O => None
  | S fuel =>
      if e.(current) <? deadline then Some (e, deadline)
      else
        let adjusted := saturating_add64 e.(current) (Z.max ticks 1) in
        if e.(next_deadline) =? saturating_add64 deadline ticks
        then Some (set_next e (saturating_add64 adjusted 1), adjusted)
        else reserve_loop fuel e ticks e.(next_deadline)
  end.
Definition reserve_deadline (e : SandboxEpoch) (time_limit : Duration) : option (SandboxEpoch * Z) :=
  let ticks := epoch_ticks_for_time_limit time_limit in
  reserve_loop 2 (set_next e (wrap64 (e.(next_deadline) + ticks))) ticks e.(next_deadline).

Definition relative_ticks_until (e : SandboxEpoch) (deadline : Z) : Z :=
  Z.max (saturating_sub deadline e.(current)) 1.

(** [Store::set_epoch_deadline] counts from the engine's epoch. *)
Definition configure_epoch_deadline (e : SandboxEpoch) (relative_ticks : Z) : Z :=
  e.(engine_epoch) + Z.max relative_ticks 1.

Fixpoint advance_loop (fuel : nat) (e : SandboxEpoch) (deadline : Z) : option SandboxEpoch :=
  match fuel with
  | O => None
  | S fuel =>
      if deadline <=? e.(current) then Some e
      else advance_loop fuel (increment_engine_epoch (set_current e (e.(current) + 1))) deadline
  end.
Definition advance_to (e : SandboxEpoch) (deadline : Z) : option SandboxEpoch :=
  advance_loop (S (Z.to_nat (deadline - e.(current)))) e deadline.

(** ** Any number of threads *)

Inductive Pc :=
| Fetch (ticks : Z)                     (** [reserve_deadline]: before [fetch_add] *)
| CheckCurrent (ticks deadline : Z)     (** before the load of [current] *)
| Exchange (ticks deadline cur : Z)     (** before the [compare_exchange] of [next_deadline] *)
| Reserved (deadline : Z)               (** the run has its deadline *)
| Waiting (deadline : Z)                (** its supervisor, in [recv_timeout] *)
| Starting (deadline : Z)               (** its worker, before [relative_ticks_until] *)
| Arming (deadline ticks : Z)           (** before [configure_epoch_deadline] *)
| Armed (deadline store_deadline : Z)   (** the guest may run *)
| Advance (deadline : Z)                (** the supervisor timed out: [advance_to] *)
| Bump (deadline cur : Z)               (** before the [compare_exchange] of [current] *)
| Increment (deadline : Z)              (** before [increment_engine_epoch] *)
| TimedOut (deadline : Z).              (** [advance_to] has returned *)

(** The next atomic step of a thread; [None] when it has none of its own left. *)
Definition thread_next (e : SandboxEpoch) (p : Pc) : option (SandboxEpoch * Pc) :=
  match p with
  | Fetch t => Some (set_next e (wrap64 (e.(next_deadline) + t)), CheckCurrent t e.(next_deadline))
  | CheckCurrent t d => Some (e, if e.(current) <? d then Reserved d else Exchange t d e.(current))
  | Exchange t d c =>
      let adjusted := saturating_add64 c (Z.max t 1) in
      if e.(next_deadline) =? saturating_add64 d t
      then Some (set_next e (saturating_add64 adjusted 1), Reserved adjusted)
      else Some (e, CheckCurrent t e.(next_deadline))
  | Starting d => Some (e, Arming d (relative_ticks_until e d))
  | Arming d r => Some (e, Armed d (configure_epoch_deadline e r))
  | Waiting d => Some (e, Advance d)
  | Advance d => Some (e, if d <=? e.(current) then TimedOut d else Bump d e.(current))
  | Bump d c => if e.(current) =? c then Some (set_current e (c + 1), Increment d) else Some (e, Advance d)
  | Increment d => Some (increment_engine_epoch e, Advance d)
  | Reserved _ | Armed _ _ | TimedOut _ => None
  end.

(** A run begins, thread [i] takes a step, or run [i], which has its deadline, splits into
    its supervisor and its worker. *)
Inductive Action := Begin (time_limit : Duration) | Step (i : nat) | Spawn (i : nat).
Definition act (s : SandboxEpoch * list Pc) (a : Action) : option (SandboxEpoch * list Pc) :=
  let '(e, ts) := s in
  match a with
  | Begin limit => Some (e, ts ++ [Fetch (epoch_ticks_for_time_limit limit)])
  | Step i => p ← ts !! i; '(e, p) ← thread_next e p; Some (e, <[i := p]> ts)
  | Spawn i =>
      match ts !! i with
      | Some (Reserved d) => Some (e, <[i := Waiting d]> ts ++ [Starting d])
      | _ => None
      end
  end.
Fixpoint schedule (s : SandboxEpoch * list Pc) (actions : list Action) : option (SandboxEpoch * list Pc) :=
  match actions with
  | [] => Some s
  | a :: actions => s ← act s a; schedule s actions
  end.
Definition epoch_reach (s : SandboxEpoch * list Pc) : Prop := ∃ actions, schedule (SandboxEpoch_new, []) actions = Some s.

(** The deadline that a supervisor has timed out on. *)
Definition expired (p : Pc) : option Z :=
  match p with Advance d | Bump d _ | Increment d | TimedOut d => Some d | _ => None end.
Definition incrementing (p : Pc) : Z := match p with Increment _ => 1 | _ => 0 end.
Fixpoint pending (ts : list Pc) : Z :=
  match ts with [] => 0 | p :: ts => incrementing p + pending ts end.
Definition interrupted (e : SandboxEpoch) (store_deadline : Z) : bool := store_deadline <=? e.(engine_epoch).

(** ** One thread alone: proofs *)

Lemma ticks_positive limit : 1 ≤ epoch_ticks_for_time_limit limit.
Proof.
  unfold epoch_ticks_for_time_limit, div_ceil, EPOCH_TICK_MS, U64_MAX.
  pose proof (Z.div_le_mono 10 (Z.max (as_millis limit) 1 + 10 - 1) 10 ltac:(lia) ltac:(lia)) as H.
  change (10 / 10) with 1 in H. lia.
Qed.

(** While the clock is behind the next deadline, the next deadline is taken at once. *)
Lemma reserve_alone e limit :
  e.(current) < e.(next_deadline) →
  reserve_deadline e limit
  = Some (set_next e (wrap64 (e.(next_deadline) + epoch_ticks_for_time_limit limit)), e.(next_deadline)).
Proof.
  intros H. unfold reserve_deadline. cbn [reserve_loop set_next current]. by apply Z.ltb_lt in H as ->.
Qed.

Lemma advance_loop_spec fuel e d :
  (Z.to_nat (d - e.(current)) < fuel)%nat →
  advance_loop fuel e d
  = Some {| current := Z.max e.(current) d; next_deadline := e.(next_deadline);
            engine_epoch := e.(engine_epoch) + saturating_sub d e.(current) |}.
Proof.
  revert e. induction fuel as [|fuel IH]; intros e Hf; [lia|]. cbn [advance_loop].
  destruct (d <=? current e) eqn:E; [apply Z.leb_le in E|apply Z.leb_gt in E].
  - destruct e as [c n g]. cbn in *. unfold saturating_sub. do 2 f_equal; lia.
  - rewrite IH; cbn; [|lia]. unfold saturating_sub. do 2 f_equal; lia.
Qed.
Lemma advance_to_spec e d :
  advance_to e d
  = Some {| current := Z.max e.(current) d; next_deadline := e.(next_deadline);
            engine_epoch := e.(engine_epoch) + saturating_sub d e.(current) |}.
Proof. apply advance_loop_spec. lia. Qed.

(** The functions are runs of the atomic steps. *)
Definition alone : relation (SandboxEpoch * Pc) := λ s s', thread_next s.1 s.2 = Some s'.

Lemma reserve_loop_steps fuel e t d e' d' :
  reserve_loop fuel e t d = Some (e', d') → rtc alone (e, CheckCurrent t d) (e', Reserved d').
Proof.
  revert e d. induction fuel as [|fuel IH]; intros e d; [done|]. cbn [reserve_loop].
  destruct (current e <? d) eqn:Ec.
  { intros [= <- <-]. eapply rtc_l; [|done]. unfold alone. cbn. by rewrite Ec. }
  intros H. eapply rtc_l; [unfold alone; cbn; by rewrite Ec|].
  destruct (next_deadline e =? _) eqn:En.
  - injection H as <- <-. eapply rtc_l; [unfold alone; cbn; by rewrite En|done].
  - eapply rtc_l; [unfold alone; cbn; by rewrite En|]. by apply IH.
Qed.

Lemma advance_loop_steps fuel e d e' :
  advance_loop fuel e d = Some e' → rtc alone (e, Advance d) (e', TimedOut d).
Proof.
  revert e. induction fuel as [|fuel IH]; intros e; [done|]. cbn [advance_loop].
  destruct (d <=? current e) eqn:Ec.
  { intros [= <-]. eapply rtc_l; [|done]. unfold alone. cbn. by rewrite Ec. }
  intros H. eapply rtc_l; [unfold alone; cbn; by rewrite Ec|].
  eapply rtc_l; [unfold alone; cbn; by rewrite Z.eqb_refl|]. eapply rtc_l; [done|]. by apply IH.
Qed.

(** ** Any number of threads: proofs *)

Lemma pending_app ts ts' : pending (ts ++ ts') = pending ts + pending ts'.
Proof. induction ts as [|p ts IH]; cbn; [done|lia]. Qed.
Lemma pending_insert ts i p p' :
  ts !! i = Some p → pending (<[i := p']> ts) = pending ts - incrementing p + incrementing p'.
Proof.
  revert i. induction ts as [|q ts IH]; intros [|i] H; simplify_eq/=; [lia|].
  rewrite (IH _ H). lia.
Qed.
Lemma pending_nonneg ts : 0 ≤ pending ts.
Proof. induction ts as [|[] ts IH]; cbn; lia. Qed.

Record epoch_ok (e : SandboxEpoch) (ts : list Pc) : Prop := {
  ok_engine : e.(engine_epoch) + pending ts = e.(current);
  ok_reason : e.(current) ≤ 0 ∨ ∃ p d, p ∈ ts ∧ expired p = Some d ∧ e.(current) ≤ d;
  ok_timed_out d : TimedOut d ∈ ts → d ≤ e.(current);
  ok_bump d c : Bump d c ∈ ts → c < d;
}.

Lemma elem_of_insert {A} (l : list A) i x y : y ∈ <[i := x]> l → y = x ∨ y ∈ l.
Proof.
  intros H. apply list_elem_of_lookup in H as [j Hj]. destruct (decide (j = i)) as [->|Hne].
  - apply list_lookup_insert_Some in Hj as [(_ & -> & _)|[[] _]]; [by left|done].
  - rewrite list_lookup_insert_ne in Hj by done. right. by apply list_elem_of_lookup_2 in Hj.
Qed.

(** What a step does to the clock, and that an expired run stays expired. *)
Lemma thread_next_clock e p e' p' :
  thread_next e p = Some (e', p') → (∀ d c, p = Bump d c → c < d) →
  e'.(current) - e'.(engine_epoch) = e.(current) - e.(engine_epoch) + incrementing p' - incrementing p
  ∧ e.(current) ≤ e'.(current)
  ∧ (e'.(current) = e.(current) ∨ ∃ d, expired p' = Some d ∧ e'.(current) ≤ d)
  ∧ (∀ d, expired p = Some d → expired p' = Some d)
  ∧ (∀ d, p' = TimedOut d → d ≤ e'.(current)) ∧ (∀ d c, p' = Bump d c → c < d).
Proof.
  intros H Hb. destruct p; cbn in H; repeat case_match; simplify_eq; cbn;
    repeat match goal with
    | H : (_ <=? _) = true |- _ => apply Z.leb_le in H
    | H : (_ <=? _) = false |- _ => apply Z.leb_gt in H
    | H : (_ =? _) = true |- _ => apply Z.eqb_eq in H
    end; try (split_and!; [lia|lia|by left|naive_solver..]).
  specialize (Hb _ _ eq_refl). split_and!; [lia|lia| |naive_solver..]. right. eexists. split; [done|]. lia.
Qed.

Lemma epoch_ok_step e ts i p e' p' :
  epoch_ok e ts → ts !! i = Some p → thread_next e p = Some (e', p') → epoch_ok e' (<[i := p']> ts).
Proof.
  intros [Heng Hreason Hdone Hbump] Hi Hn.
  destruct (thread_next_clock _ _ _ _ Hn) as (Hc & Hle & Hnew & Hexp & Ht & Hb).
  { intros d c ->. eapply Hbump, list_elem_of_lookup_2, Hi. }
  assert (p' ∈ <[i := p']> ts) as Hin.
  { eapply list_elem_of_lookup_2, list_lookup_insert_eq, lookup_lt_is_Some. by exists p. }
  split.
  - rewrite (pending_insert _ _ _ _ Hi). lia.
  - destruct Hnew as [Heq|(d & Hd & Hle')]; [|right; by exists p', d].
    rewrite Heq. destruct Hreason as [?|(q & d & Hq & Hqd & ?)]; [by left|right].
    apply list_elem_of_lookup in Hq as [j Hj]. destruct (decide (j = i)) as [->|Hne].
    + rewrite Hi in Hj. injection Hj as <-. exists p', d. by auto.
    + exists q, d. split; [|done]. apply list_elem_of_lookup. exists j. by rewrite list_lookup_insert_ne.
  - intros d Hd. apply elem_of_insert in Hd as [Hd|Hd]; [by apply Ht|]. apply Hdone in Hd. lia.
  - intros d c Hd. apply elem_of_insert in Hd as [Hd|Hd]; [by apply Hb|]. by apply Hbump.
Qed.

Lemma epoch_ok_snoc e ts p : epoch_ok e ts → incrementing p = 0 → expired p = None → epoch_ok e (ts ++ [p]).
Proof.
  intros [Heng Hreason Hdone Hbump] Hp Hx. split.
  - rewrite pending_app. cbn. lia.
  - destruct Hreason as [?|(q & d & Hq & ?)]; [by left|right]. exists q, d. split; [|done]. apply elem_of_app. by left.
  - intros d [Hd|[= <-]%list_elem_of_singleton]%elem_of_app; [by apply Hdone|done].
  - intros d c [Hd|[= <-]%list_elem_of_singleton]%elem_of_app; [by apply Hbump|done].
Qed.

Lemma epoch_ok_spawn e ts i d :
  epoch_ok e ts → ts !! i = Some (Reserved d) → epoch_ok e (<[i := Waiting d]> ts).
Proof.
  intros [Heng Hreason Hdone Hbump] Hi. split.
  - rewrite (pending_insert _ _ _ _ Hi). cbn. lia.
  - destruct Hreason as [?|(q & d' & Hq & Hd & ?)]; [by left|right]. exists q, d'. split; [|done].
    apply list_elem_of_lookup in Hq as [j Hj]. apply list_elem_of_lookup. exists j.
    rewrite list_lookup_insert_ne; [done|]. intros ->. rewrite Hi in Hj. by simplify_eq.
  - intros d' [?|?]%elem_of_insert; [done|auto].
  - intros d' c [?|?]%elem_of_insert; [done|auto].
Qed.

Lemma epoch_ok_act e ts a e' ts' : epoch_ok e ts → act (e, ts) a = Some (e', ts') → epoch_ok e' ts'.
Proof.
  intros Hok. destruct a as [limit|i|i]; cbn; intros H.
  - simplify_eq. by apply epoch_ok_snoc.
  - destruct (ts !! i) as [p|] eqn:Hi; [|done]. cbn in H.
    destruct (thread_next e p) as [[e1 p1]|] eqn:Hn; [|done]. cbn in H. simplify_eq. by eapply epoch_ok_step.
  - destruct (ts !! i) as [[]|] eqn:Hi; simplify_eq. by apply epoch_ok_snoc; [apply epoch_ok_spawn|..].
Qed.

Lemma epoch_reach_ok e ts : epoch_reach (e, ts) → epoch_ok e ts.
Proof.
  intros [actions H]. revert H. generalize (epoch_ok SandboxEpoch_new []).
  assert (epoch_ok SandboxEpoch_new []) as H0.
  { split; cbn; [done|by left| |]; by intros; apply elem_of_nil in H. }
  intros _. revert H0. generalize SandboxEpoch_new as e0. generalize (@nil Pc) as ts0.
  induction actions as [|a actions IH]; intros ts0 e0 Hok H; [by simplify_eq/=|].
  cbn [schedule] in H. destruct (act (e0, ts0) a) as [[e1 ts1]|] eqn:Ha; [|done].
  eapply IH; [|exact H]. by eapply epoch_ok_act.
Qed.

(** C16: whatever the threads of a sandbox interleave, the engine's epoch is the shared clock
    less the increments that are outstanding.  A guest armed at [sd] is interrupted only if
    a run whose reserved deadline is at least [sd] has timed out.  When [advance_to] has
    returned for a deadline, every guest armed at that deadline less the outstanding
    increments, or below, is interrupted.  And a worker that reads the clock before its
    reserved deadline and arms its store at once is armed at that deadline less the
    increments outstanding then: so, when none is outstanding, its own timeout interrupts
    it.  (A worker that reads the clock after its deadline may run on:
    [late_worker_runs_on].) *)
Theorem interrupts_are_timeouts (e : SandboxEpoch) (ts : list Pc) :
  epoch_reach (e, ts) →
  e.(engine_epoch) + pending ts = e.(current)
  ∧ (∀ sd, 0 < sd → interrupted e sd = true → ∃ p d, p ∈ ts ∧ expired p = Some d ∧ sd ≤ d)
  ∧ (∀ d sd, TimedOut d ∈ ts → sd + pending ts ≤ d → interrupted e sd = true)
  ∧ (∀ d, e.(current) < d → configure_epoch_deadline e (relative_ticks_until e d) = d - pending ts).
Proof.
  intros Hr. destruct (epoch_reach_ok _ _ Hr) as [Heng Hreason Hdone _]. pose proof (pending_nonneg ts).
  unfold interrupted. split; [lia|]. split; [|split].
  - intros sd Hsd Hi%Z.leb_le. destruct Hreason as [?|(p & d & Hp & Hd & ?)]; [lia|]. exists p, d. split_and!; [done..|lia].
  - intros d sd Hd%Hdone Hle. apply Z.leb_le. lia.
  - intros d Hd. unfold configure_epoch_deadline, relative_ticks_until, saturating_sub. lia.
Qed.

(** A thread that runs alone finishes: [reserve_deadline] takes the next deadline,
    which is ahead of the clock, and leaves a later one for the next run, and [advance_to]
    brings clock and engine to the deadline in as many increments as are missing; both are
    runs of the atomic steps. *)
Theorem epoch_functions_finish (e : SandboxEpoch) (limit : Duration) (d : Z) :
  e.(current) < e.(next_deadline) → e.(next_deadline) + epoch_ticks_for_time_limit limit ≤ U64_MAX → 0 ≤ e.(current) →
  (∃ e', reserve_deadline e limit = Some (e', e.(next_deadline))
     ∧ e'.(current) < e.(next_deadline) < e'.(next_deadline)
     ∧ rtc alone (e, Fetch (epoch_ticks_for_time_limit limit)) (e', Reserved e.(next_deadline)))
  ∧ (∃ e', advance_to e d = Some e'
     ∧ e'.(current) = Z.max e.(current) d
     ∧ e'.(engine_epoch) - e.(engine_epoch) = e'.(current) - e.(current)
     ∧ rtc alone (e, Advance d) (e', TimedOut d)).
Proof.
  intros Hc Ho H0. split.
  - pose proof (ticks_positive limit). pose proof (reserve_alone e limit Hc) as Hr. eexists. split; [done|].
    cbn. rewrite wrap64_small by (unfold is_u64; lia). split; [lia|].
    eapply rtc_l; [done|]. unfold reserve_deadline in Hr. rewrite wrap64_small in Hr by (unfold is_u64; lia).
    apply reserve_loop_steps in Hr. cbn. by rewrite wrap64_small by (unfold is_u64; lia).
  - pose proof (advance_to_spec e d) as Ha. eexists. split; [done|]. cbn. split; [done|].
    split; [unfold saturating_sub; lia|]. by eapply advance_loop_steps.
Qed.

(** ** Two races *)

(** Two runs can hold the same deadline: a thread that loses the exchange takes over the
    next deadline without reserving it, so the timeout of either run interrupts both. *)
Definition shared_deadline : list Action :=
  [Begin 10000000; Begin 10000000; Step 0; Step 1; Step 1; Spawn 1]
  ++ replicate 8 (Step 1) ++ [Step 0; Step 0; Step 0; Begin 10000000; Step 3; Step 3].
Lemma deadline_can_be_shared :
  ∃ e ts d, epoch_reach (e, ts) ∧ ts !! 0%nat = Some (Reserved d) ∧ ts !! 3%nat = Some (Reserved d).
Proof. eexists _, _, _. split; [exists shared_deadline; vm_compute; reflexivity|]. split; reflexivity. Qed.

(** A worker that starts after its own supervisor has timed out is never interrupted: it
    is armed one tick ahead of the clock, which nothing moves any more. *)
Definition late_worker : list Action :=
  [Begin 10000000; Step 0; Step 0; Spawn 0] ++ replicate 5 (Step 0) ++ [Step 1; Step 1].
Lemma late_worker_runs_on :
  ∃ e d sd, epoch_reach (e, [TimedOut d; Armed d sd]) ∧ interrupted e sd = false
    ∧ ∀ p, p ∈ [TimedOut d; Armed d sd] → thread_next e p = None.
Proof.
  eexists _, _, _. split; [exists late_worker; vm_compute; reflexivity|]. split; [reflexivity|].
  intros p Hp. repeat (apply elem_of_cons in Hp as [->|Hp]; [reflexivity|]). by apply elem_of_nil in Hp.
Qed.

(** ** A concrete run *)

Lemma interrupts_are_timeouts_witness :
  ∃ e (ts : list Pc), interrupted e 1 = true ∧ ∃ p d, p ∈ ts ∧ expired p = Some d ∧ 1 ≤ d.
Proof.
  assert (∃ e ts, epoch_reach (e, ts) ∧ interrupted e 1 = true) as (e & ts & Hr & Hi).
  { eexists _, _. split; [exists late_worker; vm_compute; reflexivity|reflexivity]. }
  exists e, ts. split; [exact Hi|]. exact (proj1 (proj2 (interrupts_are_timeouts e ts Hr)) 1 ltac:(lia) Hi).
Defined.

Lemma epoch_functions_finish_witness :
  ∃ e', reserve_deadline SandboxEpoch_new 500000000 = Some (e', 1).
Proof.
  destruct (epoch_functions_finish SandboxEpoch_new 500000000 3) as [(e' & H & _) _];
    [reflexivity|vm_compute; discriminate|vm_compute; discriminate|]. by exists e'.
Defined.
