(* ===== verification/Sandbox.v ===== *)
(** * The guest sandbox: [src/sandbox/wasm_runtime.rs], and the runs of [src/sandbox/wasi.rs]

    A run compiles the module, reserves an epoch deadline, and hands a worker thread the
    instance to prepare and call, while the supervisor waits for its reply up to the time
    limit.  [worker] and [wasi_worker] are the bodies of the threads, [execute_module_inner]
    and [execute_wasi_module] the supervisors.  wasmtime is the interface [Wasmtime]: a
    [Store] with its one instance.  What the operating system decides, whether the reply
    arrives in time and what the clocks show, is [Timing].  [restore_memory] and
    [restore_globals] of [src/snapshot/manager.rs] are here.

    The WASI worker polls a cancellation flag that the supervisor sets once it has timed out
    and no longer reads the reply; the polls change no answer and are left out. *)

From S2P Require Import Prelude Errors Snapshot Failure Telemetry Trace Wasi Execution Epoch.

Record SandboxConfig := {
  max_fuel : Z;
  max_memory_pages : Z;
  time_limit : Duration;
  module_bytes : option (list byte);
  enable_wasi : bool;
}.
Definition SandboxConfig_default : SandboxConfig :=
  {| max_fuel := 10000000; max_memory_pages := 512; time_limit := 500 * 1000000; module_bytes := None;
     enable_wasi := true |}.

Record ExecutionResult := {
  success : bool;
  xr_return_value : option (list byte);
  xr_fuel_consumed : Z;
  xr_duration_ms : Z;
  xr_error : option string;
  xr_failure_mode : option FailureMode;
  xr_pre_call_memory : option (list byte);
  syscall_count : Z;
  xr_post_call_globals : option (list GlobalSnapshot);
  xr_post_call_tables : option (list TableSnapshot);
  xr_call_stack : option CapturedCallStack;
}.

Definition result_success (value : list byte) (fuel duration : Z) : ExecutionResult :=
  {| success := true; xr_return_value := Some value; xr_fuel_consumed := fuel; xr_duration_ms := duration;
     xr_error := None; xr_failure_mode := None; xr_pre_call_memory := None; syscall_count := 0;
     xr_post_call_globals := None; xr_post_call_tables := None; xr_call_stack := None |}.
Definition failure_from_mode (mode : FailureMode) (fuel duration : Z) : ExecutionResult :=
  {| success := false; xr_return_value := None; xr_fuel_consumed := fuel; xr_duration_ms := duration;
     xr_error := Some (describe mode); xr_failure_mode := Some mode; xr_pre_call_memory := None; syscall_count := 0;
     xr_post_call_globals := None; xr_post_call_tables := None; xr_call_stack := None |}.
Definition failure (error : string) (fuel : Z) : ExecutionResult :=
  {| success := false; xr_return_value := None; xr_fuel_consumed := fuel; xr_duration_ms := 0;
     xr_error := Some error; xr_failure_mode := Some (HostError error); xr_pre_call_memory := None; syscall_count := 0;
     xr_post_call_globals := None; xr_post_call_tables := None; xr_call_stack := None |}.

Definition with_pre_call_memory (r : ExecutionResult) (mem : option (list byte)) : ExecutionResult :=
  {| success := r.(success); xr_return_value := r.(xr_return_value); xr_fuel_consumed := r.(xr_fuel_consumed);
     xr_duration_ms := r.(xr_duration_ms); xr_error := r.(xr_error); xr_failure_mode := r.(xr_failure_mode);
     xr_pre_call_memory := mem; syscall_count := r.(syscall_count);
     xr_post_call_globals := r.(xr_post_call_globals); xr_post_call_tables := r.(xr_post_call_tables);
     xr_call_stack := r.(xr_call_stack) |}.
Definition with_call_stack (r : ExecutionResult) (cs : option CapturedCallStack) : ExecutionResult :=
  {| success := r.(success); xr_return_value := r.(xr_return_value); xr_fuel_consumed := r.(xr_fuel_consumed);
     xr_duration_ms := r.(xr_duration_ms); xr_error := r.(xr_error); xr_failure_mode := r.(xr_failure_mode);
     xr_pre_call_memory := r.(xr_pre_call_memory); syscall_count := r.(syscall_count);
     xr_post_call_globals := r.(xr_post_call_globals); xr_post_call_tables := r.(xr_post_call_tables);
     xr_call_stack := cs |}.
Definition with_post_call_state (r : ExecutionResult) (gs : list GlobalSnapshot) (ts : list TableSnapshot) : ExecutionResult :=
  {| success := r.(success); xr_return_value := r.(xr_return_value); xr_fuel_consumed := r.(xr_fuel_consumed);
     xr_duration_ms := r.(xr_duration_ms); xr_error := r.(xr_error); xr_failure_mode := r.(xr_failure_mode);
     xr_pre_call_memory := r.(xr_pre_call_memory); syscall_count := r.(syscall_count);
     xr_post_call_globals := Some gs; xr_post_call_tables := Some ts; xr_call_stack := r.(xr_call_stack) |}.

(** ** The interface of wasmtime *)

Inductive Val := VI32 (v : Z) | VI64 (v : Z) | VF32 (bits : Z) | VF64 (bits : Z) | VOther.
Record WasmFrame := {
  wf_module : option string;
  wf_index : Z;
  wf_func : option string;
  wf_module_offset : option Z;
  wf_func_offset : option Z;
}.
(** An error of a call: the traps in it, its text as [{e:#}], and its backtrace. *)
Record GuestError := { ge_error : WasmtimeError; ge_text : string; ge_backtrace : option (list WasmFrame) }.

Definition to_u32 (value : Z) : option Z := if value <=? U32_MAX then Some value else None.
Definition from_wasm_backtrace (bt : list WasmFrame) (site : CaptureSite) : CapturedCallStack :=
  {| frames := (λ f, {| module_name := f.(wf_module); func_index := f.(wf_index); func_name := f.(wf_func);
                        module_offset := f.(wf_module_offset) ≫= to_u32;
                        func_offset := f.(wf_func_offset) ≫= to_u32 |}) <$> bt;
     captured_at := site |}.

Class Wasmtime := {
  Compiled : Type;
  Store : Type;
  from_binary : list byte → result Compiled string;
  store_new : Z → Z → Store;                     (** the memory limit and the epoch ticks *)
  set_fuel : Store → Z → result Store string;
  get_fuel : Store → option Z;
  instantiate : Store → Compiled → result Store string;
  memory_data : Store → option (list byte);      (** the export ["memory"] *)
  set_data : Store → list byte → Store;          (** a write through [data_mut] *)
  memory_grow : Store → Z → result Store string;
  global_names : Store → list string;
  get_global : Store → string → option (bool * Val);
  set_global : Store → string → Val → result Store string;
  table_names : Store → list string;
  table_size : Store → string → option Z;
  has_func : Store → string → bool;              (** [get_typed_func::<(), ()>] *)
  call_func : Store → string → Store * option GuestError;
}.

(** The WASI context and its host imports. *)
Class WasmtimeWasi `{W : Wasmtime} := {
  WasiCtx : Type;
  ctx_new : WasiCtx;
  ctx_inherit_stdout : WasiCtx → WasiCtx;
  ctx_inherit_stderr : WasiCtx → WasiCtx;
  ctx_env : WasiCtx → string → string → WasiCtx;
  ctx_arg : WasiCtx → string → WasiCtx;
  ctx_preopen : WasiCtx → PreOpen → result WasiCtx string;   (** read-only unless [writable]; the text names the path *)
  wasi_store_new : WasiCtx → Z → Z → Store;
  add_to_linker : result unit string;
  wasi_instantiate : Store → Compiled → result Store string;
}.

Inductive Recv := Delivered | TimedOutWait | Disconnected.
Record Timing := {
  received : Recv;             (** the answer of [recv_timeout] *)
  compile_elapsed : Duration;  (** [start.elapsed()] after a failed compilation *)
  wait_elapsed : Duration;     (** [start.elapsed()] after the wait *)
  join_elapsed : Duration;     (** [start.elapsed()] after the join of a timed-out worker *)
  trap_elapsed : Duration;     (** [worker_start.elapsed()] at a trap *)
}.

Definition is_epoch_interrupt (e : WasmtimeError) : bool :=
  match e.(err_trap) with
  | Some Interrupt => true
  | _ => existsb (λ t, match t with Some Interrupt => true | _ => false end) e.(err_chain)
  end.

(** The body of the reply: [ExecReply] and [WasiReply]. *)
Record Reply := {
  rp_failure : option FailureMode;
  rp_fuel : Z;
  rp_memory : option (list byte);
  rp_globals : list GlobalSnapshot;
  rp_tables : list TableSnapshot;
  rp_stack : option CapturedCallStack;
}.
Definition failed_early (mode : FailureMode) (mem : option (list byte)) : Reply :=
  {| rp_failure := Some mode; rp_fuel := 0; rp_memory := mem; rp_globals := []; rp_tables := []; rp_stack := None |}.

Section Runtime.
Context `{W : Wasmtime}.

(** ** Restoring a snapshot into an instance *)

(** [dest[..bytes.len()].copy_from_slice(bytes)]; [None] is the panic on a short slice. *)
Definition copy_prefix (dest bytes : list byte) : option (list byte) :=
  if (length bytes <=? length dest)%nat then Some (bytes ++ drop (length bytes) dest) else None.

(** An error is the text of its [RollbackFailed]. *)
Definition restore_memory (s : Store) (data bytes : list byte) : option (result Store string) :=
  let grown :=
    if (length data <? length bytes)%nat
    then result_map_err (λ e, "Rollback failed: memory grow failed: " +:+ e)
           (memory_grow s (div_ceil (len bytes - len data) 65536))
    else Ok s in
  match grown with
  | Err e => Some (Err e)
  | Ok s => dest ← memory_data s; data ← copy_prefix dest bytes; Some (Ok (set_data s data))
  end.

Definition val_of (v : GlobalValue) : Val :=
  match v with I32 z => VI32 z | I64 z => VI64 z | F32 b => VF32 b | F64 b => VF64 b end.

Fixpoint restore_globals (s : Store) (gs : list GlobalSnapshot) : result Store string :=
  match gs with
  | [] => Ok s
  | g :: gs =>
      if negb g.(gs_mutable) then restore_globals s gs
      else
        match get_global s g.(gs_name) with
        | None => restore_globals s gs
        | Some _ =>
            match set_global s g.(gs_name) (val_of g.(gs_value)) with
            | Err e => Err ("Rollback failed: failed to restore global '" +:+ g.(gs_name) +:+ "': " +:+ e)
            | Ok s => restore_globals s gs
            end
        end
  end.

(** ** Capturing the state of an instance *)

Definition value_of (v : Val) : option GlobalValue :=
  match v with VI32 z => Some (I32 z) | VI64 z => Some (I64 z) | VF32 b => Some (F32 b) | VF64 b => Some (F64 b)
  | VOther => None end.
Definition capture_globals (s : Store) : list GlobalSnapshot :=
  omap (λ name,
    '(mutable, val) ← get_global s name; value ← value_of val;
    Some {| gs_name := name; gs_value := value; gs_mutable := mutable |}) (global_names s).
Definition capture_tables (s : Store) : list TableSnapshot :=
  omap (λ name, size ← table_size s name; Some {| ts_name := name; ts_size := wrap32 size |}) (table_names s).

(** ** The worker *)

(** The guest input, as [[len: u32 LE][data]] at the start of the memory, if it fits. *)
Definition write_input (s : Store) (input : list byte) : Store :=
  match input, memory_data s with
  | _ :: _, Some data =>
      if (4 + length input <=? length data)%nat
      then set_data s (le_bytes 4 (wrap32 (len input)) ++ input ++ drop (4 + length input) data)
      else s
  | _, _ => s
  end.

(** The entry point: the named function, or ["main"] for a missing ["_start"]. *)
Definition resolve (s : Store) (entry : string) : option string :=
  if has_func s entry then Some entry
  else if decide (entry = "_start") then if has_func s "main" then Some "main" else None
  else None.

(** The failure mode of a failed call; [prefix] introduces the text of an unknown error. *)
Definition mode_of_error (cfg : SandboxConfig) (prefix : string) (elapsed : Duration) (e : GuestError) : FailureMode :=
  if is_epoch_interrupt e.(ge_error) then timeout_mode cfg.(time_limit) elapsed
  else
    match default (HostError (prefix +:+ e.(ge_text))) (from_anyhow_error e.(ge_error)) with
    | FFuelExhausted _ => FFuelExhausted cfg.(max_fuel)
    | other => other
    end.

(** The optional seeding, between instantiation and the capture of the memory. *)
Definition seed (s : Store) (restored : option RestoredExecutionState) : option (result Store FailureMode) :=
  match restored with
  | None => Some (Ok s)
  | Some r =>
      restored ← match memory_data s with
                 | Some data => restore_memory s data r.(restored_memory)
                 | None => Some (Ok s)
                 end;
      match restored with
      | Err e => Some (Err (HostError ("snapshot memory restore failed: " +:+ e)))
      | Ok s =>
          Some (result_map_err (λ e, HostError ("snapshot globals restore failed: " +:+ e))
                  (restore_globals s r.(restored_state).(captured_globals)))
      end
  end.
Definition max_memory_bytes (cfg : SandboxConfig) : Z := cfg.(max_memory_pages) * 65536.

(** The instance just before the call, its memory before the input, and the function. *)
Inductive Prepared := Ready (s : Store) (pre_call : option (list byte)) (func : string) | Unready (r : Reply).
Definition prepare (cfg : SandboxConfig) (ticks : Z) (m : Compiled) (input : list byte)
    (restored : option RestoredExecutionState) (entry : string) : option Prepared :=
  match set_fuel (store_new (max_memory_bytes cfg) ticks) cfg.(max_fuel) with
  | Err e => Some (Unready (failed_early (HostError ("set_fuel failed: " +:+ e)) None))
  | Ok s =>
      match instantiate s m with
      | Err e => Some (Unready (failed_early (InvalidModule ("instantiate failed: " +:+ e)) None))
      | Ok s =>
          seeded ← seed s restored;
          match seeded with
          | Err mode => Some (Unready (failed_early mode None))
          | Ok s =>
              let pre_call := memory_data s in
              let s := write_input s input in
              match resolve s entry with
              | None => Some (Unready (failed_early (MissingEntrypoint entry) pre_call))
              | Some f => Some (Ready s pre_call f)
              end
          end
      end
  end.

Definition fuel_used (limit : Z) (s : Store) : Z := saturating_sub limit (default 0 (get_fuel s)).

(** The whole thread; [None] when it panics without a reply. *)
Definition worker (cfg : SandboxConfig) (tm : Timing) (ticks : Z) (m : Compiled) (input : list byte)
    (restored : option RestoredExecutionState) (entry : string) : option Reply :=
  prepared ← prepare cfg ticks m input restored entry;
  match prepared with
  | Unready r => Some r
  | Ready s pre_call f =>
      let '(s, outcome) := call_func s f in
      Some {| rp_failure := mode_of_error cfg "wasm error: " tm.(trap_elapsed) <$> outcome;
              rp_fuel := fuel_used cfg.(max_fuel) s; rp_memory := pre_call;
              rp_globals := capture_globals s; rp_tables := capture_tables s;
              rp_stack := e ← outcome; bt ← e.(ge_backtrace); Some (from_wasm_backtrace bt CTrap) |}
  end.
(** ** The supervisor *)

Record WasmSandbox := { sb_config : SandboxConfig; sb_epoch : SandboxEpoch }.
Definition sandbox_new (cfg : SandboxConfig) : WasmSandbox := {| sb_config := cfg; sb_epoch := SandboxEpoch_new |}.

Definition millis (d : Duration) : Z := wrap64 (as_millis d).
Definition first_arg (args : list (list byte)) : list byte := default [] (head args).

(** The result of a reply, and of the two ways not to get one. *)
Definition result_of_reply (r : Reply) (duration : Z) : ExecutionResult :=
  let base := match r.(rp_failure) with
              | None => result_success [] r.(rp_fuel) duration
              | Some mode => failure_from_mode mode r.(rp_fuel) duration
              end in
  let full := with_post_call_state (with_pre_call_memory base r.(rp_memory)) r.(rp_globals) r.(rp_tables) in
  match r.(rp_failure) with None => full | Some _ => with_call_stack full r.(rp_stack) end.

(** [recv_timeout] and the match on its answer; [lost] is the text for a dead worker. *)
Definition supervise (cfg : SandboxConfig) (e : SandboxEpoch) (deadline : Z) (tm : Timing) (reply : option Reply)
    (lost : string) : option (SandboxEpoch * ExecutionResult) :=
  let duration := millis tm.(wait_elapsed) in
  match tm.(received), reply with
  | Delivered, Some r => Some (e, result_of_reply r duration)
  | TimedOutWait, _ =>
      e ← advance_to e deadline;
      Some (e, failure_from_mode (timeout_mode cfg.(time_limit) tm.(join_elapsed)) 0 duration)
  | _, _ => Some (e, failure_from_mode (HostError lost) 0 duration)
  end.

Definition execute_module_inner (sb : WasmSandbox) (tm : Timing) (m : Compiled) (args : list (list byte))
    (restored : option RestoredExecutionState) (entry : string) : option (WasmSandbox * ExecutionResult) :=
  '(e, deadline) ← reserve_deadline sb.(sb_epoch) sb.(sb_config).(time_limit);
  let reply := worker sb.(sb_config) tm (relative_ticks_until e deadline) m (first_arg args) restored entry in
  '(e, r) ← supervise sb.(sb_config) e deadline tm reply "worker thread disconnected before sending a result";
  Some ({| sb_config := sb.(sb_config); sb_epoch := e |}, r).

Definition execute_module_with_entry (sb : WasmSandbox) (tm : Timing) (m : Compiled) (args : list (list byte))
    (entry : string) : option (WasmSandbox * ExecutionResult) :=
  execute_module_inner sb tm m args None entry.
Definition execute_precompiled_from_restored_state_with_entry (sb : WasmSandbox) (tm : Timing) (m : Compiled)
    (args : list (list byte)) (restored : RestoredExecutionState) (entry : string)
  : option (WasmSandbox * ExecutionResult) :=
  execute_module_inner sb tm m args (Some restored) entry.

Definition execute_module (sb : WasmSandbox) (tm : Timing) (m : Compiled) (args : list (list byte))
  : option (WasmSandbox * ExecutionResult) := execute_module_with_entry sb tm m args "_start".
Definition execute_precompiled (sb : WasmSandbox) (tm : Timing) (m : Compiled) (args : list (list byte))
  : option (WasmSandbox * ExecutionResult) := execute_module sb tm m args.
Definition execute_precompiled_with_entry (sb : WasmSandbox) (tm : Timing) (m : Compiled) (args : list (list byte))
    (entry : string) : option (WasmSandbox * ExecutionResult) := execute_module_with_entry sb tm m args entry.
Definition execute_precompiled_from_restored_state (sb : WasmSandbox) (tm : Timing) (m : Compiled)
    (args : list (list byte)) (restored : RestoredExecutionState) : option (WasmSandbox * ExecutionResult) :=
  execute_precompiled_from_restored_state_with_entry sb tm m args restored "_start".

(** [execute_with_entry] and [execute_from_restored_state_with_entry]. *)
Definition execute_bytes (sb : WasmSandbox) (tm : Timing) (wasm_bytes : list byte) (args : list (list byte))
    (restored : option RestoredExecutionState) (entry : string) : option (WasmSandbox * ExecutionResult) :=
  match from_binary wasm_bytes with
  | Err e => Some (sb, failure_from_mode (InvalidModule e) 0 (millis tm.(compile_elapsed)))
  | Ok m => execute_module_inner sb tm m args restored entry
  end.
Definition execute_with_entry (sb : WasmSandbox) (tm : Timing) (wasm_bytes : list byte) (args : list (list byte))
    (entry : string) : option (WasmSandbox * ExecutionResult) :=
  execute_bytes sb tm wasm_bytes args None entry.
Definition execute (sb : WasmSandbox) (tm : Timing) (wasm_bytes : list byte) (args : list (list byte))
  : option (WasmSandbox * ExecutionResult) :=
  execute_with_entry sb tm wasm_bytes args "_start".
Definition execute_from_restored_state_with_entry (sb : WasmSandbox) (tm : Timing) (wasm_bytes : list byte)
    (args : list (list byte)) (restored : RestoredExecutionState) (entry : string)
  : option (WasmSandbox * ExecutionResult) :=
  execute_bytes sb tm wasm_bytes args (Some restored) entry.
Definition execute_from_restored_state (sb : WasmSandbox) (tm : Timing) (wasm_bytes : list byte)
    (args : list (list byte)) (restored : RestoredExecutionState) : option (WasmSandbox * ExecutionResult) :=
  execute_from_restored_state_with_entry sb tm wasm_bytes args restored "_start".

(** ** Running up to a fuel cap *)

Inductive StepReply := Captured (c : StepCapture) | Degenerate | StepFailed (m : Msg).

Definition step_worker (cfg : SandboxConfig) (ticks fuel_cap : Z) (m : Compiled) (input : list byte) : StepReply :=
  match set_fuel (store_new (max_memory_bytes cfg) ticks) fuel_cap with
  | Err e => StepFailed (Fmt "set_fuel failed: {e}" [AStr e])
  | Ok s =>
      match instantiate s m with
      | Err _ => Degenerate
      | Ok s =>
          let s := write_input s input in
          match resolve s "_start" with
          | None => Degenerate
          | Some f =>
              let '(s, outcome) := call_func s f in
              let completed := match outcome with
                | None => true
                | Some e =>
                    if is_epoch_interrupt e.(ge_error) then false
                    else match from_anyhow_error e.(ge_error) with Some (FFuelExhausted _) => false | _ => true end
                end in
              Captured {| step_fuel := fuel_used fuel_cap s; completed := completed; step_memory := memory_data s;
                          step_globals := capture_globals s |}
          end
      end
  end.

Definition execute_to_fuel (sb : WasmSandbox) (tm : Timing) (wasm_bytes : list byte) (args : list (list byte))
    (fuel_cap : Z) : option (WasmSandbox * result StepCapture NexusError) :=
  match from_binary wasm_bytes with
  | Err e => Some (sb, Err (WasmError (Fmt "compile failed: {e}" [AStr e])))
  | Ok m =>
      let cfg := sb.(sb_config) in
      '(e, deadline) ← reserve_deadline sb.(sb_epoch) cfg.(time_limit);
      let with_epoch e := {| sb_config := cfg; sb_epoch := e |} in
      match tm.(received) with
      | Delivered =>
          Some (with_epoch e,
            match step_worker cfg (relative_ticks_until e deadline) fuel_cap m (first_arg args) with
            | Captured c => Ok c
            | Degenerate => Ok {| step_fuel := 0; completed := true; step_memory := None; step_globals := [] |}
            | StepFailed m => Err (WasmError m)
            end)
      | TimedOutWait => e ← advance_to e deadline; Some (with_epoch e, Err (Timeout (millis cfg.(time_limit))))
      | Disconnected => Some (with_epoch e, Err (WasmError (Lit "worker thread disconnected before capturing step")))
      end
  end.

(** ** WASI runs *)

Context `{!WasmtimeWasi}.

Definition wasi_context (c : WasiSandboxConfig) : result WasiCtx FailureMode :=
  let ctx := ctx_new in
  let ctx := if c.(inherit_stdout) then ctx_inherit_stdout ctx else ctx in
  let ctx := if c.(inherit_stderr) then ctx_inherit_stderr ctx else ctx in
  let ctx := fold_left (λ ctx '(k, v), ctx_env ctx k v) c.(env_vars) ctx in
  let ctx := fold_left ctx_arg c.(Wasi.args) ctx in
  fold_left (λ acc p,
    let? ctx := acc in
    result_map_err (λ e, HostError ("preopened_dir " +:+ e)) (ctx_preopen ctx p)) c.(preopens) (Ok ctx).

(** A failed call, unless its text says that the guest exited with status 0. *)
Definition wasi_failure (cfg : SandboxConfig) (tm : Timing) (e : GuestError) : option FailureMode :=
  if contains_str "exit status 0" e.(ge_text) then None
  else Some (mode_of_error cfg "wasm: " tm.(trap_elapsed) e).
(** The WASI copies of [capture_globals] and [capture_tables]. *)
Definition capture_globals_wasi (s : Store) : list GlobalSnapshot := capture_globals s.
Definition capture_tables_wasi (s : Store) : list TableSnapshot := capture_tables s.

Definition wasi_worker (cfg : SandboxConfig) (tm : Timing) (ticks : Z) (m : Compiled) (input : list byte)
    (wasi : WasiSandboxConfig) : Reply :=
  match wasi_context wasi with
  | Err mode => failed_early mode None
  | Ok ctx =>
      match set_fuel (wasi_store_new ctx (max_memory_bytes cfg) ticks) cfg.(max_fuel) with
      | Err e => failed_early (HostError ("set_fuel: " +:+ e)) None
      | Ok s =>
          match add_to_linker with
          | Err e => failed_early (HostError ("WASI linker: " +:+ e)) None
          | Ok _ =>
              match wasi_instantiate s m with
              | Err e => failed_early (InvalidModule ("instantiate: " +:+ e)) None
              | Ok s =>
                  let pre_call := memory_data s in
                  let s := write_input s input in
                  match resolve s "_start" with
                  | None => failed_early (MissingEntrypoint "_start") pre_call
                  | Some f =>
                      let '(s, outcome) := call_func s f in
                      {| rp_failure := outcome ≫= wasi_failure cfg tm;
                         rp_fuel := fuel_used cfg.(max_fuel) s; rp_memory := pre_call;
                         rp_globals := capture_globals_wasi s; rp_tables := capture_tables_wasi s; rp_stack := None |}
                  end
              end
          end
      end
  end.

Definition execute_wasi_module (sb : WasmSandbox) (tm : Timing) (m : Compiled) (args : list (list byte))
    (wasi : WasiSandboxConfig) : option (WasmSandbox * ExecutionResult) :=
  '(e, deadline) ← reserve_deadline sb.(sb_epoch) sb.(sb_config).(time_limit);
  let reply := wasi_worker sb.(sb_config) tm (relative_ticks_until e deadline) m (first_arg args) wasi in
  '(e, r) ← supervise sb.(sb_config) e deadline tm (Some reply) "WASI worker disconnected before sending result";
  Some ({| sb_config := sb.(sb_config); sb_epoch := e |}, r).
Definition execute_wasi (sb : WasmSandbox) (tm : Timing) (wasm_bytes : list byte) (args : list (list byte))
    (wasi : WasiSandboxConfig) : option (WasmSandbox * ExecutionResult) :=
  match from_binary wasm_bytes with
  | Err e => Some (sb, failure_from_mode (InvalidModule e) 0 (millis tm.(compile_elapsed)))
  | Ok m => execute_wasi_module sb tm m args wasi
  end.
End Runtime.

(** What the code relies on: writes through [data_mut] and growth change the memory alone
    and as documented, [Global::set] changes that global, [get_fuel] is an unsigned number,
    and the store's limiter, with the limit [memory_limit], bounds the memory. *)
Class WasmtimeLaws `(W : Wasmtime) := {
  memory_limit : Store → Z;
  law_data s d d' : memory_data s = Some d → length d' = length d → memory_data (set_data s d') = Some d';
  law_data_globals s d n : get_global (set_data s d) n = get_global s n;
  law_grow s n s' d : memory_grow s n = Ok s' → memory_data s = Some d →
    memory_data s' = Some (d ++ replicate (Z.to_nat (n * 65536)) x00);
  law_grow_globals s n s' g : memory_grow s n = Ok s' → get_global s' g = get_global s g;
  law_set_same s n v s' : set_global s n v = Ok s' → get_global s' n = (λ '(m, _), (m, v)) <$> get_global s n;
  law_set_other s n v s' n' : set_global s n v = Ok s' → n' ≠ n → get_global s' n' = get_global s n';
  law_set_memory s n v s' : set_global s n v = Ok s' → memory_data s' = memory_data s;
  law_fuel s n : get_fuel s = Some n → 0 ≤ n;
  law_limit_new l t : memory_limit (store_new l t) = l;
  law_limit_fuel s n s' : set_fuel s n = Ok s' → memory_limit s' = memory_limit s;
  law_limit_instantiate s m s' : instantiate s m = Ok s' → memory_limit s' = memory_limit s;
  law_limit_data s d : memory_limit (set_data s d) = memory_limit s;
  law_limit_grow s n s' : memory_grow s n = Ok s' → memory_limit s' = memory_limit s;
  law_limit_global s n v s' : set_global s n v = Ok s' → memory_limit s' = memory_limit s;
  law_limit s d : memory_data s = Some d → len d ≤ memory_limit s;
}.

Section Theorems.
Context `{W : Wasmtime} `{L : !WasmtimeLaws W}.

(** ** Preparing the instance *)

Lemma copy_prefix_Some dest bytes d :
  copy_prefix dest bytes = Some d ↔ (length bytes ≤ length dest)%nat ∧ d = bytes ++ drop (length bytes) dest.
Proof. unfold copy_prefix. destruct (_ <=? _)%nat eqn:E; [apply Nat.leb_le in E|apply Nat.leb_gt in E]; naive_solver lia. Qed.

(** A restored memory is the snapshot's over the fresh one, zero where it had to grow. *)
Lemma restore_memory_spec s data bytes s' :
  memory_data s = Some data → restore_memory s data bytes = Some (Ok s') →
  ∃ k, memory_data s' = Some (bytes ++ drop (length bytes) (data ++ replicate k x00))
    ∧ len bytes ≤ len data + Z.of_nat k < Z.max (len bytes) (len data) + 65536
    ∧ ((len bytes - len data) mod 65536 = 0 → len data + Z.of_nat k = Z.max (len bytes) (len data))
    ∧ memory_limit s' = memory_limit s ∧ ∀ n, get_global s' n = get_global s n.
Proof.
  intros Hm. unfold restore_memory. destruct (length data <? length bytes)%nat eqn:Elt.
  - apply Nat.ltb_lt in Elt. destruct (memory_grow s _) as [s1|e] eqn:Eg; cbn [result_map_err]; [|done].
    rewrite (law_grow _ _ _ _ Eg Hm). set (k := Z.to_nat _). cbn. intros H.
    destruct (copy_prefix _ _) as [d|] eqn:Ec; [|done]. apply copy_prefix_Some in Ec as [Hle ->].
    cbn in H. injection H as <-. exists k. rewrite length_app, length_replicate in Hle.
    split. { eapply law_data; [by eapply law_grow|]. rewrite !length_app, length_drop, !length_app, !length_replicate. lia. }
    assert (Z.of_nat k = div_ceil (len bytes - len data) 65536 * 65536) as Hk.
    { subst k. rewrite Z2Nat.id; [done|]. unfold div_ceil, len.
      pose proof (Z.div_pos (Z.of_nat (length bytes) - Z.of_nat (length data) + 65536 - 1) 65536). lia. }
    unfold div_ceil, len in Hk.
    set (a := Z.of_nat (length bytes) - Z.of_nat (length data)) in *.
    pose proof (Z.div_mod (a + 65536 - 1) 65536 ltac:(lia)). pose proof (Z.mod_pos_bound (a + 65536 - 1) 65536 ltac:(lia)).
    unfold len. split; [lia|]. split.
    { fold a. intros Hmod. apply Z.mod_divide in Hmod as [c Ha]; [|lia].
      assert (a + 65536 - 1 = 65535 + c * 65536) as Heq by lia. rewrite Heq, Z.div_add in Hk by lia.
      change (65535 / 65536) with 0 in Hk. lia. }
    split; [by rewrite law_limit_data, (law_limit_grow _ _ _ Eg)|].
    intros n. by rewrite law_data_globals, (law_grow_globals _ _ _ _ Eg).
  - apply Nat.ltb_ge in Elt. rewrite Hm. cbn. intros H.
    destruct (copy_prefix _ _) as [d|] eqn:Ec; [|done]. apply copy_prefix_Some in Ec as [Hle ->].
    cbn in H. injection H as <-. exists 0%nat. cbn [replicate]. rewrite app_nil_r.
    split. { eapply law_data; [done|]. rewrite length_app, length_drop. lia. }
    unfold len. split_and!; [lia|lia|lia|by rewrite law_limit_data|by intros; rewrite law_data_globals].
Qed.

(** Global by global: a mutable one that exists gets its value, all others stay. *)
Lemma restore_globals_frame s gs s' :
  restore_globals s gs = Ok s' →
  memory_data s' = memory_data s ∧ memory_limit s' = memory_limit s
  ∧ ∀ n, (n ∉ gs_name <$> gs → get_global s' n = get_global s n)
       ∧ (get_global s n = None ↔ get_global s' n = None).
Proof.
  revert s. induction gs as [|g gs IH]; intros s; cbn [restore_globals]; [naive_solver|].
  assert (restore_globals s gs = Ok s' →
    memory_data s' = memory_data s ∧ memory_limit s' = memory_limit s
    ∧ ∀ n, (n ∉ gs_name <$> g :: gs → get_global s' n = get_global s n)
         ∧ (get_global s n = None ↔ get_global s' n = None)) as Hskip.
  { intros (? & ? & Hg)%IH. split_and!; [done..|]. intros n. destruct (Hg n). split; [|done].
    cbn. rewrite not_elem_of_cons. naive_solver. }
  destruct (gs_mutable g); cbn [negb]; [|done]. destruct (get_global s _) as [mv|] eqn:Eg; [|done].
  destruct (set_global s _ _) as [s1|] eqn:Es; [|done]. intros (Hm & Hl & Hg)%IH.
  rewrite Hm, Hl, (law_set_memory _ _ _ _ Es), (law_limit_global _ _ _ _ Es). split_and!; [done..|]. intros n.
  destruct (Hg n) as [Hn Hnone]. split.
  - cbn. rewrite not_elem_of_cons. intros [Hne Hin]. rewrite Hn by done. by apply (law_set_other _ _ _ _ _ Es).
  - rewrite <- Hnone. destruct (decide (n = gs_name g)) as [->|Hne].
    + rewrite (law_set_same _ _ _ _ Es), Eg. by destruct mv.
    + by rewrite (law_set_other _ _ _ _ _ Es).
Qed.

Lemma restore_globals_spec s gs s' g :
  restore_globals s gs = Ok s' → NoDup (gs_name <$> gs) → g ∈ gs → g.(gs_mutable) = true →
  ∀ mv, get_global s g.(gs_name) = Some mv → get_global s' g.(gs_name) = Some (mv.1, val_of g.(gs_value)).
Proof.
  revert s. induction gs as [|g0 gs IH]; intros s; [by intros _ _ []%elem_of_nil|]. cbn [restore_globals fmap list_fmap].
  intros Hr [Hnin Hnd]%NoDup_cons [->|Hin]%elem_of_cons Hmut mv Hg.
  - rewrite Hmut, Hg in Hr. cbn in Hr. destruct (set_global s _ _) as [s1|] eqn:Es; [|done].
    destruct (restore_globals_frame _ _ _ Hr) as (_ & _ & Hfr). destruct (Hfr (gs_name g0)) as [Hsame _].
    rewrite Hsame, (law_set_same _ _ _ _ Es), Hg by done. by destruct mv.
  - assert (gs_name g ≠ gs_name g0) as Hne by (intros Heq; apply Hnin; rewrite <- Heq; by apply list_elem_of_fmap_2).
    destruct (gs_mutable g0); cbn [negb] in Hr; [|by eapply IH].
    destruct (get_global s (gs_name g0)); [|by eapply IH]. destruct (set_global s _ _) as [s1|] eqn:Es; [|done].
    eapply IH; [done..|]. by rewrite (law_set_other _ _ _ _ _ Es).
Qed.

(** What seeding promises: the memory is the snapshot's, over what the fresh instance had
    beyond it, and the mutable globals have the snapshot's values. *)
Record seeded (s0 s : Store) (r : RestoredExecutionState) : Prop := {
  sd_memory data0 : memory_data s0 = Some data0 →
    ∃ k, memory_data s = Some (r.(restored_memory) ++ drop (length r.(restored_memory)) (data0 ++ replicate k x00))
      ∧ len r.(restored_memory) ≤ len data0 + Z.of_nat k < Z.max (len r.(restored_memory)) (len data0) + 65536
      ∧ ((len r.(restored_memory) - len data0) mod 65536 = 0 →
         len data0 + Z.of_nat k = Z.max (len r.(restored_memory)) (len data0));
  sd_no_memory : memory_data s0 = None → memory_data s = None;
  sd_global g mv : NoDup (gs_name <$> r.(restored_state).(captured_globals)) →
    g ∈ r.(restored_state).(captured_globals) → g.(gs_mutable) = true →
    get_global s0 g.(gs_name) = Some mv → get_global s g.(gs_name) = Some (mv.1, val_of g.(gs_value));
  sd_other n : n ∉ gs_name <$> r.(restored_state).(captured_globals) → get_global s n = get_global s0 n;
}.

Lemma seed_spec s0 restored s :
  seed s0 restored = Some (Ok s) →
  memory_limit s = memory_limit s0 ∧ match restored with None => s = s0 | Some r => seeded s0 s r end.
Proof.
  unfold seed. destruct restored as [r|]; [|by intros [= <-]]. intros H.
  assert (∃ s1, memory_limit s1 = memory_limit s0 ∧ (∀ n, get_global s1 n = get_global s0 n)
    ∧ (memory_data s0 = None → memory_data s1 = None)
    ∧ (∀ data0, memory_data s0 = Some data0 → restore_memory s0 data0 (restored_memory r) = Some (Ok s1))
    ∧ restore_globals s1 (captured_globals (restored_state r)) = Ok s) as (s1 & Hl & Hg & Hnone & Hsome & Hr).
  { destruct (memory_data s0) as [data0|] eqn:Em.
    - destruct (restore_memory _ _ _) as [[s1|]|] eqn:Erm; try done. cbn in H.
      destruct (restore_memory_spec _ _ _ _ Em Erm) as (k & _ & _ & _ & Hl & Hg).
      destruct (restore_globals _ _) eqn:Er; [|done]. simplify_eq/=. exists s1. naive_solver.
    - cbn in H. destruct (restore_globals _ _) eqn:Er; [|done]. simplify_eq/=. exists s0. naive_solver. }
  destruct (restore_globals_frame _ _ _ Hr) as (Hm & Hl' & Hfr). split; [congruence|]. split.
  - intros data0 Hd. destruct (restore_memory_spec _ _ _ _ Hd (Hsome _ Hd)) as (k & Hk & Hb & Hp & _).
    exists k. by rewrite Hm.
  - intros Hn. rewrite Hm. auto.
  - intros g mv Hnd Hin Hmut Hget. eapply restore_globals_spec; [done..|]. by rewrite Hg.
  - intros n Hn. rewrite (proj1 (Hfr n) Hn). apply Hg.
Qed.

(** The memory after the input was written over [before]. *)
Record input_written (input before now : list byte) : Prop := {
  iw_length : length now = length before;
  iw_header : le_value (take 4 now) = wrap32 (len input);
  iw_data : take (length input) (drop 4 now) = input;
  iw_rest : drop (4 + length input) now = drop (4 + length input) before;
}.

Lemma write_input_spec s input :
  memory_limit (write_input s input) = memory_limit s
  ∧ (∀ n, get_global (write_input s input) n = get_global s n)
  ∧ match memory_data s with
    | None => memory_data (write_input s input) = None
    | Some before => ∃ now, memory_data (write_input s input) = Some now ∧
        if bool_decide (input ≠ [] ∧ (4 + length input ≤ length before)%nat)
        then input_written input before now else now = before
    end.
Proof.
  unfold write_input. destruct input as [|b input].
  { split_and!; [done..|]. destruct (memory_data s) as [before|]; [|done]. exists before. split; [done|].
    rewrite bool_decide_false by naive_solver. done. }
  set (inp := b :: input). destruct (memory_data s) as [before|] eqn:Em; [|by split_and!].
  destruct (4 + length inp <=? length before)%nat eqn:E; [apply Nat.leb_le in E|apply Nat.leb_gt in E].
  - split; [by rewrite law_limit_data|]. split; [intros; by rewrite law_data_globals|].
    assert (length (le_bytes 4 (wrap32 (len inp))) = 4%nat) as H4 by apply le_bytes_length.
    eexists. split; [eapply law_data; [done|]|].
    { rewrite !length_app, H4, length_drop. lia. }
    rewrite bool_decide_true by done. split.
    + rewrite !length_app, H4, length_drop. lia.
    + rewrite take_app_le, take_ge by lia. apply le_value_bytes. change (256 ^ Z.of_nat 4) with 4294967296.
      pose proof (wrap32_range (len inp)). unfold is_u32, U32_MAX in *. lia.
    + rewrite drop_app_le, drop_ge, app_nil_l by lia. rewrite take_app_le, take_ge by lia. done.
    + rewrite drop_app_ge, H4 by lia. rewrite drop_app_ge by lia.
      by replace (4 + length inp - 4 - length inp)%nat with 0%nat by lia.
  - split_and!; [done..|]. exists before. split; [done|]. rewrite bool_decide_false by lia. done.
Qed.

(** The pre-call memory, of an instance that is ready or of a reply without a call, is
    within the limit. *)
Definition pre_call_of (p : Prepared) : option (list byte) :=
  match p with Ready _ pre _ => pre | Unready r => r.(rp_memory) end.
Lemma prepare_bounded cfg ticks m input restored entry p mem :
  prepare cfg ticks m input restored entry = Some p → pre_call_of p = Some mem → len mem ≤ max_memory_bytes cfg.
Proof.
  unfold prepare. destruct (set_fuel _ _) as [st|] eqn:Ef; [|by intros [= <-]].
  destruct (instantiate st m) as [s0|] eqn:Ei; [|by intros [= <-]].
  destruct (seed s0 restored) as [[s1|]|] eqn:Es; [|by intros [= <-]|done]. cbn. destruct (seed_spec _ _ _ Es) as [Hl _].
  assert (memory_limit s1 = max_memory_bytes cfg) as Hlim.
  { by rewrite Hl, (law_limit_instantiate _ _ _ Ei), (law_limit_fuel _ _ _ Ef), law_limit_new. }
  destruct (resolve _ entry); intros [= <-]; cbn; rewrite <- Hlim; apply law_limit.
Qed.
Lemma worker_bounded cfg tm ticks m input restored entry r mem :
  worker cfg tm ticks m input restored entry = Some r → r.(rp_memory) = Some mem → len mem ≤ max_memory_bytes cfg.
Proof.
  unfold worker. destruct (prepare _ _ _ _ _ _) as [p|] eqn:Ep; [|done]. cbn. pose proof (prepare_bounded _ _ _ _ _ _ _ mem Ep).
  destruct p as [s pre f|r']; [destruct (call_func s f)|]; intros [= <-]; done.
Qed.

Lemma resolve_spec s entry f :
  resolve s entry = Some f → has_func s f = true ∧ (f = entry ∨ entry = "_start" ∧ f = "main").
Proof. unfold resolve. intros H. repeat case_match; simplify_eq; auto. Qed.

(** C14: the entry point is called on a prepared instance.  When [prepare] hands over an
    instance, the function is the requested one, or ["main"] for ["_start"]; a snapshot has
    been restored into memory and mutable globals, the pre-call memory that the hypervisor
    will snapshot is the instance's memory before the input, within the configured limit,
    and the guest finds its input as a length header followed by the data when it is not
    empty and fits, and the memory unchanged otherwise. *)
Theorem guest_starts_prepared (cfg : SandboxConfig) (ticks : Z) (m : Compiled) (input : list byte)
    (restored : option RestoredExecutionState) (entry : string) (s : Store) (pre : option (list byte)) (f : string) :
  prepare cfg ticks m input restored entry = Some (Ready s pre f) →
  has_func s f = true ∧ (f = entry ∨ entry = "_start" ∧ f = "main")
  ∧ (∃ s0 s1, (∃ st, instantiate st m = Ok s0) ∧ pre = memory_data s1
      ∧ (∀ n, get_global s n = get_global s1 n)
      ∧ match restored with None => s1 = s0 | Some r => seeded s0 s1 r end)
  ∧ match pre with
    | None => memory_data s = None
    | Some before => len before ≤ max_memory_bytes cfg
        ∧ ∃ now, memory_data s = Some now ∧
            if bool_decide (input ≠ [] ∧ (4 + length input ≤ length before)%nat)
            then input_written input before now else now = before
    end.
Proof.
  intros Hp. pose proof (prepare_bounded _ _ _ _ _ _ _ (default [] pre) Hp) as Hb. revert Hp.
  unfold prepare. destruct (set_fuel _ _) as [st|]; [|done]. destruct (instantiate st m) as [s0|] eqn:Ei; [|done].
  destruct (seed s0 restored) as [[s1|]|] eqn:Es; [|done..]. cbn. destruct (resolve _ entry) as [f'|] eqn:Er; [|done].
  intros [= <- <- <-]. destruct (seed_spec _ _ _ Es) as [Hl Hseed].
  destruct (resolve_spec _ _ _ Er) as [Hf Hent]. destruct (write_input_spec s1 input) as (_ & Hg & Hw).
  split; [done|]. split; [done|]. split; [exists s0, s1; eauto 10|].
  destruct (memory_data s1) as [before|] eqn:Em; [|done]. split; [|done].
  by apply Hb.
Qed.

(** ** The answers of the sandbox *)

(** What holds of every failure mode that a run of [cfg] reports. *)
Definition mode_of_config (cfg : SandboxConfig) (m : FailureMode) : Prop :=
  match m with
  | FFuelExhausted limit => limit = cfg.(max_fuel)
  | FTimeout limit _ => limit = duration_millis cfg.(time_limit)
  | _ => True
  end.

Record reply_ok (cfg : SandboxConfig) (r : Reply) : Prop := {
  ry_mode m : r.(rp_failure) = Some m → mode_of_config cfg m;
  ry_fuel : 0 ≤ r.(rp_fuel) ≤ cfg.(max_fuel);
  ry_stack : r.(rp_failure) = None → r.(rp_stack) = None;
}.
Record result_ok (cfg : SandboxConfig) (r : ExecutionResult) : Prop := {
  ro_verdict : r.(success) = bool_decide (r.(xr_failure_mode) = None);
  ro_error : r.(xr_error) = describe <$> r.(xr_failure_mode);
  ro_value : r.(xr_return_value) = if r.(success) then Some [] else None;
  ro_fuel : 0 ≤ r.(xr_fuel_consumed) ≤ cfg.(max_fuel);
  ro_mode m : r.(xr_failure_mode) = Some m → mode_of_config cfg m;
  ro_state : r.(success) = true → is_Some r.(xr_post_call_globals) ∧ is_Some r.(xr_post_call_tables);
  ro_stack : r.(success) = true → r.(xr_call_stack) = None;
  ro_syscalls : r.(syscall_count) = 0;
}.

Lemma trap_mode_timeless (cfg : SandboxConfig) t : t ≠ OutOfFuel → mode_of_config cfg (from_wasmtime_trap t).
Proof using Type. by destruct t. Qed.
Lemma anyhow_mode (e : WasmtimeError) m : from_anyhow_error e = Some m → ∃ t, m = from_wasmtime_trap t.
Proof using Type.
  unfold from_anyhow_error. destruct (err_trap e) as [t|]; [intros [= <-]; eauto|].
  induction (err_chain e) as [|[t|] chain IH]; cbn; [done|intros [= <-]; eauto|done].
Qed.
Lemma mode_of_error_ok cfg prefix el e : mode_of_config cfg (mode_of_error cfg prefix el e).
Proof using Type.
  unfold mode_of_error. case_match; [done|]. destruct (from_anyhow_error _) as [m|] eqn:Em; [|done].
  apply anyhow_mode in Em as [t ->]. by destruct t.
Qed.

Lemma fuel_used_bounds limit s : 0 ≤ limit → 0 ≤ fuel_used limit s ≤ limit.
Proof. intros H. unfold fuel_used, saturating_sub. destruct (get_fuel s) eqn:E; cbn; [pose proof (law_fuel _ _ E)|]; lia. Qed.

Lemma failed_early_ok cfg mode mem : 0 ≤ cfg.(max_fuel) → mode_of_config cfg mode → reply_ok cfg (failed_early mode mem).
Proof using Type. intros ??. split; cbn; [by intros ? [= <-]|lia|done]. Qed.

Lemma prepare_unready cfg ticks m input restored entry r :
  0 ≤ cfg.(max_fuel) → prepare cfg ticks m input restored entry = Some (Unready r) → reply_ok cfg r.
Proof using Type.
  intros Hf. unfold prepare, seed. intros H.
  repeat (case_match || (progress simplify_option_eq)); try done; try by apply failed_early_ok.
  all: unfold result_map_err in *; repeat case_match; simplify_eq; by apply failed_early_ok.
Qed.

Lemma worker_ok cfg tm ticks m input restored entry r :
  0 ≤ cfg.(max_fuel) → worker cfg tm ticks m input restored entry = Some r → reply_ok cfg r.
Proof.
  intros Hf. unfold worker. destruct (prepare _ _ _ _ _ _) as [[s pre f|r']|] eqn:Ep; [|by intros [= <-]; eapply prepare_unready|done].
  cbn. destruct (call_func s f) as [s' [e|]]; intros [= <-]; split; cbn; try by apply fuel_used_bounds.
  - intros mode [= <-]. apply mode_of_error_ok.
  - done.
  - done.
  - done.
Qed.

Lemma wasi_context_error `{!WasmtimeWasi} c mode : wasi_context c = Err mode → ∃ e, mode = HostError e.
Proof using Type.
  unfold wasi_context. match goal with |- fold_left ?f _ (Ok ?c0) = _ → _ =>
    assert (∀ acc, (∀ m, acc = Err m → ∃ e, m = HostError e) → fold_left f (preopens c) acc = Err mode → ∃ e, mode = HostError e) as IH end.
  { induction (preopens c) as [|p ps IH]; cbn; intros acc Ha; [apply Ha|]. apply IH. intros m.
    destruct acc as [ctx|m']; cbn; [|by intros [= <-]; apply Ha]. destruct (ctx_preopen ctx p); cbn; [done|].
    intros [= <-]. by eexists. }
  by apply IH.
Qed.

Lemma wasi_worker_ok `{!WasmtimeWasi} cfg tm ticks m input wasi :
  0 ≤ cfg.(max_fuel) → reply_ok cfg (wasi_worker cfg tm ticks m input wasi).
Proof.
  intros Hf. unfold wasi_worker. destruct (wasi_context wasi) as [ctx|mode] eqn:Ec.
  2:{ apply failed_early_ok; [done|]. by apply wasi_context_error in Ec as [e ->]. }
  repeat (case_match; try by apply failed_early_ok). split; cbn; [|by apply fuel_used_bounds|done].
  intros mode H'. unfold wasi_failure in H'. simplify_option_eq. case_match; [done|]. simplify_eq. apply mode_of_error_ok.
Qed.

Lemma supervise_ok cfg e deadline tm reply lost :
  0 ≤ cfg.(max_fuel) → (∀ r, reply = Some r → reply_ok cfg r) →
  ∃ e' r, supervise cfg e deadline tm reply lost = Some (e', r) ∧ result_ok cfg r
    ∧ e'.(next_deadline) = e.(next_deadline) ∧ e'.(current) ≤ Z.max e.(current) deadline.
Proof using Type.
  intros Hf Hr. unfold supervise.
  assert (∀ mode duration, mode_of_config cfg mode → result_ok cfg (failure_from_mode mode 0 duration)) as Hfail.
  { intros mode duration Hm. split; cbn; try done; first [lia|by intros ? [= <-]]. }
  destruct (received tm).
  - destruct reply as [r|]; [|by eexists _, _; split_and!; [done|apply Hfail|done|lia]].
    specialize (Hr _ eq_refl). eexists _, _. split_and!; [done| |done|lia].
    destruct Hr as [Hmode Hfuel Hst]. unfold result_of_reply. destruct (rp_failure r) as [mode|] eqn:Em;
      split; cbn; eauto; try done; intros ? [= <-]; auto.
  - rewrite advance_to_spec. cbn. eexists _, _. split_and!; [done|by apply Hfail|done|cbn; lia].
  - by eexists _, _; split_and!; [done|apply Hfail|done|lia].
Qed.

(** A result's memory is the reply's. *)
Lemma supervise_memory cfg e deadline tm reply lost e' r mem :
  supervise cfg e deadline tm reply lost = Some (e', r) → r.(xr_pre_call_memory) = Some mem →
  ∃ rp, reply = Some rp ∧ rp.(rp_memory) = Some mem.
Proof using Type.
  unfold supervise. rewrite advance_to_spec. cbn. intros H Hm.
  repeat case_match; simplify_eq/=; try done. eexists. split; [done|].
  revert Hm. unfold result_of_reply. by case_match.
Qed.
Lemma execute_module_bounded sb tm m args restored entry sb' r mem :
  execute_module_inner sb tm m args restored entry = Some (sb', r) → r.(xr_pre_call_memory) = Some mem →
  len mem ≤ max_memory_bytes sb.(sb_config).
Proof.
  unfold execute_module_inner. destruct (reserve_deadline _ _) as [[e d]|]; [|done]. cbn.
  destruct (supervise _ _ _ _ _ _) as [[e' r']|] eqn:Es; [|done]. cbn. intros [= <- <-] Hm.
  destruct (supervise_memory _ _ _ _ _ _ _ _ _ Es Hm) as (rp & Hw & Hrp). by eapply worker_bounded.
Qed.

(** The clock of a sandbox that can still hand out a deadline. *)
Definition clock_ok (sb : WasmSandbox) : Prop :=
  sb.(sb_epoch).(current) < sb.(sb_epoch).(next_deadline)
  ∧ 0 ≤ sb.(sb_epoch).(next_deadline) ≤ U64_MAX - epoch_ticks_for_time_limit sb.(sb_config).(time_limit).
Definition answers_well (sb : WasmSandbox) (out : option (WasmSandbox * ExecutionResult)) : Prop :=
  ∃ sb' r, out = Some (sb', r) ∧ result_ok sb.(sb_config) r ∧ sb'.(sb_config) = sb.(sb_config)
    ∧ sb'.(sb_epoch).(current) < sb'.(sb_epoch).(next_deadline)
    ∧ sb.(sb_epoch).(next_deadline) ≤ sb'.(sb_epoch).(next_deadline)
        ≤ sb.(sb_epoch).(next_deadline) + epoch_ticks_for_time_limit sb.(sb_config).(time_limit).

Lemma supervised_answer sb tm lost (reply : Z → option Reply) :
  0 ≤ sb.(sb_config).(max_fuel) → clock_ok sb → (∀ ticks r, reply ticks = Some r → reply_ok sb.(sb_config) r) →
  answers_well sb
    ('(e, deadline) ← reserve_deadline sb.(sb_epoch) sb.(sb_config).(time_limit);
     '(e, r) ← supervise sb.(sb_config) e deadline tm (reply (relative_ticks_until e deadline)) lost;
     Some ({| sb_config := sb.(sb_config); sb_epoch := e |}, r)).
Proof using Type.
  intros Hf [Hc Hn] Hr. rewrite (reserve_alone _ _ Hc). cbn.
  pose proof (ticks_positive (time_limit (sb_config sb))).
  rewrite wrap64_small by (unfold is_u64; lia).
  match goal with |- context [supervise _ ?e ?d _ ?rep _] =>
    destruct (supervise_ok (sb_config sb) e d tm rep lost Hf) as (e' & r & -> & Hok & Hnext & Hcur); [by eauto|] end.
  cbn in *. eexists _, _. split; [done|]. split; [done|]. split; [done|]. cbn. lia.
Qed.

(** C15: a sandbox always answers, and its answers make sense.  While its clock can hand out
    a deadline, every execution, from bytes, on a restored state or with WASI, returns,
    whatever the guest and the machine do; the result is a success exactly when it has no
    failure mode, the error is the description of the mode, the fuel is within the limit, a
    fuel or time limit it reports is the configured one, only failures carry a call stack;
    and the clock has moved by at most one time limit and can hand out the next deadline. *)
Theorem sandbox_answers `{!WasmtimeWasi} (sb : WasmSandbox) (tm : Timing) (wasm_bytes : list byte)
    (args : list (list byte)) (restored : option RestoredExecutionState) (entry : string) (wasi : WasiSandboxConfig) :
  0 ≤ sb.(sb_config).(max_fuel) → clock_ok sb →
  answers_well sb (execute_bytes sb tm wasm_bytes args restored entry)
  ∧ answers_well sb (execute_wasi sb tm wasm_bytes args wasi).
Proof.
  intros Hf Hc. unfold execute_bytes, execute_wasi. destruct (from_binary wasm_bytes) as [m|e].
  - split.
    + apply (supervised_answer sb tm _ (λ ticks, worker _ tm ticks m _ restored entry)); [done..|].
      intros ticks r. by eapply worker_ok.
    + apply (supervised_answer sb tm _ (λ ticks, Some (wasi_worker _ tm ticks m _ wasi))); [done..|].
      intros ticks r [= <-]. by apply wasi_worker_ok.
  - assert (answers_well sb (Some (sb, failure_from_mode (InvalidModule e) 0 (millis (compile_elapsed tm))))) as Hbad.
    { pose proof (ticks_positive (time_limit (sb_config sb))). destruct Hc as [? ?]. eexists _, _. split; [done|].
      split; [|split; [done|lia]]. split; cbn; try done; first [lia|by intros ? [= <-]]. }
    done.
Qed.

End Theorems.

(** ** A concrete wasmtime *)

Module ToyWasm.
(** A guest is its memory size, its globals and what each function does. *)
Record Guest := {
  size : nat;
  guest_globals : list (string * (bool * Val));
  funcs : list (string * option GuestError);
}.
Record Instance_ := { limit : Z; fuel : Z; mem : option (list byte); globals : list (string * (bool * Val));
                      code : list (string * option GuestError) }.
Definition data (s : Instance_) : option (list byte) :=
  d ← s.(mem); if len d <=? s.(limit) then Some d else None.
Definition with_mem (s : Instance_) (d : option (list byte)) : Instance_ :=
  {| limit := s.(limit); fuel := s.(fuel); mem := d; globals := s.(globals); code := s.(code) |}.
Definition with_globals (s : Instance_) (g : list (string * (bool * Val))) : Instance_ :=
  {| limit := s.(limit); fuel := s.(fuel); mem := s.(mem); globals := g; code := s.(code) |}.
Definition with_fuel (s : Instance_) (n : Z) : Instance_ :=
  {| limit := s.(limit); fuel := n; mem := s.(mem); globals := s.(globals); code := s.(code) |}.
Definition grow (s : Instance_) (n : Z) : result Instance_ string :=
  match data s with
  | Some d =>
      let d := d ++ replicate (Z.to_nat (n * 65536)) x00 in
      if len d <=? s.(limit) then Ok (with_mem s (Some d)) else Err "limit"
  | None => Err "no memory"
  end.
Definition lookup_global (s : Instance_) (n : string) : option (bool * Val) :=
  (list_to_map s.(globals) : gmap string (bool * Val)) !! n.
Definition update (s : Instance_) (n : string) (v : Val) : result Instance_ string :=
  match lookup_global s n with
  | Some (true, _) => Ok (with_globals s ((n, (true, v)) :: s.(globals)))
  | _ => Err "immutable"
  end.

Definition crashed : GuestError :=
  {| ge_error := {| err_trap := None; err_chain := [Some UnreachableCodeReached]; err_text := "trap" |};
     ge_text := "error while executing at wasm backtrace: 0: 0x1 - m!exit status 0: wasm trap: unreachable";
     ge_backtrace := None |}.
Definition module_of (bytes : list byte) : result Guest string :=
  match bytes with
  | [] => Err "empty module"
  | _ => Ok {| size := 8; guest_globals := [("counter", (true, VI32 0))];
               funcs := [("main", None); ("crash", Some crashed)] |}
  end.

#[export] Instance wasmtime : Wasmtime := {|
  Compiled := Guest; Store := Instance_;
  from_binary := module_of;
  store_new l _ := {| limit := l; fuel := 0; mem := None; globals := []; code := [] |};
  set_fuel s n := Ok (with_fuel s n);
  get_fuel s := Some (Z.max 0 s.(fuel));
  instantiate s m := Ok {| limit := s.(limit); fuel := s.(fuel); mem := Some (replicate m.(size) x00);
                           globals := m.(guest_globals); code := m.(funcs) |};
  memory_data := data;
  set_data s d := with_mem s (Some d);
  memory_grow := grow;
  global_names s := fst <$> s.(globals);
  get_global := lookup_global;
  set_global := update;
  table_names _ := [];
  table_size _ _ := None;
  has_func s f := bool_decide (f ∈ fst <$> s.(code));
  call_func s f := (with_fuel s (s.(fuel) - 7), default None ((list_to_map s.(code) : gmap string (option GuestError)) !! f));
|}.
#[export] Program Instance wasmtime_laws : WasmtimeLaws wasmtime := {| memory_limit := limit |}.
Next Obligation.
  intros s d d'. cbn. unfold data, len. cbn. destruct (mem s); cbn; [|done]. case_match eqn:E; [|done].
  intros [= ->] Hl. by rewrite Hl, E.
Qed.
Next Obligation. done. Qed.
Next Obligation.
  intros s n s' d. cbn. unfold grow. destruct (data s) as [d0|] eqn:Ed; [|done]. case_match eqn:E; [|done].
  intros [= <-] [= ->]. unfold data. cbn. by rewrite E.
Qed.
Next Obligation. intros s n s' g. cbn. unfold grow. repeat case_match; by intros [= <-]. Qed.
Next Obligation.
  intros s n v s'. cbn. unfold update. destruct (lookup_global s n) as [[[] v0]|] eqn:E; try done. intros [= <-].
  unfold lookup_global. cbn. by rewrite lookup_insert_eq.
Qed.
Next Obligation.
  intros s n v s' n'. cbn. unfold update. destruct (lookup_global s n) as [[[] v0]|] eqn:E; try done. intros [= <-] Hne.
  unfold lookup_global. cbn. by rewrite lookup_insert_ne.
Qed.
Next Obligation. intros s n v s'. cbn. unfold update. repeat case_match; by intros [= <-]. Qed.
Next Obligation. intros s n. cbn. intros [= <-]. lia. Qed.
Next Obligation. done. Qed.
Next Obligation. by intros s n s' [= <-]. Qed.
Next Obligation. by intros s m s' [= <-]. Qed.
Next Obligation. done. Qed.
Next Obligation. intros s n s'. cbn. unfold grow. repeat case_match; by intros [= <-]. Qed.
Next Obligation. intros s n v s'. cbn. unfold update. repeat case_match; by intros [= <-]. Qed.
Next Obligation. intros s d. cbn. unfold data. destruct (mem s); cbn; [|done]. case_match; [|done]. intros [= <-]. lia. Qed.

#[export] Instance wasi : WasmtimeWasi := {|
  WasiCtx := unit; ctx_new := (); ctx_inherit_stdout c := c; ctx_inherit_stderr c := c; ctx_env c _ _ := c;
  ctx_arg c _ := c; ctx_preopen c _ := Ok c; wasi_store_new _ := store_new; add_to_linker := Ok ();
  wasi_instantiate s m := instantiate s m;
|}.

Definition timing : Timing :=
  {| received := Delivered; compile_elapsed := 0; wait_elapsed := 3000000; join_elapsed := 0; trap_elapsed := 0 |}.
Definition restored : RestoredExecutionState :=
  {| restored_memory := [x07; x07]; restored_state :=
       {| captured_globals := [{| gs_name := "counter"; gs_value := I32 9; gs_mutable := true |}]; captured_tables := [] |} |}.
Definition guest : Guest := {| size := 8; guest_globals := [("counter", (true, VI32 0))]; funcs := [("main", None); ("_start", Some crashed)] |}.
(** What the guest sees: its memory and its counter. *)
Definition sees (p : option Prepared) : option (option (list byte) * option (bool * Val) * string) :=
  match p with Some (Ready s _ f) => Some (data s, lookup_global s "counter", f) | _ => None end.
End ToyWasm.
#[local] Existing Instances ToyWasm.wasmtime ToyWasm.wasmtime_laws ToyWasm.wasi.

(** A trap in a function that is named ["exit status 0"], or any other error whose text has
    these words, is a success to the WASI worker. *)
Lemma wasi_trap_taken_for_exit :
  let r := wasi_worker SandboxConfig_default ToyWasm.timing 1 ToyWasm.guest []
             {| preopens := []; inherit_stdout := false; inherit_stderr := false; env_vars := []; args := [] |} in
  from_anyhow_error ToyWasm.crashed.(ge_error) = Some TrapUnreachable
  ∧ r.(rp_failure) = None.
Proof. split; vm_compute; reflexivity. Qed.

Lemma guest_starts_prepared_witness :
  ∃ s pre, prepare (W := ToyWasm.wasmtime) SandboxConfig_default 1 ToyWasm.guest [x05] (Some ToyWasm.restored) "main" = Some (Ready s pre "main")
    ∧ pre = Some ([x07; x07] ++ replicate 6 x00)
    ∧ ∃ now, ToyWasm.data s = Some now ∧ take 1 (drop 4 now) = [x05].
Proof.
  destruct (prepare (W := ToyWasm.wasmtime) SandboxConfig_default 1 ToyWasm.guest [x05] (Some ToyWasm.restored) "main") as [[s pre f|r]|] eqn:E;
    [|vm_compute in E; discriminate E..].
  destruct (guest_starts_prepared _ _ _ _ _ _ _ _ _ E) as (_ & Hf & _ & Hpre).
  assert (pre = Some ([x07; x07] ++ replicate 6 x00)) as -> by (vm_compute in E; injection E as _ <- _; reflexivity).
  assert (f = "main") as -> by (destruct Hf as [Hf|[Hf _]]; [exact Hf|discriminate Hf]).
  eexists _, _. split; [reflexivity|]. split; [reflexivity|]. destruct Hpre as (_ & now & Hnow & Hin).
  exists now. split; [exact Hnow|]. exact (iw_data _ _ _ Hin).
Defined.

Lemma sandbox_answers_witness :
  ∃ sb r, execute_bytes (sandbox_new SandboxConfig_default) ToyWasm.timing [x01] [] None "crash" = Some (sb, r)
    ∧ r.(success) = false ∧ r.(xr_error) = describe <$> r.(xr_failure_mode).
Proof.
  destruct (sandbox_answers (sandbox_new SandboxConfig_default) ToyWasm.timing [x01] [] None "crash"
    {| preopens := []; inherit_stdout := false; inherit_stderr := false; env_vars := []; args := [] |})
    as [(sb & r & Hex & Hok & _) _]; [vm_compute; discriminate|repeat split; vm_compute; congruence|].
  exists sb, r. split; [exact Hex|]. split; [|exact (ro_error _ _ Hok)].
  assert ((success ∘ snd) <$> execute_bytes (sandbox_new SandboxConfig_default) ToyWasm.timing [x01] [] None "crash" = Some false)
    as Hf by (vm_compute; reflexivity).
  rewrite Hex in Hf. injection Hf as Hf. exact Hf.
Defined.
