(* ===== verification/SandboxPool.v ===== *)
(** * The sandbox pool, and the sandbox as the hypervisor's guest

    [src/sandbox/pool.rs] and [src/sandbox/wasm_memory.rs].  A permit of the semaphore is
    held from before the module is loaded until the execution is over; a pooled execution
    is a sequence of atomic steps ([pool_step]) among those of other requests, or, with no
    other request in between and its worker stopping in time, the function
    [execute_pooled_with_entry].  The semaphore is never closed and tokio's blocking task
    does not panic.

    [sandbox_guest] is the implementation of [Execution.Guest] by the sandbox and the pool. *)

From S2P Require Import Prelude Errors Compression Snapshot Differential SnapshotManager Digest UrlGuard Capability Tokens.
From S2P Require Import Fuel ModuleCache Failure Telemetry Instinct Execution Epoch Sandbox.

(** ** Captured memory *)

Definition WASM_PAGE : nat := Z.to_nat 65536.
Record WasmMemoryState := { pages : list (list byte); page_count : Z; size_bytes : nat }.
Definition memory_empty : WasmMemoryState := {| pages := []; page_count := 0; size_bytes := 0 |}.
Definition from_bytes (bytes : list byte) : WasmMemoryState :=
  {| pages := chunks WASM_PAGE bytes; page_count := wrap32 (div_ceil (len bytes) 65536); size_bytes := length bytes |}.
Definition total_size (m : WasmMemoryState) : nat := sum_list (length <$> m.(pages)).
Definition as_bytes (m : WasmMemoryState) : list byte := concat m.(pages).
Definition compression_info (m : WasmMemoryState) : nat * nat := (m.(size_bytes), total_size m).

(** ** The pool *)

Record PoolConfig := {
  max_concurrency : Z;
  max_cached_modules : nat;
  total_instances : Z;
  pool_max_memory_bytes : Z;
  table_elements : Z;
  pool_sandbox_config : SandboxConfig;
}.
Definition PoolConfig_default : PoolConfig :=
  {| max_concurrency := 16; max_cached_modules := 256; total_instances := 100;
     pool_max_memory_bytes := 32 * 1024 * 1024; table_elements := 10000; pool_sandbox_config := SandboxConfig_default |}.

Section Pool.
Context `{W : Wasmtime} `{Sh : Sha256Lib}.
(** Whether the engine with the pooling allocator can be built. *)
Variable build_pooled_engine : PoolConfig → result unit string.

(** A holder has a permit and, once it is loaded, its module.  [lingering] counts the workers
    that are still running after their request gave up on them ([TIMEOUT_JOIN_GRACE]): the
    permit is back, the instance is not. *)
Record SandboxPool := {
  available : Z;
  holders : list (option Compiled);
  lingering : nat;
  sp_cache : CacheInner (Mod := Compiled);
  sp_sandbox : WasmSandbox;
  sp_config : PoolConfig;
}.
Definition with_holders (p : SandboxPool) (n : Z) (hs : list (option Compiled)) : SandboxPool :=
  {| available := n; holders := hs; lingering := p.(lingering); sp_cache := p.(sp_cache); sp_sandbox := p.(sp_sandbox); sp_config := p.(sp_config) |}.
Definition with_cache (p : SandboxPool) (c : CacheInner) : SandboxPool :=
  {| available := p.(available); holders := p.(holders); lingering := p.(lingering); sp_cache := c; sp_sandbox := p.(sp_sandbox); sp_config := p.(sp_config) |}.
Definition with_sandbox (p : SandboxPool) (sb : WasmSandbox) : SandboxPool :=
  {| available := p.(available); holders := p.(holders); lingering := p.(lingering); sp_cache := p.(sp_cache); sp_sandbox := sb;
     sp_config := p.(sp_config) |}.
Definition with_lingering (p : SandboxPool) (n : nat) : SandboxPool :=
  {| available := p.(available); holders := p.(holders); lingering := n; sp_cache := p.(sp_cache); sp_sandbox := p.(sp_sandbox);
     sp_config := p.(sp_config) |}.
(** The instances that are taken or promised to a permit. *)
Definition instances_needed (p : SandboxPool) : Z := Z.of_nat (length p.(holders)) + Z.of_nat p.(lingering).

Definition pool_new (c : PoolConfig) : result SandboxPool NexusError :=
  if c.(max_concurrency) =? 0 then Err (ConfigError (Lit "pool max_concurrency must be > 0"))
  else if (c.(max_cached_modules) =? 0)%nat then Err (ConfigError (Lit "pool max_cached_modules must be > 0"))
  else if c.(total_instances) <? wrap32 c.(max_concurrency) then
    Err (ConfigError (Fmt "pool max_concurrency ({}) must not exceed total_instances ({})"
                        [ANum c.(max_concurrency); ANum c.(total_instances)]))
  else
    let? _ := result_map_err (λ e, ConfigError (Fmt "failed to create pooled engine: {e}" [AStr e])) (build_pooled_engine c) in
    Ok {| available := c.(max_concurrency); holders := []; lingering := 0; sp_cache := with_capacity c.(max_cached_modules);
          sp_sandbox := sandbox_new c.(pool_sandbox_config); sp_config := c |}.

Definition compile (bytes : list byte) : option Compiled :=
  match from_binary bytes with Ok m => Some m | Err _ => None end.

Definition take_permit (p : SandboxPool) : option SandboxPool :=
  if 0 <? p.(available) then Some (with_holders p (p.(available) - 1) (None :: p.(holders))) else None.
(** Dropping the permit of the holder between [l1] and [l2]. *)
Definition drop_permit (p : SandboxPool) (l1 l2 : list (option Compiled)) : SandboxPool :=
  with_holders p (p.(available) + 1) (l1 ++ l2).

(** [acquire] alone; [None] is a request that waits. *)
Definition acquire (p : SandboxPool) (wasm_bytes : list byte) : option (SandboxPool * result Compiled NexusError) :=
  p ← take_permit p;
  let '(c, m) := get_or_compile compile p.(sp_cache) wasm_bytes in
  let p := with_cache p c in
  match m with
  | None => Some (drop_permit p [] (tail p.(holders)), Err (WasmError (Lit "module load failed")))
  | Some m => Some (with_holders p p.(available) (Some m :: tail p.(holders)), Ok m)
  end.

(** [execute_pooled_with_entry] and [execute_pooled_from_restored_state_with_entry]; the outer [None] is a
    request that waits. *)
Definition run_pooled (p : SandboxPool) (tm : Timing) (wasm_bytes : list byte) (args : list (list byte))
    (restored : option RestoredExecutionState) (entry : string)
  : option (SandboxPool * result ExecutionResult NexusError) :=
  '(p, m) ← acquire p wasm_bytes;
  match m with
  | Err e => Some (p, Err e)
  | Ok m =>
      '(sb, r) ← execute_module_inner p.(sp_sandbox) tm m args restored entry;
      Some (drop_permit (with_sandbox p sb) [] (tail p.(holders)), Ok r)
  end.

Definition execute_pooled_with_entry (p : SandboxPool) (tm : Timing) (wasm_bytes : list byte) (args : list (list byte))
    (entry : string) : option (SandboxPool * result ExecutionResult NexusError) := run_pooled p tm wasm_bytes args None entry.
Definition execute_pooled (p : SandboxPool) (tm : Timing) (wasm_bytes : list byte) (args : list (list byte))
  : option (SandboxPool * result ExecutionResult NexusError) := execute_pooled_with_entry p tm wasm_bytes args "_start".
Definition execute_pooled_from_restored_state_with_entry (p : SandboxPool) (tm : Timing) (wasm_bytes : list byte)
    (args : list (list byte)) (restored : RestoredExecutionState) (entry : string)
  : option (SandboxPool * result ExecutionResult NexusError) := run_pooled p tm wasm_bytes args (Some restored) entry.
Definition execute_pooled_from_restored_state (p : SandboxPool) (tm : Timing) (wasm_bytes : list byte)
    (args : list (list byte)) (restored : RestoredExecutionState) : option (SandboxPool * result ExecutionResult NexusError) :=
  execute_pooled_from_restored_state_with_entry p tm wasm_bytes args restored "_start".
(** [execute]: the permit stays with the caller. *)
Definition execute_permit (p : SandboxPool) (tm : Timing) (m : Compiled) (args : list (list byte))
  : option (SandboxPool * ExecutionResult) :=
  '(sb, r) ← execute_module p.(sp_sandbox) tm m args; Some (with_sandbox p sb, r).

Definition available_permits (p : SandboxPool) : Z := p.(available).
Definition cache_stats (p : SandboxPool) : Z * Z := (p.(sp_cache).(ModuleCache.hits), p.(sp_cache).(ModuleCache.misses)).
Definition cached_modules (p : SandboxPool) : nat := cache_len p.(sp_cache).

(** Any number of requests: one takes a permit, one is somewhere in [get_or_compile], one
    has loaded its module or failed to, one executes, one is done, one times out and leaves
    its worker running, one such worker stops at last. *)
Inductive pool_step : SandboxPool → SandboxPool → Prop :=
| ps_permit p p' : take_permit p = Some p' → pool_step p p'
| ps_cache p c : cache_step compile p.(sp_cache) c → pool_step p (with_cache p c)
| ps_hit p l1 l2 bytes m : p.(holders) = l1 ++ None :: l2 → p.(sp_cache).(cache_map) !! sha256 bytes = Some m →
    pool_step p (with_holders p p.(available) (l1 ++ Some m :: l2))
| ps_compiled p l1 l2 bytes m : p.(holders) = l1 ++ None :: l2 → compile bytes = Some m →
    pool_step p (with_holders p p.(available) (l1 ++ Some m :: l2))
| ps_failed p l1 l2 bytes : p.(holders) = l1 ++ None :: l2 → compile bytes = None → pool_step p (drop_permit p l1 l2)
| ps_execute p l1 l2 m tm args restored entry sb r : p.(holders) = l1 ++ Some m :: l2 →
    execute_module_inner p.(sp_sandbox) tm m args restored entry = Some (sb, r) → pool_step p (with_sandbox p sb)
| ps_done p l1 l2 m : p.(holders) = l1 ++ Some m :: l2 → pool_step p (drop_permit p l1 l2)
| ps_abandoned p l1 l2 m : p.(holders) = l1 ++ Some m :: l2 →
    pool_step p (with_lingering (drop_permit p l1 l2) (S p.(lingering)))
| ps_stopped p n : p.(lingering) = S n → pool_step p (with_lingering p n).
Inductive pool_reach (c : PoolConfig) : SandboxPool → Prop :=
| pr_new p : pool_new c = Ok p → pool_reach c p
| pr_step p p' : pool_reach c p → pool_step p p' → pool_reach c p'.

(** ** The sandbox as the guest of the hypervisor *)

(** What the hypervisor reads of a result. *)
Definition seen_by_hypervisor (r : ExecutionResult) : Execution.ExecutionResult :=
  {| exec_success := r.(success); return_value := r.(xr_return_value); fuel_consumed := r.(xr_fuel_consumed);
     exec_failure := r.(xr_failure_mode); pre_call_memory := r.(xr_pre_call_memory);
     post_call_globals := r.(xr_post_call_globals); post_call_tables := r.(xr_post_call_tables);
     exec_call_stack := r.(xr_call_stack) |}.
Definition with_max_fuel (c : SandboxConfig) (fuel : Z) : SandboxConfig :=
  {| max_fuel := fuel; max_memory_pages := c.(max_memory_pages); time_limit := c.(time_limit);
     module_bytes := c.(module_bytes); enable_wasi := c.(enable_wasi) |}.

(** One run, by the pool [p] or by a sandbox with configuration [cfg] and clock [e]; the
    machine decides [tm], and [modules] are the modules compiled before. *)
Variables (cfg : SandboxConfig) (e : SandboxEpoch) (p : SandboxPool) (tm : Timing) (modules : Z → Compiled).
Definition stuck : result Execution.ExecutionResult NexusError := Err (WasmError (Lit "no answer")).
Definition guest_answer (engine : Engine) (m : ModuleRef) (input : list byte)
    (restored : option RestoredExecutionState) (entry : string) : result Execution.ExecutionResult NexusError :=
  match engine, m with
  | PoolEngine, FromBytes bytes =>
      match run_pooled p tm bytes [input] restored entry with
      | Some (_, r) => let? r := r in Ok (seen_by_hypervisor r)
      | None => stuck
      end
  | PoolEngine, Precompiled _ => stuck
  | SandboxEngine fuel, _ =>
      let sb := {| sb_config := with_max_fuel cfg fuel; sb_epoch := e |} in
      match (match m with
             | FromBytes bytes => execute_bytes sb tm bytes [input] restored entry
             | Precompiled z => execute_module_inner sb tm (modules z) [input] restored entry
             end) with
      | Some (_, r) => Ok (seen_by_hypervisor r)
      | None => stuck
      end
  end.
Definition sandbox_guest : Guest := {| guest_run := guest_answer |}.
End Pool.

Section Theorems.
Context `{W : Wasmtime} `{L : !WasmtimeLaws W} `{Sh : Sha256Lib}.

(** Captured memory comes back: [as_bytes] undoes [from_bytes], the sizes add up, and
    the page count is the number of 64 KiB pages that the memory needs. *)
Theorem memory_capture_roundtrip (bytes : list byte) :
  as_bytes (from_bytes bytes) = bytes ∧ compression_info (from_bytes bytes) = (length bytes, length bytes)
  ∧ ∀ n, length bytes = (n * WASM_PAGE)%nat → Z.of_nat n ≤ U32_MAX →
      (from_bytes bytes).(page_count) = Z.of_nat n ∧ Forall (λ p, length p = WASM_PAGE) (from_bytes bytes).(pages).
Proof using Type.
  assert (Z.of_nat WASM_PAGE = 65536) as Hp by (apply Z2Nat.id; lia).
  assert (0 < WASM_PAGE)%nat as H0 by lia. pose proof (chunks_concat WASM_PAGE bytes H0) as Hc.
  split; [done|]. split.
  { unfold compression_info, total_size. cbn. f_equal. rewrite <- Hc at 2. generalize (chunks WASM_PAGE bytes).
    intros l. induction l as [|c l IH]; cbn; [done|]. rewrite length_app. lia. }
  intros n Hn Hu. split.
  - cbn. unfold len, div_ceil. rewrite Hn, Nat2Z.inj_mul, Hp.
    replace (Z.of_nat n * 65536 + 65536 - 1) with (65535 + Z.of_nat n * 65536) by lia. rewrite Z.div_add by lia.
    change (65535 / 65536) with 0. apply wrap32_small. unfold is_u32. lia.
  - cbn. apply chunks_Forall; [done|]. by exists n.
Qed.

(** ** The pool *)

Record pool_ok (c : PoolConfig) (p : SandboxPool) : Prop := {
  po_permits : p.(available) + Z.of_nat (length p.(holders)) = c.(max_concurrency);
  po_available : 0 ≤ c.(max_concurrency) → 0 ≤ p.(available);
  po_modules m : Some m ∈ p.(holders) → ∃ bytes, compile bytes = Some m;
  po_cache : cache_ok compile p.(sp_cache) ∧ p.(sp_cache).(max_entries) = c.(max_cached_modules);
}.

Lemma slots_ok_new build c p : pool_new build c = Ok p → pool_ok c p.
Proof using Type.
  unfold pool_new. intros H. repeat case_match; try done. destruct (build c); [|done]. cbn in H. injection H as <-.
  split; cbn; [lia|done|by intros m ?%elem_of_nil|]. split; [|done].
  split; cbn; [intros ? []%lookup_empty_is_Some|rewrite map_size_empty; lia|apply map_Forall_empty].
Qed.

Lemma slots_ok_step c p p' : pool_ok c p → pool_step p p' → pool_ok c p'.
Proof using Type.
  intros [Hp Ha Hm [Hc Hmax]] Hs.
  destruct Hs as [p p' Ht|p k Hk|p l1 l2 bytes m Hh Hl|p l1 l2 bytes m Hh Hl|p l1 l2 bytes Hh Hl|p l1 l2 m tm args r e sb res Hh _|p l1 l2 m Hh|p l1 l2 m Hh|p n Hn].
  - unfold take_permit in Ht. destruct (0 <? available p) eqn:E; [|done]. apply Z.ltb_lt in E. injection Ht as <-.
    split; cbn; [lia|lia|by intros m [?|?]%elem_of_cons; [|apply Hm]|done].
  - destruct (cache_step_ok _ _ _ Hc Hk) as [? Hmax']. split; [done..|]. split; [done|]. cbn. congruence.
  - rewrite Hh in *. split; cbn; [rewrite length_app in *; cbn in *; lia|done| |done].
    intros m' [Hin|[[= <-]|Hin]%elem_of_cons]%elem_of_app; [apply Hm, elem_of_app; by left| |apply Hm, elem_of_app; right; by right].
    destruct (ok_sound _ _ Hc _ _ Hl) as (b & _ & ?). by exists b.
  - rewrite Hh in *. split; cbn; [rewrite length_app in *; cbn in *; lia|done| |done].
    intros m' [Hin|[[= <-]|Hin]%elem_of_cons]%elem_of_app; [apply Hm, elem_of_app; by left| |apply Hm, elem_of_app; right; by right].
    by exists bytes.
  - rewrite Hh in *. split; cbn; [rewrite length_app in *; cbn in *; lia|lia| |done].
    intros m' [Hin|Hin]%elem_of_app; apply Hm, elem_of_app; [by left|right; by right].
  - by split.
  - rewrite Hh in *. split; cbn; [rewrite length_app in *; cbn in *; lia|lia| |done].
    intros m' [Hin|Hin]%elem_of_app; apply Hm, elem_of_app; [by left|right; by right].
  - rewrite Hh in *. split; cbn; [rewrite length_app in *; cbn in *; lia|lia| |done].
    intros m' [Hin|Hin]%elem_of_app; apply Hm, elem_of_app; [by left|right; by right].
  - by split.
Qed.

(** C17: the pool's slots.  However requests interleave, in a pool that [SandboxPool::new]
    accepted with a concurrency below 2^32: a request waits exactly while [max_concurrency]
    others are in flight, and every permit comes back when its holder is done or gives up
    on its worker; as long as the workers that outlive their request are at most the
    instances beyond [max_concurrency], there is an instance for each of them and for each
    request in flight; only compiled modules are executed; and the cache stays within its
    bound. *)
Theorem pool_slots_suffice (build : PoolConfig → result unit string) (c : PoolConfig) (p : SandboxPool) :
  pool_reach build c p → 0 ≤ c.(max_concurrency) ≤ U32_MAX →
  Z.of_nat (length p.(holders)) ≤ c.(max_concurrency) ≤ c.(total_instances)
  ∧ (Z.of_nat p.(lingering) ≤ c.(total_instances) - c.(max_concurrency) → instances_needed p ≤ c.(total_instances))
  ∧ (take_permit p = None ↔ Z.of_nat (length p.(holders)) = c.(max_concurrency))
  ∧ (p.(holders) = [] → available_permits p = c.(max_concurrency))
  ∧ (∀ m, Some m ∈ p.(holders) → ∃ bytes, compile bytes = Some m)
  ∧ (cached_modules p ≤ c.(max_cached_modules))%nat.
Proof using Type.
  intros Hr Hc.
  assert (pool_ok c p ∧ c.(max_concurrency) ≤ c.(total_instances) ∧ (0 < c.(max_cached_modules))%nat) as ([Hp Ha Hm [Hk Hmax]] & Hle & Hpos).
  { induction Hr as [p Hn|p p' _ (IH & ?) Hs]; [|by split; [eapply slots_ok_step|]].
    split; [by eapply slots_ok_new|]. revert Hn. unfold pool_new. rewrite wrap32_small by done.
    repeat case_match; try done. intros _. apply Z.ltb_ge in H1. apply Nat.eqb_neq in H0. lia. }
  specialize (Ha ltac:(lia)). split; [lia|]. split; [unfold instances_needed; lia|]. split; [|split; [|split]].
  - unfold take_permit. destruct (0 <? available p) eqn:E; [apply Z.ltb_lt in E|apply Z.ltb_ge in E]; (split; [|done || lia]); [done|lia].
  - intros Hh. rewrite Hh in Hp. cbn in Hp. unfold available_permits. lia.
  - done.
  - pose proof (ok_size _ _ Hk) as Hs. unfold capacity in Hs. unfold cached_modules, cache_len. lia.
Qed.

(** Without spare instances one worker that outlives its request is enough: its permit is
    taken again and two instances are needed where there is one. *)
Lemma abandoned_worker_keeps_instance (build : PoolConfig → result unit string) (c : PoolConfig) (bytes : list byte) (m : Compiled) :
  c.(max_concurrency) = 1 → c.(total_instances) = 1 → c.(max_cached_modules) ≠ 0%nat → build c = Ok () → compile bytes = Some m →
  ∃ p, pool_reach build c p ∧ c.(total_instances) < instances_needed p.
Proof using Type.
  intros Hc Ht Hm Hb Hcomp. assert (∃ p, pool_new build c = Ok p) as [p Hp].
  { unfold pool_new. rewrite Hc, Ht, Hb. apply Nat.eqb_neq in Hm as ->. by eexists. }
  assert (p.(available) = 1 ∧ p.(holders) = [] ∧ p.(lingering) = 0%nat) as (Ha & Hh & Hl).
  { revert Hp. unfold pool_new. rewrite Hc, Ht, Hb. apply Nat.eqb_neq in Hm as ->. cbn. by intros [= <-]. }
  destruct p as [av hs li ca sb cf]. cbn in Ha, Hh, Hl. subst av hs li.
  match type of Hp with _ = Ok ?q => set (p := q) in * end. set (p1 := with_holders p 0 [None]). set (p2 := with_holders p 0 [Some m]).
  set (p3 := with_lingering (with_holders p 1 []) 1).
  exists (with_holders p3 0 [None]). split; [|unfold instances_needed; cbn; lia].
  apply (pr_step _ _ p3); [apply (pr_step _ _ p2); [apply (pr_step _ _ p1); [apply (pr_step _ _ p); [by apply pr_new|]|]|]|].
  - by apply ps_permit.
  - by apply (ps_compiled p1 [] [] bytes).
  - exact (ps_abandoned p2 [] [] m eq_refl).
  - by apply ps_permit.
Qed.

(** The bound on the concurrency is checked after a truncation to 32 bits. *)
Lemma pool_bound_truncated (build : PoolConfig → result unit string) (c : PoolConfig) :
  c.(max_concurrency) = 4294967297 → c.(max_cached_modules) ≠ 0%nat → c.(total_instances) = 1 → build c = Ok () →
  ∃ p, pool_new build c = Ok p ∧ c.(total_instances) < available_permits p.
Proof using Type.
  intros Hc Hm Ht Hb. unfold pool_new. rewrite Hc, Ht, Hb. cbn. apply Nat.eqb_neq in Hm as ->. cbn.
  eexists. split; [done|]. unfold available_permits. cbn. lia.
Qed.

(** ** The sandbox as the guest *)

Lemma run_pooled_bounded p tm bytes args restored entry p' r mem :
  run_pooled p tm bytes args restored entry = Some (p', Ok r) → r.(xr_pre_call_memory) = Some mem →
  len mem ≤ max_memory_bytes p.(sp_sandbox).(sb_config).
Proof.
  unfold run_pooled, acquire, take_permit. destruct (0 <? available p); [|done]. cbn -[execute_module_inner].
  destruct (get_or_compile _ _ _) as [c [m|]]; cbn -[execute_module_inner]; [|done]. intros H Hm.
  destruct (execute_module_inner (sp_sandbox p) tm m args restored entry) as [[sb r']|] eqn:Ex; [|done].
  cbn in H. injection H as _ <-.
  by eapply execute_module_bounded.
Qed.
(** Every memory that the hypervisor gets to snapshot is addressable by its page numbers. *)
Lemma guest_answer_indexable cfg e p tm modules engine m input restored entry r mem :
  cfg.(max_memory_pages) ≤ 268435456 → p.(sp_sandbox).(sb_config).(max_memory_pages) ≤ 268435456 →
  guest_answer cfg e p tm modules engine m input restored entry = Ok r →
  r.(pre_call_memory) = Some mem → indexable mem.
Proof.
  intros Hc Hp. unfold guest_answer.
  assert (∀ sb m sb' xr, sb.(sb_config).(max_memory_pages) ≤ 268435456 →
    execute_module_inner sb tm m [input] restored entry = Some (sb', xr) →
    ∀ mem, xr.(xr_pre_call_memory) = Some mem → indexable mem) as Hx.
  { intros sb m' sb' xr Hsb Hex mem' Hm'. pose proof (execute_module_bounded _ _ _ _ _ _ _ _ _ Hex Hm') as Hb.
    unfold indexable, max_memory_bytes in *. lia. }
  destruct engine as [|fuel], m as [bytes|z].
  - destruct (run_pooled p tm bytes [input] restored entry) as [[p' [xr|]]|] eqn:Ex; cbn; [|done..]. intros [= <-] Hm.
    pose proof (run_pooled_bounded _ _ _ _ _ _ _ _ _ Ex Hm). unfold indexable, max_memory_bytes in *. lia.
  - done.
  - unfold execute_bytes. destruct (from_binary bytes); [|by intros [= <-]].
    destruct (execute_module_inner _ _ _ _ _ _) as [[sb xr]|] eqn:Ex; [|done]. intros [= <-] Hm.
    eapply Hx; [|exact Ex|exact Hm]. exact Hc.
  - destruct (execute_module_inner _ _ _ _ _ _) as [[sb xr]|] eqn:Ex; [|done]. intros [= <-] Hm.
    eapply Hx; [|exact Ex|exact Hm]. exact Hc.
Qed.
End Theorems.

Section Composition.
Context `{U : UrlLib} `{C : CryptoLib} `{CL : !CryptoLaws C} `{Zs : ZstdLib} `{ZL : !ZstdLaws Zs} `{Hi : HashIter}
  `{E : SnapEnv} `{Io : InstinctIo} `{W : Wasmtime} `{L : !WasmtimeLaws W} `{Sh : Sha256Lib}.

End Composition.

(** ** A concrete pool *)

Module ToyPool.
#[export] Instance sha : Sha256Lib := {| sha256 m := m |}.
Definition config : PoolConfig :=
  {| max_concurrency := 2; max_cached_modules := 4; total_instances := 2; pool_max_memory_bytes := 65536;
     table_elements := 10; pool_sandbox_config := SandboxConfig_default |}.
Definition fresh : SandboxPool (W := ToyWasm.wasmtime) :=
  {| available := 2; holders := []; lingering := 0; sp_cache := with_capacity 4; sp_sandbox := sandbox_new SandboxConfig_default;
     sp_config := config |}.
(** One request waits for its module. *)
Definition busy : SandboxPool (W := ToyWasm.wasmtime) := with_holders fresh 1 [None].
End ToyPool.
#[local] Existing Instances ToyWasm.wasmtime ToyWasm.wasmtime_laws ToyPool.sha Tokens.Toy.crypto Tokens.Toy.crypto_laws
  Tokens.Toy.url ToyZstd.zstd ToyZstd.zstd_laws ToySnap.env ToyInstinct.io.

Lemma pool_slots_suffice_witness :
  pool_reach (λ _, Ok ()) ToyPool.config ToyPool.busy ∧ Z.of_nat (length (holders ToyPool.busy)) ≤ 2.
Proof.
  assert (pool_reach (λ _, Ok ()) ToyPool.config ToyPool.busy) as Hr.
  { eapply pr_step; [apply pr_new; reflexivity|]. apply ps_permit. reflexivity. }
  split; [exact Hr|].
  destruct (pool_slots_suffice (λ _, Ok ()) ToyPool.config ToyPool.busy Hr) as ([Hl _] & _); [vm_compute; split; discriminate|].
  exact Hl.
Defined.

Lemma memory_capture_roundtrip_witness :
  (from_bytes []).(page_count) = 0.
Proof. destruct (memory_capture_roundtrip []) as (_ & _ & H). refine (proj1 (H 0%nat _ _)); [reflexivity|vm_compute; discriminate]. Defined.

