(* ===== verification/Json.v ===== *)
(** * JSON values, their canonical text, and encodings

    [serde_json::Value], the recursive sort of object keys ([sort_json_value] of
    [src/proof/canonical.rs]), and the writer of aeon-canonical-json-v1
    ([write_canonical] of [crates/aeon_nexus_bridge/src/v2.rs]).  Texts are UTF-8 bytes.
    Encodings of records are objects; [faithful] ones can be told apart by their sorted
    value. *)

From S2P Require Import Prelude.

Inductive Json :=
| JNull
| JBool (b : bool)
| JNum (n : Z)               (** an integer *)
| JFloat (text : string)     (** a number that [is_f64] *)
| JStr (s : string)
| JArr (l : list Json)
| JObj (m : list (string * Json)).

Fixpoint insert_key {A} (k : string) (v : A) (m : list (string * A)) : list (string * A) :=
  match m with
  | [] => [(k, v)]
  | (k', v') :: m' => if String.leb k k' then (k, v) :: m else (k', v') :: insert_key k v m'
  end.
Definition sort_keys {A} (m : list (string * A)) : list (string * A) := foldr (λ '(k, v), insert_key k v) [] m.
Fixpoint sort_json_value (value : Json) : Json :=
  match value with
  | JArr values => JArr (List.map sort_json_value values)
  | JObj m => JObj (sort_keys (List.map (λ kv, (kv.1, sort_json_value kv.2)) m))
  | _ => value
  end.

Definition opt {A} (f : A → Json) (o : option A) : Json := match o with Some a => f a | None => JNull end.
Definition strings (l : list string) : Json := JArr (JStr <$> l).

(** [serde_json::to_vec], which is lossless. *)
Class JsonLib := { json_text : Json → list byte }.
Class JsonLaws (J : JsonLib) : Prop := { json_text_inj v w : json_text v = json_text w → v = w }.

(** ** Objects *)

Fixpoint jget {A} (k : string) (m : list (string * A)) : option A :=
  match m with [] => None | (k', v) :: m => if decide (k = k') then Some v else jget k m end.

Lemma jget_insert {A} x k (v : A) m : k ∉ m.*1 → jget x (insert_key k v m) = if decide (x = k) then Some v else jget x m.
Proof.
  induction m as [|[k' v'] m IH]; [done|]. intros Hk. cbn [insert_key].
  destruct (String.leb k k'); [done|]. cbn in Hk |- *. rewrite IH by set_solver. repeat case_decide; set_solver.
Qed.
Lemma insert_keys {A} k (v : A) m x : x ∈ (insert_key k v m).*1 ↔ x = k ∨ x ∈ m.*1.
Proof.
  induction m as [|[k' v'] m IH]; cbn [insert_key]; [cbn; set_solver|].
  destruct (String.leb k k'); cbn; rewrite ?elem_of_cons; [done|]. rewrite IH. naive_solver.
Qed.
Lemma sort_keys_keys {A} (m : list (string * A)) x : x ∈ (sort_keys m).*1 ↔ x ∈ m.*1.
Proof.
  induction m as [|[k v] m IH]; [done|]. change (sort_keys ((k, v) :: m)) with (insert_key k v (sort_keys m)).
  rewrite insert_keys, IH. cbn. by rewrite elem_of_cons.
Qed.
Lemma jget_sort_keys {A} (m : list (string * A)) x : NoDup m.*1 → jget x (sort_keys m) = jget x m.
Proof.
  induction m as [|[k v] m IH]; [done|]. cbn [fmap list_fmap fst]. intros [Hk Hnd]%NoDup_cons.
  change (sort_keys ((k, v) :: m)) with (insert_key k v (sort_keys m)).
  rewrite jget_insert by by rewrite sort_keys_keys. cbn [jget]. by rewrite IH.
Qed.
Lemma jget_zip {A} ks : ∀ (vs : list A) i k v, NoDup ks → ks !! i = Some k → vs !! i = Some v → jget k (zip ks vs) = Some v.
Proof.
  induction ks as [|k0 ks IH]; [done|]. intros [|v0 vs] [|i] k v [Hk Hnd]%NoDup_cons Hi Hv; try done; cbn in *.
  - injection Hi as ->. injection Hv as ->. by rewrite decide_True.
  - rewrite decide_False; [by eapply IH|]. intros ->. apply Hk. by eapply list_elem_of_lookup_2.
Qed.

(** Objects with the same distinct keys and equal sorted values have equal members. *)
Lemma sort_object_inj ks vs ws :
  bool_decide (NoDup ks) = true → length vs = length ks → length ws = length ks →
  sort_json_value (JObj (zip ks vs)) = sort_json_value (JObj (zip ks ws)) →
  sort_json_value <$> vs = sort_json_value <$> ws.
Proof.
  intros Hnd%bool_decide_eq_true Hv Hw. cbn [sort_json_value].
  assert (∀ us, length us = length ks → List.map (λ kv, (kv.1, sort_json_value kv.2)) (zip ks us) = zip ks (sort_json_value <$> us)) as Hmap.
  { clear. intros us. revert us. induction ks as [|k ks IH]; intros [|u us] H; try done. cbn. f_equal. apply IH. by injection H. }
  rewrite !Hmap by done. intros [= Heq].
  assert (∀ us : list Json, length us = length ks → (zip ks us).*1 = ks) as Hkeys by (intros us Hu; apply fst_zip; lia).
  apply list_eq_same_length with (length ks); [by rewrite !length_fmap..|].
  intros i v w Hi Hvi Hwi. destruct (lookup_lt_is_Some_2 ks i Hi) as [k Hk].
  assert (∀ (us : list Json) u, length us = length ks → us !! i = Some u → jget k (sort_keys (zip ks us)) = Some u) as Hget.
  { intros us u Hu Hui. rewrite jget_sort_keys by by rewrite Hkeys. by eapply jget_zip. }
  assert (length (sort_json_value <$> vs) = length ks ∧ length (sort_json_value <$> ws) = length ks) as [Lv Lw] by by rewrite !length_fmap.
  pose proof (Hget _ _ Lv Hvi) as H1. pose proof (Hget _ _ Lw Hwi) as H2.
  rewrite Heq in H1. congruence.
Qed.

(** ** Encodings *)

(** An encoding whose sorted value determines what it encodes. *)
Definition faithful {A} (f : A → Json) : Prop := ∀ a b, sort_json_value (f a) = sort_json_value (f b) → a = b.
Definition never_null {A} (f : A → Json) : Prop := ∀ a, sort_json_value (f a) ≠ JNull.

Lemma faithful_str {A} (f : A → string) : Inj (=) (=) f → faithful (λ a, JStr (f a)).
Proof. by intros Hf a b [= ?%Hf]. Qed.
Lemma faithful_JStr : faithful JStr.
Proof. by intros a b [= ->]. Qed.
Lemma faithful_JBool : faithful JBool.
Proof. by intros a b [= ->]. Qed.
Lemma faithful_JNum : faithful JNum.
Proof. by intros a b [= ->]. Qed.
Lemma faithful_opt {A} (f : A → Json) : never_null f → faithful f → faithful (opt f).
Proof.
  intros Hn Hf [a|] [b|] H; cbn [opt] in H; try done; [by rewrite (Hf a b H)|by apply Hn in H|].
  symmetry in H. by apply Hn in H.
Qed.
Lemma faithful_list {A} (f : A → Json) : faithful f → faithful (λ l, JArr (f <$> l)).
Proof.
  intros Hf a b [= H]. revert b H. induction a as [|x a IH]; intros [|y b] H; try done. cbn in H.
  injection H as Hx H. by rewrite (Hf x y Hx), (IH b H).
Qed.
Lemma faithful_strings : faithful strings.
Proof. apply (faithful_list JStr), faithful_JStr. Qed.

Lemma cons_inj {A} (a b : A) l k : a :: l = b :: k → a = b ∧ l = k.
Proof. by intros [= -> ->]. Qed.

Create HintDb faithful.
#[export] Hint Resolve faithful_JStr faithful_JBool faithful_JNum faithful_strings : faithful.

(** From equal sorted objects to equal members, each by the faithfulness of its own
    encoding; the encodings of the members are [simpl never]. *)
Ltac members H :=
  match type of H with
  | sort_json_value (JObj ?m) = sort_json_value (JObj ?m') =>
      let ks := eval cbv [List.map fst] in (List.map fst m) in
      let vs := eval cbv [List.map snd] in (List.map snd m) in
      let ws := eval cbv [List.map snd] in (List.map snd m') in
      apply (sort_object_inj ks vs ws eq_refl eq_refl eq_refl) in H; cbn [fmap list_fmap] in H
  end.
Ltac member H :=
  let E := fresh in
  apply cons_inj in H as [E H];
  match type of E with
  | sort_json_value (?f ?a) = sort_json_value (?f ?b) =>
      first [ assert (a = b) as -> by (refine ((_ : faithful f) a b E); auto with faithful)
            | assert (a = b) as -> by (refine ((_ : faithful f) a b E); apply faithful_opt; [by intros []|auto with faithful]) ]
  end;
  clear E.
Tactic Notation "faithfully" reference(f) :=
  let H := fresh in intros [] [] H;
  unfold f in H;
  cbn -[sort_json_value opt strings] in H;
  members H; repeat member H; reflexivity.

(** ** Decimal numbers *)

Definition is_digit (b : byte) : Prop := 48 ≤ Z_of_byte b < 58.
Definition dec_value (bs : list byte) : Z := foldl (λ v b, 10 * v + (Z_of_byte b - 48)) 0 bs.

Lemma digit_byte d : 0 ≤ d < 10 → Z_of_byte (byte_of_ascii (ascii_of_nat (48 + Z.to_nat d))) = 48 + d.
Proof.
  intros Hd. assert (d ∈ seqZ 0 10) as Hin by (apply elem_of_seqZ; lia).
  revert Hin. cbv [seqZ]. cbn. intros Hin. repeat (apply elem_of_cons in Hin as [->|Hin]; [reflexivity|]). by apply not_elem_of_nil in Hin.
Qed.

Lemma dec_digits_spec fuel : ∀ n acc, 0 ≤ n < 10 ^ Z.of_nat fuel →
  ∃ ds, string_bytes (dec_digits fuel n acc) = ds ++ string_bytes acc ∧ Forall is_digit ds ∧ dec_value ds = n.
Proof.
  induction fuel as [|fuel IH]; intros n acc Hn.
  - exists []. cbn in *. split_and!; [done|constructor|lia].
  - cbn [dec_digits]. pose proof (Z.mod_pos_bound n 10 ltac:(lia)) as Hd. pose proof (digit_byte _ Hd) as Hb.
    set (a := ascii_of_nat _) in *. assert (is_digit (byte_of_ascii a)) as Ha by (unfold is_digit; lia).
    destruct (Z.ltb_spec n 10).
    + exists [byte_of_ascii a]. split_and!; [done|by apply Forall_singleton|].
      cbn [dec_value foldl]. rewrite Hb, Z.mod_small; lia.
    + assert (0 ≤ n / 10 < 10 ^ Z.of_nat fuel) as Hn'.
      { split; [apply Z.div_pos; lia|]. apply Z.div_lt_upper_bound; [lia|].
        replace (Z.of_nat (S fuel)) with (1 + Z.of_nat fuel) in Hn by lia. rewrite Z.pow_add_r in Hn by lia. lia. }
      destruct (IH (n / 10) (String a acc) Hn') as (ds & -> & Hds & Hv).
      exists (ds ++ [byte_of_ascii a]). split_and!.
      * by rewrite <- app_assoc.
      * apply Forall_app. split; [done|by apply Forall_singleton].
      * unfold dec_value in *. rewrite foldl_app, Hv. cbn [foldl]. rewrite Hb. pose proof (Z.div_mod n 10). lia.
Qed.

(** A number and what follows it are told apart. *)
Definition no_digit (r : list byte) : Prop := match r with c :: _ => ¬ is_digit c | [] => True end.
Lemma digits_span ds es r s :
  Forall is_digit ds → Forall is_digit es → no_digit r → no_digit s → ds ++ r = es ++ s → ds = es ∧ r = s.
Proof.
  intros Hds. revert es. induction Hds as [|d ds Hd _ IH]; intros [|e es] Hes Hr Hs H; cbn in H.
  - done.
  - subst r. by apply Forall_cons in Hes as [? _].
  - subst s. done.
  - injection H as -> H. apply Forall_cons in Hes as [_ Hes]. by destruct (IH es Hes Hr Hs H) as [-> ->].
Qed.
Lemma fmt_u_digits n : 0 ≤ n < 2 ^ 64 →
  ∃ d ds, string_bytes (fmt_u n) = d :: ds ∧ Forall is_digit (d :: ds) ∧ dec_value (d :: ds) = n.
Proof.
  intros Hn. destruct (dec_digits_spec 40 n EmptyString) as (ds & Eds & Hds & Vds); [lia|].
  change (string_bytes "") with (@nil byte) in Eds. rewrite app_nil_r in Eds.
  destruct ds as [|d ds]; [|by exists d, ds]. exfalso. cbn in Vds. subst n. vm_compute in Eds. done.
Qed.
Lemma fmt_u_span n m r s :
  0 ≤ n < 2 ^ 64 → 0 ≤ m < 2 ^ 64 → no_digit r → no_digit s →
  string_bytes (fmt_u n) ++ r = string_bytes (fmt_u m) ++ s → n = m ∧ r = s.
Proof.
  intros Hn Hm Hr Hs. destruct (fmt_u_digits n Hn) as (d & ds & -> & Hds & Vds).
  destruct (fmt_u_digits m Hm) as (e & es & -> & Hes & Ves).
  intros [Heq ->]%digits_span; [|done..]. split; [congruence|done].
Qed.
