(* ===== verification/MemoryBridge.v ===== *)
(** * Memory evidence: [crates/aeon_nexus_bridge/src/lib.rs]

    The records that say which memories of the AEON service were put into a decision, their
    digests, and the handle under which an agent is named.  A score is a double, recorded
    as an integer number of millionths. *)

From S2P Require Import Prelude Floats Digest Framed Json Redaction.

Definition SHA256_ALGORITHM : string := "sha256".
Definition HMAC_SHA256_ALGORITHM : string := "hmac-sha256".
Definition MEMORY_EVIDENCE_VERSION : string := "aeon-nexus-memory-evidence-v1".

Inductive BridgeError := InvalidScore (score : f64).

(** ** Scores *)

(** [f64::round]: half away from zero.  The result is a double, so nothing else is rounded;
    [None] is infinite or not a number. *)
Definition round_magnitude (m : positive) (e : Z) : Z :=
  if 0 <=? e then Zpos m * 2 ^ e else (Zpos m + 2 ^ (- e - 1)) / 2 ^ (- e).
Definition f64_round (x : f64) : option Z :=
  match x with
  | S754_zero _ => Some 0
  | S754_finite negative m e => Some (if negative then - round_magnitude m e else round_magnitude m e)
  | _ => None
  end.
Definition is_finite (x : f64) : bool := match x with S754_zero _ | S754_finite _ _ _ => true | _ => false end.

Definition MICROS_PER_UNIT : f64 := f64_of_Z 1000000.
Definition I64_MIN : Z := - 2 ^ 63.
Definition I64_MAX : Z := 2 ^ 63 - 1.
(** [MemoryScore::new]: [i64::MAX as f64] is [2^63], and [as i64] saturates. *)
Definition MemoryScore_new (score : f64) : result Z BridgeError :=
  if negb (is_finite score) then Err (InvalidScore score)
  else
    match f64_round (f64_mul score MICROS_PER_UNIT) with
    | None => Err (InvalidScore score)
    | Some micros =>
        if (micros <? I64_MIN) || (2 ^ 63 <? micros) then Err (InvalidScore score) else Ok (Z.min micros I64_MAX)
    end.

Example score_half : MemoryScore_new (f64_lit 1 2) = Ok 500000.
Proof. reflexivity. Qed.
Example score_negative : MemoryScore_new (f64_lit (-7) 10000000) = Ok (-1).
Proof. reflexivity. Qed.
Example score_infinite : MemoryScore_new (S754_infinity false) = Err (InvalidScore (S754_infinity false)).
Proof. reflexivity. Qed.
(** A score whose micros are [2^63], which no [i64] is, is accepted as [2^63 - 1]. *)
Example score_saturates :
  let x := f64_lit (2 ^ 63) 1000000 in f64_round (f64_mul x MICROS_PER_UNIT) = Some (2 ^ 63) ∧ MemoryScore_new x = Ok I64_MAX.
Proof. split; reflexivity. Qed.

Lemma score_range x micros : MemoryScore_new x = Ok micros → I64_MIN ≤ micros ≤ I64_MAX.
Proof.
  unfold MemoryScore_new. destruct (is_finite x); [cbn [negb]|done]. destruct (f64_round _) as [r|]; [|done].
  destruct (_ || _) eqn:E; [done|]. apply orb_false_iff in E as [Hlo%Z.ltb_ge _]. intros [= <-]. unfold I64_MIN, I64_MAX in *. lia.
Qed.
(** Rounding moves by half a unit at most. *)
Lemma round_nearest m k : 0 < k → 2 * Z.abs (round_magnitude m (- k) * 2 ^ k - Zpos m) ≤ 2 ^ k.
Proof.
  intros Hk. unfold round_magnitude. destruct (Z.leb_spec 0 (- k)); [lia|]. rewrite Z.opp_involutive.
  assert (2 ^ k = 2 * 2 ^ (k - 1)) as Hp by (rewrite <- Z.pow_succ_r by lia; f_equal; lia).
  pose proof (Z.pow_pos_nonneg 2 (k - 1) ltac:(lia) ltac:(lia)).
  pose proof (Z.div_mod (Zpos m + 2 ^ (k - 1)) (2 ^ k) ltac:(lia)). pose proof (Z.mod_pos_bound (Zpos m + 2 ^ (k - 1)) (2 ^ k) ltac:(lia)). nia.
Qed.

(** ** Hexadecimal, in either case *)

Definition hex_value (b : byte) : option Z :=
  let c := Z_of_byte b in
  if (48 <=? c) && (c <=? 57) then Some (c - 48)
  else if (97 <=? c) && (c <=? 102) then Some (c - 97 + 10)
  else if (65 <=? c) && (c <=? 70) then Some (c - 65 + 10)
  else None.
(** [chunks_exact(2)] of an even number of bytes. *)
Fixpoint decode_pairs (bytes : list byte) : option (list byte) :=
  match bytes with
  | a :: b :: rest =>
      high ← hex_value a; low ← hex_value b; decoded ← decode_pairs rest;
      Some (byte_of_Z (Z.lor (Z.shiftl high 4) low) :: decoded)
  | _ => Some []
  end.
Definition decode_hex (input : string) : option (list byte) :=
  if Nat.even (String.length input) then decode_pairs (string_bytes input) else None.

Lemma hex_value_Some b v : hex_value b = Some v ↔ 0 ≤ v < 16 ∧ lower_ascii (ascii_of_byte b) = Prelude.hex_digit v.
Proof.
  split.
  - destruct b; cbn; intros [= <-]; (split; [lia|reflexivity]).
  - intros [Hv H]. pose proof (unhex_hex v Hv) as Hu. rewrite <- H in Hu. subst v.
    assert (forallb (λ v, Ascii.eqb (Prelude.hex_digit v) (lower_ascii (ascii_of_byte b))) (seqZ 0 16) = true
            ∨ hex_value b = Some (unhex_digit (lower_ascii (ascii_of_byte b)))
            ∨ forallb (λ v, negb (Ascii.eqb (Prelude.hex_digit v) (lower_ascii (ascii_of_byte b)))) (seqZ 0 16) = true) as Hcases.
    { destruct b; first [right; left; reflexivity|right; right; reflexivity]. }
    destruct Hcases as [Hc|[Hc|Hc]]; [|done|].
    + rewrite forallb_forall in Hc. pose proof (Hc 0 ltac:(apply list_elem_of_In, elem_of_seqZ; lia)) as H0%Ascii.eqb_eq.
      pose proof (Hc 1 ltac:(apply list_elem_of_In, elem_of_seqZ; lia)) as H1%Ascii.eqb_eq. rewrite <- H0 in H1. discriminate H1.
    + rewrite forallb_forall in Hc. specialize (Hc (unhex_digit (lower_ascii (ascii_of_byte b))) ltac:(apply list_elem_of_In, elem_of_seqZ; lia)).
      rewrite <- H in Hc. by rewrite Ascii.eqb_refl in Hc.
Qed.
Lemma decode_pairs_Some n : ∀ s bs, String.length s = (2 * n)%nat →
  decode_pairs (string_bytes s) = Some bs ↔ hex_lower bs = to_ascii_lowercase s.
Proof.
  induction n as [|n IH]; intros s bs Hlen.
  { destruct s; [|done]. cbn. split; [by intros [= <-]|]. by destruct bs. }
  destruct s as [|a [|b s]]; [done|cbn in Hlen; lia|]. specialize (IH s).
  change (string_bytes (String a (String b s))) with (byte_of_ascii a :: byte_of_ascii b :: string_bytes s).
  cbn [decode_pairs to_ascii_lowercase]. split.
  - intros (high & Hh & (low & Hl & (rest & Hr & [= <-])%bind_Some)%bind_Some)%bind_Some.
    apply hex_value_Some in Hh as [Hh Ha], Hl as [Hl Hb]. rewrite ascii_of_byte_of_ascii in Ha, Hb.
    destruct (nibbles_split high low Hh Hl) as [Hdiv Hmod]. cbn [hex_lower]. rewrite Hdiv, Hmod, <- Ha, <- Hb.
    do 2 f_equal. apply IH; [cbn in Hlen; lia|done].
  - destruct bs as [|c bs]; [done|]. cbn [hex_lower]. intros [= Ha Hb Hr]. destruct (byte_nibbles c) as (Hhi & Hlo & _).
    rewrite (proj2 (hex_value_Some (byte_of_ascii a) (Z_of_byte c / 16))) by by rewrite ascii_of_byte_of_ascii.
    rewrite (proj2 (hex_value_Some (byte_of_ascii b) (Z_of_byte c mod 16))) by by rewrite ascii_of_byte_of_ascii.
    cbn [mbind option_bind]. rewrite (proj2 (IH bs ltac:(cbn in Hlen; lia)) Hr). cbn. by rewrite nibbles_join.
Qed.
Lemma lowercase_length s : String.length (to_ascii_lowercase s) = String.length s.
Proof. induction s as [|a s IH]; cbn; [done|]. by rewrite IH. Qed.
Lemma decode_hex_Some s bs : decode_hex s = Some bs ↔ hex_lower bs = to_ascii_lowercase s.
Proof.
  unfold decode_hex. destruct (Nat.even (String.length s)) eqn:Ev.
  - apply Nat.even_spec in Ev as [n Hn]. by apply (decode_pairs_Some n).
  - split; [done|]. intros H. apply (f_equal String.length) in H. rewrite hex_lower_length, lowercase_length in H.
    rewrite <- H in Ev. by rewrite Nat.even_mul in Ev.
Qed.

(** ** Records *)

Record MemoryEvidenceHit := { memory_id : string; score : option Z; hit_content_digest : TypedDigest }.
Record MemoryEvidence := {
  version : string;
  agent_handle : TypedDigest;
  session_id : option string;
  injected_hits : list MemoryEvidenceHit;
}.
Record MemoryEvidenceRef := {
  evidence_version : string;
  digest : TypedDigest;
  ref_agent_handle : TypedDigest;
  ref_session_id : option string;
  injected_count : nat;
}.
Record AgentSessionMapping := { nexus_agent_id : string; map_session_id : option string; aeon_agent_id : string }.

Section Bridge.
Context `{Sh : Sha256Lib} `{Hm : HmacLib} `{J : JsonLib}.

Definition sha256_public (data : list byte) : TypedDigest :=
  {| algorithm := SHA256_ALGORITHM; value := hex_lower (sha256 data); public_recomputable := true |}.
Definition hmac_sha256_private (key data : list byte) : TypedDigest :=
  {| algorithm := HMAC_SHA256_ALGORITHM; value := hex_lower (hmac_sha256 key data); public_recomputable := false |}.
Definition content_digest (content : list byte) : TypedDigest := sha256_public content.
Definition hmac_agent_id (key : list byte) (agent_id : string) : TypedDigest := hmac_sha256_private key (string_bytes agent_id).

(** [Mac::verify_slice] compares all bytes. *)
Definition verify_agent_id_hmac (key : list byte) (agent_id : string) (expected : TypedDigest) : bool :=
  if negb (String.eqb expected.(algorithm) HMAC_SHA256_ALGORITHM) || expected.(public_recomputable) then false
  else
    match decode_hex expected.(value) with
    | None => false
    | Some expected_bytes => bool_decide (expected_bytes = hmac_sha256 key (string_bytes agent_id))
    end.

Definition hit_new (id : string) (content : list byte) (s : option f64) : result MemoryEvidenceHit BridgeError :=
  let? micros := match s with Some s => let? m := MemoryScore_new s in Ok (Some m) | None => Ok None end in
  Ok {| memory_id := id; score := micros; hit_content_digest := content_digest content |}.

Definition digest_json (d : TypedDigest) : Json :=
  JObj [("algorithm", JStr d.(algorithm)); ("value", JStr d.(value)); ("public_recomputable", JBool d.(public_recomputable))].
Definition hit_json (h : MemoryEvidenceHit) : Json :=
  JObj [("memory_id", JStr h.(memory_id)); ("score", opt JNum h.(score)); ("content_digest", digest_json h.(hit_content_digest))].
Definition hits_json (hits : list MemoryEvidenceHit) : Json := JArr (hit_json <$> hits).
Definition evidence_json (e : MemoryEvidence) : Json :=
  JObj [("version", JStr e.(version)); ("agent_handle", digest_json e.(agent_handle));
        ("session_id", opt JStr e.(session_id)); ("injected_hits", hits_json e.(injected_hits))].

Definition canonical_bytes (value : Json) : list byte := json_text (sort_json_value value).
Definition canonical_sha256_digest (value : Json) : TypedDigest := sha256_public (canonical_bytes value).
Definition memory_evidence_digest (e : MemoryEvidence) : TypedDigest := canonical_sha256_digest (evidence_json e).

Definition evidence_new (handle : TypedDigest) (session : option string) (hits : list MemoryEvidenceHit) : MemoryEvidence :=
  {| version := MEMORY_EVIDENCE_VERSION; agent_handle := handle; session_id := session; injected_hits := hits |}.
Definition to_ref (e : MemoryEvidence) : MemoryEvidenceRef :=
  {| evidence_version := e.(version); digest := memory_evidence_digest e; ref_agent_handle := e.(agent_handle);
     ref_session_id := e.(session_id); injected_count := length e.(injected_hits) |}.

Definition mapping_new (nexus : string) (session : option string) (aeon : string) : AgentSessionMapping :=
  {| nexus_agent_id := nexus; map_session_id := session; aeon_agent_id := aeon |}.
Definition mapping_agent_handle (m : AgentSessionMapping) (key : list byte) : TypedDigest := hmac_agent_id key m.(aeon_agent_id).
Definition memory_evidence (m : AgentSessionMapping) (key : list byte) (hits : list MemoryEvidenceHit) : MemoryEvidence :=
  evidence_new (mapping_agent_handle m key) m.(map_session_id) hits.
End Bridge.

(** ** Properties *)

Section Theorems.
Context `{Sh : Sha256Lib} `{Hm : HmacLib} `{J : JsonLib}.

Lemma sha256_public_same x y : sha256_public x = sha256_public y → sha256 x = sha256 y.
Proof using Type. by intros [= H%hex_lower_inj]. Qed.

Lemma faithful_typed_digest : faithful digest_json.
Proof using Type. faithfully digest_json. Qed.
#[local] Hint Resolve faithful_typed_digest : faithful.
Lemma faithful_evidence_hit : faithful hit_json.
Proof using Type. faithfully hit_json. Qed.
Lemma faithful_evidence_hits : faithful hits_json.
Proof using Type. apply (faithful_list hit_json), faithful_evidence_hit. Qed.
#[local] Hint Resolve faithful_evidence_hits : faithful.
Lemma faithful_memory_evidence : faithful evidence_json.
Proof using Type. faithfully evidence_json. Qed.

(** The text that is digested determines the evidence. *)
Lemma evidence_bytes_inj `{!JsonLaws J} e e' : canonical_bytes (evidence_json e) = canonical_bytes (evidence_json e') → e = e'.
Proof using Type. intros H. by apply faithful_memory_evidence, json_text_inj. Qed.

(** An agent handle is checked in full: [verify_agent_id_hmac] accepts a digest exactly
    if it is marked as a private HMAC and its value is the HMAC of that agent under that
    key in hexadecimal of either case; so it accepts the handle made for the agent, and
    one handle accepted for two agents means that they have the same HMAC. *)
Theorem agent_handle_verifies_exactly (key : list byte) (agent : string) (expected : TypedDigest) :
  (verify_agent_id_hmac key agent expected = true ↔
    expected.(algorithm) = HMAC_SHA256_ALGORITHM ∧ expected.(public_recomputable) = false
    ∧ to_ascii_lowercase expected.(value) = (hmac_agent_id key agent).(value))
  ∧ verify_agent_id_hmac key agent (hmac_agent_id key agent) = true
  ∧ ∀ agent', verify_agent_id_hmac key agent expected = true → verify_agent_id_hmac key agent' expected = true →
      hmac_sha256 key (string_bytes agent) = hmac_sha256 key (string_bytes agent').
Proof using Type.
  assert (∀ agent d, verify_agent_id_hmac key agent d = true ↔
    d.(algorithm) = HMAC_SHA256_ALGORITHM ∧ d.(public_recomputable) = false
    ∧ to_ascii_lowercase d.(value) = (hmac_agent_id key agent).(value)) as Hiff.
  { intros a d. unfold verify_agent_id_hmac. destruct (String.eqb_spec (algorithm d) HMAC_SHA256_ALGORITHM) as [Ha|Ha];
      cbn [negb orb]; [|naive_solver]. destruct (public_recomputable d); [naive_solver|].
    cbn [hmac_agent_id hmac_sha256_private value]. destruct (decode_hex (value d)) as [bs|] eqn:E.
    - apply decode_hex_Some in E. rewrite <- E, bool_decide_eq_true. split; [by intros ->|by intros (_ & _ & ?%hex_lower_inj)].
    - split; [done|]. intros (_ & _ & H). symmetry in H. by apply decode_hex_Some in H; rewrite E in H. }
  split; [apply Hiff|]. split.
  - apply Hiff. cbn. split_and!; [done|done|]. generalize (hmac_sha256 key (string_bytes agent)) as bs.
    intros bs. induction bs as [|b bs IH]; [done|]. cbn [hex_lower to_ascii_lowercase]. destruct (byte_nibbles b) as (Hh & Hl & _).
    assert (∀ v, 0 ≤ v < 16 → lower_ascii (Prelude.hex_digit v) = Prelude.hex_digit v) as Hlow.
    { intros v Hv. apply Ascii.eqb_eq. by apply (hex_digit_ind (λ v a, Ascii.eqb (lower_ascii a) a)). }
    by rewrite !Hlow, IH.
  - intros agent' (_ & _ & H1)%Hiff (_ & _ & H2)%Hiff. cbn in H1, H2. rewrite H1 in H2. by apply hex_lower_inj in H2.
Qed.
End Theorems.
