(* ===== verification/Attestation.v ===== *)
(** * Proof capsules: [src/proof/schema.rs], [canonical.rs], [signing.rs], [scorecard.rs]

    A capsule is signed over its canonical JSON: its serialization without the signature,
    every object sorted by key.  The derived [Serialize] instances are written out as
    [to_json]; [ProofLib] gives the text of a JSON value, of identifiers and of times,
    standard base64 and the bytes of keys.  The fields of the feature [aeon-memory] are
    in [AeonExecution]. *)

From stdpp Require Import pretty countable.
From S2P Require Import Prelude Errors Json LexPath Capability UrlGuard Tokens Redaction.

(** ** Schema *)

Inductive DigestMode := Sha256Public | HmacSha256Private | RedactedNoDigest.
Inductive SnapshotKind := LatestRuntime | EmptyBaseline | DiffKind.
Inductive PolicyEnforcementMode :=
| UnprofiledDev
| ProfileValidatedOnly
| ProfileLoadedMcp
| ProfileEnforcedMcpCapabilitiesOnly
| ProfileEnforcedMcpToolAndCapability
| ProfileEnforcedRuntime.

Record ProofSubject := {
  run_id : Uuid; subject_tool : string; started_at : DateTime; finished_at : DateTime; duration_ms : Z }.
Record ToolIdentity := { module_digest : TypedDigest; module_name : string; entrypoint : string }.
Record InputIdentity := { input_digest : TypedDigest; media_type : string; raw_included : bool }.
Record PolicyProfileRef := {
  profile_digest : option TypedDigest; profile_name : option string; mode : PolicyEnforcementMode }.
Record CapabilityEvidence := { ev_required : list string; ev_granted : list string; mismatch : option (list string) }.
Record SnapshotEvidence := {
  ev_snapshot_id : Uuid; snapshot_kind : SnapshotKind; memory_digest : TypedDigest;
  ev_original_size : Z; ev_compressed_size : Z }.
Record FailureEvidence := {
  ev_failure_category : string; ev_requires_rollback : bool; deterministic : option bool; error_summary : string }.
Record RollbackEvidence := { occurred : bool; from_snapshot_id : option Uuid; reason : option string }.
Record BranchRaceEvidence := {
  source_snapshot_id : option Uuid; winner_branch_id : string; ev_branches_tried : Z; ev_branches_succeeded : Z }.
Record SignatureEnvelope := {
  signer : string; key_id : string; envelope_signature : string; signed_payload_digest : TypedDigest }.
Record ProofCapsule := {
  version : string;
  capsule_id : Uuid;
  subject : ProofSubject;
  capsule_tool : ToolIdentity;
  input : InputIdentity;
  policy : PolicyProfileRef;
  evidence : CapabilityEvidence;
  capsule_snapshot : option SnapshotEvidence;
  capsule_failure : option FailureEvidence;
  capsule_rollback : option RollbackEvidence;
  branches : option BranchRaceEvidence;
  redaction : RedactionReport;
  limitations : list string;
  signature : option SignatureEnvelope;
}.
Definition with_envelope (c : ProofCapsule) (s : option SignatureEnvelope) : ProofCapsule :=
  {| version := c.(version); capsule_id := c.(capsule_id); subject := c.(subject); capsule_tool := c.(capsule_tool);
     input := c.(input); policy := c.(policy); evidence := c.(evidence); capsule_snapshot := c.(capsule_snapshot);
     capsule_failure := c.(capsule_failure); capsule_rollback := c.(capsule_rollback); branches := c.(branches);
     redaction := c.(redaction); limitations := c.(limitations); signature := s |}.

Definition default_proof_capsule_limitations : list string :=
  [ "runtime_attestation_only";
    "does_not_prove_correct_execution";
    "does_not_prove_absence_of_external_side_effects";
    "does_not_prove_external_side_effects_absent";
    "does_not_include_raw_snapshot_memory";
    "does_not_guarantee_full_deterministic_replay";
    "does_not_restore_stack_or_registers";
    "execution_state_is_memory_globals_and_table_metadata";
    "blocked_sync_wasi_io_cancellation_is_cooperative";
    "trusts_nexus_runtime_and_host_boundary";
    "proof_trusts_nexus_runtime_and_host_boundary" ].

#[export] Instance TypedDigest_eq_dec : EqDecision TypedDigest.
Proof. solve_decision. Defined.

(** [ProofCapsuleBuilder::new(..).build()], given the fresh identifiers and the time. *)
Definition builder_new (tool_name : string) (module_digest input_digest : TypedDigest)
  (capsule_id run_id : Uuid) (now : DateTime) : ProofCapsule :=
  {| version := "1";
     capsule_id := capsule_id;
     subject := {| run_id := run_id; subject_tool := tool_name; started_at := now; finished_at := now; duration_ms := 0 |};
     capsule_tool := {| module_digest := module_digest; module_name := tool_name; entrypoint := "_start" |};
     input := {| input_digest := input_digest; media_type := "application/json"; raw_included := false |};
     policy := {| profile_digest := None; profile_name := None; mode := UnprofiledDev |};
     evidence := {| ev_required := []; ev_granted := []; mismatch := None |};
     capsule_snapshot := None; capsule_failure := None; capsule_rollback := None; branches := None;
     redaction := {| hashed_fields := []; truncated_fields := []; removed_fields := []; hmac_fields := ["input.digest"] |};
     limitations := default_proof_capsule_limitations;
     signature := None |}.

(** ** Encodings *)

Class ProofLib `{C : CryptoLib} := {
  to_vec : Json → list byte;
  uuid_text : Uuid → string;
  rfc3339 : DateTime → string;
  verifying_key_bytes : VerifyingKey → list byte;
  signing_key_from_seed : list byte → SigningKey;
  base64 : list byte → string;
  base64_decode : string → option (list byte);
}.
(** Serializations are lossless, the text of an object starts with a brace, and base64
    decodes what it encoded. *)
Class ProofLaws `{C : CryptoLib} (P : ProofLib) : Prop := {
  to_vec_inj v w : to_vec v = to_vec w → v = w;
  to_vec_object m : ∃ rest, to_vec (JObj m) = x7b :: rest;
  uuid_text_inj : Inj (=) (=) uuid_text;
  rfc3339_inj : Inj (=) (=) rfc3339;
  base64_round bs : base64_decode (base64 bs) = Some bs;
}.
#[export] Existing Instances uuid_text_inj rfc3339_inj.

Section ToJson.
Context `{P : ProofLib}.

Definition uuid (id : Uuid) : Json := JStr (uuid_text id).
Definition time (t : DateTime) : Json := JStr (rfc3339 t).

Definition digest_json (d : TypedDigest) : Json :=
  JObj [("algorithm", JStr d.(algorithm)); ("value", JStr d.(value)); ("public_recomputable", JBool d.(public_recomputable))].
Definition snapshot_kind_json (k : SnapshotKind) : Json :=
  JStr (match k with LatestRuntime => "LatestRuntime" | EmptyBaseline => "EmptyBaseline" | DiffKind => "Diff" end).
Definition mode_json (m : PolicyEnforcementMode) : Json :=
  JStr (match m with
        | UnprofiledDev => "UnprofiledDev"
        | ProfileValidatedOnly => "ProfileValidatedOnly"
        | ProfileLoadedMcp => "ProfileLoadedMcp"
        | ProfileEnforcedMcpCapabilitiesOnly => "ProfileEnforcedMcpCapabilitiesOnly"
        | ProfileEnforcedMcpToolAndCapability => "ProfileEnforcedMcpToolAndCapability"
        | ProfileEnforcedRuntime => "ProfileEnforcedRuntime"
        end).
Definition subject_json (s : ProofSubject) : Json :=
  JObj [("run_id", uuid s.(run_id)); ("tool_name", JStr s.(subject_tool)); ("started_at", time s.(started_at));
        ("finished_at", time s.(finished_at)); ("duration_ms", JNum s.(duration_ms))].
Definition tool_json (t : ToolIdentity) : Json :=
  JObj [("module_digest", digest_json t.(module_digest)); ("module_name", JStr t.(module_name));
        ("entrypoint", JStr t.(entrypoint))].
Definition input_json (i : InputIdentity) : Json :=
  JObj [("digest", digest_json i.(input_digest)); ("media_type", JStr i.(media_type)); ("raw_included", JBool i.(raw_included))].
Definition policy_json (p : PolicyProfileRef) : Json :=
  JObj [("profile_digest", opt digest_json p.(profile_digest)); ("profile_name", opt JStr p.(profile_name));
        ("mode", mode_json p.(mode))].
Definition evidence_json (e : CapabilityEvidence) : Json :=
  JObj [("required", strings e.(ev_required)); ("granted", strings e.(ev_granted)); ("mismatch", opt strings e.(mismatch))].
Definition snapshot_json (s : SnapshotEvidence) : Json :=
  JObj [("snapshot_id", uuid s.(ev_snapshot_id)); ("snapshot_kind", snapshot_kind_json s.(snapshot_kind));
        ("memory_digest", digest_json s.(memory_digest)); ("original_size", JNum s.(ev_original_size));
        ("compressed_size", JNum s.(ev_compressed_size))].
Definition failure_json (f : FailureEvidence) : Json :=
  JObj [("failure_category", JStr f.(ev_failure_category)); ("requires_rollback", JBool f.(ev_requires_rollback));
        ("deterministic", opt JBool f.(deterministic)); ("error_summary", JStr f.(error_summary))].
Definition rollback_json (r : RollbackEvidence) : Json :=
  JObj [("occurred", JBool r.(occurred)); ("from_snapshot_id", opt uuid r.(from_snapshot_id)); ("reason", opt JStr r.(reason))].
Definition branches_json (b : BranchRaceEvidence) : Json :=
  JObj [("source_snapshot_id", opt uuid b.(source_snapshot_id)); ("winner_branch_id", JStr b.(winner_branch_id));
        ("branches_tried", JNum b.(ev_branches_tried)); ("branches_succeeded", JNum b.(ev_branches_succeeded))].
Definition report_json (r : RedactionReport) : Json :=
  JObj [("hashed_fields", strings r.(hashed_fields)); ("truncated_fields", strings r.(truncated_fields));
        ("removed_fields", strings r.(removed_fields)); ("hmac_fields", strings r.(hmac_fields))].
Definition envelope_json (s : SignatureEnvelope) : Json :=
  JObj [("signer", JStr s.(signer)); ("key_id", JStr s.(key_id)); ("signature", JStr s.(envelope_signature));
        ("signed_payload_digest", digest_json s.(signed_payload_digest))].
Definition to_json (c : ProofCapsule) : Json :=
  JObj [("version", JStr c.(version)); ("capsule_id", uuid c.(capsule_id)); ("subject", subject_json c.(subject));
        ("tool", tool_json c.(capsule_tool)); ("input", input_json c.(input)); ("policy", policy_json c.(policy));
        ("capabilities", evidence_json c.(evidence)); ("snapshot", opt snapshot_json c.(capsule_snapshot));
        ("failure", opt failure_json c.(capsule_failure)); ("rollback", opt rollback_json c.(capsule_rollback));
        ("branches", opt branches_json c.(branches)); ("redaction", report_json c.(redaction));
        ("limitations", strings c.(limitations)); ("signature", opt envelope_json c.(signature))].

Definition canonical_bytes (capsule : ProofCapsule) : list byte :=
  to_vec (sort_json_value (to_json (with_envelope capsule None))).
End ToJson.

(** ** Signing *)

Definition hex_value (b : byte) : result Z NexusError :=
  let c := Z_of_byte b in
  if (48 <=? c) && (c <=? 57) then Ok (c - 48)
  else if (97 <=? c) && (c <=? 102) then Ok (c - 97 + 10)
  else if (65 <=? c) && (c <=? 70) then Ok (c - 65 + 10)
  else Err (InvalidCapability (Lit "proof capsule signature is not valid hex")).
Fixpoint decode_pairs (bytes : list byte) : result (list byte) NexusError :=
  match bytes with
  | a :: b :: rest =>
      let? high := hex_value a in
      let? low := hex_value b in
      let? decoded := decode_pairs rest in
      Ok (byte_of_Z (Z.lor (Z.shiftl high 4) low) :: decoded)
  | _ => Ok []
  end.
Definition decode_hex (input : string) : result (list byte) NexusError :=
  let bytes := string_bytes input in
  if Nat.odd (length bytes) then Err (InvalidCapability (Lit "proof capsule signature is not valid hex"))
  else decode_pairs bytes.

Inductive ProofSigningConfig := EphemeralDedicated | SeedFromEnv (var : string).

Section Signing.
Context `{P : ProofLib} `{D : DigestLib}.

Definition capsule_digest (capsule : ProofCapsule) : TypedDigest := sha256_public (canonical_bytes capsule).
Definition verifying_key_id (key : VerifyingKey) : string := hex_lower (verifying_key_bytes key).

Definition sign_capsule (capsule : ProofCapsule) (key : SigningKey) : ProofCapsule :=
  let payload := canonical_bytes capsule in
  with_envelope capsule
    (Some {| signer := "nexus-hypervisor"; key_id := verifying_key_id (verifying_key_of key);
             envelope_signature := hex_lower (ed_sign key payload); signed_payload_digest := sha256_public payload |}).

Definition verify_capsule (capsule : ProofCapsule) (vk : VerifyingKey) : result () NexusError :=
  let? envelope := ok_or capsule.(signature) (InvalidCapability (Lit "proof capsule missing signature")) in
  let payload := canonical_bytes capsule in
  if negb (bool_decide (envelope.(signed_payload_digest) = sha256_public payload))
  then Err (InvalidCapability (Lit "proof capsule signed payload digest mismatch"))
  else if negb (String.eqb envelope.(key_id) (verifying_key_id vk))
  then Err (InvalidCapability (Lit "proof capsule key id does not match verifying key"))
  else
    let? signature_bytes := decode_hex envelope.(envelope_signature) in
    if negb (length signature_bytes =? 64)%nat
    then Err (InvalidCapability (Lit "proof capsule signature has invalid length"))
    else if ed_verify vk payload signature_bytes then Ok ()
    else Err (InvalidCapability (Lit "proof capsule signature verification failed")).

(** [ProofSigningConfig::signing_key]; [generated] is a key of the operating system. *)
Definition signing_key_from_env (env : string → option string) (var : string) : result SigningKey NexusError :=
  let? raw := ok_or (env var) (ConfigError (Fmt "proof signing seed env var {var} is unset or not valid Unicode" [AStr var])) in
  let? seed := ok_or (base64_decode (trim raw))
                 (ConfigError (Fmt "proof signing seed env var {var} is not valid base64" [AStr var])) in
  if (length seed =? 32)%nat then Ok (signing_key_from_seed seed)
  else Err (ConfigError (Fmt "proof signing seed env var {var} must decode to 32 bytes" [AStr var])).
Definition signing_key (config : ProofSigningConfig) (env : string → option string) (generated : SigningKey)
  : result SigningKey NexusError :=
  match config with EphemeralDedicated => Ok generated | SeedFromEnv var => signing_key_from_env env var end.
End Signing.

(** ** Scorecard *)

Record ProofScorecard := {
  card_capsule_id : Uuid;
  card_version : string;
  has_signature : bool;
  has_failure : bool;
  has_rollback : bool;
  redaction_count : nat;
  limitations_count : nat;
  scorecard_pass : bool;
}.
Definition is_some {A} (o : option A) : bool := match o with Some _ => true | None => false end.
Definition scorecard (c : ProofCapsule) : ProofScorecard :=
  {| card_capsule_id := c.(capsule_id); card_version := c.(version); has_signature := is_some c.(signature);
     has_failure := is_some c.(capsule_failure); has_rollback := default false (occurred <$> c.(capsule_rollback));
     redaction_count := length c.(redaction).(hashed_fields) + length c.(redaction).(hmac_fields)
                        + length c.(redaction).(truncated_fields) + length c.(redaction).(removed_fields);
     limitations_count := length c.(limitations);
     scorecard_pass := negb (is_some c.(capsule_failure)) && negb (is_some c.(evidence).(mismatch)) |}.

(** ** The canonical form determines the capsule *)

Section Canonical.
Context `{P : ProofLib} `{PL : !ProofLaws P}.

Lemma faithful_uuid : faithful uuid.
Proof using PL. apply (faithful_str uuid_text), _. Qed.
Lemma faithful_time : faithful time.
Proof using PL. apply (faithful_str rfc3339), _. Qed.
Lemma faithful_kind : faithful snapshot_kind_json.
Proof using Type. by intros [] []. Qed.
Lemma faithful_mode : faithful mode_json.
Proof using Type. by intros [] []. Qed.
#[local] Hint Resolve faithful_uuid faithful_time faithful_kind faithful_mode : faithful.
#[local] Arguments uuid : simpl never.
#[local] Arguments time : simpl never.
#[local] Arguments digest_json : simpl never.
#[local] Arguments snapshot_kind_json : simpl never.
#[local] Arguments mode_json : simpl never.
#[local] Arguments subject_json : simpl never.
#[local] Arguments tool_json : simpl never.
#[local] Arguments input_json : simpl never.
#[local] Arguments policy_json : simpl never.
#[local] Arguments evidence_json : simpl never.
#[local] Arguments snapshot_json : simpl never.
#[local] Arguments failure_json : simpl never.
#[local] Arguments rollback_json : simpl never.
#[local] Arguments branches_json : simpl never.
#[local] Arguments report_json : simpl never.
#[local] Arguments envelope_json : simpl never.

Lemma faithful_digest : faithful digest_json.
Proof using Type. faithfully digest_json. Qed.
#[local] Hint Resolve faithful_digest : faithful.
Lemma faithful_subject : faithful subject_json.
Proof using PL. faithfully subject_json. Qed.
Lemma faithful_tool : faithful tool_json.
Proof using Type. faithfully tool_json. Qed.
Lemma faithful_input : faithful input_json.
Proof using Type. faithfully input_json. Qed.
Lemma faithful_policy : faithful policy_json.
Proof using Type. faithfully policy_json. Qed.
Lemma faithful_evidence : faithful evidence_json.
Proof using Type. faithfully evidence_json. Qed.
Lemma faithful_snapshot : faithful snapshot_json.
Proof using PL. faithfully snapshot_json. Qed.
Lemma faithful_failure : faithful failure_json.
Proof using Type. faithfully failure_json. Qed.
Lemma faithful_rollback : faithful rollback_json.
Proof using PL. faithfully rollback_json. Qed.
Lemma faithful_branches : faithful branches_json.
Proof using PL. faithfully branches_json. Qed.
Lemma faithful_report : faithful report_json.
Proof using Type. faithfully report_json. Qed.
Lemma faithful_envelope : faithful envelope_json.
Proof using Type. faithfully envelope_json. Qed.
#[local] Hint Resolve faithful_subject faithful_tool faithful_input faithful_policy faithful_evidence faithful_snapshot
  faithful_failure faithful_rollback faithful_branches faithful_report faithful_envelope : faithful.
Lemma faithful_capsule : faithful to_json.
Proof using PL. faithfully to_json. Qed.

Lemma canonical_bytes_inj c d : canonical_bytes c = canonical_bytes d → with_envelope c None = with_envelope d None.
Proof using PL. intros H%to_vec_inj. by apply faithful_capsule. Qed.
End Canonical.

(** ** The properties *)

Lemma hex_value_digit v : 0 ≤ v < 16 → hex_value (byte_of_ascii (hex_digit v)) = Ok v.
Proof.
  intros Hv. pose proof (hex_digit_ind (λ v a, match hex_value (byte_of_ascii a) with Ok d => d =? v | Err _ => false end)
    eq_refl v Hv) as H. cbv beta in H.
  destruct (hex_value _); [|done]. apply Z.eqb_eq in H. by subst.
Qed.
Lemma decode_hex_lower bs : decode_hex (hex_lower bs) = Ok bs.
Proof.
  unfold decode_hex. assert (length (string_bytes (hex_lower bs)) = (2 * length bs)%nat) as ->.
  { by rewrite string_bytes_length, hex_lower_length. }
  rewrite Nat.odd_mul. cbn [Nat.odd Nat.even negb andb].
  induction bs as [|b bs IH]; [done|]. destruct (byte_nibbles b) as (Hhi & Hlo & _).
  change (string_bytes (hex_lower (b :: bs))) with
    (byte_of_ascii (hex_digit (Z_of_byte b / 16)) :: byte_of_ascii (hex_digit (Z_of_byte b mod 16)) :: string_bytes (hex_lower bs)).
  cbn [decode_pairs]. rewrite (hex_value_digit _ Hhi), (hex_value_digit _ Hlo). cbn [result_bind]. rewrite IH. cbn [result_bind].
  by rewrite nibbles_join.
Qed.

Section Theorems.
Context `{P : ProofLib} `{D : DigestLib}.

Lemma with_own_envelope c : with_envelope (with_envelope c None) c.(signature) = c.
Proof using Type. by destruct c. Qed.
Lemma canonical_bytes_unsigned c s : canonical_bytes (with_envelope c s) = canonical_bytes c.
Proof using Type. done. Qed.

Lemma verify_capsule_Ok c vk :
  verify_capsule c vk = Ok () → ∃ envelope, c.(signature) = Some envelope
    ∧ envelope.(signed_payload_digest) = sha256_public (canonical_bytes c) ∧ envelope.(key_id) = verifying_key_id vk
    ∧ ∃ bytes, decode_hex envelope.(envelope_signature) = Ok bytes ∧ length bytes = 64%nat
        ∧ ed_verify vk (canonical_bytes c) bytes = true.
Proof using Type.
  unfold verify_capsule. destruct (signature c) as [e|]; [|done]. cbn [ok_or result_bind].
  case_bool_decide as Hd; [|done]. cbn [negb]. destruct (String.eqb_spec (key_id e) (verifying_key_id vk)) as [Hk|]; [|done]. cbn [negb].
  destruct (decode_hex _) as [bytes|] eqn:Hb; [|done]. cbn [result_bind]. destruct (Nat.eqb_spec (length bytes) 64); [|done]. cbn [negb].
  destruct (ed_verify _ _ _) eqn:Hv; [|done]. intros _. exists e. split_and!; try done. by exists bytes.
Qed.

Lemma sign_verifies `{CL : !CryptoLaws C} (capsule : ProofCapsule) (key : SigningKey) :
  verify_capsule (sign_capsule capsule key) (verifying_key_of key) = Ok ().
Proof using Type.
  unfold verify_capsule, sign_capsule. rewrite canonical_bytes_unsigned.
  cbn [with_envelope signature ok_or result_bind key_id envelope_signature signed_payload_digest].
  rewrite bool_decide_true by done. rewrite String.eqb_refl, decode_hex_lower. cbn [negb result_bind].
  by rewrite ed_sign_length, ed_sign_verifies.
Qed.

(** A signed capsule verifies.  Signing keeps what the capsule says, and the result is
    accepted under the signing key. *)
Theorem signed_capsule_verifies `{CL : !CryptoLaws C} (capsule : ProofCapsule) (key : SigningKey) :
  verify_capsule (sign_capsule capsule key) (verifying_key_of key) = Ok ()
  ∧ with_envelope (sign_capsule capsule key) None = with_envelope capsule None.
Proof using Type.
  split; [apply sign_verifies|done].
Qed.

(** C29: a signature fits one capsule.  If a capsule verifies, any other capsule that carries
    its envelope, different in whatever field, has another canonical form; and unless these
    two forms have the same SHA-256, it is refused under every key, for the digest of its
    payload. *)
Theorem signature_binds_capsule `{PL : !ProofLaws P} (c d : ProofCapsule) (vk : VerifyingKey) :
  verify_capsule c vk = Ok () → d.(signature) = c.(signature) → d ≠ c →
  canonical_bytes d ≠ canonical_bytes c
  ∧ (sha256_text (canonical_bytes d) ≠ sha256_text (canonical_bytes c) →
     ∀ vk', verify_capsule d vk' = Err (InvalidCapability (Lit "proof capsule signed payload digest mismatch"))).
Proof using Type.
  intros (e & Hc & Hdc & _)%verify_capsule_Ok Heq Hne. split.
  - intros Hb%canonical_bytes_inj. apply Hne. rewrite <- (with_own_envelope c), <- (with_own_envelope d). by rewrite Hb, Heq.
  - intros Hsha vk'. unfold verify_capsule. rewrite Heq, Hc. cbn [ok_or result_bind]. rewrite Hdc.
    rewrite bool_decide_eq_false_2; [done|]. intros H. apply Hsha. by injection H.
Qed.
End Theorems.
#[local] Existing Instances Toy.crypto Toy.crypto_laws ToyDigest.lib.

(** ** A concrete instance, and the properties applied to it *)

Module ToyProof.
(** Any lossless code of JSON values will do: trees over the leaves, as a positive. *)
Fixpoint tree (v : Json) : gen_tree (unit + bool + Z + string + string) :=
  match v with
  | JNull => GenLeaf (inl (inl (inl (inl ()))))
  | JBool b => GenLeaf (inl (inl (inl (inr b))))
  | JNum n => GenLeaf (inl (inl (inr n)))
  | JFloat t => GenLeaf (inl (inr t))
  | JStr s => GenLeaf (inr s)
  | JArr l => GenNode 0 (List.map tree l)
  | JObj m => GenNode 1 (List.map (λ kv, GenNode 2 [GenLeaf (inr kv.1); tree kv.2]) m)
  end.
Fixpoint untree (t : gen_tree (unit + bool + Z + string + string)) : Json :=
  match t with
  | GenLeaf (inl (inl (inl (inl _)))) => JNull
  | GenLeaf (inl (inl (inl (inr b)))) => JBool b
  | GenLeaf (inl (inl (inr n))) => JNum n
  | GenLeaf (inl (inr t)) => JFloat t
  | GenLeaf (inr s) => JStr s
  | GenNode 0 l => JArr (List.map untree l)
  | GenNode _ l =>
      JObj (List.map (λ t, match t with GenNode _ [GenLeaf (inr k); v] => (k, untree v) | _ => (EmptyString, JNull) end) l)
  end.
Fixpoint untree_tree (v : Json) : untree (tree v) = v.
Proof.
  destruct v as [| | | | |l|m]; cbn; try done; f_equal; rewrite map_map.
  - induction l as [|v l IH]; [done|]. cbn. by rewrite untree_tree, IH.
  - induction m as [|[k v] m IH]; [done|]. cbn. by rewrite untree_tree, IH.
Defined.
Fixpoint bits (p : positive) : list byte := match p with xH => [] | xO p => x00 :: bits p | xI p => x01 :: bits p end.
Lemma bits_inj : Inj (=) (=) bits.
Proof. intros p. induction p as [p IH|p IH|]; intros [q|q|] H; try done; cbn in H; injection H as ->%IH; done. Qed.

#[export] Instance lib : ProofLib := {|
  to_vec v := match v with JObj _ => x7b | _ => x20 end :: bits (encode (tree v));
  uuid_text id := pretty id;
  rfc3339 t := pretty t;
  verifying_key_bytes k := le_bytes 8 k;
  signing_key_from_seed seed := Z_of_byte (hd x00 seed);
  base64 := hex_lower;
  base64_decode s := match decode_hex s with Ok bs => Some bs | Err _ => None end;
|}.
#[export] Instance laws : ProofLaws lib.
Proof.
  constructor.
  - intros v w [= _ H%bits_inj%(inj encode)]. rewrite <- (untree_tree v), <- (untree_tree w). by rewrite H.
  - intros m. by eexists.
  - intros a b. apply (inj pretty).
  - intros a b. apply (inj pretty).
  - intros bs. cbn. by rewrite decode_hex_lower.
Qed.
Definition capsule : ProofCapsule := builder_new "tool" (sha256_public [x01; x02]) (sha256_public [x03]) 1%N 2%N 100.
End ToyProof.
#[local] Existing Instances ToyProof.lib ToyProof.laws.

Lemma signed_capsule_verifies_witness :
  verify_capsule (sign_capsule ToyProof.capsule Toy.key) Toy.key = Ok ()
  ∧ (scorecard (sign_capsule ToyProof.capsule Toy.key)).(has_signature) = true.
Proof.
  split; [|reflexivity]. apply (signed_capsule_verifies ToyProof.capsule Toy.key).
Defined.

(** A signed capsule that is passed off as the run of another tool. *)
Definition passed_off (c : ProofCapsule) : ProofCapsule :=
  with_envelope (builder_new "other" (sha256_public [x01; x02]) (sha256_public [x03]) 1%N 2%N 100) c.(signature).
Lemma signature_binds_capsule_witness :
  let c := sign_capsule ToyProof.capsule Toy.key in
  verify_capsule c Toy.key = Ok ()
  ∧ verify_capsule (passed_off c) Toy.key = Err (InvalidCapability (Lit "proof capsule signed payload digest mismatch")).
Proof.
  split; [apply (sign_verifies ToyProof.capsule Toy.key)|].
  apply (signature_binds_capsule (sign_capsule ToyProof.capsule Toy.key) (passed_off (sign_capsule ToyProof.capsule Toy.key)) (verifying_key_of Toy.key));
    [apply sign_verifies|reflexivity| |].
  - intros [=].
  - apply (bool_decide_eq_false_1 _). vm_compute. reflexivity.
Defined.
