(* ===== verification/Dsse.v ===== *)
(** * DSSE envelopes: [src/proof/dsse.rs]

    A capsule's canonical form, wrapped for supply-chain tools and signed over the
    pre-authentication encoding with the key that signs capsules.  The texts of the
    errors are not modelled. *)

From S2P Require Import Prelude Errors Json LexPath Capability UrlGuard Tokens Redaction Attestation.

Definition CAPSULE_PAYLOAD_TYPE : string := "application/vnd.nexus.proof-capsule+json".

Record DsseSignature := { keyid : string; sig : string }.
Record DsseEnvelope := { payload_type : string; payload : string; signatures : list DsseSignature }.
Inductive DsseError :=
| UnexpectedPayloadType (found : string)
| PayloadNotBase64
| NoSignatureWithKeyid (expected_keyid : string)
| SignatureNotBase64
| SignatureNot64Bytes
| VerificationFailed.

Definition pae (payload_type : string) (payload : list byte) : list byte :=
  string_bytes ("DSSEv1 " +:+ fmt_u (Z.of_nat (String.length payload_type)) +:+ " " +:+ payload_type +:+ " "
                +:+ fmt_u (Z.of_nat (length payload)) +:+ " ")
  ++ payload.

Section Envelopes.
Context `{P : ProofLib}.

Definition wrap_capsule (capsule : ProofCapsule) (key : SigningKey) : DsseEnvelope :=
  let payload := canonical_bytes capsule in
  let signature := ed_sign key (pae CAPSULE_PAYLOAD_TYPE payload) in
  {| payload_type := CAPSULE_PAYLOAD_TYPE; payload := base64 payload;
     signatures := [{| keyid := hex_lower (verifying_key_bytes (verifying_key_of key)); sig := base64 signature |}] |}.

Definition verify_envelope (envelope : DsseEnvelope) (vk : VerifyingKey) : result () DsseError :=
  if negb (String.eqb envelope.(payload_type) CAPSULE_PAYLOAD_TYPE) then Err (UnexpectedPayloadType envelope.(payload_type))
  else
    let? payload := ok_or (base64_decode envelope.(payload)) PayloadNotBase64 in
    let expected_keyid := hex_lower (verifying_key_bytes vk) in
    let? matching :=
      ok_or (List.find (λ s, String.eqb (to_ascii_lowercase s.(keyid)) (to_ascii_lowercase expected_keyid)) envelope.(signatures))
        (NoSignatureWithKeyid expected_keyid) in
    let? sig_bytes := ok_or (base64_decode matching.(sig)) SignatureNotBase64 in
    if negb (length sig_bytes =? 64)%nat then Err SignatureNot64Bytes
    else if ed_verify vk (pae envelope.(payload_type) payload) sig_bytes then Ok () else Err VerificationFailed.
End Envelopes.

Example pae_matches_spec_encoding : pae "t" (string_bytes "pp") = string_bytes "DSSEv1 1 t 2 pp".
Proof. reflexivity. Qed.

(** ** The properties *)

Lemma pae_bytes t p :
  pae t p = string_bytes "DSSEv1 " ++ string_bytes (fmt_u (Z.of_nat (String.length t))) ++ x20 :: string_bytes t
            ++ x20 :: string_bytes (fmt_u (Z.of_nat (length p))) ++ x20 :: p.
Proof.
  unfold pae. rewrite !string_bytes_app. change (string_bytes " ") with [x20]. rewrite <- !app_assoc. reflexivity.
Qed.

Lemma no_digit_space r : no_digit (x20 :: r).
Proof. unfold no_digit, is_digit. change (Z_of_byte x20) with 32. lia. Qed.

Section Properties.
Context `{P : ProofLib}.

(** The encoding that is signed says one thing.  Two types and payloads shorter than
    2^64 bytes with the same pre-authentication encoding are the same, and no encoding is
    the canonical form of a capsule, so a signature of a capsule and a signature of an
    envelope, made with one key, are never made over the same bytes. *)
Theorem pae_unambiguous `{PL : !ProofLaws P} (t t' : string) (p p' : list byte) :
  Z.of_nat (String.length t) < 2 ^ 64 → Z.of_nat (String.length t') < 2 ^ 64 →
  Z.of_nat (length p) < 2 ^ 64 → Z.of_nat (length p') < 2 ^ 64 →
  (pae t p = pae t' p' → t = t' ∧ p = p') ∧ ∀ capsule, pae t p ≠ canonical_bytes capsule.
Proof using Type.
  intros Ht Ht' Hp Hp'. rewrite (pae_bytes t p). split.
  - rewrite pae_bytes. intros H%app_inv_head. apply fmt_u_span in H as [Hlen H]; [|lia|lia|apply no_digit_space..]. injection H as H.
    apply app_inj_1 in H as [->%string_bytes_inj [= H]]; [|rewrite !string_bytes_length; lia].
    apply fmt_u_span in H as [_ H]; [|lia|lia|apply no_digit_space..]. by injection H as ->.
  - intros capsule H. unfold canonical_bytes in H.
    destruct (to_vec_object (sort_keys (List.map (λ kv, (kv.1, sort_json_value kv.2))
      match to_json (with_envelope capsule None) with JObj m => m | _ => [] end))) as [rest Hrest].
    cbn [to_json sort_json_value] in H, Hrest. rewrite Hrest in H. discriminate.
Qed.

(** A wrapped capsule verifies.  The envelope is accepted under the signing key, carries
    one signature and the canonical form of the capsule, and under another key id it is
    refused for want of a signature. *)
Theorem wrapped_capsule_verifies `{CL : !CryptoLaws C} `{PL : !ProofLaws P} (capsule : ProofCapsule) (key : SigningKey) :
  let envelope := wrap_capsule capsule key in
  verify_envelope envelope (verifying_key_of key) = Ok ()
  ∧ base64_decode envelope.(payload) = Some (canonical_bytes capsule)
  ∧ ∀ vk, to_ascii_lowercase (hex_lower (verifying_key_bytes vk))
            ≠ to_ascii_lowercase (hex_lower (verifying_key_bytes (verifying_key_of key))) →
      verify_envelope envelope vk = Err (NoSignatureWithKeyid (hex_lower (verifying_key_bytes vk))).
Proof using Type.
  split_and!; [|apply base64_round|intros vk Hvk]; unfold verify_envelope, wrap_capsule;
    cbn [payload_type payload signatures]; rewrite String.eqb_refl, base64_round; cbn [negb ok_or result_bind List.find keyid].
  - rewrite String.eqb_refl. cbn [ok_or result_bind sig]. rewrite base64_round. cbn [ok_or result_bind].
    by rewrite ed_sign_length, ed_sign_verifies.
  - destruct (String.eqb_spec (to_ascii_lowercase (hex_lower (verifying_key_bytes (verifying_key_of key))))
      (to_ascii_lowercase (hex_lower (verifying_key_bytes vk)))); [congruence|done].
Qed.
End Properties.
#[local] Existing Instances Toy.crypto Toy.crypto_laws ToyDigest.lib ToyProof.lib ToyProof.laws.

Lemma pae_unambiguous_witness : pae "t" [x20] ≠ pae "t 1" [] ∧ pae "t" [x20] ≠ canonical_bytes ToyProof.capsule.
Proof.
  destruct (pae_unambiguous "t" "t 1" [x20] []) as [Hinj Hcan]; [cbn; lia..|].
  split; [|apply Hcan]. intros H. destruct (Hinj H). done.
Defined.
Lemma wrapped_capsule_verifies_witness :
  verify_envelope (wrap_capsule ToyProof.capsule Toy.key) (verifying_key_of Toy.key) = Ok ()
  ∧ verify_envelope (wrap_capsule ToyProof.capsule Toy.key) (8 : Z) = Err (NoSignatureWithKeyid "0800000000000000").
Proof.
  destruct (wrapped_capsule_verifies ToyProof.capsule Toy.key) as (H & _ & Hother). split; [exact H|].
  apply Hother. vm_compute. discriminate.
Defined.
