(* ===== verification/ProofExecution.v ===== *)
(** * Proof-carrying execution: [src/hypervisor/mod.rs], and its MCP handler

    [execute_tool_proof] runs a tool as [execute_tool] does and signs a capsule that says
    what was observed; [do_execute_proof] of [src/bin/nexus_mcp.rs] serves it.  The
    configuration's keys and the process environment are [ProofKeys]; identifiers and
    times are [ProofReads].  The negotiating variant, and the memory part of capsules under
    the feature [aeon-memory], are in [AeonExecution]. *)

From S2P Require Import Prelude Errors UrlGuard LexPath Capability Tokens HostFs Wasi Compression.
From S2P Require Import Snapshot Differential SnapshotManager Fuel Failure Telemetry Instinct Execution.
From S2P Require Import WasiExecution Speculative Profile McpGate McpServer Redaction Attestation.

(** ** Receipts *)

Record FailureModeLite := { lite_category : string; lite_requires_rollback : bool; lite_deterministic : option bool }.
Record ExecutionReceipt := {
  rc_run_id : Uuid;
  rc_started_at : DateTime;
  rc_finished_at : DateTime;
  rc_tool_name : string;
  rc_entrypoint : string;
  module_sha256 : string;
  input_sha256 : TypedDigest;
  input_bytes_len : nat;
  required_caps : list string;
  granted_caps : list string;
  policy_mode : PolicyEnforcementMode;
  rc_profile : option (string * string);
  rc_snapshot : option SnapshotEvidence;
  rc_failure : option FailureModeLite;
  rc_rollback : option (bool * Uuid * string);
  rc_branches : option BranchRaceEvidence;
}.
Record McpProofReference := { ref_capsule_digest : TypedDigest; artifact_id : option string; inline_summary : ProofScorecard }.

Definition PROOF_INPUT_HMAC_KEY_ENV : string := "NEXUS_AEON_HMAC_KEY".
Definition PROOF_INPUT_HMAC_SHORT_BYTES : nat := 1024.

(** ** What an input gives away *)

(** [str::to_lowercase], exact on where ASCII letters are: besides the ASCII capitals only
    the Kelvin sign and the dotted capital I become them. *)
Definition KELVIN : string := String "226" (String "132" (String "170" EmptyString)).
Definition DOTTED_I : string := String "196" (String "176" EmptyString).
Fixpoint to_lowercase_from (skip : nat) (s : string) : string :=
  match s with
  | EmptyString => EmptyString
  | String a rest =>
      match skip with
      | S skip => to_lowercase_from skip rest
      | O =>
          if starts_with KELVIN s then String "k" (to_lowercase_from 2 rest)
          else if starts_with DOTTED_I s then String "i" (String "204" (String "135" (to_lowercase_from 1 rest)))
          else String (lower_ascii a) (to_lowercase_from 0 rest)
      end
  end.
Definition lowered (input_bytes : list byte) : string := to_lowercase_from 0 (String.string_of_list_byte input_bytes).

Definition SENSITIVE_PATTERNS : list string :=
  ["api_key"; "apikey"; "authorization"; "bearer "; "password"; "secret"; "token"; "raw_memory"].
Definition PATH_MARKERS : list string := ["/home/"; "/users/"; "c:/"; "c:\"; "\\"; "/tmp/"].

Definition input_contains_sensitive_value (lowered : string) : bool :=
  existsb (λ pattern, contains_str pattern lowered) SENSITIVE_PATTERNS.
Definition input_contains_path_like_value (lowered : string) : bool :=
  existsb (λ marker, contains_str marker lowered) PATH_MARKERS.
Definition input_should_use_private_digest (input_bytes : list byte) : bool :=
  if (length input_bytes <=? PROOF_INPUT_HMAC_SHORT_BYTES)%nat then true
  else input_contains_sensitive_value (lowered input_bytes) || input_contains_path_like_value (lowered input_bytes).

Definition failure_lite (output : ToolOutput) : option FailureModeLite :=
  match output.(error_log) with
  | Some log =>
      Some {| lite_category := mode_category log.(failure_mode); lite_requires_rollback := requires_rollback log.(failure_mode);
              lite_deterministic := Some (is_deterministic log.(failure_mode)) |}
  | None =>
      if output.(out_success) then None
      else Some {| lite_category := "UNKNOWN"; lite_requires_rollback := output.(rollback_performed); lite_deterministic := None |}
  end.

(** The constant list; its assertion of not being empty holds. *)
Definition build_limitations (_ : ExecutionReceipt) : list string := default_proof_capsule_limitations.

(** ** Capsules of receipts *)

Section ProofExecution.
Context `{U : UrlLib} `{C : CryptoLib} `{Zs : ZstdLib} `{Hi : HashIter} `{E : SnapEnv} `{Io : InstinctIo} `{G : Guest}
  `{D : DigestLib} `{P : !ProofLib}.
Variable dbg : Capability → string.

Record ProofKeys := {
  env : string → option string;
  proof_hmac_key : ProofHmacKey;
  proof_signing_key : SigningKey;
}.
Record ProofReads := {
  fresh_run_id : Uuid;
  fresh_capsule_id : Uuid;
  clock_started : DateTime;
  clock_finished : DateTime;
}.

Definition input_identity_digest (keys : ProofKeys) (input_bytes : list byte) : TypedDigest :=
  match keys.(proof_hmac_key) with
  | Disabled =>
      if input_should_use_private_digest input_bytes
      then digest_with_key keys.(env) (FromEnv PROOF_INPUT_HMAC_KEY_ENV) input_bytes
      else sha256_public input_bytes
  | key => digest_with_key keys.(env) key input_bytes
  end.

Definition snapshot_evidence (h : NexusHypervisor) (id : Uuid) : SnapshotEvidence :=
  let diff := {| ev_snapshot_id := id; snapshot_kind := DiffKind; memory_digest := redacted;
                 ev_original_size := 0; ev_compressed_size := 0 |} in
  match h.(current_snapshot) with
  | Some snapshot =>
      if decide (snapshot.(snap_id) = id)
      then {| ev_snapshot_id := id; snapshot_kind := LatestRuntime;
              memory_digest := {| algorithm := "sha256"; value := snapshot.(memory_checksum); public_recomputable := true |};
              ev_original_size := snapshot.(original_size); ev_compressed_size := snapshot.(compressed_size) |}
      else diff
  | None => diff
  end.

Definition unsigned_capsule_from_receipt (keys : ProofKeys) (capsule_id : Uuid) (receipt : ExecutionReceipt) (output : ToolOutput)
  : ProofCapsule :=
  let required := receipt.(required_caps) in
  let granted := receipt.(granted_caps) in
  let mismatch :=
    if bool_decide (required = []) || bool_decide (required = granted) then None else Some required in
  let redactions : Applied :=
    [("input.digest", if String.eqb receipt.(input_sha256).(algorithm) "sha256" then Removed
                      else if String.eqb receipt.(input_sha256).(algorithm) "hmac-sha256" then HmacOrPlaceholder
                      else Removed)] in
  let '(failure, redactions) :=
    match receipt.(rc_failure) with
    | Some failure =>
        let raw_summary := default failure.(lite_category) output.(out_error) in
        let '(error_summary, error_redactions) :=
          redact_error_for_field keys.(env) keys.(proof_hmac_key) "failure.error_summary" raw_summary in
        (Some {| ev_failure_category := failure.(lite_category); ev_requires_rollback := failure.(lite_requires_rollback);
                 deterministic := failure.(lite_deterministic); error_summary := error_summary |},
         redactions ++ error_redactions)
    | None => (None, redactions)
    end in
  {| version := "1";
     capsule_id := capsule_id;
     subject := {| run_id := receipt.(rc_run_id); subject_tool := receipt.(rc_tool_name);
                   started_at := receipt.(rc_started_at); finished_at := receipt.(rc_finished_at);
                   duration_ms := output.(out_time_ms) |};
     capsule_tool := {| module_digest := {| algorithm := "sha256"; value := receipt.(module_sha256); public_recomputable := true |};
                        module_name := receipt.(rc_tool_name); entrypoint := receipt.(rc_entrypoint) |};
     input := {| input_digest := receipt.(input_sha256); media_type := "application/json"; raw_included := false |};
     policy := {| profile_digest := (λ '(_, toml_sha256),
                    {| algorithm := "sha256"; value := toml_sha256; public_recomputable := true |}) <$> receipt.(rc_profile);
                  profile_name := fst <$> receipt.(rc_profile); mode := receipt.(policy_mode) |};
     evidence := {| ev_required := required; ev_granted := granted; mismatch := mismatch |};
     capsule_snapshot := receipt.(rc_snapshot);
     capsule_failure := failure;
     capsule_rollback := (λ '(occurred, snapshot_id, reason),
       {| occurred := occurred; from_snapshot_id := Some snapshot_id; reason := Some reason |}) <$> receipt.(rc_rollback);
     branches := receipt.(rc_branches);
     redaction := build_report redactions;
     limitations := build_limitations receipt;
     signature := None |}.

Definition capsule_from_receipt (keys : ProofKeys) (capsule_id : Uuid) (receipt : ExecutionReceipt) (output : ToolOutput)
  : ProofCapsule :=
  sign_capsule (unsigned_capsule_from_receipt keys capsule_id receipt output) keys.(proof_signing_key).

(** The receipt of a run, with the hypervisor as the run left it. *)
Definition receipt_of (h : NexusHypervisor) (keys : ProofKeys) (p : ProofReads) (tool : ToolDefinition) (input_bytes : list byte)
    (output : ToolOutput) : ExecutionReceipt :=
  {| rc_run_id := p.(fresh_run_id); rc_started_at := p.(clock_started); rc_finished_at := p.(clock_finished);
     rc_tool_name := tool.(Execution.name); rc_entrypoint := tool.(entry_point);
     module_sha256 := (sha256_public tool.(wasm_bytes)).(value);
     input_sha256 := input_identity_digest keys input_bytes; input_bytes_len := length input_bytes;
     required_caps := Capability.description <$> tool.(required_capabilities); granted_caps := [];
     policy_mode := UnprofiledDev; rc_profile := None;
     rc_snapshot := snapshot_evidence h <$> output.(out_snapshot_id);
     rc_failure := failure_lite output;
     rc_rollback := match output.(rollback_performed), output.(out_snapshot_id) with
                    | true, Some snapshot_id =>
                        Some (true, snapshot_id, "restore latest runtime state after failed execution")
                    | _, _ => None
                    end;
     rc_branches := None |}.

Definition execute_tool_proof (h : NexusHypervisor) (c : Call) (keys : ProofKeys) (p : ProofReads) (tool : ToolDefinition)
  : option (NexusHypervisor * result (ToolOutput * ProofCapsule) NexusError) :=
  match c.(Execution.input_bytes) with
  | None => Some (h, Err (SerializationError (Fmt "failed to serialize tool input: {e}" [AOpaque])))
  | Some input_bytes =>
      match execute_tool dbg h c tool with
      | None => None
      | Some (h, Err e) => Some (h, Err e)
      | Some (h, Ok output) =>
          Some (h, Ok (output, capsule_from_receipt keys p.(fresh_capsule_id) (receipt_of h keys p tool input_bytes output) output))
      end
  end.
End ProofExecution.

(** ** The MCP handler *)

Record ExecuteProofParams := { pf_wasm_path : string }.
Record ExecuteProofResponse := {
  proof_output : ToolOutput;
  response_reference : McpProofReference;
  proof_capsule : option ProofCapsule;
}.
Definition NEXUS_MCP_RETURN_FULL_PROOF_ENV : string := "NEXUS_MCP_RETURN_FULL_PROOF".

Section Handler.
Context `{U : UrlLib} `{C : CryptoLib} `{Zs : ZstdLib} `{Hi : HashIter} `{E : SnapEnv} `{Io : InstinctIo} `{G : Guest}
  `{D : DigestLib} `{P : !ProofLib} `{M : McpLib}.
Variable dbg : Capability → string.
(** Whether the build has debug assertions. *)
Variable debug_assertions : bool.

Definition proof_reference_of (capsule : ProofCapsule) : McpProofReference :=
  {| ref_capsule_digest := capsule_digest capsule; artifact_id := None; inline_summary := scorecard capsule |}.
Definition should_include_full_proof_capsule (env : string → option string) : bool :=
  match env NEXUS_MCP_RETURN_FULL_PROOF_ENV with
  | Some value =>
      existsb (String.eqb (to_ascii_lowercase value)) ["1"; "true"; "yes"; "on"; "debug"; "enabled"]
  | None => debug_assertions
  end.

Definition do_execute_proof (s : NexusMcpServer) (r : Reads) (keys : ProofKeys) (p : ProofReads) (params : ExecuteProofParams)
  : option (NexusMcpServer * result ExecuteProofResponse AnyError) :=
  match
    (let? _ := ensure_tool_allowed s.(gate) "nexus_execute_proof" in
     let? _ := ensure_proof_enabled s.(gate) in
     read_module s r params.(pf_wasm_path))
  with
  | Err e => Some (s, Err e)
  | Ok wasm_bytes =>
      match execute_tool_proof dbg s.(hypervisor) (r.(calls) O) keys p (ToolDefinition_new "mcp_tool_proof" wasm_bytes) with
      | None => None
      | Some (h, Err e) => Some (set_hypervisor s h, Err (Nexus e))
      | Some (h, Ok (output, capsule)) =>
          Some (set_hypervisor s h,
                Ok {| proof_output := output; response_reference := proof_reference_of capsule;
                      proof_capsule := if should_include_full_proof_capsule keys.(env) then Some capsule else None |})
      end
  end.
End Handler.

(** ** Lower case *)

Definition is_ascii (a : ascii) : bool := (code a <? 128)%nat.
Fixpoint all_ascii (s : string) : bool :=
  match s with EmptyString => true | String a s => is_ascii a && all_ascii s end.

Lemma lower_ascii_is_ascii a : is_ascii (lower_ascii a) = is_ascii a.
Proof. destruct a as [[] [] [] [] [] [] [] []]; vm_compute; reflexivity. Qed.
Lemma all_ascii_lower s : all_ascii (to_ascii_lowercase s) = all_ascii s.
Proof. induction s as [|a s IH]; [done|]. cbn [to_ascii_lowercase all_ascii]. by rewrite lower_ascii_is_ascii, IH. Qed.

Lemma starts_with_wide_head (p : string) a s : is_ascii a = true →
  match p with String x _ => is_ascii x = false | EmptyString => False end → starts_with p (String a s) = false.
Proof.
  destruct p as [|x p]; [done|]. intros Ha Hx. change (Ascii.eqb x a && starts_with p s = false).
  destruct (Ascii.eqb_spec x a) as [->|]; [congruence|done].
Qed.

Lemma to_lowercase_ascii w v : all_ascii w = true →
  to_lowercase_from 0 (w +:+ v) = to_ascii_lowercase w +:+ to_lowercase_from 0 v.
Proof.
  induction w as [|a w IH]; [done|]. intros [Ha Hw]%andb_true_iff.
  cbn [String.append to_lowercase_from to_ascii_lowercase].
  rewrite (starts_with_wide_head KELVIN), (starts_with_wide_head DOTTED_I) by done. by rewrite IH.
Qed.

(** A wide character does not reach into an ASCII text. *)
Lemma wide_within p u w v :
  starts_with p (u +:+ w +:+ v) = true → w ≠ EmptyString → all_ascii w = true →
  (∀ a, is_ascii a = true → no_char a p) → (String.length p ≤ String.length u)%nat.
Proof.
  revert u. induction p as [|x p IH]; intros [|b u] H Hw Hall Hp; cbn [String.length]; try lia.
  - destruct w as [|a w]; [done|]. apply andb_true_iff in Hall as [Ha _].
    change (Ascii.eqb x a && starts_with p (w +:+ v) = true) in H. apply andb_true_iff in H as [->%Ascii.eqb_eq _].
    by destruct (Hp a Ha) as [? _].
  - change (Ascii.eqb x b && starts_with p (u +:+ w +:+ v) = true) in H. apply andb_true_iff in H as [_ H].
    apply le_n_S, IH; [done..|]. intros a Ha. by destruct (Hp a Ha).
Qed.
Lemma wide_no_ascii p : bool_decide (Forall (λ x, is_ascii x = false) (String.list_ascii_of_string p)) = true →
  ∀ a, is_ascii a = true → no_char a p.
Proof.
  intros H%bool_decide_eq_true a Ha. induction p as [|x p IH]; [done|]. cbn [String.list_ascii_of_string] in H. apply Forall_cons in H as [Hx H].
  split; [|by apply IH]. intros ->. congruence.
Qed.

Lemma to_lowercase_prefix u w v : w ≠ EmptyString → all_ascii w = true → ∀ skip, (skip ≤ String.length u)%nat →
  ∃ p, to_lowercase_from skip (u +:+ w +:+ v) = p +:+ to_lowercase_from 0 (w +:+ v).
Proof.
  intros Hne Hw. induction u as [|a u IH]; intros skip Hs.
  { assert (skip = O) as -> by (cbn in Hs; lia). by exists EmptyString. }
  cbn [String.append to_lowercase_from String.length] in *. destruct skip as [|skip]; [|apply IH; lia].
  destruct (starts_with KELVIN _) eqn:Hk.
  { apply (wide_within KELVIN (String a u)) in Hk; [|done..|by apply wide_no_ascii]. cbn in Hk.
    destruct (IH 2%nat) as [p ->]; [lia|]. by exists (String "k" p). }
  destruct (starts_with DOTTED_I _) eqn:Hi.
  { apply (wide_within DOTTED_I (String a u)) in Hi; [|done..|by apply wide_no_ascii]. cbn in Hi.
    destruct (IH 1%nat) as [p ->]; [lia|]. by exists (String "i" (String "204" (String "135" p))). }
  destruct (IH 0%nat) as [p ->]; [lia|]. by exists (String (lower_ascii a) p).
Qed.

Lemma contains_str_app p m q : contains_str m (p +:+ m +:+ q) = true.
Proof.
  induction p as [|a p IH]; cbn [String.append contains_str].
  - destruct (m +:+ q) eqn:Hm; cbn [contains_str]; [|by rewrite <- Hm, starts_with_app]. rewrite <- Hm, starts_with_app. done.
  - by rewrite IH, orb_true_r.
Qed.

Lemma lowered_contains u w v :
  all_ascii w = true → w ≠ EmptyString →
  contains_str (to_ascii_lowercase w) (lowered (string_bytes (u +:+ w +:+ v))) = true.
Proof.
  intros Hw Hne. unfold lowered, string_bytes. rewrite String.string_of_list_byte_of_string.
  destruct (to_lowercase_prefix u w v Hne Hw 0) as [p ->]; [lia|]. rewrite to_lowercase_ascii by done. apply contains_str_app.
Qed.

(** ** What a run leaves for its capsule *)

Section Evidence.
Context `{U : UrlLib} `{C : CryptoLib} `{Zs : ZstdLib} `{Hi : HashIter} `{E : SnapEnv} `{Io : InstinctIo} `{G : Guest}
  `{D : DigestLib} `{P : !ProofLib}.

Lemma created_fields m mem fs st md id now el m' s :
  create_snapshot m mem fs st md id now el = (m', Ok s) →
  s.(snap_id) = id ∧ s.(memory_checksum) = sha256_hex mem ∧ s.(original_size) = len mem.
Proof using Type.
  unfold create_snapshot, snapshot_new. destruct (copy_encode _ _); [|done].
  destruct (persist_enabled _); [|by intros [= _ <-]].
  destruct (persist_snapshot _ _) as [? []]; [by intros [= _ <-]|done].
Qed.

(** The full snapshot of a memory under an identifier. *)
Definition snapshot_of (id : Uuid) (mem : list byte) (s : Snapshot) : Prop :=
  s.(snap_id) = id ∧ s.(memory_checksum) = sha256_hex mem ∧ s.(original_size) = len mem.

Lemma create_runtime_snapshot_current (h h' : NexusHypervisor) mem st md id now el snap :
  create_runtime_snapshot h mem st md id now el = Some (h', Ok snap) →
  runtime_id snap = id
  ∧ ((∃ s, h'.(current_snapshot) = Some s ∧ snapshot_of id mem s) ∨ h'.(current_snapshot) = h.(current_snapshot)).
Proof using Type.
  assert (∀ m s, create_snapshot h.(snapshots) mem FilesystemDiff_new st md id now el = (m, Ok s) → snapshot_of id mem s) as Hfull
    by (intros m s; apply created_fields).
  unfold create_runtime_snapshot. intros Hc.
  destruct (snapshot_strategy h), (latest_runtime_snapshot h) as [b|];
    try (destruct (create_snapshot _ _ _ _ _ _ _ _) as [m [s|e]] eqn:Es; [|done]; injection Hc as <- <-;
         specialize (Hfull _ _ eq_refl); split; [apply Hfull|left; by exists s]).
  destruct (create_diff_snapshot _ _ _ _ _ _ _ _) as [[m [[d|s]|e]]|] eqn:Ed; simplify_eq.
  - split; [|by right]. cbn. revert Ed. unfold create_diff_snapshot. destruct (promotes _ _).
    { by destruct (create_snapshot _ _ _ _ _ _ _ _) as [? []]. }
    destruct (reconstruct_memory_for _ _) as [[bm|e]|]; [|done|done].
    destruct (diff_new _ _ _ _ _ _ _ _) as [d'|e] eqn:En; [|done]. intros [= _ <-].
    unfold diff_new in En. by apply result_bind_Ok in En as (? & _ & [= <-]).
  - assert (snapshot_of id mem s) as Hs.
    { revert Ed. unfold create_diff_snapshot. destruct (promotes _ _).
      - destruct (create_snapshot _ _ _ _ _ _ _ _) as [? [s'|]] eqn:Es; [|done]. intros [= _ <-]. by eapply Hfull.
      - destruct (reconstruct_memory_for _ _) as [[bm|e]|]; [|done|done]. by destruct (diff_new _ _ _ _ _ _ _ _). }
    split; [apply Hs|left; by exists s].
Qed.

Lemma finish_run_evidence (h h' : NexusHypervisor) c tool r snap out :
  finish_run h c tool r snap = Some (h', Ok out) →
  out.(out_snapshot_id) = runtime_id <$> snap ∧ h'.(current_snapshot) = h.(current_snapshot).
Proof using Type.
  unfold finish_run, rollback_after, rollback_runtime_snapshot. intros H.
  repeat case_match; by simplify_eq.
Qed.

Lemma after_run_current (h : NexusHypervisor) c tool r : (after_run h c tool r).(current_snapshot) = h.(current_snapshot).
Proof using Type. unfold after_run, apply_budget. by repeat case_match. Qed.

(** The snapshot an output names, and what the hypervisor then holds. *)
Lemma execute_evidence dbg (h h' : NexusHypervisor) c tool tokens pre restored input r out :
  run_of h c tool tokens pre restored = Some (input, r) →
  execute_tool_inner dbg h c tool tokens pre restored = Some (h', Ok out) →
  out.(out_snapshot_id) = (λ _, c.(new_id)) <$> r.(pre_call_memory)
  ∧ ((∃ mem s, r.(pre_call_memory) = Some mem ∧ h'.(current_snapshot) = Some s ∧ snapshot_of c.(new_id) mem s)
     ∨ h'.(current_snapshot) = h.(current_snapshot)).
Proof using Type.
  unfold run_of, execute_tool_inner. destruct (authorize_call _ _ _ _) as [[|]|]; [|done..].
  destruct (Execution.input_bytes c) as [input'|]; [|done]. destruct (run_guest _ _ _ _ _) as [r'|]; [|done].
  intros [= -> ->]. fold (after_run h c tool r).
  destruct (pre_call_memory r) as [mem|]; cbn [fmap option_fmap option_map].
  - destruct (create_runtime_snapshot _ _ _ _ _ _ _) as [[h2 [snap|e]]|] eqn:Hc; [|done..].
    intros [-> Hcur]%finish_run_evidence. destruct (create_runtime_snapshot_current _ _ _ _ _ _ _ _ _ Hc) as [Hid Hs].
    split; [by cbn; rewrite Hid|]. rewrite Hcur. destruct Hs as [(s & ? & ?)|Hs]; [left; by eauto|right].
    by rewrite Hs, after_run_current.
  - intros [-> Hcur]%finish_run_evidence. split; [done|right]. by rewrite Hcur, after_run_current.
Qed.

Lemma snapshot_evidence_current (h : NexusHypervisor) id mem s :
  h.(current_snapshot) = Some s → snapshot_of id mem s →
  snapshot_evidence h id =
    {| ev_snapshot_id := id; snapshot_kind := LatestRuntime;
       memory_digest := {| algorithm := "sha256"; value := sha256_hex mem; public_recomputable := true |};
       ev_original_size := len mem; ev_compressed_size := s.(compressed_size) |}.
Proof using Type. intros Hs (Hid & Hsum & Hlen). unfold snapshot_evidence. by rewrite Hs, decide_True, Hsum, Hlen. Qed.
Lemma snapshot_evidence_other (h : NexusHypervisor) id :
  (∀ s, h.(current_snapshot) = Some s → s.(snap_id) ≠ id) →
  snapshot_evidence h id = {| ev_snapshot_id := id; snapshot_kind := DiffKind; memory_digest := redacted;
                              ev_original_size := 0; ev_compressed_size := 0 |}.
Proof using Type.
  intros Hs. unfold snapshot_evidence. destruct (current_snapshot h) as [s|]; [|done]. by rewrite decide_False by by apply Hs.
Qed.
End Evidence.

(** ** The properties *)

(** What a capsule says of a run that answered [r]. *)
Record tells_run `{U : UrlLib} `{C : CryptoLib} `{Zs : ZstdLib} `{Hi : HashIter} `{E : SnapEnv} `{Io : InstinctIo}
    `{D : DigestLib} `{P : !ProofLib} (keys : ProofKeys) (c : Call) (tool : ToolDefinition) (r : ExecutionResult)
    (out : ToolOutput) (capsule : ProofCapsule) : Prop := {
  tells_tool : capsule.(capsule_tool) = {| module_digest := sha256_public tool.(wasm_bytes);
                                           module_name := tool.(Execution.name); entrypoint := tool.(entry_point) |};
  tells_verdict : (scorecard capsule).(scorecard_pass) = out.(out_success);
  tells_rollback : (scorecard capsule).(has_rollback) = out.(rollback_performed);
  tells_failure :
    match classify_run r c with
    | None => capsule.(capsule_failure) = None
    | Some mode =>
        capsule.(capsule_failure) =
          Some {| ev_failure_category := mode_category mode; ev_requires_rollback := requires_rollback mode;
                  deterministic := Some (is_deterministic mode);
                  error_summary :=
                    (redact_error_for_field keys.(env) keys.(proof_hmac_key) "failure.error_summary" (describe mode)).1 |}
    end;
  tells_snapshot :
    match r.(pre_call_memory) with
    | None => capsule.(capsule_snapshot) = None
    | Some mem => ∃ s, capsule.(capsule_snapshot) = Some s ∧ s.(ev_snapshot_id) = c.(new_id)
        ∧ (s.(snapshot_kind) = LatestRuntime ∧ s.(memory_digest).(value) = sha256_hex mem ∧ s.(ev_original_size) = len mem
           ∨ s.(snapshot_kind) = DiffKind ∧ s.(memory_digest) = redacted)
    end;
}.

(** The answer without the capsule. *)
Definition output_of `{C : CryptoLib} (res : result (ToolOutput * ProofCapsule) NexusError) : result ToolOutput NexusError :=
  match res with Ok (out, _) => Ok out | Err e => Err e end.

Section Theorems.
Context `{U : UrlLib} `{C : CryptoLib} `{CL : !CryptoLaws C} `{Zs : ZstdLib} `{L : !ZstdLaws Zs} `{Hi : HashIter}
  `{E : SnapEnv} `{Io : InstinctIo} `{G : Guest} `{D : DigestLib} `{P : !ProofLib}.

(** Executing without tokens is executing without required capabilities. *)
Lemma run_of_unprivileged (h : NexusHypervisor) c tool input r :
  manager_ok h.(capability_manager) → run_of h c tool [] None None = Some (input, r) → tool.(required_capabilities) = [].
Proof using CL.
  intros Hm. unfold run_of. destruct (authorize_call_spec h c tool [] Hm) as [Ha _]; [by intros t ?%not_elem_of_nil|].
  destruct (authorize_call _ _ _ _) as [[[]|]|]; [|done..]. intros _.
  destruct (required_capabilities tool) as [|cap caps]; [done|].
  by destruct (proj1 Ha eq_refl cap (list_elem_of_here _ _)) as (t & ?%not_elem_of_nil & _).
Qed.

Lemma unsigned_capsule_fields keys id receipt out :
  let capsule := unsigned_capsule_from_receipt keys id receipt out in
  capsule.(capsule_tool) = {| module_digest := {| algorithm := "sha256"; value := receipt.(module_sha256); public_recomputable := true |};
                              module_name := receipt.(rc_tool_name); entrypoint := receipt.(rc_entrypoint) |}
  ∧ capsule.(Attestation.input).(input_digest) = receipt.(input_sha256)
  ∧ (receipt.(required_caps) = [] → capsule.(evidence).(mismatch) = None)
  ∧ capsule.(capsule_snapshot) = receipt.(rc_snapshot)
  ∧ occurred <$> capsule.(capsule_rollback) = (λ '(b, _, _), b) <$> receipt.(rc_rollback)
  ∧ capsule.(capsule_failure) = (λ f, {| ev_failure_category := f.(lite_category); ev_requires_rollback := f.(lite_requires_rollback);
       deterministic := f.(lite_deterministic);
       error_summary := (redact_error_for_field keys.(env) keys.(proof_hmac_key) "failure.error_summary"
                           (default f.(lite_category) out.(out_error))).1 |}) <$> receipt.(rc_failure).
Proof using Type.
  unfold unsigned_capsule_from_receipt. destruct (rc_failure receipt) as [f|]; cbn; [destruct (redact_error_for_field _ _ _ _)|]; cbn;
    split_and!; try done; try (by intros ->); by destruct (rc_rollback receipt) as [[[] ]|].
Qed.

Lemma capsule_of_run keys (h h' : NexusHypervisor) c p tool input r out :
  tool.(required_capabilities) = [] → run_outcome h h' c tool r out →
  out.(out_snapshot_id) = (λ _, c.(new_id)) <$> r.(pre_call_memory) →
  ((∃ mem s, r.(pre_call_memory) = Some mem ∧ h'.(current_snapshot) = Some s ∧ snapshot_of c.(new_id) mem s)
   ∨ ∀ s, h'.(current_snapshot) = Some s → s.(snap_id) ≠ c.(new_id)) →
  tells_run keys c tool r out
    (capsule_from_receipt keys p.(fresh_capsule_id) (receipt_of h' keys p tool input out) out).
Proof using Type.
  intros Hreq [Hver Hrb] Hid Hsnap.
  assert (match classify_run r c with
          | None => failure_lite out = None ∧ out.(out_success) = true
          | Some mode => out.(out_success) = false ∧ out.(out_error) = Some (describe mode)
              ∧ failure_lite out = Some {| lite_category := mode_category mode; lite_requires_rollback := requires_rollback mode;
                                           lite_deterministic := Some (is_deterministic mode) |}
          end) as Hlite.
  { unfold failure_lite. destruct (classify_run r c).
    - destruct Hver as (? & _ & ? & log & Hlog & Hmode & _). by rewrite Hlog, Hmode.
    - destruct Hver as (Hs & _ & _ & Hlog). by rewrite Hlog, Hs. }
  assert (out.(rollback_performed) = true → is_Some r.(pre_call_memory)) as Hperf.
  { destruct (classify_run r c); [|by destruct Hrb as [-> _]]. destruct (pre_call_memory r); [done|by destruct Hrb as [-> _]]. }
  destruct (unsigned_capsule_fields keys p.(fresh_capsule_id) (receipt_of h' keys p tool input out) out)
    as (Ftool & _ & Fmis & Fsnap & Frb & Ffail).
  unfold capsule_from_receipt, sign_capsule. set (u := unsigned_capsule_from_receipt _ _ _ _) in *. clearbody u.
  cbn [receipt_of rc_failure rc_snapshot rc_rollback required_caps rc_tool_name rc_entrypoint module_sha256] in *.
  specialize (Fmis ltac:(by rewrite Hreq)). clear Hver Hrb.
  split; cbn [with_envelope scorecard scorecard_pass has_rollback capsule_tool capsule_failure capsule_snapshot capsule_rollback evidence].
  - exact Ftool.
  - rewrite Fmis, Ffail. destruct (classify_run r c); [by destruct Hlite as (-> & _ & ->)|by destruct Hlite as [-> ->]].
  - rewrite Frb, Hid. destruct (rollback_performed out); [|done]. by destruct (Hperf eq_refl) as [? ->].
  - rewrite Ffail. destruct (classify_run r c); [by destruct Hlite as (_ & -> & ->)|by destruct Hlite as [-> _]].
  - rewrite Fsnap, Hid. destruct (pre_call_memory r) as [mem|]; [|done]. cbn. eexists. split; [done|].
    destruct Hsnap as [(mem' & s & [= <-] & Hs & Hof)|Hne].
    + rewrite (snapshot_evidence_current _ _ _ _ Hs Hof). split; [done|]. by left.
    + rewrite snapshot_evidence_other by done. split; [done|]. by right.
Qed.


(** C28: an input that may hold a secret gets no public digest.  The digest of an input is
    its plain SHA-256 only without a configured key, for an input longer than 1,024 bytes
    in which no marker of a secret or a path occurs, in whatever case; any other digest is
    keyed, or missing. *)
Theorem secret_inputs_have_no_public_digest (keys : ProofKeys) (input : list byte) :
  let d := input_identity_digest keys input in
  (d.(public_recomputable) = true →
     d = sha256_public input ∧ keys.(proof_hmac_key) = Disabled ∧ (1024 < length input)%nat
     ∧ ∀ u w v, input = string_bytes (u +:+ w +:+ v) → to_ascii_lowercase w ∉ SENSITIVE_PATTERNS ++ PATH_MARKERS)
  ∧ (d.(public_recomputable) = false →
     d = redacted ∨ ∃ var secret, keys.(env) var = Some secret ∧ d = hmac_sha256_private (string_bytes secret) input).
Proof using Type.
  assert (∀ key, (digest_with_key keys.(env) key input).(public_recomputable) = false
    ∧ (digest_with_key keys.(env) key input = redacted
       ∨ ∃ var secret, keys.(env) var = Some secret ∧ digest_with_key keys.(env) key input = hmac_sha256_private (string_bytes secret) input))
    as Hkeyed.
  { intros [|var|]; cbn; [by split; [|left]| |by split; [|left]]. destruct (env keys var) eqn:Hv; [split; eauto|by split; [|left]]. }
  intros d. unfold d, input_identity_digest.
  destruct (proof_hmac_key keys) as [|var|] eqn:Hk;
    [|destruct (Hkeyed (FromEnv var)) as [-> ?]; split; [done|by intros _]
     |destruct (Hkeyed EphemeralTestOnly) as [-> ?]; split; [done|by intros _]].
  destruct (input_should_use_private_digest input) eqn:Hp;
    [destruct (Hkeyed (FromEnv PROOF_INPUT_HMAC_KEY_ENV)) as [-> ?]; split; [done|by intros _]|].
  split; [|done]. intros _. split; [done|]. split; [done|]. unfold input_should_use_private_digest, PROOF_INPUT_HMAC_SHORT_BYTES in Hp.
  destruct (Nat.leb_spec (length input) 1024); [done|]. split; [done|]. intros u w v -> Hw.
  assert (all_ascii w = true ∧ w ≠ EmptyString) as [Hall Hne].
  { assert (∀ m, m ∈ SENSITIVE_PATTERNS ++ PATH_MARKERS → all_ascii m = true ∧ m ≠ EmptyString) as Hm.
    { apply Forall_forall. repeat (constructor; [by split|]). constructor. }
    destruct (Hm _ Hw) as [Ha Hn]. rewrite all_ascii_lower in Ha. split; [done|]. by intros ->. }
  pose proof (lowered_contains u w v Hall Hne) as Hc.
  apply orb_false_iff in Hp as [Hs Hpath]. apply elem_of_app in Hw as [Hw|Hw].
  - apply not_true_iff_false in Hs. apply Hs. apply existsb_exists. eexists. split; [by apply list_elem_of_In|done].
  - apply not_true_iff_false in Hpath. apply Hpath. apply existsb_exists. eexists. split; [by apply list_elem_of_In|done].
Qed.
End Theorems.

(** Capsules of this path carry no capability evidence: a tool that requires a capability
    is refused before it runs. *)
Lemma capabilities_get_no_proof `{U : UrlLib} `{C : CryptoLib} `{CL : !CryptoLaws C} `{Zs : ZstdLib} `{Hi : HashIter}
    `{E : SnapEnv} `{Io : InstinctIo} `{G : Guest} `{D : DigestLib} `{P : !ProofLib} dbg (h : NexusHypervisor) c keys p tool :
  manager_ok h.(capability_manager) → tool.(required_capabilities) ≠ [] →
  ∃ e, execute_tool_proof dbg h c keys p tool = Some (h, Err e).
Proof.
  intros Hm Hne. unfold execute_tool_proof, execute_tool, execute_tool_inner.
  destruct (Execution.input_bytes c); [|by eexists].
  destruct (authorize_call_spec h c tool [] Hm) as [Ha [[[]|e] Hs]]; [by intros t ?%not_elem_of_nil| |rewrite Hs; by eexists].
  destruct (required_capabilities tool) as [|cap caps]; [done|].
  by destruct (proj1 Ha Hs cap (list_elem_of_here _ _)) as (t & ?%not_elem_of_nil & _).
Qed.
#[local] Existing Instances Tokens.Toy.crypto Tokens.Toy.crypto_laws Tokens.Toy.url ToyZstd.zstd ToyZstd.zstd_laws
  ToySnap.env ToyInstinct.io ToyExec.guest ToyDigest.lib ToyProof.lib.

(** ** A concrete run *)

Module ToyProofExec.
Definition keys : ProofKeys :=
  {| env := ToyDigest.no_env; proof_hmac_key := Disabled; proof_signing_key := Tokens.Toy.key |}.
Definition reads : ProofReads := {| fresh_run_id := 8%N; fresh_capsule_id := 9%N; clock_started := 50; clock_finished := 54 |}.
Definition tool : ToolDefinition := with_entry (ToolDefinition_new "a" [x07]) "crash".
End ToyProofExec.


Lemma secret_inputs_have_no_public_digest_witness :
  (input_identity_digest ToyProofExec.keys (string_bytes "PassWord")).(public_recomputable) = false
  ∧ ∃ d, input_identity_digest ToyProofExec.keys (replicate 1025 x41) = d ∧ d = sha256_public (replicate 1025 x41).
Proof.
  split; [vm_compute; reflexivity|]. eexists. split; [reflexivity|].
  destruct (secret_inputs_have_no_public_digest ToyProofExec.keys (replicate 1025 x41)) as [H _].
  apply H. vm_compute. reflexivity.
Defined.
