(* ===== verification/CanonicalJson.v ===== *)
(** * aeon-canonical-json-v1: [crates/aeon_nexus_bridge/src/v2.rs] and its float preflight

    What a value serializes to ([Ser], the part of serde's data model that matters here) is
    first searched for floats, then turned into JSON, then written with sorted keys and
    nothing that could be written twice.  The text determines the value. *)

From S2P Require Import Prelude Json.

(** ** The writer *)

Definition fmt_i (n : Z) : string := if n <? 0 then "-" +:+ fmt_u (- n) else fmt_u n.
Definition hex_byte (v : Z) : byte := byte_of_ascii (hex_digit v).

(** One byte of a string; a scalar above ASCII stands for its own bytes. *)
Definition escape (b : byte) : list byte :=
  match b with
  | x22 => [x5c; x22]
  | x5c => [x5c; x5c]
  | x08 => [x5c; x62]
  | x09 => [x5c; x74]
  | x0a => [x5c; x6e]
  | x0c => [x5c; x66]
  | x0d => [x5c; x72]
  | _ => if Z_of_byte b <=? 31
         then [x5c; x75; x30; x30; hex_byte (Z_of_byte b / 16); hex_byte (Z_of_byte b mod 16)]
         else [b]
  end.
Definition write_json_string (value : string) : list byte :=
  x22 :: concat (List.map escape (string_bytes value)) ++ [x22].

Fixpoint commas (items : list (list byte)) : list byte :=
  match items with
  | [] => []
  | [item] => item
  | item :: items => item ++ x2c :: commas items
  end.
Definition write_member (kv : string * result (list byte) string) : result (list byte) string :=
  let? bytes := kv.2 in Ok (write_json_string kv.1 ++ x3a :: bytes).

(** [Err text] is the float that may not be written. *)
Fixpoint write_canonical (value : Json) : result (list byte) string :=
  match value with
  | JNull => Ok (string_bytes "null")
  | JBool b => Ok (string_bytes (if b then "true" else "false"))
  | JNum number => Ok (string_bytes (fmt_i number))
  | JFloat number => Err number
  | JStr s => Ok (write_json_string s)
  | JArr items =>
      let? items := result_mapM (λ r, r) (List.map write_canonical items) in
      Ok (x5b :: commas items ++ [x5d])
  | JObj m =>
      let? members := result_mapM write_member (sort_keys (List.map (λ kv, (kv.1, write_canonical kv.2)) m)) in
      Ok (x7b :: commas members ++ [x7d])
  end.

(** ** What serializes *)

Inductive Ser :=
| SNull
| SBool (b : bool)
| SInt (n : Z)
| SFloat (finite : bool) (text : string)
| SStr (s : string)
| SSeq (l : list Ser)
| SMap (m : list (string * Ser)).

(** [reject_floats]: the first float of the traversal. *)
Fixpoint reject_floats (value : Ser) : result () string :=
  match value with
  | SFloat _ text => Err text
  | SSeq l => let? _ := result_mapM (λ r, r) (List.map reject_floats l) in Ok ()
  | SMap m => let? _ := result_mapM (λ r, r) (List.map (λ kv, reject_floats kv.2) m) in Ok ()
  | _ => Ok ()
  end.
(** [serde_json::to_value]: a float that is not finite becomes [null]. *)
Fixpoint to_value (value : Ser) : Json :=
  match value with
  | SNull => JNull
  | SBool b => JBool b
  | SInt n => JNum n
  | SFloat finite text => if finite then JFloat text else JNull
  | SStr s => JStr s
  | SSeq l => JArr (List.map to_value l)
  | SMap m => JObj (List.map (λ kv, (kv.1, to_value kv.2)) m)
  end.
Definition canonical_json_v1_bytes (value : Ser) : result (list byte) string :=
  let? _ := reject_floats value in write_canonical (to_value value).

Example writes : canonical_json_v1_bytes (SMap [("b", SSeq [SInt (-7); SNull]); ("a", SStr (String "010" EmptyString))])
  = Ok (string_bytes ("{" +:+ String "034" "a" +:+ String "034" ":" +:+ String "034" "\n" +:+ String "034" "," +:+
      String "034" "b" +:+ String "034" ":[-7,null]}")).
Proof. reflexivity. Qed.
Example refuses : canonical_json_v1_bytes (SSeq [SFloat false "NaN"]) = Err "NaN".
Proof. reflexivity. Qed.

(** ** The text determines the value *)

Lemma json_ind' (P : Json → Prop) :
  P JNull → (∀ b, P (JBool b)) → (∀ n, P (JNum n)) → (∀ t, P (JFloat t)) → (∀ s, P (JStr s)) →
  (∀ l, Forall P l → P (JArr l)) → (∀ m, Forall (λ kv, P kv.2) m → P (JObj m)) → ∀ v, P v.
Proof.
  intros Hnull Hbool Hnum Hfloat Hstr Harr Hobj. fix IH 1.
  intros [|b|n|t|s|l|m]; [done|apply Hbool|apply Hnum|apply Hfloat|apply Hstr|apply Harr|apply Hobj].
  - induction l as [|v l IHl]; constructor; [apply IH|exact IHl].
  - induction m as [|[k v] m IHm]; constructor; [apply IH|exact IHm].
Qed.

Lemma result_mapM_Ok {A B E} (f : A → result B E) l bs :
  result_mapM f l = Ok bs → Forall2 (λ a b, f a = Ok b) l bs.
Proof.
  revert bs. induction l as [|a l IH]; cbn; [by intros _ [= <-]|]. intros bs.
  destruct (f a) eqn:Ha; [|done]. destruct (result_mapM f l); [|done]. intros [= <-]. by constructor; [|apply IH].
Qed.

Lemma insert_key_fmap {A B} (f : A → B) k v m :
  insert_key k (f v) (prod_map id f <$> m) = prod_map id f <$> insert_key k v m.
Proof.
  induction m as [|[k' v'] m IH]; [done|]. cbn [insert_key fmap list_fmap prod_map fst snd id].
  destruct (String.leb k k'); [done|]. cbn. by rewrite <- IH.
Qed.
Lemma sort_keys_fmap {A B} (f : A → B) m : sort_keys (prod_map id f <$> m) = prod_map id f <$> sort_keys m.
Proof.
  induction m as [|[k v] m IH]; [done|].
  change (insert_key k (f v) (sort_keys (prod_map id f <$> m)) = prod_map id f <$> insert_key k v (sort_keys m)).
  rewrite IH. apply insert_key_fmap.
Qed.
Lemma sort_keys_Permutation {A} (m : list (string * A)) : sort_keys m ≡ₚ m.
Proof.
  assert (∀ k v (m : list (string * A)), insert_key k v m ≡ₚ (k, v) :: m) as Hins.
  { intros k v. induction m0 as [|[k' v'] m0 IH]; [done|]. cbn [insert_key]. destruct (String.leb k k'); [done|].
    rewrite IH. apply Permutation_swap. }
  induction m as [|[k v] m IH]; [done|]. change (sort_keys ((k, v) :: m)) with (insert_key k v (sort_keys m)).
  by rewrite Hins, IH.
Qed.

(** Strings *)

Definition unhex (b : byte) : Z := if Z_of_byte b <? 58 then Z_of_byte b - 48 else Z_of_byte b - 87.
Definition unescape (bs : list byte) : option (byte * list byte) :=
  match bs with
  | x22 :: _ => None
  | x5c :: x22 :: r => Some (x22, r)
  | x5c :: x5c :: r => Some (x5c, r)
  | x5c :: x62 :: r => Some (x08, r)
  | x5c :: x74 :: r => Some (x09, r)
  | x5c :: x6e :: r => Some (x0a, r)
  | x5c :: x66 :: r => Some (x0c, r)
  | x5c :: x72 :: r => Some (x0d, r)
  | x5c :: x75 :: x30 :: x30 :: h :: l :: r => Some (byte_of_Z (16 * unhex h + unhex l), r)
  | x5c :: _ => None
  | b :: r => Some (b, r)
  | [] => None
  end.
Lemma unescape_escape b r : unescape (escape b ++ r) = Some (b, r).
Proof. destruct b; vm_compute; reflexivity. Qed.

Lemma escaped_inj bs cs r q :
  concat (List.map escape bs) ++ x22 :: r = concat (List.map escape cs) ++ x22 :: q → bs = cs ∧ r = q.
Proof.
  revert cs. induction bs as [|b bs IH]; intros [|c cs]; cbn [List.map concat]; rewrite <- ?app_assoc; intros H;
    try (apply (f_equal unescape) in H; rewrite ?unescape_escape in H; done).
  - by injection H as ->.
  - pose proof (f_equal unescape H) as H'. rewrite !unescape_escape in H'. injection H' as -> H'.
    by destruct (IH cs H') as [-> ->].
Qed.
Lemma write_json_string_inj s t r q : write_json_string s ++ r = write_json_string t ++ q → s = t ∧ r = q.
Proof.
  unfold write_json_string. rewrite <- !app_comm_cons, <- !app_assoc. intros [= H].
  apply escaped_inj in H as [->%string_bytes_inj ->]. done.
Qed.

(** Sequences *)

Definition stop (r : list byte) : Prop := match r with [] => True | c :: _ => c = x2c ∨ c = x5d ∨ c = x7d end.
Definition starts (x : list byte) : Prop := match x with [] => False | c :: _ => c ≠ x5d ∧ c ≠ x7d end.
Definition prefix_free (x y : list byte) : Prop := ∀ r s, stop r → stop s → x ++ r = y ++ s → x = y ∧ r = s.

Lemma commas_cons x xs rest :
  commas (x :: xs) ++ rest = x ++ match xs with [] => rest | _ => x2c :: commas xs ++ rest end.
Proof. destruct xs; cbn [commas]; [done|]. by rewrite <- app_assoc. Qed.

Lemma commas_inj (close : byte) xs ys r s :
  close = x5d ∨ close = x7d → Forall starts xs → Forall starts ys → (∀ x y, x ∈ xs → y ∈ ys → prefix_free x y) →
  commas xs ++ close :: r = commas ys ++ close :: s → xs = ys ∧ r = s.
Proof.
  intros Hc Hxs. revert ys. induction Hxs as [|x xs Hx Hxs IH]; intros ys Hys Hpf.
  - destruct Hys as [|y ys Hy _]; [by intros [= ->]|]. rewrite commas_cons.
    destruct y as [|c y]; [done|]. intros [= -> _]. unfold starts in Hy. naive_solver.
  - destruct Hys as [|y ys Hy Hys].
    { rewrite commas_cons. destruct x as [|c x]; [done|]. intros [= -> _]. unfold starts in Hx. naive_solver. }
    assert (∀ q t, stop (match q with [] => close :: t | _ => x2c :: commas q ++ close :: t end)) as Hstop
      by (intros [|] t; cbn; naive_solver).
    rewrite !commas_cons. intros H. apply Hpf in H as [-> H]; [|by left|by left|apply Hstop|apply Hstop].
    assert (close ≠ x2c) as Hne by (destruct Hc as [-> | ->]; done).
    destruct xs as [|x' xs], ys as [|y' ys]; try (injection H as ?; congruence); [by injection H as ->|].
    injection H as H. destruct (IH (y' :: ys) Hys) as [-> ->]; [|done|done].
    intros a b Ha Hb. apply Hpf; by right.
Qed.

(** Values *)

(** Integers that fit [i64] or [u64]. *)
Definition int_ok (n : Z) : bool := (- 2 ^ 63 <=? n) && (n <? 2 ^ 64).
Fixpoint small_ints (v : Json) : bool :=
  match v with
  | JNum n => int_ok n
  | JArr l => forallb small_ints l
  | JObj m => forallb (λ kv, small_ints kv.2) m
  | _ => true
  end.

(** What the first byte says of a value. *)
Definition kind (v : Json) : nat :=
  match v with
  | JNull => 0 | JBool true => 1 | JBool false => 2 | JStr _ => 3 | JArr _ => 4 | JObj _ => 5
  | JNum n => if (n <? 0)%Z then 6 else 7
  | JFloat _ => 8
  end%nat.
Definition lead (c : byte) : nat :=
  match c with x6e => 0 | x74 => 1 | x66 => 2 | x22 => 3 | x5b => 4 | x7b => 5 | x2d => 6 | _ => 7 end%nat.

Lemma digit_facts c : is_digit c → lead c = 7%nat ∧ c ≠ x5d ∧ c ≠ x7d ∧ c ≠ x2c.
Proof.
  intros Hd. enough (bool_decide (lead c = 7%nat ∧ c ≠ x5d ∧ c ≠ x7d ∧ c ≠ x2c) = true) as H by exact (proj1 (bool_decide_eq_true _) H).
  revert Hd. unfold is_digit. destruct c; vm_compute; intros [H1 H2]; try done; by destruct H1.
Qed.
Lemma stop_no_digit r : stop r → no_digit r.
Proof.
  destruct r as [|c r]; [done|]. cbn. intros Hc (_ & H1 & H2 & H3)%digit_facts. naive_solver.
Qed.

Lemma fmt_i_spec n : int_ok n = true →
  ∃ d ds, string_bytes (fmt_i n) = (if n <? 0 then [x2d] else []) ++ d :: ds ∧ Forall is_digit (d :: ds)
    ∧ dec_value (d :: ds) = Z.abs n.
Proof.
  intros [H1%Z.leb_le H2%Z.ltb_lt]%andb_true_iff. unfold fmt_i. destruct (Z.ltb_spec n 0).
  - destruct (fmt_u_digits (- n)) as (d & ds & Hd & ? & ?); [lia|]. exists d, ds. rewrite string_bytes_app, Hd.
    split_and!; [done|done|lia].
  - destruct (fmt_u_digits n) as (d & ds & Hd & ? & ?); [lia|]. exists d, ds. rewrite Hd. split_and!; [done|done|lia].
Qed.
Lemma fmt_i_inj n m r s : int_ok n = true → int_ok m = true → (n <? 0) = (m <? 0) → stop r → stop s →
  string_bytes (fmt_i n) ++ r = string_bytes (fmt_i m) ++ s → n = m ∧ r = s.
Proof.
  intros Hn Hm Hsign Hr%stop_no_digit Hs%stop_no_digit.
  destruct (fmt_i_spec n Hn) as (d & ds & -> & Hd & Vn). destruct (fmt_i_spec m Hm) as (e & es & -> & He & Vm).
  rewrite Hsign, <- !app_assoc. intros H%app_inv_head. apply digits_span in H as [Heq ->]; [|done..].
  split; [|done]. assert (Z.abs n = Z.abs m) by congruence. destruct (Z.ltb_spec n 0), (Z.ltb_spec m 0); try done; lia.
Qed.

Lemma write_lead v b : small_ints v = true → write_canonical v = Ok b → ∃ c b', b = c :: b' ∧ lead c = kind v ∧ starts b.
Proof.
  intros Hi. destruct v as [|[]|n|t|s|l|m]; cbn [write_canonical]; try by intros [= <-]; eexists _, _.
  - cbn in Hi. destruct (fmt_i_spec n Hi) as (d & ds & -> & Hd & _). intros [= <-]. cbn [kind].
    destruct (n <? 0); [by eexists _, _|]. apply Forall_cons in Hd as [Hd _].
    apply digit_facts in Hd as (? & ? & ? & _). by eexists _, _.
  - intros (xs & _ & [= <-])%result_bind_Ok. by eexists _, _.
  - intros (xs & _ & [= <-])%result_bind_Ok. by eexists _, _.
Qed.

(** The members of an object, as they are written. *)
Definition member_written (kv : string * Json) (x : list byte) : Prop :=
  ∃ b, write_canonical kv.2 = Ok b ∧ x = write_json_string kv.1 ++ x3a :: b.
Lemma write_object m b :
  write_canonical (JObj m) = Ok b → ∃ xs, Forall2 member_written (sort_keys m) xs ∧ b = x7b :: commas xs ++ [x7d].
Proof.
  cbn [write_canonical]. intros (xs & Hxs & [= <-])%result_bind_Ok. exists xs. split; [|done].
  change (List.map (λ kv, (kv.1, write_canonical kv.2)) m) with (prod_map id write_canonical <$> m) in Hxs.
  rewrite sort_keys_fmap in Hxs. apply result_mapM_Ok in Hxs. apply Forall2_fmap_l in Hxs.
  eapply Forall2_impl; [exact Hxs|]. intros [k v] x. cbn. intros (y & Hy & [= <-])%result_bind_Ok. by exists y.
Qed.
Lemma write_array l b :
  write_canonical (JArr l) = Ok b → ∃ xs, Forall2 (λ v x, write_canonical v = Ok x) l xs ∧ b = x5b :: commas xs ++ [x5d].
Proof.
  cbn [write_canonical]. intros (xs & Hxs & [= <-])%result_bind_Ok. exists xs. split; [|done].
  apply result_mapM_Ok in Hxs. by apply Forall2_fmap_l in Hxs.
Qed.
Lemma sort_object m : sort_json_value (JObj m) = JObj (prod_map id sort_json_value <$> sort_keys m).
Proof.
  cbn [sort_json_value].
  change (List.map (λ kv, (kv.1, sort_json_value kv.2)) m) with (prod_map id sort_json_value <$> m).
  by rewrite sort_keys_fmap.
Qed.

(** Items between commas, whose written forms are prefix free up to [canon]. *)
Definition reads_back {A B} (good : A → Prop) (rel : A → list byte → Prop) (canon : A → B) (a : A) : Prop :=
  ∀ a' x x' r s, good a → good a' → rel a x → rel a' x' → stop r → stop s → x ++ r = x' ++ s → canon a = canon a' ∧ r = s.

Lemma items_inj {A B} (good : A → Prop) (rel : A → list byte → Prop) (canon : A → B) (close : byte) l l' xs ys r s :
  close = x5d ∨ close = x7d → (∀ a x, good a → rel a x → starts x) →
  Forall2 rel l xs → Forall2 rel l' ys → Forall good l → Forall good l' → Forall (reads_back good rel canon) l →
  commas xs ++ close :: r = commas ys ++ close :: s → canon <$> l = canon <$> l' ∧ r = s.
Proof.
  intros Hc Hstart Hl Hl' Hg Hg' Hrb H.
  assert (∀ l xs, Forall2 rel l xs → Forall good l → Forall starts xs) as Hst.
  { clear - Hstart. induction 1 as [|a x l xs Ha _ IH]; intros Hg; [constructor|].
    apply Forall_cons in Hg as [Hga Hg]. constructor; [by eapply Hstart|by apply IH]. }
  apply commas_inj in H as [<- ->]; [|done|by eapply Hst|by eapply Hst|].
  - split; [|done]. revert l' Hl' Hg'. induction Hl as [|a x l xs Ha Hl IH]; intros l' Hl' Hg'.
    + apply Forall2_nil_inv_r in Hl' as ->. done.
    + apply Forall2_cons_inv_r in Hl' as (a' & l1 & Ha' & Hl1 & ->).
      apply Forall_cons in Hg as [Hga Hg], Hg' as [Hga' Hg'], Hrb as [Hra Hrb]. cbn. f_equal; [|by apply IH].
      by apply (Hra a' x x [] []).
  - intros x y Hx Hy q t Hq Ht Hxy.
    apply list_elem_of_lookup in Hx as [i Hi], Hy as [j Hj].
    destruct (Forall2_lookup_r _ _ _ _ _ Hl Hi) as (a & Hai & Ha). destruct (Forall2_lookup_r _ _ _ _ _ Hl' Hj) as (a' & Haj & Ha').
    rewrite Forall_lookup in Hg, Hg', Hrb.
    destruct (Hrb _ _ Hai a' x y q t (Hg _ _ Hai) (Hg' _ _ Haj) Ha Ha' Hq Ht Hxy) as [_ ->].
    split; [|done]. by apply app_inv_tail in Hxy.
Qed.

Definition written (v : Json) (b : list byte) : Prop := write_canonical v = Ok b.
Definition small (v : Json) : Prop := small_ints v = true.

Lemma small_array l : small (JArr l) → Forall small l.
Proof.
  unfold small. cbn [small_ints]. intros H. apply Forall_forall. intros v Hv.
  by apply (proj1 (forallb_forall _ l) H), list_elem_of_In.
Qed.
Lemma small_object m : small (JObj m) → Forall (λ kv, small kv.2) (sort_keys m).
Proof.
  unfold small. cbn [small_ints]. intros H. rewrite sort_keys_Permutation. apply Forall_forall. intros kv Hkv.
  by apply (proj1 (forallb_forall _ m) H), list_elem_of_In.
Qed.

Lemma value_reads_back v : reads_back small written sort_json_value v.
Proof.
  induction v as [|b|n|t|str|l IH|m IH] using json_ind'; intros w x y r s Hv Hw Hx Hy Hr Hs H;
    (destruct (write_lead _ _ Hv Hx) as (c & x' & Ex & Hc & _); destruct (write_lead _ _ Hw Hy) as (d & y' & Ey & Hd & _);
     assert (c = d) as -> by (rewrite Ex, Ey in H; by injection H);
     rewrite Hc in Hd; clear Hc Ex Ey x' y' d).
  - destruct w as [|[]|n'| | | |]; cbn in Hd; try done; [|by destruct (n' <? 0)].
    unfold written in Hx, Hy. cbn in Hx, Hy. simplify_eq; try (apply app_inv_head in H as ->); done.
  - destruct b, w as [|[]|n'| | | |]; cbn in Hd; try done; try (by destruct (n' <? 0));
      unfold written in Hx, Hy; cbn in Hx, Hy; simplify_eq; try (apply app_inv_head in H as ->); done.
  - destruct w as [|[]|n'| | | |]; cbn in Hd; try (by destruct (n <? 0)).
    unfold written in Hx, Hy. cbn [write_canonical] in Hx, Hy. injection Hx as <-. injection Hy as <-.
    apply fmt_i_inj in H as [-> ->]; try done. by destruct (n <? 0), (n' <? 0).
  - done.
  - destruct w as [|[]|n'| | | |]; cbn in Hd; try done; [by destruct (n' <? 0)|].
    unfold written in Hx, Hy. cbn [write_canonical] in Hx, Hy. injection Hx as <-. injection Hy as <-.
    by apply write_json_string_inj in H as [-> ->].
  - destruct w as [|[]|n'| | |l'|]; cbn in Hd; try done; [by destruct (n' <? 0)|].
    apply write_array in Hx as (xs & Hxs & ->), Hy as (ys & Hys & ->).
    rewrite <- !app_comm_cons, <- !app_assoc in H. injection H as H.
    apply (items_inj small written sort_json_value) with (l := l) (l' := l') in H as [H ->];
      [|by left| |done|done|by apply small_array|by apply small_array|done].
    + cbn [sort_json_value]. split; [by apply (f_equal JArr) in H|done].
    + intros a z Ha Hz. by destruct (write_lead _ _ Ha Hz) as (? & ? & _ & _ & ?).
  - destruct w as [|[]|n'| | | |m']; cbn in Hd; try done; [by destruct (n' <? 0)|].
    apply write_object in Hx as (xs & Hxs & ->), Hy as (ys & Hys & ->).
    rewrite <- !app_comm_cons, <- !app_assoc in H. injection H as H.
    apply (items_inj (λ kv, small kv.2) member_written (prod_map id sort_json_value))
      with (l := sort_keys m) (l' := sort_keys m') in H as [H ->];
      [|by right| |done|done|by apply small_object|by apply small_object|].
    + rewrite !sort_object. by rewrite H.
    + intros kv z _ (b & _ & ->). done.
    + rewrite sort_keys_Permutation. eapply Forall_impl; [exact IH|]. clear. intros [k v] IH [k' v'] x y r s Hv Hw (b & Hb & ->) (b' & Hb' & ->) Hr Hs H.
      cbn [fst snd] in *. rewrite <- !app_assoc in H. apply write_json_string_inj in H as [-> [= H]].
      destruct (IH v' b b' r s Hv Hw Hb Hb' Hr Hs H) as [Heq ->]. split; [|done]. unfold prod_map. cbn. by rewrite Heq.
Qed.

(** Equal canonical texts are texts of equal values, up to the order of members. *)
Lemma write_canonical_inj v w b :
  small v → small w → write_canonical v = Ok b → write_canonical w = Ok b → sort_json_value v = sort_json_value w.
Proof. intros Hv Hw Hb Hb'. by apply (value_reads_back v w b b [] []). Qed.

(** ** The preflight *)

Lemma ser_ind' (P : Ser → Prop) :
  P SNull → (∀ b, P (SBool b)) → (∀ n, P (SInt n)) → (∀ f t, P (SFloat f t)) → (∀ s, P (SStr s)) →
  (∀ l, Forall P l → P (SSeq l)) → (∀ m, Forall (λ kv, P kv.2) m → P (SMap m)) → ∀ v, P v.
Proof.
  intros Hnull Hbool Hint Hfloat Hstr Hseq Hmap. fix IH 1.
  intros [|b|n|f t|s|l|m]; [done|apply Hbool|apply Hint|apply Hfloat|apply Hstr|apply Hseq|apply Hmap].
  - induction l as [|v l IHl]; constructor; [apply IH|exact IHl].
  - induction m as [|[k v] m IHm]; constructor; [apply IH|exact IHm].
Qed.

Fixpoint has_float (v : Ser) : bool :=
  match v with
  | SFloat _ _ => true
  | SSeq l => existsb has_float l
  | SMap m => existsb (λ kv, has_float kv.2) m
  | _ => false
  end.

Lemma result_mapM_total {A B E} (f : A → result B E) l :
  Forall (λ a, ∃ b, f a = Ok b) l → ∃ bs, result_mapM f l = Ok bs.
Proof.
  induction 1 as [|a l [b Hb] _ [bs Hbs]]; [by exists []|]. exists (b :: bs). cbn. by rewrite Hb, Hbs.
Qed.

Lemma preflight_spec v :
  match reject_floats v with
  | Ok _ => has_float v = false ∧ ∃ b, write_canonical (to_value v) = Ok b
  | Err _ => has_float v = true
  end.
Proof.
  induction v as [|b|n|f t|str|l IH|m IH] using ser_ind'; cbn [reject_floats has_float to_value]; try (split; [done|by eexists]); [done|..].
  - assert (match result_mapM (λ r, r) (List.map reject_floats l) with
            | Ok _ => existsb has_float l = false ∧ Forall (λ r, ∃ b, r = Ok b) (List.map write_canonical (List.map to_value l))
            | Err _ => existsb has_float l = true end) as H.
    { induction IH as [|v l Hv _ IHl]; cbn; [by split; [|constructor]|].
      destruct (reject_floats v); [|by rewrite Hv]. destruct Hv as [-> ?].
      destruct (result_mapM _ _); [|done]. destruct IHl. by split; [|constructor]. }
    destruct (result_mapM _ _); cbn [result_bind]; [|done]. destruct H as [? Hall]. split; [done|].
    apply result_mapM_total in Hall as [bs Hbs]. cbn [write_canonical]. rewrite Hbs. by eexists.
  - assert (match result_mapM (λ r, r) (List.map (λ kv, reject_floats kv.2) m) with
            | Ok _ => existsb (λ kv, has_float kv.2) m = false
                ∧ Forall (λ kv, ∃ b, kv.2 = Ok b)
                    (List.map (λ kv, (kv.1, write_canonical kv.2)) (List.map (λ kv, (kv.1, to_value kv.2)) m))
            | Err _ => existsb (λ kv, has_float kv.2) m = true end) as H.
    { induction IH as [|[k v] m Hv _ IHm]; cbn; [by split; [|constructor]|]. cbn [fst snd] in *.
      destruct (reject_floats v); [|by rewrite Hv]. destruct Hv as [-> ?].
      destruct (result_mapM _ _); [|done]. destruct IHm. by split; [|constructor]. }
    destruct (result_mapM _ _); cbn [result_bind]; [|done]. destruct H as [? Hall]. split; [done|].
    rewrite <- sort_keys_Permutation in Hall. cbn [write_canonical].
    destruct (result_mapM_total write_member (sort_keys (List.map (λ kv, (kv.1, write_canonical kv.2))
      (List.map (λ kv, (kv.1, to_value kv.2)) m)))) as [bs Hbs].
    { eapply Forall_impl; [exact Hall|]. intros [k r] [b Hb]. cbn in Hb. subst r. by eexists. }
    rewrite Hbs. by eexists.
Qed.

(** A JSON value, as it serializes itself. *)
Fixpoint ser_of (v : Json) : Ser :=
  match v with
  | JNull => SNull
  | JBool b => SBool b
  | JNum n => SInt n
  | JFloat t => SFloat true t
  | JStr s => SStr s
  | JArr l => SSeq (List.map ser_of l)
  | JObj m => SMap (List.map (λ kv, (kv.1, ser_of kv.2)) m)
  end.
Lemma to_value_ser_of v : to_value (ser_of v) = v.
Proof.
  induction v as [| | | | |l IH|m IH] using json_ind'; try done; cbn [ser_of to_value]; f_equal; rewrite map_map.
  - induction IH as [|v l Hv _ IHl]; [done|]. cbn. by rewrite Hv, IHl.
  - induction IH as [|[k v] m Hv _ IHm]; [done|]. cbn in *. by rewrite Hv, IHm.
Qed.

(** ** The property *)

(** Canonical text is canonical.  A value has canonical bytes exactly if no float occurs
    in it, and two values of machine integers with the same bytes are the same JSON up to
    the order of object members. *)
Theorem canonical_text_determines (v w : Ser) :
  small (to_value v) → small (to_value w) →
  (is_ok (canonical_json_v1_bytes v) = true ↔ has_float v = false)
  ∧ ∀ b, canonical_json_v1_bytes v = Ok b → canonical_json_v1_bytes w = Ok b →
      sort_json_value (to_value v) = sort_json_value (to_value w).
Proof.
  intros Hv Hw. split.
  - unfold canonical_json_v1_bytes. pose proof (preflight_spec v) as H. destruct (reject_floats v); cbn [result_bind].
    + destruct H as [-> [b ->]]. done.
    + rewrite H. done.
  - intros b (? & _ & Hb)%result_bind_Ok (? & _ & Hb')%result_bind_Ok. by eapply write_canonical_inj.
Qed.

Lemma canonical_text_determines_witness :
  let v := SMap [("b", SInt 1); ("a", SNull)] in let w := SMap [("a", SNull); ("b", SInt 1)] in
  is_ok (canonical_json_v1_bytes v) = true ∧ sort_json_value (to_value v) = sort_json_value (to_value w).
Proof.
  intros v w. destruct (canonical_text_determines v w) as [[_ Hok] Heq]; [reflexivity..|].
  split; [apply Hok; reflexivity|]. eapply Heq; reflexivity.
Defined.
