(* ===== verification/RecallEnvelope.v ===== *)
(** * Recall envelopes: [crates/aeon_nexus_bridge/src/v2.rs]

    The signed recall attestation: its wire records, the bytes that are signed, and strict
    validation.  SHA-256 and the texts of UUIDs are given by [BridgeLib]; the derived JSON
    parser is not modelled, what it calls back ([parse], [from_wire]) is.  Integers keep
    the width of their Rust type ([payload_typed]). *)

From stdpp Require Import pretty.
From S2P Require Import Prelude Json CanonicalJson.

Definition RECALL_PROTOCOL_VERSION : string := "aeon-recall-envelope-v2".
Definition RECALL_CANONICALIZATION_VERSION : string := "aeon-canonical-json-v1".
Definition RECALL_SIGNING_DOMAIN_LABEL : string := "AEON_RECALL_ENVELOPE_V2".
Definition RECALL_SIGNING_DOMAIN_BYTES : list byte := string_bytes RECALL_SIGNING_DOMAIN_LABEL ++ [x00].
Definition RECALL_MAX_TTL_MS : Z := 120000.
Definition RECALL_MIN_LIMIT : Z := 1.
Definition RECALL_MAX_LIMIT : Z := 100.
Definition RECALL_MAX_HITS : nat := 100.
Definition RECALL_NONCE_HEX_LEN : nat := 64.
Definition RECALL_SIGNATURE_ALGORITHM : string := "ed25519".
Definition RECALL_SIGNATURE_HEX_LEN : nat := 128.
Definition SHA256_ALGORITHM : string := "sha256".
Definition SHA256_HEX_LEN : nat := 64.
Definition UUID_CANONICAL_LEN : nat := 36.
Definition UUID_HYPHEN_OFFSETS : list nat := [8; 13; 18; 23]%nat.

Inductive RecallError :=
| FloatInCanonicalBytes (value : string)
| ProtocolVersion (found : string)
| CanonicalizationVersion (found : string)
| NonceLength (length : nat)
| NonceCharset (nonce : string)
| NegativeIssuedAt (value : Z)
| ExpiryNotAfterIssue (issued_at expires_at : Z)
| TtlTooLong (ttl_ms max_ttl_ms : Z)
| LimitOutOfRange (limit min_limit max_limit : Z)
| UnsupportedAlgorithm (found : string)
| SignatureLength (length : nat)
| NonCanonicalUuid (found : string)
| TooManyHits (hits max_hits : nat)
| HitsExceedLimit (hits : nat) (limit : Z)
| RankMismatch (index : nat) (rank : Z)
| DuplicateMemoryId (id : string)
| DuplicateMemoryVersionId (id : string)
| EmptyIdentifier (field : string)
| MalformedHex (field : string)
| DigestAlgorithm (field algorithm : string)
| SigningDomain (found : string)
| SignedPayloadDigestNotPubliclyRecomputable
| SignedPayloadDigestMismatch (expected found : string).

Class BridgeLib := {
  sha256 : list byte → list byte;
  uuid_parse_str : string → option Uuid;
  hyphenated : Uuid → string;
}.
(** SHA-256 has 32 bytes and the hyphenated text of a UUID is its own. *)
Class BridgeLaws (B : BridgeLib) : Prop := {
  sha256_length bs : length (sha256 bs) = 32%nat;
  hyphenated_inj : Inj (=) (=) hyphenated;
}.
#[export] Existing Instance hyphenated_inj.

Definition lowercase_hex_byte (a : ascii) : bool :=
  ((48 <=? code a) && (code a <=? 57) || (97 <=? code a) && (code a <=? 102))%nat.
Definition all_lowercase_hex (s : string) : bool := forallb lowercase_hex_byte (String.list_ascii_of_string s).

(** ** Wire records *)

Record RecallDigestV2 := { rd_algorithm : string; rd_value : string; rd_public_recomputable : bool }.
Record RecallHitV2 := {
  memory_id : string;
  memory_version_id : string;
  content_digest : RecallDigestV2;
  rank : Z;
  score_micros : option Z;
  provenance_digest : option RecallDigestV2;
  authority_label : option string;
}.
Record RecallEnvelopeV2Payload := {
  protocol_version : string;
  canonicalization_version : string;
  request_id : Uuid;
  nonce : string;
  issued_at_unix_ms : Z;
  expires_at_unix_ms : Z;
  tenant_id : string;
  workspace_id : option string;
  agent_id : string;
  session_id : option string;
  mission_id : option string;
  rv_run_id : Uuid;
  query_digest : RecallDigestV2;
  limit : Z;
  retrieval_policy_digest : RecallDigestV2;
  embedding_config_digest : RecallDigestV2;
  hits : list RecallHitV2;
}.
Record RecallSignatureV2 := {
  sig_algorithm : string;
  sig_key_id : string;
  sig_hex : string;
  sig_payload_digest : RecallDigestV2;
  signing_domain : string;
}.
Record RecallEnvelopeV2 := { payload : RecallEnvelopeV2Payload; envelope_signature : RecallSignatureV2 }.

Section Envelope.
Context `{B : BridgeLib}.

Definition sha256_hex (bytes : list byte) : string := hex_lower (sha256 bytes).

(** [CanonicalUuid::parse]. *)
Definition uuid_byte_ok (offset : nat) (a : ascii) : bool :=
  if bool_decide (offset ∈ UUID_HYPHEN_OFFSETS) then Ascii.eqb a "-"%char else lowercase_hex_byte a.
Definition parse (input : string) : result Uuid RecallError :=
  if negb (String.length input =? UUID_CANONICAL_LEN)%nat then Err (NonCanonicalUuid input)
  else if negb (forallb (λ '(offset, a), uuid_byte_ok offset a)
                  (zip (seq 0 UUID_CANONICAL_LEN) (String.list_ascii_of_string input)))
  then Err (NonCanonicalUuid input)
  else ok_or (uuid_parse_str input) (NonCanonicalUuid input).

(** [RecallDigestV2::from_wire]; the error is its message. *)
Definition from_wire (algorithm value : string) (public_recomputable : bool) : result RecallDigestV2 string :=
  if negb (String.eqb algorithm SHA256_ALGORITHM) then Err "digest algorithm must be exactly sha256"
  else if negb (String.length value =? SHA256_HEX_LEN)%nat || negb (all_lowercase_hex value)
  then Err "digest value must be exactly 64 lowercase hexadecimal characters"
  else Ok {| rd_algorithm := algorithm; rd_value := value; rd_public_recomputable := public_recomputable |}.
Definition digest_sha256 (bytes : list byte) (public_recomputable : bool) : RecallDigestV2 :=
  {| rd_algorithm := SHA256_ALGORITHM; rd_value := sha256_hex bytes; rd_public_recomputable := public_recomputable |}.

(** ** What the records serialize to *)

Definition uuid_json (id : Uuid) : Json := JStr (hyphenated id).
Definition recall_digest_json (d : RecallDigestV2) : Json :=
  JObj [("algorithm", JStr d.(rd_algorithm)); ("value", JStr d.(rd_value));
        ("public_recomputable", JBool d.(rd_public_recomputable))].
Definition hit_json (h : RecallHitV2) : Json :=
  JObj [("memory_id", JStr h.(memory_id)); ("memory_version_id", JStr h.(memory_version_id));
        ("content_digest", recall_digest_json h.(content_digest)); ("rank", JNum h.(rank));
        ("score_micros", opt JNum h.(score_micros));
        ("provenance_digest", opt recall_digest_json h.(provenance_digest));
        ("authority_label", opt JStr h.(authority_label))].
Definition hits_json (l : list RecallHitV2) : Json := JArr (hit_json <$> l).
Definition payload_json (p : RecallEnvelopeV2Payload) : Json :=
  JObj [("protocol_version", JStr p.(protocol_version)); ("canonicalization_version", JStr p.(canonicalization_version));
        ("request_id", uuid_json p.(request_id)); ("nonce", JStr p.(nonce));
        ("issued_at_unix_ms", JNum p.(issued_at_unix_ms)); ("expires_at_unix_ms", JNum p.(expires_at_unix_ms));
        ("tenant_id", JStr p.(tenant_id)); ("workspace_id", opt JStr p.(workspace_id)); ("agent_id", JStr p.(agent_id));
        ("session_id", opt JStr p.(session_id)); ("mission_id", opt JStr p.(mission_id)); ("run_id", uuid_json p.(rv_run_id));
        ("query_digest", recall_digest_json p.(query_digest)); ("limit", JNum p.(limit));
        ("retrieval_policy_digest", recall_digest_json p.(retrieval_policy_digest));
        ("embedding_config_digest", recall_digest_json p.(embedding_config_digest)); ("hits", hits_json p.(hits))].

(** ** Signing bytes *)

Definition recall_signing_bytes (payload : RecallEnvelopeV2Payload) : result (list byte) RecallError :=
  let? canonical := result_map_err FloatInCanonicalBytes (canonical_json_v1_bytes (ser_of (payload_json payload))) in
  Ok (RECALL_SIGNING_DOMAIN_BYTES ++ canonical).
Definition recall_signed_payload_digest (payload : RecallEnvelopeV2Payload) : result RecallDigestV2 RecallError :=
  let? bytes := recall_signing_bytes payload in Ok (digest_sha256 bytes true).

(** ** Validation *)

Definition validate_nonce (nonce : string) : result () RecallError :=
  if negb (String.length nonce =? RECALL_NONCE_HEX_LEN)%nat then Err (NonceLength (String.length nonce))
  else if negb (all_lowercase_hex nonce) then Err (NonceCharset nonce)
  else Ok ().
Definition require_non_empty (field value : string) : result () RecallError :=
  if String.eqb value "" then Err (EmptyIdentifier field) else Ok ().
Definition require_non_empty_nullable (field : string) (value : option string) : result () RecallError :=
  match value with Some inner => require_non_empty field inner | None => Ok () end.
Definition require_lowercase_hex (field value : string) : result () RecallError :=
  if String.eqb value "" || Nat.odd (String.length value) then Err (MalformedHex field)
  else if negb (all_lowercase_hex value) then Err (MalformedHex field)
  else Ok ().
Definition require_sha256_digest (field : string) (digest : RecallDigestV2) : result () RecallError :=
  if negb (String.eqb digest.(rd_algorithm) SHA256_ALGORITHM) then Err (DigestAlgorithm field digest.(rd_algorithm))
  else if negb (String.length digest.(rd_value) =? SHA256_HEX_LEN)%nat then Err (MalformedHex field)
  else require_lowercase_hex field digest.(rd_value).

Definition validate_hit (index : nat) (hit : RecallHitV2) : result () RecallError :=
  if negb (hit.(rank) =? Z.of_nat index) then Err (RankMismatch index hit.(rank))
  else
    let? _ := require_non_empty "memory_id" hit.(memory_id) in
    let? _ := require_non_empty "memory_version_id" hit.(memory_version_id) in
    let? _ := require_sha256_digest "content_digest" hit.(content_digest) in
    let? _ := match hit.(provenance_digest) with
              | Some digest => require_sha256_digest "provenance_digest" digest
              | None => Ok ()
              end in
    match hit.(authority_label) with Some label => require_non_empty "authority_label" label | None => Ok () end.
Fixpoint validate_hits (index : nat) (memory_ids memory_version_ids : gset string) (hits : list RecallHitV2)
  : result () RecallError :=
  match hits with
  | [] => Ok ()
  | hit :: hits =>
      let? _ := validate_hit index hit in
      if bool_decide (hit.(memory_id) ∈ memory_ids) then Err (DuplicateMemoryId hit.(memory_id))
      else if bool_decide (hit.(memory_version_id) ∈ memory_version_ids)
      then Err (DuplicateMemoryVersionId hit.(memory_version_id))
      else validate_hits (S index) ({[hit.(memory_id)]} ∪ memory_ids)
             ({[hit.(memory_version_id)]} ∪ memory_version_ids) hits
  end.

Definition validate_payload (p : RecallEnvelopeV2Payload) : result () RecallError :=
  if negb (String.eqb p.(protocol_version) RECALL_PROTOCOL_VERSION) then Err (ProtocolVersion p.(protocol_version))
  else if negb (String.eqb p.(canonicalization_version) RECALL_CANONICALIZATION_VERSION)
  then Err (CanonicalizationVersion p.(canonicalization_version))
  else
    let? _ := validate_nonce p.(nonce) in
    if p.(issued_at_unix_ms) <? 0 then Err (NegativeIssuedAt p.(issued_at_unix_ms))
    else if p.(expires_at_unix_ms) <=? p.(issued_at_unix_ms)
    then Err (ExpiryNotAfterIssue p.(issued_at_unix_ms) p.(expires_at_unix_ms))
    else
      let ttl_ms := p.(expires_at_unix_ms) - p.(issued_at_unix_ms) in
      if RECALL_MAX_TTL_MS <? ttl_ms then Err (TtlTooLong ttl_ms RECALL_MAX_TTL_MS)
      else
        let? _ := require_non_empty "tenant_id" p.(tenant_id) in
        let? _ := require_non_empty "agent_id" p.(agent_id) in
        let? _ := require_non_empty_nullable "workspace_id" p.(workspace_id) in
        let? _ := require_non_empty_nullable "session_id" p.(session_id) in
        let? _ := require_non_empty_nullable "mission_id" p.(mission_id) in
        let? _ := require_sha256_digest "query_digest" p.(query_digest) in
        let? _ := require_sha256_digest "retrieval_policy_digest" p.(retrieval_policy_digest) in
        let? _ := require_sha256_digest "embedding_config_digest" p.(embedding_config_digest) in
        if (p.(limit) <? RECALL_MIN_LIMIT) || (RECALL_MAX_LIMIT <? p.(limit))
        then Err (LimitOutOfRange p.(limit) RECALL_MIN_LIMIT RECALL_MAX_LIMIT)
        else if (RECALL_MAX_HITS <? length p.(hits))%nat then Err (TooManyHits (length p.(hits)) RECALL_MAX_HITS)
        else if p.(limit) <? Z.of_nat (length p.(hits)) then Err (HitsExceedLimit (length p.(hits)) p.(limit))
        else validate_hits 0 ∅ ∅ p.(hits).

Definition validate (e : RecallEnvelopeV2) : result () RecallError :=
  let? _ := validate_payload e.(payload) in
  let s := e.(envelope_signature) in
  if negb (String.eqb s.(signing_domain) RECALL_SIGNING_DOMAIN_LABEL) then Err (SigningDomain s.(signing_domain))
  else if negb (String.eqb s.(sig_algorithm) RECALL_SIGNATURE_ALGORITHM) then Err (UnsupportedAlgorithm s.(sig_algorithm))
  else
    let? _ := require_non_empty "key_id" s.(sig_key_id) in
    let? _ := require_lowercase_hex "signature" s.(sig_hex) in
    if negb (String.length s.(sig_hex) =? RECALL_SIGNATURE_HEX_LEN)%nat then Err (SignatureLength (String.length s.(sig_hex)))
    else
      let? _ := require_sha256_digest "signed_payload_digest" s.(sig_payload_digest) in
      if negb s.(sig_payload_digest).(rd_public_recomputable) then Err SignedPayloadDigestNotPubliclyRecomputable
      else
        let? expected := recall_signed_payload_digest e.(payload) in
        if negb (String.eqb s.(sig_payload_digest).(rd_value) expected.(rd_value))
        then Err (SignedPayloadDigestMismatch expected.(rd_value) s.(sig_payload_digest).(rd_value))
        else Ok ().
End Envelope.

(** ** What validation accepts *)

Definition lowercase_hex (n : nat) (s : string) : Prop := String.length s = n ∧ all_lowercase_hex s = true.
Definition digest_ok (d : RecallDigestV2) : Prop := d.(rd_algorithm) = SHA256_ALGORITHM ∧ lowercase_hex 64 d.(rd_value).
Definition filled (o : option string) : Prop := o ≠ Some "".
Record hit_ok (index : nat) (h : RecallHitV2) : Prop := {
  hit_rank : h.(rank) = Z.of_nat index;
  hit_ids : h.(memory_id) ≠ "" ∧ h.(memory_version_id) ≠ "" ∧ filled h.(authority_label);
  hit_digests : digest_ok h.(content_digest) ∧ (∀ d, h.(provenance_digest) = Some d → digest_ok d);
}.
Record payload_ok (p : RecallEnvelopeV2Payload) : Prop := {
  ok_versions : p.(protocol_version) = RECALL_PROTOCOL_VERSION ∧ p.(canonicalization_version) = RECALL_CANONICALIZATION_VERSION;
  ok_nonce : lowercase_hex 64 p.(nonce);
  ok_window : 0 ≤ p.(issued_at_unix_ms) < p.(expires_at_unix_ms) ∧ p.(expires_at_unix_ms) ≤ p.(issued_at_unix_ms) + 120000;
  ok_identifiers : p.(tenant_id) ≠ "" ∧ p.(agent_id) ≠ "" ∧ filled p.(workspace_id) ∧ filled p.(session_id) ∧ filled p.(mission_id);
  ok_digests : digest_ok p.(query_digest) ∧ digest_ok p.(retrieval_policy_digest) ∧ digest_ok p.(embedding_config_digest);
  ok_limit : 1 ≤ p.(limit) ≤ 100 ∧ Z.of_nat (length p.(hits)) ≤ p.(limit);
  ok_hits : ∀ i h, p.(hits) !! i = Some h → hit_ok i h;
  ok_distinct : NoDup (memory_id <$> p.(hits)) ∧ NoDup (memory_version_id <$> p.(hits));
}.

Lemma bind_unit_Ok {A E} (r : result () E) (k : result A E) a : (let? _ := r in k) = Ok a ↔ r = Ok () ∧ k = Ok a.
Proof. destruct r as [[]|]; naive_solver. Qed.
Lemma guard_Ok {A E} (b : bool) (e : E) (k : result A E) a : (if b then Err e else k) = Ok a ↔ b = false ∧ k = Ok a.
Proof. destruct b; naive_solver. Qed.
Lemma done_Ok {E} : @Ok () E () = Ok () ↔ True.
Proof. done. Qed.

Section Accepts.
Context `{B : BridgeLib}.

Lemma require_non_empty_Ok field value : require_non_empty field value = Ok () ↔ value ≠ "".
Proof using Type. unfold require_non_empty. rewrite guard_Ok, String.eqb_neq. naive_solver. Qed.
Lemma require_nullable_Ok field value : require_non_empty_nullable field value = Ok () ↔ filled value.
Proof using Type.
  unfold filled. destruct value as [s|]; cbn; [|naive_solver]. rewrite require_non_empty_Ok. naive_solver.
Qed.
Lemma validate_nonce_Ok nonce : validate_nonce nonce = Ok () ↔ lowercase_hex 64 nonce.
Proof using Type.
  unfold validate_nonce, lowercase_hex. rewrite !guard_Ok, !negb_false_iff, Nat.eqb_eq. naive_solver.
Qed.
Lemma require_lowercase_hex_Ok field value :
  require_lowercase_hex field value = Ok () ↔ value ≠ "" ∧ Nat.odd (String.length value) = false ∧ all_lowercase_hex value = true.
Proof using Type.
  unfold require_lowercase_hex. rewrite !guard_Ok, orb_false_iff, negb_false_iff, String.eqb_neq. naive_solver.
Qed.
Lemma require_sha256_digest_Ok field d : require_sha256_digest field d = Ok () ↔ digest_ok d.
Proof using Type.
  unfold require_sha256_digest, digest_ok, lowercase_hex.
  rewrite !guard_Ok, !negb_false_iff, String.eqb_eq, Nat.eqb_eq, require_lowercase_hex_Ok. unfold SHA256_HEX_LEN.
  split; [naive_solver|]. intros (? & Hlen & ?). split_and!; try done; [by intros Hv; rewrite Hv in Hlen|by rewrite Hlen].
Qed.

Lemma validate_hit_Ok i h : validate_hit i h = Ok () ↔ hit_ok i h.
Proof using Type.
  unfold validate_hit. rewrite guard_Ok, !bind_unit_Ok, negb_false_iff, Z.eqb_eq, !require_non_empty_Ok, require_sha256_digest_Ok.
  assert (match h.(provenance_digest) with Some d => require_sha256_digest "provenance_digest" d | None => Ok () end = Ok ()
    ↔ ∀ d, h.(provenance_digest) = Some d → digest_ok d) as ->.
  { destruct (provenance_digest h); [rewrite require_sha256_digest_Ok|]; naive_solver. }
  assert (match h.(authority_label) with Some l => require_non_empty "authority_label" l | None => Ok () end = Ok ()
    ↔ filled h.(authority_label)) as -> by apply (require_nullable_Ok "authority_label").
  split; [intros (? & ? & ? & ? & ? & ?); constructor; naive_solver|intros [? (? & ? & ?) [? ?]]; naive_solver].
Qed.

Lemma validate_hits_Ok hits : ∀ i ids vids,
  validate_hits i ids vids hits = Ok () ↔
  (∀ j h, hits !! j = Some h → hit_ok (i + j) h)
  ∧ (NoDup (memory_id <$> hits) ∧ ∀ h, h ∈ hits → h.(memory_id) ∉ ids)
  ∧ NoDup (memory_version_id <$> hits) ∧ ∀ h, h ∈ hits → h.(memory_version_id) ∉ vids.
Proof using Type.
  induction hits as [|h hits IH]; intros i ids vids; cbn [validate_hits].
  { rewrite done_Ok. split; [|done]. intros _. split_and!; [done|apply NoDup_nil_2|by intros ? ?%elem_of_nil|apply NoDup_nil_2|by intros ? ?%elem_of_nil]. }
  rewrite bind_unit_Ok, !guard_Ok, !bool_decide_eq_false, validate_hit_Ok, IH. cbn [fmap list_fmap]. rewrite !NoDup_cons.
  assert ((∀ j h', (h :: hits) !! j = Some h' → hit_ok (i + j) h') ↔ hit_ok i h ∧ ∀ j h', hits !! j = Some h' → hit_ok (S i + j) h') as ->.
  { split.
    - intros H. split; [rewrite <- (Nat.add_0_r i); by apply H|]. intros j h' Hj. rewrite Nat.add_succ_comm. by apply H.
    - intros [H0 H] [|j] h' Hj; [injection Hj as <-; by rewrite Nat.add_0_r|]. rewrite <- Nat.add_succ_comm. by apply H. }
  setoid_rewrite elem_of_cons. setoid_rewrite list_elem_of_fmap. setoid_rewrite not_elem_of_union. setoid_rewrite not_elem_of_singleton.
  naive_solver.
Qed.

Lemma validate_payload_Ok p : validate_payload p = Ok () ↔ payload_ok p.
Proof using Type.
  unfold validate_payload.
  rewrite !guard_Ok, !bind_unit_Ok, !guard_Ok, !bind_unit_Ok, !guard_Ok, !negb_false_iff, !String.eqb_eq, validate_nonce_Ok,
    !require_non_empty_Ok, !require_nullable_Ok, !require_sha256_digest_Ok, validate_hits_Ok, orb_false_iff, !Z.ltb_ge, Z.leb_gt,
    Nat.ltb_ge.
  unfold RECALL_MAX_TTL_MS, RECALL_MIN_LIMIT, RECALL_MAX_LIMIT, RECALL_MAX_HITS. cbn [Nat.add].
  split.
  - intros (? & ? & ? & ? & ? & ? & ? & ? & ? & ? & ? & ? & ? & ? & [? ?] & ? & ? & ? & [? _] & ? & _).
    constructor; try tauto; lia.
  - intros [[? ?] ? [[? ?] ?] (? & ? & ? & ? & ?) (? & ? & ?) [[? ?] ?] ? [? ?]].
    split_and!; try done; try lia; set_solver.
Qed.
End Accepts.

(** ** Signing bytes *)

(** The integers of a payload are [i64] and [u32]. *)
Definition is_i64 (n : Z) : Prop := - 2 ^ 63 ≤ n < 2 ^ 63.
Definition is_u32 (n : Z) : Prop := 0 ≤ n < 2 ^ 32.
Definition payload_typed (p : RecallEnvelopeV2Payload) : Prop :=
  is_i64 p.(issued_at_unix_ms) ∧ is_i64 p.(expires_at_unix_ms) ∧ is_u32 p.(limit)
  ∧ Forall (λ h, is_u32 h.(rank) ∧ ∀ s, h.(score_micros) = Some s → is_i64 s) p.(hits).

Lemma int_ok_i64 n : is_i64 n → int_ok n = true.
Proof. unfold is_i64, int_ok. lia. Qed.
Lemma int_ok_u32 n : is_u32 n → int_ok n = true.
Proof. unfold is_u32, int_ok. lia. Qed.

Section Signing.
Context `{B : BridgeLib}.

Lemma small_opt {A} (f : A → Json) o : (∀ a, o = Some a → small_ints (f a) = true) → small_ints (opt f o) = true.
Proof using Type. destruct o; cbn; naive_solver. Qed.
Lemma small_payload p : payload_typed p → small (payload_json p).
Proof using Type.
  intros (Hi & He & Hl & Hh). unfold small, payload_json. cbn [small_ints forallb snd].
  rewrite !int_ok_i64, int_ok_u32, !small_opt by done. rewrite !andb_true_l, andb_true_r. unfold hits_json. cbn [small_ints].
  apply forallb_forall. intros v Hv%list_elem_of_In. apply list_elem_of_fmap in Hv as (h & -> & Hin).
  rewrite Forall_forall in Hh. destruct (Hh _ Hin) as [Hr Hs]. unfold hit_json. cbn [small_ints forallb snd].
  rewrite int_ok_u32, !small_opt; try done. intros s Hsc. cbn. by apply int_ok_i64, Hs.
Qed.

Lemma float_free_opt {A} (f : A → Json) o :
  (∀ a, has_float (ser_of (f a)) = false) → has_float (ser_of (opt f o)) = false.
Proof using Type. intros Hf. destruct o; [apply Hf|done]. Qed.
Lemma float_free_payload p : has_float (ser_of (payload_json p)) = false.
Proof using Type.
  unfold payload_json, hits_json. cbn [ser_of List.map has_float existsb snd fst]. rewrite !float_free_opt by done. rewrite !orb_false_l, orb_false_r.
  induction (hits p) as [|h l IH]; [done|]. cbn [fmap list_fmap List.map existsb]. rewrite orb_false_iff. split; [|exact IH].
  unfold hit_json. cbn [ser_of List.map has_float existsb snd fst]. by rewrite !float_free_opt by done.
Qed.

Lemma signing_bytes_total p : ∃ canonical,
  canonical_json_v1_bytes (ser_of (payload_json p)) = Ok canonical
  ∧ recall_signing_bytes p = Ok (RECALL_SIGNING_DOMAIN_BYTES ++ canonical).
Proof using Type.
  unfold recall_signing_bytes, canonical_json_v1_bytes. pose proof (preflight_spec (ser_of (payload_json p))) as H.
  destruct (reject_floats _); [|by rewrite float_free_payload in H].
  destruct H as [_ [canonical Hc]]. cbn [result_bind]. rewrite Hc. by exists canonical.
Qed.
Definition signing_bytes_of (p : RecallEnvelopeV2Payload) : list byte :=
  match recall_signing_bytes p with Ok bytes => bytes | Err _ => [] end.
Lemma recall_signing_bytes_Ok p : recall_signing_bytes p = Ok (signing_bytes_of p).
Proof using Type. unfold signing_bytes_of. by destruct (signing_bytes_total p) as (c & _ & ->). Qed.

#[local] Arguments uuid_json : simpl never.
#[local] Arguments recall_digest_json : simpl never.
#[local] Arguments hit_json : simpl never.
#[local] Arguments hits_json : simpl never.
Lemma faithful_uuid_json `{BL : !BridgeLaws B} : faithful uuid_json.
Proof using Type. apply (faithful_str hyphenated), _. Qed.
Lemma faithful_recall_digest : faithful recall_digest_json.
Proof using Type. faithfully recall_digest_json. Qed.
#[local] Hint Resolve faithful_uuid_json faithful_recall_digest : faithful.
Lemma faithful_hit : faithful hit_json.
Proof using Type. faithfully hit_json. Qed.
Lemma faithful_hits : faithful hits_json.
Proof using Type. apply (faithful_list hit_json), faithful_hit. Qed.
#[local] Hint Resolve faithful_hits : faithful.
Lemma faithful_payload `{BL : !BridgeLaws B} : faithful payload_json.
Proof using Type. faithfully payload_json. Qed.

Lemma signing_bytes_inj `{BL : !BridgeLaws B} p q :
  payload_typed p → payload_typed q → signing_bytes_of p = signing_bytes_of q → p = q.
Proof using Type.
  intros Hp%small_payload Hq%small_payload. unfold signing_bytes_of.
  destruct (signing_bytes_total p) as (c & Hc & ->), (signing_bytes_total q) as (d & Hd & ->).
  intros <-%app_inv_head. apply faithful_payload.
  unfold canonical_json_v1_bytes in Hc, Hd. apply result_bind_Ok in Hc as (_ & _ & Hc), Hd as (_ & _ & Hd).
  rewrite to_value_ser_of in Hc, Hd. by apply (write_canonical_inj _ _ c).
Qed.

Lemma validate_Ok e :
  validate e = Ok () ↔ payload_ok e.(payload) ∧
    let s := e.(envelope_signature) in
    s.(signing_domain) = RECALL_SIGNING_DOMAIN_LABEL ∧ s.(sig_algorithm) = RECALL_SIGNATURE_ALGORITHM ∧ s.(sig_key_id) ≠ ""
    ∧ lowercase_hex 128 s.(sig_hex)
    ∧ s.(sig_payload_digest) = digest_sha256 (signing_bytes_of e.(payload)) true ∧ digest_ok s.(sig_payload_digest).
Proof using Type.
  unfold validate, recall_signed_payload_digest. rewrite recall_signing_bytes_Ok. cbn [result_bind].
  rewrite bind_unit_Ok, !guard_Ok, !bind_unit_Ok, guard_Ok, bind_unit_Ok, !guard_Ok, done_Ok, !negb_false_iff, !String.eqb_eq,
    Nat.eqb_eq, validate_payload_Ok, require_non_empty_Ok, require_lowercase_hex_Ok, require_sha256_digest_Ok.
  unfold lowercase_hex, RECALL_SIGNATURE_HEX_LEN. destruct (sig_payload_digest (envelope_signature e)) as [alg val pub] eqn:Hd.
  unfold digest_ok, digest_sha256. cbn [rd_algorithm rd_value rd_public_recomputable]. split.
  - intros (? & ? & ? & ? & (? & ? & ?) & ? & [-> ?] & -> & -> & _). done.
  - intros (? & ? & ? & ? & [Hlen ?] & [= -> -> ->] & ? & ?). split_and!; try done; [by intros Hv; rewrite Hv in Hlen|by rewrite Hlen].
Qed.

(** Strict validation means what it says.  An envelope is accepted exactly if its
    payload has the frozen versions, a nonce of 64 lower-case hex digits, a window of at
    most two minutes, non-empty identifiers, SHA-256 digests in their one written form,
    and hits ranked by position with distinct identities within the limit, and its
    signature part names the one domain and algorithm and binds the signing bytes. *)
Theorem validation_accepts_exactly (e : RecallEnvelopeV2) :
  validate e = Ok () ↔ payload_ok e.(payload) ∧
    let s := e.(envelope_signature) in
    s.(signing_domain) = "AEON_RECALL_ENVELOPE_V2" ∧ s.(sig_algorithm) = "ed25519" ∧ s.(sig_key_id) ≠ ""
    ∧ lowercase_hex 128 s.(sig_hex)
    ∧ s.(sig_payload_digest) = digest_sha256 (signing_bytes_of e.(payload)) true ∧ digest_ok s.(sig_payload_digest).
Proof using Type. apply validate_Ok. Qed.

(** The signing bytes determine the payload.  They exist for every payload, start with
    the domain, and two payloads of machine integers with the same signing bytes are the
    same in every field and every hit. *)
Theorem signing_bytes_determine_payload `{BL : !BridgeLaws B} (p q : RecallEnvelopeV2Payload) :
  payload_typed p → payload_typed q →
  ∃ bytes, recall_signing_bytes p = Ok bytes ∧ take 24 bytes = RECALL_SIGNING_DOMAIN_BYTES
    ∧ (recall_signing_bytes q = Ok bytes → p = q).
Proof using Type.
  intros Hp Hq. exists (signing_bytes_of p). split; [apply recall_signing_bytes_Ok|]. split.
  - unfold signing_bytes_of. destruct (signing_bytes_total p) as (c & _ & ->). by rewrite take_app_length'.
  - rewrite recall_signing_bytes_Ok. intros [= H]. by apply signing_bytes_inj.
Qed.
End Signing.

(** ** A concrete instance *)

Module ToyBridge.
#[export] Instance lib : BridgeLib := {|
  sha256 bs := take 32 (bs ++ replicate 32 x00);
  uuid_parse_str s := if String.eqb s "1" then Some 1%N else None;
  hyphenated id := pretty id;
|}.
#[export] Instance laws : BridgeLaws lib.
Proof.
  constructor.
  - intros bs. change (length (take 32 (bs ++ replicate 32 x00)) = 32%nat). rewrite length_take, length_app, length_replicate. lia.
  - intros a b. apply (inj pretty).
Qed.
Definition digest : RecallDigestV2 := digest_sha256 [x01] true.
Definition hex64 : string := hex_lower (replicate 32 x0a).
Definition hit (id : string) (i : Z) : RecallHitV2 :=
  {| memory_id := id; memory_version_id := id +:+ "v"; content_digest := digest; rank := i; score_micros := Some (-5);
     provenance_digest := None; authority_label := None |}.
Definition body_at (issued : Z) (tenant : string) : RecallEnvelopeV2Payload :=
  {| protocol_version := RECALL_PROTOCOL_VERSION; canonicalization_version := RECALL_CANONICALIZATION_VERSION;
     request_id := 1%N; nonce := hex64; issued_at_unix_ms := issued; expires_at_unix_ms := issued + 30000; tenant_id := tenant;
     workspace_id := None; agent_id := "agent"; session_id := Some "s"; mission_id := None; rv_run_id := 2%N;
     query_digest := digest; limit := 2; retrieval_policy_digest := digest; embedding_config_digest := digest;
     hits := [hit "a" 0; hit "b" 1] |}.
Definition envelope_at (issued : Z) (tenant : string) : RecallEnvelopeV2 :=
  {| payload := body_at issued tenant;
     envelope_signature :=
       {| sig_algorithm := "ed25519"; sig_key_id := "k"; sig_hex := hex_lower (replicate 64 x07);
          sig_payload_digest := digest_sha256 (signing_bytes_of (body_at issued tenant)) true;
          signing_domain := RECALL_SIGNING_DOMAIN_LABEL |} |}.
Definition body : string → RecallEnvelopeV2Payload := body_at 1000.
Definition envelope : string → RecallEnvelopeV2 := envelope_at 1000.
End ToyBridge.
#[local] Existing Instances ToyBridge.lib ToyBridge.laws.

Lemma toy_typed_at issued tenant : 0 ≤ issued < 2 ^ 62 → payload_typed (ToyBridge.body_at issued tenant).
Proof. intros Hi. unfold payload_typed, is_i64, is_u32. cbn. split_and!; try lia. repeat constructor; naive_solver lia. Qed.
Lemma toy_typed tenant : payload_typed (ToyBridge.body tenant).
Proof. by apply toy_typed_at. Qed.

Lemma validation_accepts_exactly_witness :
  validate (ToyBridge.envelope "t") = Ok () ∧ NoDup (memory_id <$> (ToyBridge.envelope "t").(payload).(hits))
  ∧ validate (ToyBridge.envelope "") = Err (EmptyIdentifier "tenant_id").
Proof.
  assert (validate (ToyBridge.envelope "t") = Ok ()) as H by (vm_compute; reflexivity).
  split; [exact H|]. split; [|vm_compute; reflexivity].
  destruct (proj1 (validation_accepts_exactly (ToyBridge.envelope "t")) H) as [[_ _ _ _ _ _ _ [Hnd _]] _]. exact Hnd.
Defined.

Lemma signing_bytes_determine_payload_witness :
  recall_signing_bytes (ToyBridge.body "t") ≠ recall_signing_bytes (ToyBridge.body "u").
Proof.
  destruct (signing_bytes_determine_payload (ToyBridge.body "t") (ToyBridge.body "u") (toy_typed "t") (toy_typed "u"))
    as (bytes & Hb & _ & Hinj).
  intros H. rewrite Hb in H. symmetry in H. apply Hinj in H. discriminate H.
Defined.
