(* ===== verification/RecallReplay.v ===== *)
(** * The replay store: [src/aeon/recall_v2.rs], [src/aeon/recall_v2_postgres.rs]

    [ReplayStore] is the storage contract that verification relies on; [Postgres] is the
    store of the repository, a table of nonces in a database that several processes share.
    The advisory lock of a transaction excludes clean-up, and the primary key decides who
    inserts, so a transaction is one step on the table; the database may also undo it, or
    do it and fail to say so ([Fate]).  Times of the rows are [i64]. *)

From stdpp Require Import sorting.
From S2P Require Import Prelude RecallEnvelope.

Definition ReplayNamespace : Type := list byte.
Inductive ReplayConsumeResult := Fresh | Replayed.

(** ** The storage contract *)

(** [Db] is what becomes of one operation outside of the process; [purge] is the deletion
    of what expired before a cutoff, at most so many at a time. *)
Class ReplayStore := {
  Store : Type;
  Db : Type;
  consume_once : Db → Store → ReplayNamespace → string → Z → Store * option ReplayConsumeResult;
  purge : Db → Store → Z → Z → Store * option Z;
  retained : Store → ReplayNamespace * string → option Z;
}.
(** What is retained stays, unless it is purged, and its expiry never shrinks; a fresh
    answer retains the nonce, and is never given for a retained one. *)
Definition outlives (o o' : option Z) : Prop := ∀ e, o = Some e → ∃ e', o' = Some e' ∧ e ≤ e'.
Class ReplayStoreLaws (R : ReplayStore) : Prop := {
  consume_keeps db s ns nonce e s' r k : consume_once db s ns nonce e = (s', r) → outlives (retained s k) (retained s' k);
  consume_fresh db s ns nonce e s' :
    consume_once db s ns nonce e = (s', Some Fresh) →
    retained s (ns, nonce) = None ∧ ∃ e', retained s' (ns, nonce) = Some e' ∧ e ≤ e';
  purge_keeps db s cutoff batch s' r k e :
    purge db s cutoff batch = (s', r) → retained s k = Some e → cutoff ≤ e → retained s' k = Some e;
}.


(** ** The order of byte strings *)

Fixpoint bytes_le (x y : list byte) : bool :=
  match x, y with
  | [], _ => true
  | _, [] => false
  | a :: x, b :: y => (Z_of_byte a <? Z_of_byte b) || (Z_of_byte a =? Z_of_byte b) && bytes_le x y
  end.
Lemma bytes_le_refl x : bytes_le x x = true.
Proof. induction x as [|a x IH]; cbn; [done|]. rewrite IH. lia. Qed.
Lemma bytes_le_total x : ∀ y, bytes_le x y = true ∨ bytes_le y x = true.
Proof.
  induction x as [|a x IH]; intros [|b y]; cbn; [auto..|].
  destruct (Z.lt_trichotomy (Z_of_byte a) (Z_of_byte b)) as [?|[Heq|?]]; [left; lia| |right; lia].
  rewrite Heq, Z.ltb_irrefl, Z.eqb_refl. apply IH.
Qed.
Lemma bytes_le_trans x : ∀ y z, bytes_le x y = true → bytes_le y z = true → bytes_le x z = true.
Proof.
  induction x as [|a x IH]; intros [|b y] [|c z]; cbn; try done. specialize (IH y z).
  destruct (bytes_le x y), (bytes_le y z), (bytes_le x z); lia || naive_solver lia.
Qed.
Lemma bytes_le_antisym x : ∀ y, bytes_le x y = true → bytes_le y x = true → x = y.
Proof.
  induction x as [|a x IH]; intros [|b y]; cbn; try done. intros Hxy Hyx.
  assert (Z_of_byte a = Z_of_byte b) as Hab by lia. apply Z_of_byte_inj in Hab as ->.
  rewrite Z.ltb_irrefl, Z.eqb_refl in Hxy, Hyx. f_equal. by apply IH.
Qed.

(** ** PostgreSQL *)

Module Postgres.
Definition POSTGRES_REPLAY_SCHEMA_VERSION : Z := 1.
Definition MAX_PURGE_BATCH_SIZE : Z := 10000.
Definition MIN_PURGE_BATCH_SIZE : Z := 1.

Inductive PostgresReplayStoreError :=
| InvalidOperationTimeout
| InvalidNonce
| InvalidExpiresAt (value : Z)
| InvalidSafeCutoff (value : Z)
| InvalidBatchSize (value : Z)
| TimedOut (operation : string)
| Database (operation : string)
| SchemaVersion (expected : Z) (found : option Z)
| SchemaContract (problem : string).

(** The table, by its primary key. *)
Abbreviation Rows := (gmap (ReplayNamespace * string) Z).

(** What becomes of a transaction: it is done and answered; it is undone; it is done but
    the answer is lost.  [timed_out] says that the deadline was what failed. *)
Inductive Fate := Answered | Undone (timed_out : bool) | Unheard (timed_out : bool).
Definition failure (timed_out : bool) (operation : string) : PostgresReplayStoreError :=
  if timed_out then TimedOut operation else Database operation.
(** [timeout_sqlx] around a transaction, which keeps the table as it was if it fails. *)
Definition timeout_sqlx {A} (fate : Fate) (operation : string) (transaction : Rows → option (Rows * A)) (rows : Rows)
  : Rows * result A PostgresReplayStoreError :=
  match fate, transaction rows with
  | Undone timed_out, _ => (rows, Err (failure timed_out operation))
  | _, None => (rows, Err (Database operation))
  | Answered, Some (rows, a) => (rows, Ok a)
  | Unheard timed_out, Some (rows, _) => (rows, Err (failure timed_out operation))
  end.

Definition validate_operation_timeout (timeout : Z) : result () PostgresReplayStoreError :=
  if timeout =? 0 then Err InvalidOperationTimeout else Ok ().
Definition validate_nonce (nonce : string) : result () PostgresReplayStoreError :=
  if (String.length nonce =? RECALL_NONCE_HEX_LEN)%nat && all_lowercase_hex nonce then Ok () else Err InvalidNonce.
Definition validate_expires_at (expires_at_unix_ms : Z) : result () PostgresReplayStoreError :=
  if 0 <=? expires_at_unix_ms then Ok () else Err (InvalidExpiresAt expires_at_unix_ms).
Definition validate_safe_cutoff (safe_cutoff_unix_ms : Z) : result () PostgresReplayStoreError :=
  if 0 <=? safe_cutoff_unix_ms then Ok () else Err (InvalidSafeCutoff safe_cutoff_unix_ms).
Definition validate_batch_size (batch_size : Z) : result () PostgresReplayStoreError :=
  if (MIN_PURGE_BATCH_SIZE <=? batch_size) && (batch_size <=? MAX_PURGE_BATCH_SIZE) then Ok () else Err (InvalidBatchSize batch_size).

(** The statements: what they return and the table after them. *)
Definition CONSUME_INSERT_SQL (ns : ReplayNamespace) (nonce : string) (expires : Z) (rows : Rows) : Rows * option bool :=
  match rows !! (ns, nonce) with
  | Some _ => (rows, None)
  | None => (<[(ns, nonce) := expires]> rows, Some true)
  end.
Definition EXTEND_EXPIRY_SQL (ns : ReplayNamespace) (nonce : string) (expires : Z) (rows : Rows) : Rows * Z :=
  match rows !! (ns, nonce) with
  | Some e => if e <? expires then (<[(ns, nonce) := Z.max e expires]> rows, 1) else (rows, 0)
  | None => (rows, 0)
  end.
Definition row_exists (ns : ReplayNamespace) (nonce : string) (rows : Rows) : bool := bool_decide (is_Some (rows !! (ns, nonce))).
(** [None] is the error [RowNotFound]. *)
Definition consume_transaction (ns : ReplayNamespace) (nonce : string) (expires : Z) (rows : Rows)
  : option (Rows * ReplayConsumeResult) :=
  let '(rows, inserted) := CONSUME_INSERT_SQL ns nonce expires rows in
  match inserted with
  | Some _ => Some (rows, Fresh)
  | None =>
      let '(rows, rows_affected) := EXTEND_EXPIRY_SQL ns nonce expires rows in
      if (rows_affected =? 0) && negb (row_exists ns nonce rows) then None else Some (rows, Replayed)
  end.

(** The order of rows by expiry, namespace and nonce. *)
Definition row_le (a b : (ReplayNamespace * string) * Z) : Prop :=
  a.2 < b.2 ∨ a.2 = b.2 ∧ (a.1.1 ≠ b.1.1 ∧ bytes_le a.1.1 b.1.1 = true
                           ∨ a.1.1 = b.1.1 ∧ bytes_le (string_bytes a.1.2) (string_bytes b.1.2) = true).
#[export] Instance row_le_dec a b : Decision (row_le a b) := _.
Definition expired_rows (cutoff : Z) (rows : Rows) : list ((ReplayNamespace * string) * Z) :=
  merge_sort row_le (filter (λ row, row.2 < cutoff) (map_to_list rows)).
Definition PURGE_SQL (cutoff batch : Z) (rows : Rows) : Rows * Z :=
  let expired := take (Z.to_nat batch) (expired_rows cutoff rows) in
  (foldr delete rows (fst <$> expired), Z.of_nat (length expired)).

Definition consume_once (fate : Fate) (rows : Rows) (ns : ReplayNamespace) (nonce : string) (expires : Z)
  : Rows * result ReplayConsumeResult PostgresReplayStoreError :=
  match (let? _ := validate_nonce nonce in validate_expires_at expires) with
  | Err e => (rows, Err e)
  | Ok _ => timeout_sqlx fate "consume replay nonce" (consume_transaction ns nonce expires) rows
  end.
Definition purge_expired_before (fate : Fate) (rows : Rows) (safe_cutoff_unix_ms batch_size : Z)
  : Rows * result Z PostgresReplayStoreError :=
  match (let? _ := validate_safe_cutoff safe_cutoff_unix_ms in validate_batch_size batch_size) with
  | Err e => (rows, Err e)
  | Ok _ =>
      let '(rows, deleted) := timeout_sqlx fate "purge expired replay rows" (λ rows, Some (PURGE_SQL safe_cutoff_unix_ms batch_size rows)) rows in
      (rows, let? deleted := deleted in
             if deleted <? 0 then Err (SchemaContract "PostgreSQL returned a negative replay cleanup count") else Ok deleted)
  end.

Definition consume_result (r : Rows * result ReplayConsumeResult PostgresReplayStoreError) : Rows * option ReplayConsumeResult :=
  (r.1, match r.2 with Ok r => Some r | Err _ => None end).
Definition purge_result (r : Rows * result Z PostgresReplayStoreError) : Rows * option Z :=
  (r.1, match r.2 with Ok n => Some n | Err _ => None end).
#[export] Instance store : ReplayStore :=
  Build_ReplayStore Rows Fate
    (λ fate rows ns nonce expires, consume_result (consume_once fate rows ns nonce expires))
    (λ fate rows cutoff batch, purge_result (purge_expired_before fate rows cutoff batch))
    (λ rows k, rows !! k).

(** ** The schema *)

(** What the catalogue of the database says; a query without an answer fails as any other. *)
Record Catalog := {
  schema_version : option Z;
  columns : list (string * string * string * option string);
  constraints : list (string * string * bool * string);
  expiry_index : option string;
  privileges : bool;
}.
Definition required_columns : list (string * string) :=
  [("replay_namespace", "bytea"); ("nonce", "text"); ("expires_at_unix_ms", "bigint");
   ("first_consumed_at", "timestamp with time zone")].
Definition required_constraints : list (string * string * string) :=
  [("nexus_recall_replay_nonces_pkey", "p", "PRIMARY KEY (replay_namespace, nonce)");
   ("nexus_recall_replay_namespace_length", "c", "octet_length(replay_namespace) = 32");
   ("nexus_recall_replay_nonce_shape", "c", "octet_length(nonce) = 64");
   ("nexus_recall_replay_expiry_nonnegative", "c", "expires_at_unix_ms >= 0")].
Definition has_column (c : Catalog) '((column, data_type) : string * string) : bool :=
  existsb (λ '(name, type, nullable, _), String.eqb name column && String.eqb type data_type && String.eqb nullable "NO") c.(columns).
Definition has_default (c : Catalog) : bool :=
  existsb (λ '(name, _, _, default), String.eqb name "first_consumed_at"
             && match default with Some d => contains_str "clock_timestamp()" d | None => false end) c.(columns).
Definition has_constraint (c : Catalog) '((name, kind, fragment) : string * string * string) : bool :=
  existsb (λ '(conname, contype, validated, definition),
             String.eqb conname name && String.eqb contype kind && validated && contains_str fragment definition) c.(constraints).
Definition has_nonce_shape (c : Catalog) : bool :=
  existsb (λ '(conname, _, _, definition),
             String.eqb conname "nexus_recall_replay_nonce_shape" && contains_str "^[0-9a-f]{64}$" definition) c.(constraints).
Definition validate_schema (c : Catalog) : result () PostgresReplayStoreError :=
  if negb (bool_decide (c.(schema_version) = Some POSTGRES_REPLAY_SCHEMA_VERSION))
  then Err (SchemaVersion POSTGRES_REPLAY_SCHEMA_VERSION c.(schema_version))
  else if negb (forallb (has_column c) required_columns)
  then Err (SchemaContract "required replay column is absent, nullable, or has the wrong type")
  else if negb (has_default c)
  then Err (SchemaContract "first_consumed_at must use the database consumption timestamp default")
  else if negb (forallb (has_constraint c) required_constraints)
  then Err (SchemaContract "required replay constraint is absent, malformed, or unvalidated")
  else if negb (has_nonce_shape c)
  then Err (SchemaContract "replay nonce constraint does not enforce lowercase hexadecimal")
  else if negb (match c.(expiry_index) with
                | Some definition => contains_str "(expires_at_unix_ms, replay_namespace, nonce)" definition
                | None => false
                end)
  then Err (SchemaContract "required replay cleanup index is absent or malformed")
  else if negb c.(privileges)
  then Err (SchemaContract "current database role lacks SELECT, INSERT, DELETE, or UPDATE")
  else Ok ().
(** [new]: the pool has no state of its own. *)
Definition new (operation_timeout : Z) (c : Catalog) : result Z PostgresReplayStoreError :=
  let? _ := validate_operation_timeout operation_timeout in
  let? _ := validate_schema c in
  Ok operation_timeout.

(** ** The store keeps its contract *)

Lemma consume_transaction_spec ns nonce expires rows :
  consume_transaction ns nonce expires rows =
  Some (match rows !! (ns, nonce) with
        | Some e => (<[(ns, nonce) := Z.max e expires]> rows, Replayed)
        | None => (<[(ns, nonce) := expires]> rows, Fresh)
        end).
Proof.
  unfold consume_transaction, CONSUME_INSERT_SQL. destruct (rows !! (ns, nonce)) as [e|] eqn:He; [|done].
  unfold EXTEND_EXPIRY_SQL, row_exists. rewrite He. destruct (Z.ltb_spec e expires); [done|].
  rewrite bool_decide_eq_true_2 by (rewrite He; eauto). cbn. rewrite Z.max_l by done. do 2 f_equal. symmetry. by apply insert_id.
Qed.

#[export] Instance row_le_total : Total row_le.
Proof.
  intros [[n s] e] [[n' s'] e']. unfold row_le. cbn. destruct (Z.lt_trichotomy e e') as [?|[->|?]]; [left; lia| |right; lia].
  destruct (decide (n = n')) as [->|Hn].
  - destruct (bytes_le_total (string_bytes s) (string_bytes s')); auto 10.
  - destruct (bytes_le_total n n'); [left|right]; naive_solver.
Qed.
#[export] Instance row_le_transitive : Transitive row_le.
Proof.
  intros [[n s] e] [[n' s'] e'] [[n'' s''] e'']. unfold row_le. cbn.
  intros [?|[-> H]] [?|[-> H']]; try (left; lia). right. split; [done|].
  destruct H as [[Hn Hle]|[-> Hle]], H' as [[Hn' Hle']|[-> Hle']].
  - left. split; [|by eapply bytes_le_trans]. intros ->. apply Hn. by apply bytes_le_antisym.
  - left. done.
  - left. done.
  - right. split; [done|]. by eapply bytes_le_trans.
Qed.

Lemma expired_rows_elem cutoff rows k e : (k, e) ∈ expired_rows cutoff rows ↔ rows !! k = Some e ∧ e < cutoff.
Proof.
  unfold expired_rows. rewrite merge_sort_Permutation, list_elem_of_filter, elem_of_map_to_list. cbn. naive_solver.
Qed.
Lemma expired_rows_nodup cutoff rows : NoDup (expired_rows cutoff rows).*1.
Proof.
  unfold expired_rows. rewrite merge_sort_Permutation. apply NoDup_fmap_fst; [|apply NoDup_filter, NoDup_map_to_list].
  intros k e e' [_ H]%list_elem_of_filter [_ H']%list_elem_of_filter. apply elem_of_map_to_list in H, H'. congruence.
Qed.
Lemma foldr_delete_lookup (ks : list (ReplayNamespace * string)) (rows : Rows) k :
  foldr delete rows ks !! k = if decide (k ∈ ks) then None else rows !! k.
Proof.
  induction ks as [|k' ks IH]; cbn [foldr]; [case_decide; set_solver|]. destruct (decide (k = k')) as [->|Hk].
  - by rewrite lookup_delete_eq, decide_True by set_solver.
  - rewrite lookup_delete_ne by congruence. rewrite IH. apply decide_ext. set_solver.
Qed.
Lemma purged_lookup cutoff batch rows k :
  (PURGE_SQL cutoff batch rows).1 !! k = if decide (k ∈ (take (Z.to_nat batch) (expired_rows cutoff rows)).*1) then None else rows !! k.
Proof. apply foldr_delete_lookup. Qed.
Lemma purged_elem cutoff batch rows k :
  k ∈ (take (Z.to_nat batch) (expired_rows cutoff rows)).*1 → ∃ e, rows !! k = Some e ∧ e < cutoff.
Proof.
  intros ([k' e] & -> & Hin)%list_elem_of_fmap. exists e. apply expired_rows_elem.
  rewrite <- (take_drop (Z.to_nat batch)). apply elem_of_app. by left.
Qed.


Lemma consume_once_table fate rows ns nonce e : ∀ rows' r,
  consume_once fate rows ns nonce e = (rows', r) →
  (rows' = rows ∧ ∃ err, r = Err err)
  ∨ rows' = <[(ns, nonce) := default e (Z.max e <$> rows !! (ns, nonce))]> rows
    ∧ (r = Ok Fresh → rows !! (ns, nonce) = None).
Proof.
  intros rows' r. unfold consume_once. destruct (result_bind _ _); [|intros [= <- <-]; left; eauto].
  unfold timeout_sqlx. rewrite consume_transaction_spec. destruct (rows !! (ns, nonce)) as [x|] eqn:Hx.
  - destruct fate; intros [= <- <-]; [right|left; eauto|right]; cbn; rewrite Z.max_comm; done.
  - destruct fate; intros [= <- <-]; [right|left; eauto|right]; cbn; done.
Qed.
Lemma purge_table fate rows cutoff batch rows' r :
  purge_expired_before fate rows cutoff batch = (rows', r) → rows' = rows ∨ rows' = (PURGE_SQL cutoff batch rows).1.
Proof.
  unfold purge_expired_before. destruct (result_bind _ _); [|intros [= <- <-]; by left].
  unfold timeout_sqlx. destruct (PURGE_SQL cutoff batch rows), fate; intros [= <- <-]; eauto.
Qed.
Lemma purge_Ok rows cutoff batch rows' deleted :
  purge_expired_before Answered rows cutoff batch = (rows', Ok deleted) →
  0 ≤ cutoff ∧ 1 ≤ batch ≤ 10000 ∧ PURGE_SQL cutoff batch rows = (rows', deleted).
Proof.
  unfold purge_expired_before, validate_safe_cutoff, validate_batch_size, MIN_PURGE_BATCH_SIZE, MAX_PURGE_BATCH_SIZE.
  destruct (Z.leb_spec 0 cutoff); cbn [result_bind]; [|done].
  destruct (Z.leb_spec 1 batch); cbn [andb]; [|done]. destruct (Z.leb_spec batch 10000); [|done].
  unfold timeout_sqlx. destruct (PURGE_SQL cutoff batch rows) as [rows'' n]. cbn [result_bind].
  destruct (n <? 0); [done|]. by intros [= -> ->].
Qed.


Lemma expired_rows_count cutoff rows :
  length (expired_rows cutoff rows) = size (filter (λ row : (ReplayNamespace * string) * Z, row.2 < cutoff) rows).
Proof.
  rewrite <- size_dom. rewrite <- (length_fmap fst), <- (size_list_to_set (C := gset _)) by apply expired_rows_nodup.
  f_equal. apply set_eq. intros k. rewrite elem_of_list_to_set, elem_of_dom, list_elem_of_fmap. split.
  - intros ([k' e] & -> & [Hk He]%expired_rows_elem). exists e. by apply map_lookup_filter_Some.
  - intros [e [Hk He]%map_lookup_filter_Some]. exists (k, e). split; [done|]. by apply expired_rows_elem.
Qed.
Lemma foldr_delete_size (ks : list (ReplayNamespace * string)) (rows : Rows) :
  NoDup ks → (∀ k, k ∈ ks → is_Some (rows !! k)) → (size (foldr delete rows ks) + length ks = size rows)%nat.
Proof.
  induction ks as [|k ks IH]; cbn [foldr length]; [lia|]. intros [Hk Hnd]%NoDup_cons Hin.
  destruct (Hin k) as [e He]; [set_solver|].
  assert (foldr delete rows ks !! k = Some e) as Hl by (by rewrite foldr_delete_lookup, decide_False).
  rewrite map_size_delete_Some by eauto. rewrite <- IH by (done || set_solver).
  assert (size (foldr delete rows ks) ≠ 0%nat) by (rewrite map_size_ne_0_lookup; eauto). lia.
Qed.

Lemma store_laws : ReplayStoreLaws store.
Proof.
  constructor.
  - intros fate rows ns nonce e rows' r k H. cbn in H. unfold consume_result in H.
    destruct (consume_once _ _ _ _ _) as [rows'' r'] eqn:Hc. injection H as <- _. intros x Hx. cbn [retained store fst] in *.
    apply consume_once_table in Hc as [[-> _]|[-> _]]; [by exists x|]. destruct (decide (k = (ns, nonce))) as [->|Hk].
    + rewrite lookup_insert_eq, Hx. eexists. split; [done|]. cbn. lia.
    + rewrite lookup_insert_ne by congruence. by exists x.
  - intros fate rows ns nonce e rows' H. cbn in H. unfold consume_result in H.
    destruct (consume_once _ _ _ _ _) as [rows'' r'] eqn:Hc. injection H as <- Hr. destruct r' as [r'|]; [|done]. injection Hr as ->.
    apply consume_once_table in Hc as [[_ [err Herr]]|[-> Hn]]; [done|]. cbn [retained store]. specialize (Hn eq_refl). rewrite Hn.
    split; [done|]. exists e. split; [apply lookup_insert_eq|lia].
  - intros fate rows cutoff batch rows' r k e H. cbn in H. unfold purge_result in H.
    destruct (purge_expired_before _ _ _ _) as [rows'' r'] eqn:Hp. injection H as <- _. cbn [retained store fst]. intros Hk Hle.
    apply purge_table in Hp as [-> | ->]; [done|]. rewrite purged_lookup.
    case_decide as Hin; [|done]. apply purged_elem in Hin as (e' & He' & ?). rewrite Hk in He'. injection He' as <-. lia.
Qed.

(** C9: the table keeps the contract.  Whatever becomes of the transactions, a consumed
    nonce stays with the latest expiry it was seen with until a purge whose cutoff lies
    beyond it, and a nonce is called fresh only if the table did not have it. *)
Theorem postgres_keeps_contract : ReplayStoreLaws store.
Proof. apply store_laws. Qed.

(** Clean-up removes the oldest first and nothing else.  An answered purge deletes as
    many expired rows as the batch allows, reports their number, keeps every other row as
    it was, and no expired row that it leaves is older than one it deletes. *)
Theorem purge_removes_oldest rows rows' cutoff batch deleted :
  purge_expired_before Answered rows cutoff batch = (rows', Ok deleted) →
  0 ≤ cutoff ∧ 1 ≤ batch ≤ 10000
  ∧ deleted = Z.min batch (Z.of_nat (size (filter (λ row, row.2 < cutoff) rows)))
  ∧ Z.of_nat (size rows) = Z.of_nat (size rows') + deleted
  ∧ ∀ k e, rows !! k = Some e →
      (rows' !! k = Some e ∧ ∀ k' e', rows !! k' = Some e' → rows' !! k' = None → e < cutoff → e' ≤ e)
      ∨ (rows' !! k = None ∧ e < cutoff).
Proof.
  intros (Hc & Hb & Hp)%purge_Ok. split_and!; try done; try lia.
  - unfold PURGE_SQL in Hp. injection Hp as _ <-. rewrite <- expired_rows_count, length_take. lia.
  - unfold PURGE_SQL in Hp. injection Hp as <- <-. rewrite <- Nat2Z.inj_add. f_equal. symmetry.
    rewrite <- (length_fmap fst). apply foldr_delete_size.
    + rewrite fmap_take. eapply sublist_NoDup; [apply expired_rows_nodup|apply sublist_take].
    + intros k (e & He & _)%purged_elem. eauto.
  - intros k e Hk. assert (rows' = (PURGE_SQL cutoff batch rows).1) as -> by (by rewrite Hp). rewrite purged_lookup.
    case_decide as Hin; [right|left].
    + apply purged_elem in Hin as (e' & He' & ?). rewrite Hk in He'. injection He' as <-. done.
    + split; [done|]. intros k' e' Hk' Hnone He. rewrite purged_lookup in Hnone. case_decide as Hin'; [|congruence].
      apply list_elem_of_fmap in Hin' as ([k0 e0] & -> & Hin').
      assert ((k, e) ∈ drop (Z.to_nat batch) (expired_rows cutoff rows)) as Hd.
      { assert ((k, e) ∈ expired_rows cutoff rows) as Hex by (by apply expired_rows_elem).
        rewrite <- (take_drop (Z.to_nat batch)), elem_of_app in Hex. destruct Hex as [Hex|]; [|done].
        destruct Hin. apply list_elem_of_fmap. by exists (k, e). }
      assert (rows !! k0 = Some e0) as Hk0.
      { eapply expired_rows_elem. rewrite <- (take_drop (Z.to_nat batch)). apply elem_of_app. by left. }
      cbn in Hk'. rewrite Hk0 in Hk'. injection Hk' as <-.
      pose proof (StronglySorted_merge_sort row_le (filter (λ row, row.2 < cutoff) (map_to_list rows))) as Hs.
      fold (expired_rows cutoff rows) in Hs. rewrite <- (take_drop (Z.to_nat batch)) in Hs.
      apply (StronglySorted_app_1_elem_of _ _ _ _ _ Hs Hin') in Hd. destruct Hd as [?|[? _]]; cbn in *; lia.
Qed.

Definition toy_rows : Rows := list_to_map [(([x01], "a"), 7); (([x01], "b"), 3); (([x02], "a"), 90); (([x03], "c"), 5)].
Lemma purge_removes_oldest_witness :
  (purge_expired_before Answered toy_rows 10 2).1 !! ([x01], "a") = Some 7
  ∧ (purge_expired_before Answered toy_rows 10 2).2 = Ok 2.
Proof.
  assert (purge_expired_before Answered toy_rows 10 2 = ((purge_expired_before Answered toy_rows 10 2).1, Ok 2)) as H
    by (vm_compute; reflexivity).
  split; [|exact (f_equal snd H)].
  destruct (purge_removes_oldest _ _ _ _ _ H) as (_ & _ & _ & _ & Hk).
  destruct (Hk ([x01], "a") 7) as [[Hkept _]|[Hgone _]]; [reflexivity|exact Hkept|vm_compute in Hgone; discriminate Hgone].
Defined.
End Postgres.
