(* ===== verification/RecallVerifier.v ===== *)
(** * Recall verification: [src/aeon/recall_v2.rs]

    An envelope is parsed, validated, authenticated against pinned keys, bound to the
    request, held against the clock, and its nonce consumed.  Everything is proved against
    the storage contract [ReplayStore] alone; the witnesses run on the PostgreSQL store. *)

From S2P Require Import Prelude Json CanonicalJson RecallEnvelope RecallReplay.

Definition REPLAY_NAMESPACE_DOMAIN : list byte := string_bytes "NEXUS_RECALL_V2_REPLAY_NAMESPACE_V1" ++ [x00].

(** ** Keys and context *)

Class RecallKeys := {
  PublicKey : Type;
  public_key_from_bytes : list byte → option PublicKey;
  verify_strict : PublicKey → list byte → list byte → bool;
  from_str : string → option RecallEnvelopeV2;
}.

Record ExpectedRecallContext := {
  ex_tenant_id : string;
  ex_workspace_id : option string;
  ex_agent_id : string;
  ex_session_id : option string;
  ex_mission_id : option string;
  ex_run_id : Uuid;
  ex_request_id : Uuid;
  ex_query : string;
}.
Inductive ContextField :=
| TenantId | WorkspaceId | AgentId | SessionId | MissionId | RunId | RequestId | QueryDigest.
Inductive TrustedKeyBundleError := EmptyKeyId | InvalidPublicKey | EmptyBundle | DuplicateKeyId (key_id : string).
Inductive RecallVerificationError :=
| Parse
| UnsupportedProtocolVersion
| UnsupportedCanonicalizationVersion
| InvalidEnvelope (e : RecallError)
| UnknownSigningKey
| InvalidSignatureEncoding
| InvalidSignature
| ContextMismatch (field : ContextField)
| InvalidClock
| Expired
| IssuedTooFarInFuture
| NonceReplayed
| ReplayStoreFailed.

Section Verifier.
Context `{B : BridgeLib} `{K : RecallKeys} `{R : ReplayStore}.

Record TrustedKey := { trusted_key_id : string; trusted_key : PublicKey; fingerprint : list byte }.
Definition trusted_key_from_bytes (key_id : string) (public_key : list byte) : result TrustedKey TrustedKeyBundleError :=
  if String.eqb key_id "" then Err EmptyKeyId
  else
    let? key := ok_or (public_key_from_bytes public_key) InvalidPublicKey in
    Ok {| trusted_key_id := key_id; trusted_key := key; fingerprint := sha256 public_key |}.
(** A [TrustedKeyBundle] is a map of keys by their id. *)
Fixpoint bundle_insert (configured : gmap string TrustedKey) (keys : list TrustedKey) : result (gmap string TrustedKey) TrustedKeyBundleError :=
  match keys with
  | [] => Ok configured
  | key :: keys =>
      let key_id := key.(trusted_key_id) in
      match configured !! key_id with
      | Some _ => Err (DuplicateKeyId key_id)
      | None => bundle_insert (<[key_id := key]> configured) keys
      end
  end.
Definition bundle_new (keys : list TrustedKey) : result (gmap string TrustedKey) TrustedKeyBundleError :=
  let? configured := bundle_insert ∅ keys in
  if bool_decide (configured = ∅) then Err EmptyBundle else Ok configured.

Record RecallVerificationPolicy := { max_future_skew_ms : Z }.
Definition policy_new (max_future_skew_ms : Z) : result RecallVerificationPolicy Z :=
  if max_future_skew_ms <? 0 then Err max_future_skew_ms else Ok {| max_future_skew_ms := max_future_skew_ms |}.

Record VerifiedRecallEnvelope := {
  verified : RecallEnvelopeV2;
  verified_at_unix_ms : Z;
  replay_namespace : ReplayNamespace;
}.

Definition validate_envelope (e : RecallEnvelopeV2) : result () RecallVerificationError :=
  result_map_err (λ error, match error with
                           | ProtocolVersion _ => UnsupportedProtocolVersion
                           | CanonicalizationVersion _ => UnsupportedCanonicalizationVersion
                           | other => InvalidEnvelope other
                           end) (validate e).

Definition decode_nibble (b : byte) : result Z RecallVerificationError :=
  let c := Z_of_byte b in
  if (48 <=? c) && (c <=? 57) then Ok (c - 48)
  else if (97 <=? c) && (c <=? 102) then Ok (c - 97 + 10)
  else Err InvalidSignatureEncoding.
Fixpoint decode_pairs (bytes : list byte) : result (list byte) RecallVerificationError :=
  match bytes with
  | a :: b :: rest =>
      let? high := decode_nibble a in
      let? low := decode_nibble b in
      let? decoded := decode_pairs rest in
      Ok (byte_of_Z (Z.lor (Z.shiftl high 4) low) :: decoded)
  | _ => Ok []
  end.
Definition decode_signature (encoded : string) : result (list byte) RecallVerificationError :=
  if negb (String.length encoded =? 128)%nat then Err InvalidSignatureEncoding else decode_pairs (string_bytes encoded).

Definition verify_signature (e : RecallEnvelopeV2) (key : TrustedKey) : result () RecallVerificationError :=
  let? signature := decode_signature e.(envelope_signature).(sig_hex) in
  let? signing_bytes := result_map_err InvalidEnvelope (recall_signing_bytes e.(payload)) in
  if verify_strict key.(trusted_key) signing_bytes signature then Ok () else Err InvalidSignature.

Definition require_context (matches : bool) (field : ContextField) : result () RecallVerificationError :=
  if matches then Ok () else Err (ContextMismatch field).
Definition verify_context (e : RecallEnvelopeV2) (expected : ExpectedRecallContext) : result () RecallVerificationError :=
  let p := e.(payload) in
  let? _ := require_context (bool_decide (p.(tenant_id) = expected.(ex_tenant_id))) TenantId in
  let? _ := require_context (bool_decide (p.(workspace_id) = expected.(ex_workspace_id))) WorkspaceId in
  let? _ := require_context (bool_decide (p.(agent_id) = expected.(ex_agent_id))) AgentId in
  let? _ := require_context (bool_decide (p.(session_id) = expected.(ex_session_id))) SessionId in
  let? _ := require_context (bool_decide (p.(mission_id) = expected.(ex_mission_id))) MissionId in
  let? _ := require_context (bool_decide (p.(rv_run_id) = expected.(ex_run_id))) RunId in
  let? _ := require_context (bool_decide (p.(request_id) = expected.(ex_request_id))) RequestId in
  require_context (bool_decide (p.(query_digest).(rd_value) =
                                (digest_sha256 (string_bytes expected.(ex_query)) true).(rd_value))) QueryDigest.

Definition verify_time (e : RecallEnvelopeV2) (now_unix_ms : Z) (policy : RecallVerificationPolicy)
  : result () RecallVerificationError :=
  if now_unix_ms <? 0 then Err InvalidClock
  else if e.(payload).(expires_at_unix_ms) <=? now_unix_ms then Err Expired
  else
    let latest_acceptable_issue := Z.min (now_unix_ms + policy.(max_future_skew_ms)) (2 ^ 63 - 1) in
    if latest_acceptable_issue <? e.(payload).(issued_at_unix_ms) then Err IssuedTooFarInFuture else Ok ().

Definition namespace_part (value : list byte) : list byte := be_bytes 8 (Z.of_nat (length value)) ++ value.
Definition optional_namespace_part (value : option (list byte)) : list byte :=
  match value with Some value => x01 :: namespace_part value | None => [x00] end.
Definition namespace_preimage (fingerprint : list byte) (tenant : string) (workspace : option string) : list byte :=
  namespace_part REPLAY_NAMESPACE_DOMAIN ++ namespace_part (string_bytes RECALL_PROTOCOL_VERSION)
  ++ namespace_part (string_bytes RECALL_CANONICALIZATION_VERSION) ++ namespace_part (string_bytes RECALL_SIGNING_DOMAIN_LABEL)
  ++ namespace_part (string_bytes RECALL_SIGNATURE_ALGORITHM) ++ namespace_part fingerprint
  ++ namespace_part (string_bytes tenant) ++ optional_namespace_part (string_bytes <$> workspace).
Definition derive_replay_namespace (e : RecallEnvelopeV2) (key : TrustedKey) : ReplayNamespace :=
  sha256 (namespace_preimage key.(fingerprint) e.(payload).(tenant_id) e.(payload).(workspace_id)).

(** Everything up to the replay store: the envelope and its namespace. *)
Definition authenticate (keys : gmap string TrustedKey) (policy : RecallVerificationPolicy) (now_unix_ms : Z) (envelope_json : string)
    (expected : ExpectedRecallContext) : result (RecallEnvelopeV2 * ReplayNamespace) RecallVerificationError :=
  let? envelope := ok_or (from_str envelope_json) Parse in
  let? _ := validate_envelope envelope in
  let? key := ok_or (keys !! envelope.(envelope_signature).(sig_key_id)) UnknownSigningKey in
  let? _ := verify_signature envelope key in
  let? _ := verify_context envelope expected in
  let? _ := verify_time envelope now_unix_ms policy in
  Ok (envelope, derive_replay_namespace envelope key).
Definition verify_json (keys : gmap string TrustedKey) (policy : RecallVerificationPolicy) (now_unix_ms : Z) (db : Db) (store : Store)
    (envelope_json : string) (expected : ExpectedRecallContext) : Store * result VerifiedRecallEnvelope RecallVerificationError :=
  match authenticate keys policy now_unix_ms envelope_json expected with
  | Err e => (store, Err e)
  | Ok (envelope, ns) =>
      match consume_once db store ns envelope.(payload).(nonce) envelope.(payload).(expires_at_unix_ms) with
      | (store, None) => (store, Err ReplayStoreFailed)
      | (store, Some Replayed) => (store, Err NonceReplayed)
      | (store, Some Fresh) =>
          (store, Ok {| verified := envelope; verified_at_unix_ms := now_unix_ms; replay_namespace := ns |})
      end
  end.
End Verifier.

(** ** What verification accepts *)

(** A parsed envelope has machine integers. *)
Class RecallKeysLaws `{B : BridgeLib} (K : RecallKeys) : Prop := {
  from_str_typed text e : from_str text = Some e → payload_typed e.(payload);
}.

Record context_ok `{B : BridgeLib} (p : RecallEnvelopeV2Payload) (expected : ExpectedRecallContext) : Prop := {
  ctx_tenant : p.(tenant_id) = expected.(ex_tenant_id);
  ctx_workspace : p.(workspace_id) = expected.(ex_workspace_id);
  ctx_agent : p.(agent_id) = expected.(ex_agent_id);
  ctx_session : p.(session_id) = expected.(ex_session_id);
  ctx_mission : p.(mission_id) = expected.(ex_mission_id);
  ctx_run : p.(rv_run_id) = expected.(ex_run_id);
  ctx_request : p.(request_id) = expected.(ex_request_id);
  ctx_query : p.(query_digest).(rd_value) = sha256_hex (string_bytes expected.(ex_query));
}.
Record in_time (p : RecallEnvelopeV2Payload) (now_unix_ms : Z) (policy : RecallVerificationPolicy) : Prop := {
  clock_ok : 0 ≤ now_unix_ms;
  not_expired : now_unix_ms < p.(expires_at_unix_ms);
  not_future : p.(issued_at_unix_ms) ≤ now_unix_ms + policy.(max_future_skew_ms);
}.

Lemma guard_pass_Ok {E} (b : bool) (e : E) : (if b then Ok () else Err e) = Ok () ↔ b = true.
Proof. destruct b; naive_solver. Qed.
Lemma ok_or_bind_Ok {A B E} (o : option A) (e : E) (f : A → result B E) b :
  (let? x := ok_or o e in f x) = Ok b ↔ ∃ a, o = Some a ∧ f a = Ok b.
Proof. destruct o; cbn; naive_solver. Qed.

Lemma nibble_digit v : 0 ≤ v < 16 → decode_nibble (byte_of_ascii (hex_digit v)) = Ok v.
Proof.
  intros Hv. assert (v ∈ seqZ 0 16) as Hin by (apply elem_of_seqZ; lia). vm_compute in Hin.
  repeat (apply elem_of_cons in Hin as [->|Hin]; [vm_compute; done|]). by apply elem_of_nil in Hin.
Qed.
Lemma decode_nibble_Ok b v : decode_nibble b = Ok v → 0 ≤ v < 16 ∧ ascii_of_byte b = hex_digit v.
Proof. destruct b; cbn; intros [= <-]; (split; [lia|reflexivity]). Qed.
Lemma decode_pairs_Ok n : ∀ s bs, String.length s = (2 * n)%nat → decode_pairs (string_bytes s) = Ok bs ↔ hex_lower bs = s.
Proof.
  induction n as [|n IH]; intros s bs Hlen.
  { destruct s; [|done]. cbn. split; [by intros [= <-]|]. by destruct bs. }
  destruct s as [|a [|b s]]; [done|cbn in Hlen; lia|]. specialize (IH s).
  change (string_bytes (String a (String b s))) with (byte_of_ascii a :: byte_of_ascii b :: string_bytes s).
  cbn [decode_pairs]. split.
  - intros (high & Hh & (low & Hl & (rest & Hr & [= <-])%result_bind_Ok)%result_bind_Ok)%result_bind_Ok.
    apply decode_nibble_Ok in Hh as [Hh Ha], Hl as [Hl Hb]. rewrite ascii_of_byte_of_ascii in Ha, Hb.
    destruct (nibbles_split high low Hh Hl) as [Hdiv Hmod]. cbn [hex_lower]. rewrite Hdiv, Hmod, <- Ha, <- Hb.
    do 2 f_equal. apply IH; [cbn in Hlen; lia|done].
  - destruct bs as [|c bs]; [done|]. intros [= <- <- <-]. destruct (byte_nibbles c) as (Hhi & Hlo & _).
    rewrite (nibble_digit _ Hhi), (nibble_digit _ Hlo). cbn [result_bind].
    rewrite (proj2 (IH bs ltac:(cbn in Hlen; lia)) eq_refl). cbn [result_bind]. by rewrite nibbles_join.
Qed.
(** A signature is 64 bytes in the one way to write them. *)
Lemma decode_signature_Ok s bs : decode_signature s = Ok bs ↔ hex_lower bs = s ∧ length bs = 64%nat.
Proof.
  unfold decode_signature. rewrite guard_Ok, negb_false_iff, Nat.eqb_eq. split.
  - intros [Hlen H]. apply (decode_pairs_Ok 64) in H; [|done]. split; [done|]. rewrite <- H, hex_lower_length in Hlen. lia.
  - intros [<- Hlen]. rewrite hex_lower_length, Hlen. split; [done|]. apply (decode_pairs_Ok (length bs)); [apply hex_lower_length|done].
Qed.

Section Accepts.
Context `{B : BridgeLib} `{K : RecallKeys} `{R : ReplayStore}.

Lemma require_context_Ok b field : require_context b field = Ok () ↔ b = true.
Proof using Type. apply guard_pass_Ok. Qed.
Lemma verify_context_Ok e expected : verify_context e expected = Ok () ↔ context_ok e.(payload) expected.
Proof using Type.
  unfold verify_context. rewrite !bind_unit_Ok, !require_context_Ok, !bool_decide_eq_true.
  split; [intros (? & ? & ? & ? & ? & ? & ? & ?); by constructor|by intros []].
Qed.
Lemma verify_time_Ok e now policy : payload_typed e.(payload) →
  verify_time e now policy = Ok () ↔ in_time e.(payload) now policy.
Proof using Type.
  intros ([_ Hi] & _). unfold verify_time. rewrite !guard_Ok. split.
  - intros (? & ? & ? & _). constructor; lia.
  - intros []. split_and!; try done; lia.
Qed.
Lemma verify_signature_Ok e key : verify_signature e key = Ok () ↔
  ∃ signature, hex_lower signature = e.(envelope_signature).(sig_hex) ∧ length signature = 64%nat
    ∧ verify_strict key.(trusted_key) (signing_bytes_of e.(payload)) signature = true.
Proof using Type.
  unfold verify_signature. rewrite recall_signing_bytes_Ok. cbn [result_map_err result_bind]. split.
  - intros (signature & [Hx Hl]%decode_signature_Ok & H%guard_pass_Ok)%result_bind_Ok. by exists signature.
  - intros (signature & Hx & Hl & Hv). rewrite (proj2 (decode_signature_Ok _ _) (conj Hx Hl)). cbn [result_bind]. by rewrite Hv.
Qed.
Lemma validate_envelope_Ok e : validate_envelope e = Ok () ↔ validate e = Ok ().
Proof using Type. unfold validate_envelope. destruct (validate e) as [[]|[]]; cbn; naive_solver. Qed.

(** What an envelope needs to be accepted, its nonce aside. *)
Record genuine (keys : gmap string TrustedKey) (policy : RecallVerificationPolicy) (now_unix_ms : Z)
    (expected : ExpectedRecallContext) (e : RecallEnvelopeV2) (key : TrustedKey) (signature : list byte) : Prop := {
  valid : validate e = Ok ();
  trusted : keys !! e.(envelope_signature).(sig_key_id) = Some key;
  written_once : hex_lower signature = e.(envelope_signature).(sig_hex) ∧ length signature = 64%nat;
  signed : verify_strict key.(trusted_key) (signing_bytes_of e.(payload)) signature = true;
  bound : context_ok e.(payload) expected;
  timely : in_time e.(payload) now_unix_ms policy;
}.
Lemma authenticate_Ok `{KL : !RecallKeysLaws K} keys policy now text expected e ns :
  authenticate keys policy now text expected = Ok (e, ns) ↔
  from_str text = Some e ∧ ∃ key signature,
    genuine keys policy now expected e key signature ∧ ns = derive_replay_namespace e key.
Proof using Type.
  unfold authenticate. rewrite ok_or_bind_Ok. split.
  - intros (e' & He & H). rewrite bind_unit_Ok, ok_or_bind_Ok in H. destruct H as (Hval & key & Hkey & H).
    rewrite !bind_unit_Ok, validate_envelope_Ok, verify_signature_Ok, verify_context_Ok,
      (verify_time_Ok _ _ _ (from_str_typed _ _ He)) in *.
    destruct H as ((signature & ? & ? & ?) & ? & ? & [= <- <-]). split; [done|]. exists key, signature. split; [by split|done].
  - intros (He & key & signature & [? ? [? ?] ? ? ?] & ->). exists e. split; [done|].
    rewrite bind_unit_Ok, ok_or_bind_Ok, validate_envelope_Ok. split; [done|]. exists key.
    rewrite !bind_unit_Ok, verify_signature_Ok, verify_context_Ok, (verify_time_Ok _ _ _ (from_str_typed _ _ He)). naive_solver.
Qed.

(** C10: verification accepts exactly what is genuine and fresh.  An answer is the parsed
    envelope, valid, signed under the trusted key that it names, bound to the request,
    within its time, and with a nonce the store had not seen; a refusal that is not the
    store's leaves the store as it was, so a forged envelope uses up no nonce. *)
Theorem verified_recall_is_genuine `{KL : !RecallKeysLaws K} keys policy now db store text expected store' (v : VerifiedRecallEnvelope) :
  (verify_json keys policy now db store text expected = (store', Ok v) ↔
   from_str text = Some v.(verified) ∧ v.(verified_at_unix_ms) = now
   ∧ (∃ key signature, genuine keys policy now expected v.(verified) key signature
        ∧ v.(replay_namespace) = derive_replay_namespace v.(verified) key)
   ∧ consume_once db store v.(replay_namespace) v.(verified).(payload).(nonce) v.(verified).(payload).(expires_at_unix_ms)
     = (store', Some Fresh))
  ∧ ∀ e, verify_json keys policy now db store text expected = (store', Err e) →
      e ≠ NonceReplayed → e ≠ ReplayStoreFailed → store' = store.
Proof using Type.
  split.
  - assert (verify_json keys policy now db store text expected = (store', Ok v) ↔
      authenticate keys policy now text expected = Ok (v.(verified), v.(replay_namespace)) ∧ v.(verified_at_unix_ms) = now
      ∧ consume_once db store v.(replay_namespace) v.(verified).(payload).(nonce) v.(verified).(payload).(expires_at_unix_ms)
        = (store', Some Fresh)) as ->; [|rewrite authenticate_Ok; naive_solver].
    unfold verify_json. destruct (authenticate _ _ _ _ _) as [[e ns]|]; [|naive_solver]. destruct v as [ve vat vns]. cbn. split.
    + destruct (consume_once _ _ _ _ _) as [st [[]|]] eqn:Hc; [|done..]. by intros [= <- <- <- <-].
    + intros ([= -> ->] & -> & ->). done.
  - intros e. unfold verify_json. destruct (authenticate _ _ _ _ _) as [[e' ns]|]; [|naive_solver].
    destruct (consume_once _ _ _ _ _) as [st [[]|]]; naive_solver.
Qed.
End Accepts.

(** ** Namespaces *)

Section Namespaces.
Context `{B : BridgeLib} `{K : RecallKeys}.

Definition short (bs : list byte) : Prop := Z.of_nat (length bs) < 2 ^ 64.
Lemma namespace_part_inj x y r s : short x → short y → namespace_part x ++ r = namespace_part y ++ s → x = y ∧ r = s.
Proof using Type.
  unfold namespace_part, short. intros Hx Hy. rewrite <- !app_assoc.
  intros [Hlen H]%app_inj_1; [|by rewrite !be_bytes_length].
  apply (f_equal be_value) in Hlen. rewrite !be_value_bytes in Hlen by lia. apply app_inj_1 in H; [done|lia].
Qed.
Lemma optional_namespace_part_inj o o' :
  (∀ x, o = Some x → short x) → (∀ y, o' = Some y → short y) → optional_namespace_part o = optional_namespace_part o' → o = o'.
Proof using Type.
  intros Ho Ho'. destruct o as [x|], o' as [y|]; cbn [optional_namespace_part]; try done.
  intros H%(f_equal tail). cbn [tail] in H. destruct (namespace_part_inj x y [] []) as [-> _]; [by apply Ho|by apply Ho'|by rewrite !app_nil_r|done].
Qed.
Definition scope_short (e : RecallEnvelopeV2) : Prop :=
  short (string_bytes e.(payload).(tenant_id)) ∧ ∀ w, e.(payload).(workspace_id) = Some w → short (string_bytes w).
Lemma namespace_preimage_inj f f' e e' : length f = length f' → short f → scope_short e → scope_short e' →
  namespace_preimage f e.(payload).(tenant_id) e.(payload).(workspace_id)
  = namespace_preimage f' e'.(payload).(tenant_id) e'.(payload).(workspace_id) →
  f = f' ∧ e.(payload).(tenant_id) = e'.(payload).(tenant_id) ∧ e.(payload).(workspace_id) = e'.(payload).(workspace_id).
Proof using Type.
  intros Hlen Hf [Ht Hw] [Ht' Hw']. unfold namespace_preimage. intros H. do 5 apply app_inv_head in H.
  apply namespace_part_inj in H as [-> H]; [|done|unfold short in *; lia].
  apply namespace_part_inj in H as [H1%string_bytes_inj H2]; [|done|done].
  apply optional_namespace_part_inj in H2; [|intros ? (? & ? & ->)%fmap_Some; by eauto|intros ? (? & ? & ->)%fmap_Some; by eauto].
  split_and!; [done|done|]. revert H2. destruct (workspace_id (payload e)), (workspace_id (payload e')); cbn; try done.
  by intros [= ->%string_bytes_inj].
Qed.

(** These two inputs have one digest. *)
Definition digests_clash `{B : BridgeLib} (x y : list byte) : Prop := x ≠ y ∧ sha256 x = sha256 y.

(** Replay namespaces keep signers and tenants apart.  Two envelopes share a namespace
    only if the same public key signed them, for the same tenant and workspace, or else the
    two keys or the two texts digested have the same SHA-256: no tenant can use up the
    nonces of another. *)
Theorem replay_namespaces_apart `{BL : !BridgeLaws B} id id' pub pub' key key' e e' :
  trusted_key_from_bytes id pub = Ok key → trusted_key_from_bytes id' pub' = Ok key' →
  scope_short e → scope_short e' →
  derive_replay_namespace e key = derive_replay_namespace e' key' →
  (pub = pub' ∧ e.(payload).(tenant_id) = e'.(payload).(tenant_id) ∧ e.(payload).(workspace_id) = e'.(payload).(workspace_id))
  ∨ digests_clash pub pub'
  ∨ digests_clash (namespace_preimage (sha256 pub) e.(payload).(tenant_id) e.(payload).(workspace_id))
                 (namespace_preimage (sha256 pub') e'.(payload).(tenant_id) e'.(payload).(workspace_id)).
Proof using Type.
  unfold trusted_key_from_bytes. intros Hk Hk' He He' H.
  destruct (String.eqb id ""), (String.eqb id' ""); try done. apply ok_or_bind_Ok in Hk as (? & _ & [= <-]), Hk' as (? & _ & [= <-]).
  unfold derive_replay_namespace in H. cbn [fingerprint] in H.
  destruct (decide (pub = pub')) as [->|Hp]; [|destruct (decide (sha256 pub = sha256 pub')) as [Hs|Hs]].
  - destruct (decide (e.(payload).(tenant_id) = e'.(payload).(tenant_id) ∧ e.(payload).(workspace_id) = e'.(payload).(workspace_id)))
      as [Hsame|Hdiff]; [by left|right; right]. split; [|exact H].
    intros Hpre%namespace_preimage_inj; try done; [tauto|unfold short; rewrite sha256_length; lia].
  - right. by left.
  - right; right. split; [|exact H].
    intros Hpre%namespace_preimage_inj; try done; [tauto|by rewrite !sha256_length|unfold short; rewrite sha256_length; lia].
Qed.
End Namespaces.

(** ** A run of the verifier *)

Section Run.
Context `{B : BridgeLib} `{K : RecallKeys} `{R : ReplayStore}.

Inductive Event :=
| Verify (now_unix_ms : Z) (db : Db) (envelope_json : string) (expected : ExpectedRecallContext)
| Cleanup (now_unix_ms cutoff batch : Z) (db : Db).
Definition event_time (event : Event) : Z := match event with Verify now _ _ _ | Cleanup now _ _ _ => now end.
Definition run_step (keys : gmap string TrustedKey) (policy : RecallVerificationPolicy)
    (w : Store * list VerifiedRecallEnvelope) (event : Event) : Store * list VerifiedRecallEnvelope :=
  match event with
  | Verify now db text expected =>
      let '(store, r) := verify_json keys policy now db w.1 text expected in
      (store, match r with Ok v => w.2 ++ [v] | Err _ => w.2 end)
  | Cleanup _ cutoff batch db => ((purge db w.1 cutoff batch).1, w.2)
  end.
Definition run (keys : gmap string TrustedKey) (policy : RecallVerificationPolicy) (store : Store) (events : list Event) :=
  foldl (run_step keys policy) (store, []) events.
(** The clock never goes back, and nothing is cleaned up before its time. *)
Fixpoint punctual (t : Z) (events : list Event) : Prop :=
  match events with
  | [] => True
  | event :: events =>
      t ≤ event_time event ∧ (match event with Cleanup now cutoff _ _ => cutoff ≤ now | Verify _ _ _ _ => True end)
      ∧ punctual (event_time event) events
  end.

Definition replay_key (v : VerifiedRecallEnvelope) : ReplayNamespace * string := (v.(replay_namespace), v.(verified).(payload).(nonce)).
Definition expiry (v : VerifiedRecallEnvelope) : Z := v.(verified).(payload).(expires_at_unix_ms).
Definition remembered (t : Z) (store : Store) (v : VerifiedRecallEnvelope) : Prop :=
  expiry v < t ∨ ∃ e, retained store (replay_key v) = Some e ∧ expiry v ≤ e.
Record run_ok (keys : gmap string TrustedKey) (t : Z) (w : Store * list VerifiedRecallEnvelope) : Prop := {
  run_remembers : Forall (remembered t w.1) w.2;
  run_apart : ∀ i j a b, (i < j)%nat → w.2 !! i = Some a → w.2 !! j = Some b → replay_key a = replay_key b →
    expiry a < b.(verified_at_unix_ms);
  run_timely : Forall (λ v, v.(verified_at_unix_ms) < expiry v) w.2;
  run_named : Forall (λ v, ∃ key, keys !! v.(verified).(envelope_signature).(sig_key_id) = Some key
    ∧ v.(replay_namespace) = derive_replay_namespace v.(verified) key) w.2;
}.

Lemma remembered_outlives t t' store store' v :
  t ≤ t' → outlives (retained store (replay_key v)) (retained store' (replay_key v)) → remembered t store v → remembered t' store' v.
Proof using Type. intros Ht Ho [?|(e & He & ?)]; [left; lia|right]. destruct (Ho _ He) as (e' & ? & ?). exists e'. split; [done|lia]. Qed.

Lemma run_step_ok `{KL : !RecallKeysLaws K} `{RL : !ReplayStoreLaws R} keys policy t w event :
  t ≤ event_time event → (match event with Cleanup now cutoff _ _ => cutoff ≤ now | Verify _ _ _ _ => True end) →
  run_ok keys t w → run_ok keys (event_time event) (run_step keys policy w event).
Proof using Type.
  destruct w as [store accepted], event as [now db text expected|now cutoff batch db]; cbn [event_time run_step]; intros Ht Hcut [Hr Ha Htm Hn].
  - unfold verify_json. cbn [fst snd] in *.
    destruct (authenticate _ _ _ _ _) as [[e ns]|] eqn:Hauth.
    2:{ split; cbn; try done. eapply Forall_impl; [exact Hr|]. intros v. apply remembered_outlives; [lia|]. intros x ->. exists x. split; [done|lia]. }
    destruct (consume_once _ _ _ _ _) as [store' r] eqn:Hc. cbn [fst snd].
    assert (Forall (remembered now store') accepted) as Hr'.
    { eapply Forall_impl; [exact Hr|]. intros v. apply remembered_outlives; [lia|]. by eapply consume_keeps. }
    destruct r as [[]|]; [|by split..]. apply consume_fresh in Hc as [Hnone Hsome].
    apply authenticate_Ok in Hauth as (_ & key & signature & [_ Hkey _ _ _ [? ? _]] & Hns).
    split; cbn [fst snd].
    + apply Forall_app. split; [done|]. apply Forall_singleton. right. exact Hsome.
    + intros i j a b Hij Hi Hj Hab. apply lookup_app_Some in Hj as [Hj|[Hlen Hj]].
      { apply (Ha i j); try done. rewrite lookup_app_l in Hi; [done|]. apply lookup_lt_Some in Hj. lia. }
      assert (j = length accepted) as ->. { apply lookup_lt_Some in Hj. cbn in Hj. lia. }
      rewrite Nat.sub_diag in Hj. injection Hj as <-. rewrite lookup_app_l in Hi by lia.
      rewrite Forall_lookup in Hr. destruct (Hr _ _ Hi) as [?|(e' & He & ?)]; [cbn; lia|].
      rewrite Hab in He. unfold replay_key in He. cbn in He. congruence.
    + apply Forall_app. split; [done|]. by apply Forall_singleton.
    + apply Forall_app. split; [done|]. apply Forall_singleton. by exists key.
  - cbn [fst snd]. split; cbn; try done. eapply Forall_impl; [exact Hr|]. intros v [?|(e & He & ?)]; [left; lia|].
    destruct (decide (cutoff ≤ e)) as [Hle|]; [|left; lia]. right. exists e. split; [|done].
    destruct (purge _ _ _ _) as [st r] eqn:Hp. by eapply purge_keeps.
Qed.

Lemma run_ok_from `{KL : !RecallKeysLaws K} `{RL : !ReplayStoreLaws R} keys policy events : ∀ t w,
  punctual t events → run_ok keys t w → ∃ t', run_ok keys t' (foldl (run_step keys policy) w events).
Proof using Type.
  induction events as [|event events IH]; intros t w; [by exists t|]. intros (Ht & Hcut & Hp) Hw.
  apply (IH (event_time event)); [done|]. by apply (run_step_ok keys policy t).
Qed.

(** C8: no recall is accepted twice.  In any run of verifications and clean-ups over a
    store that keeps its contract, whatever the database does to single operations, a
    nonce of a namespace is accepted again only after the first envelope with it has
    expired, and no payload is ever accepted twice under one public key, whatever key ids
    the two envelopes name. *)
Theorem no_recall_accepted_twice `{KL : !RecallKeysLaws K} `{RL : !ReplayStoreLaws R} keys policy store events t i j a b :
  punctual t events →
  (i < j)%nat → (run keys policy store events).2 !! i = Some a → (run keys policy store events).2 !! j = Some b →
  (a.(replay_namespace) = b.(replay_namespace) → a.(verified).(payload).(nonce) = b.(verified).(payload).(nonce) →
    a.(verified).(payload).(expires_at_unix_ms) < b.(verified_at_unix_ms))
  ∧ ∀ ka kb, keys !! a.(verified).(envelope_signature).(sig_key_id) = Some ka →
      keys !! b.(verified).(envelope_signature).(sig_key_id) = Some kb → ka.(fingerprint) = kb.(fingerprint) →
      a.(verified).(payload) ≠ b.(verified).(payload).
Proof using Type.
  intros Hp Hij Hi Hj. destruct (run_ok_from keys policy events t (store, [])) as (t' & [_ Ha Ht Hn]); [done|split; [done|done|done|done]|].
  fold (run keys policy store events) in *. rewrite Forall_lookup in Ht, Hn.
  split; [intros Hns Hno; apply (Ha i j); try done; by apply pair_equal_spec|].
  intros ka kb Hka Hkb Hkey Hpay. destruct (Hn _ _ Hi) as (ka' & Hka' & Hna), (Hn _ _ Hj) as (kb' & Hkb' & Hnb).
  assert (ka' = ka ∧ kb' = kb) as [-> ->] by (split; congruence).
  assert (expiry a < b.(verified_at_unix_ms)) as Hlt.
  { apply (Ha i j); try done. unfold replay_key. rewrite Hna, Hnb. unfold derive_replay_namespace. by rewrite Hpay, Hkey. }
  pose proof (Ht _ _ Hj) as Htj. unfold expiry in *. rewrite Hpay in Hlt. lia.
Qed.
End Run.

(** ** A concrete run *)

#[local] Existing Instances ToyBridge.lib ToyBridge.laws Postgres.store.
Module ToyKeys.
(** One signature is genuine; a text names the time and tenant of its envelope. *)
#[export] Instance keys : RecallKeys := {|
  PublicKey := list byte;
  public_key_from_bytes := Some;
  verify_strict _ _ signature := bool_decide (signature = replicate 64 x07);
  from_str text := if String.eqb text "t" then Some (ToyBridge.envelope "t")
                   else if String.eqb text "later" then Some (ToyBridge.envelope_at 60000 "t") else None;
|}.
#[export] Instance keys_laws : RecallKeysLaws keys.
Proof.
  constructor. intros text e. change (from_str text) with
    (if String.eqb text "t" then Some (ToyBridge.envelope "t")
     else if String.eqb text "later" then Some (ToyBridge.envelope_at 60000 "t") else None).
  repeat case_match; intros [= <-]; apply toy_typed_at; lia.
Qed.
Definition key : TrustedKey := {| trusted_key_id := "k"; trusted_key := [x01]; fingerprint := sha256 [x01] |}.
Definition bundle : gmap string TrustedKey := {[ "k" := key ]}.
Definition policy : RecallVerificationPolicy := {| max_future_skew_ms := 5000 |}.
Definition expected : ExpectedRecallContext :=
  {| ex_tenant_id := "t"; ex_workspace_id := None; ex_agent_id := "agent"; ex_session_id := Some "s"; ex_mission_id := None;
     ex_run_id := 2%N; ex_request_id := 1%N; ex_query := String "001" "" |}.
Definition events : list Event :=
  [Verify 2000 Postgres.Answered "t" expected; Verify 2500 Postgres.Answered "t" expected;
   Cleanup 61000 40000 10 Postgres.Answered; Verify 62000 Postgres.Answered "later" expected].
Definition first : VerifiedRecallEnvelope :=
  {| verified := ToyBridge.envelope "t"; verified_at_unix_ms := 2000;
     replay_namespace := derive_replay_namespace (ToyBridge.envelope "t") key |}.
Definition second : VerifiedRecallEnvelope :=
  {| verified := ToyBridge.envelope_at 60000 "t"; verified_at_unix_ms := 62000;
     replay_namespace := derive_replay_namespace (ToyBridge.envelope "t") key |}.
End ToyKeys.
#[local] Existing Instances ToyKeys.keys ToyKeys.keys_laws.
#[local] Instance toy_store_laws : ReplayStoreLaws Postgres.store.
Proof. apply Postgres.store_laws. Qed.

Lemma verified_recall_is_genuine_witness :
  let r := verify_json ToyKeys.bundle ToyKeys.policy 2000 Postgres.Answered ∅ "t" ToyKeys.expected in
  r.2 = Ok ToyKeys.first ∧ context_ok (ToyBridge.body "t") ToyKeys.expected.
Proof.
  assert ((verify_json ToyKeys.bundle ToyKeys.policy 2000 Postgres.Answered ∅ "t" ToyKeys.expected).2 = Ok ToyKeys.first) as H2
    by (vm_compute; reflexivity).
  split; [exact H2|].
  pose proof (surjective_pairing (verify_json ToyKeys.bundle ToyKeys.policy 2000 Postgres.Answered ∅ "t" ToyKeys.expected)) as H.
  rewrite H2 in H.
  destruct (proj1 (proj1 (verified_recall_is_genuine _ _ _ _ _ _ _ _ _)) H) as (_ & _ & (key & signature & Hg & _) & _).
  exact (bound _ _ _ _ _ _ _ Hg).
Defined.

Lemma no_recall_accepted_twice_witness :
  (run ToyKeys.bundle ToyKeys.policy ∅ ToyKeys.events).2 = [ToyKeys.first; ToyKeys.second] ∧ 31000 < 62000.
Proof.
  assert ((run ToyKeys.bundle ToyKeys.policy ∅ ToyKeys.events).2 = [ToyKeys.first; ToyKeys.second]) as H by (vm_compute; reflexivity).
  split; [exact H|].
  assert (punctual 0 ToyKeys.events) as Hp by (cbn; lia).
  refine (proj1 (no_recall_accepted_twice ToyKeys.bundle ToyKeys.policy ∅ ToyKeys.events 0 0 1 ToyKeys.first ToyKeys.second Hp _ _ _)
            eq_refl eq_refl); [lia|rewrite H; reflexivity..].
Defined.

Lemma replay_namespaces_apart_witness :
  digests_clash (namespace_preimage (sha256 [x01]) (ToyBridge.envelope "t").(payload).(tenant_id) (ToyBridge.envelope "t").(payload).(workspace_id))
               (namespace_preimage (sha256 [x01]) (ToyBridge.envelope "u").(payload).(tenant_id) (ToyBridge.envelope "u").(payload).(workspace_id)).
Proof.
  destruct (replay_namespaces_apart "k" "k" [x01] [x01] ToyKeys.key ToyKeys.key (ToyBridge.envelope "t") (ToyBridge.envelope "u"))
    as [(_ & Ht & _)|[[H _]|H]]; [reflexivity|reflexivity| | |vm_compute; reflexivity|discriminate Ht|by destruct H|exact H];
    (split; [vm_compute; reflexivity|intros w Hw; discriminate Hw]).
Defined.
