(* ===== verification/RecallConfig.v ===== *)
(** * Recall configuration: [src/aeon/recall_v2_config.rs]

    From the values of the environment to the components of recall verification: the mode,
    the pinned keys of an operator's document, the limits, and the replay store behind
    them.  The JSON of the document is parsed by [document_from_str]; what the database
    does at start is [Connection]. *)

From stdpp Require Import sorting.
From S2P Require Import Prelude Json RecallEnvelope RecallReplay RecallVerifier.

Definition TRUSTED_KEY_DOCUMENT_VERSION : Z := 1.
Definition CANONICAL_KEY_ID_PREFIX : string := "ed25519-sha256:".
Definition DEFAULT_POOL_MAX_CONNECTIONS : Z := 8.
Definition DEFAULT_CONNECT_TIMEOUT_MS : Z := 5000.
Definition DEFAULT_OPERATION_TIMEOUT_MS : Z := 5000.

Inductive RecallV2RuntimeMode := ModeDisabled | ModeEnforced.
Record RecallV2ConfigValues := {
  mode : option string;
  trusted_keys_json : option string;
  replay_database_url : option string;
  pool_max_connections : option string;
  connect_timeout_ms : option string;
  operation_timeout_ms : option string;
}.

Inductive PinnedAeonKeyState := Active | Retired.
#[export] Instance key_state_eq_dec : EqDecision PinnedAeonKeyState.
Proof. solve_decision. Defined.
Record PinnedAeonKeyRecord := { pinned_key_id : string; public_key_hex : string; state : PinnedAeonKeyState }.
Record PinnedAeonKeyDocument := { document_version : Z; document_keys : list PinnedAeonKeyRecord }.
Class PinnedDocuments := { document_from_str : string → option PinnedAeonKeyDocument }.

(** [Unreachable] is the panic of [decode_nibble]. *)
Inductive TrustedAeonKeyProviderError :=
| InvalidDocument
| UnsupportedDocumentVersion (version : Z)
| NoKeys
| EmptyKey
| DuplicateKey (key_id : string)
| NonCanonicalKeyId (supplied expected : string)
| DuplicatePublicKey
| InvalidPublicKeyHex (key_id : string)
| BadPublicKey (key_id : string)
| MissingActiveKey
| Unreachable.
Inductive RecallV2ComponentConfigError :=
| InvalidMode
| MissingTrustedKeys
| TrustedKeysInvalid (e : TrustedAeonKeyProviderError)
| MissingReplayDatabaseUrl
| InvalidPoolMaxConnections
| InvalidConnectTimeout
| InvalidOperationTimeout.
Inductive RecallV2StartupError :=
| Config (e : RecallV2ComponentConfigError)
| InvalidReplayDatabaseUrl
| ReplayDatabaseConnectTimedOut
| ReplayDatabaseUnavailable
| ReplayStoreInvalid (e : Postgres.PostgresReplayStoreError).

(** ** Values *)

Definition parse_runtime_mode (value : option string) : result RecallV2RuntimeMode RecallV2ComponentConfigError :=
  match value with
  | None => Ok ModeDisabled
  | Some s => if String.eqb s "disabled" then Ok ModeDisabled
              else if String.eqb s "enforced" then Ok ModeEnforced else Err InvalidMode
  end.
Definition require_nonempty {E} (value : option string) (error : E) : result string E :=
  match value with
  | Some value => if negb (String.eqb value "") && String.eqb (trim value) value then Ok value else Err error
  | None => Err error
  end.

Definition ascii_digit (b : byte) : bool := (48 <=? Z_of_byte b) && (Z_of_byte b <=? 57).
Definition is_decimal (value : string) : bool := negb (String.eqb value "") && forallb ascii_digit (string_bytes value).
(** [str::parse] of digits into an unsigned integer up to [max]. *)
Fixpoint parse_digits (max acc : Z) (bytes : list byte) : option Z :=
  match bytes with
  | [] => Some acc
  | b :: bytes => let acc := 10 * acc + (Z_of_byte b - 48) in if acc <=? max then parse_digits max acc bytes else None
  end.
Definition parse_nonzero (max : Z) (value : option string) (default : Z) (error : RecallV2ComponentConfigError)
  : result Z RecallV2ComponentConfigError :=
  match value with
  | None => Ok default
  | Some value =>
      if is_decimal value then
        match parse_digits max 0 (string_bytes value) with
        | Some parsed => if 0 <? parsed then Ok parsed else Err error
        | None => Err error
        end
      else Err error
  end.
Definition parse_nonzero_u32 := parse_nonzero U32_MAX.
Definition parse_nonzero_u64 := parse_nonzero U64_MAX.

(** ** Pinned keys *)

Definition id_le (a b : string) : Prop := bytes_le (string_bytes a) (string_bytes b) = true.
#[export] Instance id_le_dec a b : Decision (id_le a b) := decide (bytes_le (string_bytes a) (string_bytes b) = true).
Definition sort_ids : list string → list string := merge_sort id_le.

(** [binary_search_by]: the base after the halving loop, and the test of what it found. *)
Fixpoint search_base (fuel : nat) (l : list string) (x : string) (base size : nat) : nat :=
  match fuel with
  | O => base
  | S fuel =>
      if (size <=? 1)%nat then base
      else
        let half := (size / 2)%nat in
        let mid := (base + half)%nat in
        let greater := match l !! mid with Some c => negb (bool_decide (id_le c x)) | None => false end in
        search_base fuel l x (if greater then base else mid) (size - half)%nat
  end.
Definition binary_search (l : list string) (x : string) : bool :=
  match l with
  | [] => false
  | _ => bool_decide (l !! search_base (length l) l x 0 (length l) = Some x)
  end.

Section Provider.
Context `{B : BridgeLib} `{K : RecallKeys} `{D : PinnedDocuments}.

Record TrustedAeonKeySet := { bundle : gmap string TrustedKey; active_key_ids : list string; retired_key_ids : list string }.

Definition decode_public_key (key_id encoded : string) : result (list byte) TrustedAeonKeyProviderError :=
  if negb (String.length encoded =? 64)%nat || negb (all_lowercase_hex encoded) then Err (InvalidPublicKeyHex key_id)
  else result_map_err (λ _, Unreachable) (decode_pairs (string_bytes encoded)).
Definition canonical_key_id (public_key_fingerprint : list byte) : string :=
  CANONICAL_KEY_ID_PREFIX +:+ hex_lower public_key_fingerprint.
Definition map_trusted_key_error (key_id : string) (error : TrustedKeyBundleError) : TrustedAeonKeyProviderError :=
  match error with
  | EmptyKeyId => EmptyKey
  | InvalidPublicKey => BadPublicKey key_id
  | EmptyBundle => NoKeys
  | DuplicateKeyId key_id => DuplicateKey key_id
  end.

(** The variables of the loop of [from_json]. *)
Record Loading := {
  key_ids : gset string;
  public_keys : gset (list byte);
  active : list string;
  retired : list string;
  loaded : list TrustedKey;
}.
Definition load_record (l : Loading) (r : PinnedAeonKeyRecord) : result Loading TrustedAeonKeyProviderError :=
  let id := r.(pinned_key_id) in
  if String.eqb id "" then Err EmptyKey
  else
    let? public_key := decode_public_key id r.(public_key_hex) in
    let? key := result_map_err (map_trusted_key_error id) (trusted_key_from_bytes id public_key) in
    let canonical := canonical_key_id key.(fingerprint) in
    if negb (String.eqb id canonical) then Err (NonCanonicalKeyId id canonical)
    else if bool_decide (id ∈ l.(key_ids)) then Err (DuplicateKey id)
    else if bool_decide (public_key ∈ l.(public_keys)) then Err DuplicatePublicKey
    else Ok {| key_ids := {[ id ]} ∪ l.(key_ids);
               public_keys := {[ public_key ]} ∪ l.(public_keys);
               active := match r.(state) with Active => l.(active) ++ [id] | Retired => l.(active) end;
               retired := match r.(state) with Active => l.(retired) | Retired => l.(retired) ++ [id] end;
               loaded := l.(loaded) ++ [key] |}.
Fixpoint load_records (l : Loading) (records : list PinnedAeonKeyRecord) : result Loading TrustedAeonKeyProviderError :=
  match records with
  | [] => Ok l
  | r :: records => let? l := load_record l r in load_records l records
  end.
Definition nothing_loaded : Loading := {| key_ids := ∅; public_keys := ∅; active := []; retired := []; loaded := [] |}.
Definition from_json (text : string) : result TrustedAeonKeySet TrustedAeonKeyProviderError :=
  let? document := ok_or (document_from_str text) InvalidDocument in
  if negb (document.(document_version) =? TRUSTED_KEY_DOCUMENT_VERSION) then Err (UnsupportedDocumentVersion document.(document_version))
  else if bool_decide (document.(document_keys) = []) then Err NoKeys
  else
    let? l := load_records nothing_loaded document.(document_keys) in
    if bool_decide (l.(active) = []) then Err MissingActiveKey
    else
      let? bundle := result_map_err (map_trusted_key_error "") (bundle_new l.(loaded)) in
      Ok {| bundle := bundle; active_key_ids := sort_ids l.(active); retired_key_ids := sort_ids l.(retired) |}.
Definition contains_key (s : TrustedAeonKeySet) (key_id : string) : bool :=
  binary_search s.(active_key_ids) key_id || binary_search s.(retired_key_ids) key_id.

(** ** Components *)

Record EnforcedRecallV2ComponentConfig := {
  trusted_key_provider : TrustedAeonKeySet;
  database_url : string;
  max_connections : Z;
  connect_timeout : Z;
  operation_timeout : Z;
}.
Inductive RecallV2ComponentConfig := Disabled | Enforced (c : EnforcedRecallV2ComponentConfig).
Definition from_values (values : RecallV2ConfigValues) : result RecallV2ComponentConfig RecallV2ComponentConfigError :=
  let? m := parse_runtime_mode values.(mode) in
  match m with
  | ModeDisabled => Ok Disabled
  | ModeEnforced =>
      let? text := require_nonempty values.(trusted_keys_json) MissingTrustedKeys in
      let? provider := result_map_err TrustedKeysInvalid (from_json text) in
      let? url := require_nonempty values.(replay_database_url) MissingReplayDatabaseUrl in
      let? connections := parse_nonzero_u32 values.(pool_max_connections) DEFAULT_POOL_MAX_CONNECTIONS InvalidPoolMaxConnections in
      let? connect := parse_nonzero_u64 values.(connect_timeout_ms) DEFAULT_CONNECT_TIMEOUT_MS InvalidConnectTimeout in
      let? operation := parse_nonzero_u64 values.(operation_timeout_ms) DEFAULT_OPERATION_TIMEOUT_MS InvalidOperationTimeout in
      Ok (Enforced {| trusted_key_provider := provider; database_url := url; max_connections := connections;
                      connect_timeout := connect; operation_timeout := operation |})
  end.

(** What comes of connecting to a database: its URL may not parse; a connection shows the catalogue. *)
Inductive Connection := BadUrl | ConnectTimedOut | Unavailable | Connected (catalog : Postgres.Catalog).
(** The replay store of enforced components is the PostgreSQL one, with its timeout. *)
Inductive RecallV2Components := ComponentsDisabled | ComponentsEnforced (trusted_keys : TrustedAeonKeySet) (store_timeout : Z).
Definition construct_recall_v2_components (connect : EnforcedRecallV2ComponentConfig → Connection) (config : RecallV2ComponentConfig)
  : result RecallV2Components RecallV2StartupError :=
  match config with
  | Disabled => Ok ComponentsDisabled
  | Enforced c =>
      match connect c with
      | BadUrl => Err InvalidReplayDatabaseUrl
      | ConnectTimedOut => Err ReplayDatabaseConnectTimedOut
      | Unavailable => Err ReplayDatabaseUnavailable
      | Connected catalog =>
          let? timeout := result_map_err ReplayStoreInvalid (Postgres.new c.(operation_timeout) catalog) in
          Ok (ComponentsEnforced c.(trusted_key_provider) timeout)
      end
  end.
Definition construct_recall_v2_components_from_values (connect : EnforcedRecallV2ComponentConfig → Connection)
    (values : RecallV2ConfigValues) : result RecallV2Components RecallV2StartupError :=
  let? config := result_map_err Config (from_values values) in construct_recall_v2_components connect config.
End Provider.

(** ** Binary search *)

#[export] Instance id_le_total : Total id_le.
Proof. intros a b. apply bytes_le_total. Qed.
#[export] Instance id_le_transitive : Transitive id_le.
Proof. intros a b c. apply bytes_le_trans. Qed.
Lemma id_le_antisym a b : id_le a b → id_le b a → a = b.
Proof. intros Hab Hba. by apply string_bytes_inj, bytes_le_antisym. Qed.

Lemma sorted_lookup l i j a b : StronglySorted id_le l → l !! i = Some a → l !! j = Some b → (i ≤ j)%nat → id_le a b.
Proof.
  intros Hs Hi Hj Hij. destruct (decide (i = j)) as [->|Hne].
  - rewrite Hi in Hj. injection Hj as ->. unfold id_le. apply bytes_le_refl.
  - rewrite <- (take_drop j l) in Hs. apply (StronglySorted_app_1_elem_of _ _ _ _ _ Hs).
    + apply (list_elem_of_lookup_2 _ i). by rewrite lookup_take_lt by lia.
    + apply (list_elem_of_lookup_2 _ 0). by rewrite lookup_drop, Nat.add_0_r.
Qed.
Lemma search_base_finds l x : StronglySorted id_le l → ∀ fuel base size i,
  (size ≤ fuel)%nat → (base + size ≤ length l)%nat → (base ≤ i < base + size)%nat → l !! i = Some x →
  l !! search_base fuel l x base size = Some x.
Proof.
  intros Hs. induction fuel as [|fuel IH]; intros base size i Hf Hl Hi Hx; [lia|]. cbn [search_base].
  destruct (Nat.leb_spec size 1); [by replace base with i by lia|].
  pose proof (Nat.div_lt size 2 ltac:(lia) ltac:(lia)). pose proof (Nat.div_le_lower_bound size 2 1 ltac:(lia) ltac:(lia)).
  pose proof (Nat.Div0.mul_div_le size 2) as Hle.
  destruct (lookup_lt_is_Some_2 l (base + size / 2)%nat) as [c Hc]; [lia|]. rewrite Hc.
  destruct (bool_decide_reflect (id_le c x)) as [Hcx|Hcx]; cbn [negb].
  - destruct (decide (base + size / 2 ≤ i)%nat); [apply (IH _ _ i); lia || done|].
    assert (c = x) as ->. { apply id_le_antisym; [done|]. apply (sorted_lookup l i (base + size / 2)); done || lia. }
    apply (IH _ _ (base + size / 2)%nat); lia || done.
  - apply (IH _ _ i); try (lia || done). split; [lia|]. destruct (decide (i < base + size / 2)%nat); [lia|].
    destruct Hcx. apply (sorted_lookup l (base + size / 2) i); done || lia.
Qed.
Lemma binary_search_spec l x : StronglySorted id_le l → binary_search l x = bool_decide (x ∈ l).
Proof.
  intros Hs. unfold binary_search. destruct l as [|y l]; [by rewrite bool_decide_eq_false_2 by apply not_elem_of_nil|].
  apply bool_decide_ext. split; [apply list_elem_of_lookup_2|]. intros [i Hi]%list_elem_of_lookup_1.
  apply (search_base_finds _ _ Hs _ _ _ i); try (lia || done). apply lookup_lt_Some in Hi. lia.
Qed.
Lemma sort_ids_search l x : binary_search (sort_ids l) x = bool_decide (x ∈ l).
Proof.
  rewrite binary_search_spec; [|apply (StronglySorted_merge_sort id_le); apply _]. apply bool_decide_ext. unfold sort_ids. by rewrite merge_sort_Permutation.
Qed.

(** ** Numbers *)

Lemma parse_digits_Some max bytes v : ∀ acc, 0 ≤ acc ≤ max → Forall (λ b, ascii_digit b = true) bytes →
  parse_digits max acc bytes = Some v ↔ v = foldl (λ v b, 10 * v + (Z_of_byte b - 48)) acc bytes ∧ v ≤ max.
Proof.
  induction bytes as [|b bytes IH]; intros acc Hacc Hd; cbn [parse_digits foldl].
  - split; [intros [= ->]; lia|]. by intros [-> _].
  - apply Forall_cons in Hd as [Hb Hd]. unfold ascii_digit in Hb. destruct (Z.leb_spec (10 * acc + (Z_of_byte b - 48)) max).
    + apply IH; [lia|done].
    + split; [done|]. intros [-> Hle].
      assert (∀ bytes acc, 0 ≤ acc → Forall (λ b, ascii_digit b = true) bytes → acc ≤ foldl (λ v b, 10 * v + (Z_of_byte b - 48)) acc bytes) as Hmono.
      { clear. induction bytes as [|b bytes IH]; intros acc Ha Hd; cbn [foldl]; [lia|]. apply Forall_cons in Hd as [Hb Hd].
        unfold ascii_digit in Hb. etrans; [|apply IH; [lia|done]]. lia. }
      specialize (Hmono bytes (10 * acc + (Z_of_byte b - 48)) ltac:(lia) Hd). lia.
Qed.
(** The number that a setting stands for. *)
Definition setting (max default n : Z) (value : option string) : Prop :=
  match value with
  | None => n = default
  | Some s => is_decimal s = true ∧ n = dec_value (string_bytes s) ∧ 0 < n ≤ max
  end.
Lemma parse_nonzero_Ok max value default error n : 0 ≤ max →
  parse_nonzero max value default error = Ok n ↔ setting max default n value.
Proof.
  intros Hmax. destruct value as [s|]; cbn [parse_nonzero setting]; [|naive_solver].
  destruct (is_decimal s) eqn:Hd; [|naive_solver].
  assert (Forall (λ b, ascii_digit b = true) (string_bytes s)) as Hall.
  { unfold is_decimal in Hd. apply andb_true_iff in Hd as [_ Hd]. rewrite forallb_forall in Hd. by apply Forall_forall; intros b Hb%list_elem_of_In; apply Hd. }
  destruct (parse_digits max 0 (string_bytes s)) as [p|] eqn:Hp.
  - apply parse_digits_Some in Hp as [-> Hle]; [|lia|done]. unfold dec_value. destruct (Z.ltb_spec 0 (foldl (λ v b, 10 * v + (Z_of_byte b - 48)) 0 (string_bytes s))); naive_solver lia.
  - split; [done|]. intros (_ & -> & ? & ?). exfalso.
    assert (parse_digits max 0 (string_bytes s) = Some (dec_value (string_bytes s))) as Hparse by (apply parse_digits_Some; done || lia). congruence.
Qed.
Definition stated (value : option string) (s : string) : Prop := value = Some s ∧ s ≠ "" ∧ trim s = s.
Lemma require_nonempty_Ok {E} value (error : E) s : require_nonempty value error = Ok s ↔ stated value s.
Proof.
  unfold require_nonempty, stated. destruct value as [v|]; [|naive_solver].
  destruct (String.eqb_spec v ""), (String.eqb_spec (trim v) v); naive_solver.
Qed.

(** ** Pinned keys *)

Section Bundles.
Context `{B : BridgeLib} `{K : RecallKeys}.

Definition by_id (keys : list TrustedKey) : gmap string TrustedKey := list_to_map ((λ key, (key.(trusted_key_id), key)) <$> keys).
Lemma bundle_insert_Ok keys : ∀ configured b : gmap string TrustedKey,
  bundle_insert configured keys = Ok b ↔
  (NoDup (trusted_key_id <$> keys) ∧ ∀ key, key ∈ keys → configured !! key.(trusted_key_id) = None) ∧ b = by_id keys ∪ configured.
Proof using Type.
  induction keys as [|key keys IH]; intros configured b; cbn [bundle_insert].
  { unfold by_id. cbn. rewrite (left_id_L ∅ (∪)). split; [|naive_solver]. intros [= ->]. split; [|done].
    split; [apply NoDup_nil_2|]. by intros ? ?%elem_of_nil. }
  cbn [fmap list_fmap]. rewrite NoDup_cons. setoid_rewrite elem_of_cons.
  destruct (configured !! trusted_key_id key) as [k|] eqn:Hk.
  { split; [done|]. intros [[_ Hnone] _]. rewrite Hnone in Hk; [done|by left]. }
  rewrite IH. unfold by_id. cbn [fmap list_fmap list_to_map foldr fst snd].
  assert (trusted_key_id key ∉ (trusted_key_id <$> keys) →
    list_to_map ((λ key, (trusted_key_id key, key)) <$> keys) ∪ <[trusted_key_id key:=key]> configured
    = <[trusted_key_id key:=key]> (list_to_map ((λ key, (trusted_key_id key, key)) <$> keys)) ∪ configured) as Hu.
  { intros Hnew. rewrite <- insert_union_r, insert_union_l; [done|]. apply not_elem_of_list_to_map_1. rewrite <- list_fmap_compose. exact Hnew. }
  split.
  - intros [[Hnd Hin] ->]. assert (trusted_key_id key ∉ (trusted_key_id <$> keys)) as Hnew.
    { intros (k & Hkk & Hk')%list_elem_of_fmap. specialize (Hin _ Hk'). by rewrite <- Hkk, lookup_insert_eq in Hin. }
    split; [|by apply Hu]. split; [done|]. intros k [->|Hk']; [done|]. specialize (Hin _ Hk'). by apply lookup_insert_None in Hin as [? _].
  - intros [[[Hnew Hnd] Hin] ->]. split; [|symmetry; by apply Hu]. split; [done|]. intros k Hk'. rewrite lookup_insert_ne; [by apply Hin; right|].
    intros Heq. apply Hnew. apply list_elem_of_fmap. by exists k.
Qed.
Lemma bundle_new_Ok keys (b : gmap string TrustedKey) :
  bundle_new keys = Ok b ↔ keys ≠ [] ∧ NoDup (trusted_key_id <$> keys) ∧ b = by_id keys.
Proof using Type.
  unfold bundle_new. split.
  - intros (c & [[Hnd _] ->]%bundle_insert_Ok & H)%result_bind_Ok. rewrite (right_id_L ∅ (∪)) in H.
    apply guard_Ok in H as [He%bool_decide_eq_false [= <-]]. split_and!; [|done|done]. by intros ->.
  - intros (Hne & Hnd & ->). assert (bundle_insert ∅ keys = Ok (by_id keys)) as ->.
    { apply bundle_insert_Ok. rewrite (right_id_L ∅ (∪)). split; [|done]. split; [done|]. intros. apply lookup_empty. }
    cbn [result_bind]. rewrite bool_decide_eq_false_2; [done|]. destruct keys; [done|]. apply insert_non_empty.
Qed.
Lemma by_id_lookup keys id key : NoDup (trusted_key_id <$> keys) →
  by_id keys !! id = Some key ↔ key ∈ keys ∧ key.(trusted_key_id) = id.
Proof using Type.
  intros Hnd. unfold by_id. rewrite <- elem_of_list_to_map; [|by rewrite <- list_fmap_compose].
  rewrite list_elem_of_fmap. naive_solver.
Qed.
End Bundles.

Section Pinned.
Context `{B : BridgeLib} `{K : RecallKeys} `{D : PinnedDocuments}.

(** A record of the document pins a key: its hex digits are the 32 bytes of a valid public
    key, and its id is the fingerprint of that key. *)
Record pins (r : PinnedAeonKeyRecord) (key : TrustedKey) (public_key : list byte) : Prop := {
  pin_hex : hex_lower public_key = r.(public_key_hex);
  pin_length : length public_key = 32%nat;
  pin_valid : public_key_from_bytes public_key = Some key.(trusted_key);
  pin_print : key.(fingerprint) = sha256 public_key;
  pin_key_id : key.(trusted_key_id) = r.(pinned_key_id);
  pin_id : r.(pinned_key_id) = "ed25519-sha256:" +:+ hex_lower (sha256 public_key);
}.
Lemma pins_unique r key public_key key' public_key' : pins r key public_key → pins r key' public_key' → key = key' ∧ public_key = public_key'.
Proof using Type.
  intros [H1 L1 V1 F1 K1 _] [H2 L2 V2 F2 K2 _]. rewrite <- H2 in H1.
  apply hex_lower_inj in H1 as <-.
  split; [|done]. destruct key, key'; cbn in *. congruence.
Qed.

Lemma hex_lower_digits bs : all_lowercase_hex (hex_lower bs) = true.
Proof using Type.
  induction bs as [|b bs IH]; [done|]. unfold all_lowercase_hex in *. cbn [hex_lower String.list_ascii_of_string forallb].
  destruct (byte_nibbles b) as (Hhi & Hlo & _).
  rewrite IH, (hex_digit_ind (λ _, lowercase_hex_byte) eq_refl _ Hhi), (hex_digit_ind (λ _, lowercase_hex_byte) eq_refl _ Hlo). done.
Qed.
Lemma hex_digits_nibble a : lowercase_hex_byte a = true → is_ok (decode_nibble (byte_of_ascii a)) = true.
Proof using Type. destruct a as [[] [] [] [] [] [] [] []]; vm_compute; done. Qed.
Lemma decode_pairs_total n : ∀ s, String.length s = (2 * n)%nat → all_lowercase_hex s = true → ∃ bs, decode_pairs (string_bytes s) = Ok bs.
Proof using Type.
  induction n as [|n IH]; intros s Hlen Hs; [destruct s; [by exists []|done]|].
  destruct s as [|a [|b s]]; [done|cbn in Hlen; lia|]. unfold all_lowercase_hex in Hs. cbn in Hs.
  apply andb_true_iff in Hs as [Ha [Hb Hs]%andb_true_iff].
  change (string_bytes (String a (String b s))) with (byte_of_ascii a :: byte_of_ascii b :: string_bytes s). cbn [decode_pairs].
  apply hex_digits_nibble, is_ok_true in Ha as [high ->], Hb as [low ->]. cbn [result_bind].
  destruct (IH s) as [bs ->]; [cbn in Hlen; lia|done|]. by eexists.
Qed.
(** The panic is never reached. *)
Lemma decode_public_key_cases id encoded :
  (∃ bs, decode_public_key id encoded = Ok bs ∧ hex_lower bs = encoded ∧ length bs = 32%nat)
  ∨ decode_public_key id encoded = Err (InvalidPublicKeyHex id) ∧ ∀ bs, length bs = 32%nat → hex_lower bs ≠ encoded.
Proof using Type.
  unfold decode_public_key.
  destruct (Nat.eqb_spec (String.length encoded) 64) as [Hl|Hl]; cbn [negb orb].
  2:{ right. split; [done|]. intros bs Hbs <-. rewrite hex_lower_length in Hl. lia. }
  destruct (all_lowercase_hex encoded) eqn:Hh; cbn [negb].
  2:{ right. split; [done|]. intros bs _ <-. by rewrite hex_lower_digits in Hh. }
  left. destruct (decode_pairs_total 32 encoded Hl Hh) as [bs Hbs]. exists bs. rewrite Hbs. split; [done|].
  apply (decode_pairs_Ok 32) in Hbs as <-; [|done]. rewrite hex_lower_length in Hl. split; [done|lia].
Qed.

Definition pinned_by (l : Loading) (r : PinnedAeonKeyRecord) (key : TrustedKey) (public_key : list byte) : Loading :=
  {| key_ids := {[ r.(pinned_key_id) ]} ∪ l.(key_ids);
     public_keys := {[ public_key ]} ∪ l.(public_keys);
     active := match r.(state) with Active => l.(active) ++ [r.(pinned_key_id)] | Retired => l.(active) end;
     retired := match r.(state) with Active => l.(retired) | Retired => l.(retired) ++ [r.(pinned_key_id)] end;
     loaded := l.(loaded) ++ [key] |}.
Lemma load_record_Ok l r l' :
  load_record l r = Ok l' ↔ ∃ key public_key, pins r key public_key ∧ r.(pinned_key_id) ∉ l.(key_ids)
    ∧ public_key ∉ l.(public_keys) ∧ l' = pinned_by l r key public_key.
Proof using Type.
  unfold load_record, trusted_key_from_bytes, canonical_key_id. rewrite guard_Ok. split.
  - intros [Hid H]. rewrite Hid in H. apply result_bind_Ok in H as (pub & Hpub & H).
    destruct (decode_public_key_cases (pinned_key_id r) (public_key_hex r)) as [(bs & Hbs & Hhex & Hlen)|[Hbad _]]; [|congruence].
    rewrite Hbs in Hpub. injection Hpub as <-. apply result_bind_Ok in H as (key & Hkey & H).
    destruct (public_key_from_bytes bs) as [k|] eqn:Hk; [|done]. injection Hkey as <-. cbn [fingerprint] in H.
    rewrite !guard_Ok, negb_false_iff, String.eqb_eq, !bool_decide_eq_false in H. destruct H as (Heq & Hn1 & Hn2 & [= <-]).
    eexists _, bs. split; [|by split_and!]. by split.
  - intros (key & pub & [Hhex Hlen Hv Hf Hki Hid] & Hn1 & Hn2 & ->).
    assert (String.eqb (pinned_key_id r) "" = false) as -> by (by rewrite Hid). split; [done|].
    destruct (decode_public_key_cases (pinned_key_id r) (public_key_hex r)) as [(bs & Hbs & Hhex' & Hlen')|[_ Hbad]]; [|by destruct (Hbad pub)].
    assert (bs = pub) as -> by (apply hex_lower_inj; congruence).
    rewrite Hbs. cbn [result_bind]. rewrite Hv. cbn [result_bind ok_or result_map_err fingerprint].
    rewrite !guard_Ok, negb_false_iff, String.eqb_eq, !bool_decide_eq_false. split_and!; [done..|].
    unfold pinned_by. do 2 f_equal. destruct key; cbn in *. congruence.
Qed.

Definition kind_ids (st : PinnedAeonKeyState) (rs : list PinnedAeonKeyRecord) : list string :=
  pinned_key_id <$> filter (λ r, r.(state) = st) rs.
Lemma load_records_Ok rs : ∀ l l',
  load_records l rs = Ok l' ↔ ∃ kps : list (TrustedKey * list byte),
    Forall2 (λ r kp, pins r kp.1 kp.2) rs kps
    ∧ (NoDup (pinned_key_id <$> rs) ∧ ∀ r, r ∈ rs → r.(pinned_key_id) ∉ l.(key_ids))
    ∧ (NoDup kps.*2 ∧ ∀ p, p ∈ kps.*2 → p ∉ l.(public_keys))
    ∧ l' = foldl (λ l rkp, pinned_by l rkp.1 rkp.2.1 rkp.2.2) l (zip rs kps).
Proof using Type.
  induction rs as [|r rs IH]; intros l l'; cbn [load_records].
  - split.
    + intros [= <-]. exists []. split_and!; [constructor|constructor|by intros ? ?%elem_of_nil|constructor|by intros ? ?%elem_of_nil|done].
    + intros (kps & ->%Forall2_nil_inv_l & _ & _ & ->). done.
  - cbn [fmap list_fmap]. setoid_rewrite NoDup_cons. setoid_rewrite elem_of_cons. split.
    + intros (l1 & (key & pub & Hp & Hid & Hpub & ->)%load_record_Ok & (kps & Hf & [Hn Hi] & [Hn' Hi'] & ->)%IH)%result_bind_Ok.
      exists ((key, pub) :: kps). cbn in *. setoid_rewrite not_elem_of_union in Hi. setoid_rewrite not_elem_of_union in Hi'.
      setoid_rewrite not_elem_of_singleton in Hi. setoid_rewrite not_elem_of_singleton in Hi'. rewrite NoDup_cons. setoid_rewrite elem_of_cons.
      split_and!; try done; [by constructor| |naive_solver| |naive_solver].
      * intros (r' & Heq & Hr')%list_elem_of_fmap. destruct (Hi _ Hr') as [Hne _]. by rewrite Heq in Hne.
      * intros Hin. by destruct (Hi' _ Hin).
    + intros (kps & Hf & [[Hni Hn] Hi] & [Hn' Hi'] & ->). apply Forall2_cons_inv_l in Hf as ([key pub] & kps' & Hp & Hf & ->).
      cbn in *. rewrite NoDup_cons in Hn'. destruct Hn' as [Hnp Hn']. setoid_rewrite elem_of_cons in Hi'.
      apply result_bind_Ok. exists (pinned_by l r key pub). split.
      { apply load_record_Ok. exists key, pub. split_and!; auto. }
      apply IH. exists kps'. cbn. setoid_rewrite not_elem_of_union. setoid_rewrite not_elem_of_singleton.
      split_and!; try done.
      * intros r' Hr'. split; [|by auto]. intros Heq. apply Hni. rewrite <- Heq. by apply list_elem_of_fmap_2.
      * intros p Hpin. split; [|by auto]. by intros ->.
Qed.
Lemma loading_of rs : ∀ kps l, Forall2 (λ r kp, pins r kp.1 kp.2) rs kps →
  let l' := foldl (λ l rkp, pinned_by l rkp.1 rkp.2.1 rkp.2.2) l (zip rs kps) in
  l'.(loaded) = l.(loaded) ++ kps.*1 ∧ l'.(active) = l.(active) ++ kind_ids Active rs ∧ l'.(retired) = l.(retired) ++ kind_ids Retired rs.
Proof using Type.
  unfold kind_ids. induction rs as [|r rs IH]; intros kps l Hf.
  { apply Forall2_nil_inv_l in Hf as ->. cbn. by rewrite !app_nil_r. }
  apply Forall2_cons_inv_l in Hf as ([key pub] & kps' & Hp & Hf & ->). cbn [zip zip_with foldl fst snd fmap list_fmap].
  destruct (IH kps' (pinned_by l r key pub) Hf) as (-> & -> & ->). rewrite !filter_cons. cbn [loaded active retired pinned_by].
  destruct (state r); repeat case_decide; try done; cbn [fmap list_fmap]; rewrite <- ?app_assoc; done.
Qed.

(** What a document must say to be trusted. *)
Record doc_ok (d : PinnedAeonKeyDocument) : Prop := {
  doc_version : d.(document_version) = 1;
  doc_pins : Forall (λ r, ∃ key public_key, pins r key public_key) d.(document_keys);
  doc_ids : NoDup (pinned_key_id <$> d.(document_keys));
  doc_keys : NoDup (public_key_hex <$> d.(document_keys));
  doc_active : Exists (λ r, r.(state) = Active) d.(document_keys);
}.
Lemma pinned_hexes rs kps : Forall2 (λ r kp, pins r kp.1 kp.2) rs kps → public_key_hex <$> rs = hex_lower <$> kps.*2.
Proof using Type. induction 1 as [|r [key pub] rs kps [H] _ IH]; [done|]. cbn in *. by rewrite IH, H. Qed.
Lemma pinned_ids rs kps : Forall2 (λ r kp, pins r kp.1 kp.2) rs kps → trusted_key_id <$> kps.*1 = pinned_key_id <$> rs.
Proof using Type. induction 1 as [|r [key pub] rs kps [] _ IH]; [done|]. cbn in *. congruence. Qed.
#[local] Instance hex_lower_injective : Inj (=) (=) hex_lower := hex_lower_inj.

Lemma kind_ids_nil st rs : kind_ids st rs = [] ↔ ¬ Exists (λ r, r.(state) = st) rs.
Proof using Type.
  unfold kind_ids. rewrite Exists_exists. split.
  - intros H%fmap_nil_inv (r & Hr & Hst). assert (r ∈ filter (λ r, state r = st) rs) as Hin by (by apply list_elem_of_filter).
    rewrite H in Hin. by apply elem_of_nil in Hin.
  - intros H. destruct (filter (λ r, state r = st) rs) as [|r l] eqn:Hl; [done|]. destruct H. exists r.
    assert (r ∈ filter (λ r, state r = st) rs) as Hin by (rewrite Hl; by left). by apply list_elem_of_filter in Hin as [? ?].
Qed.
Lemma from_json_Ok text s :
  from_json text = Ok s ↔ ∃ d kps, document_from_str text = Some d ∧ doc_ok d
    ∧ Forall2 (λ r kp, pins r kp.1 kp.2) d.(document_keys) kps
    ∧ s = {| bundle := by_id kps.*1; active_key_ids := sort_ids (kind_ids Active d.(document_keys));
             retired_key_ids := sort_ids (kind_ids Retired d.(document_keys)) |}.
Proof using Type.
  unfold from_json. rewrite ok_or_bind_Ok. apply exist_proper. intros d. split.
  - intros [Hd H]. rewrite !guard_Ok, negb_false_iff, Z.eqb_eq, bool_decide_eq_false in H. destruct H as (Hv & Hne & H).
    apply result_bind_Ok in H as (l & (kps & Hf & [Hids _] & [Hpubs _] & ->)%load_records_Ok & H).
    destruct (loading_of _ _ nothing_loaded Hf) as (Hl & Ha & Hr). rewrite guard_Ok, bool_decide_eq_false, Ha, Hl, Hr in H.
    cbn [app nothing_loaded loaded active retired] in H.
    destruct H as [Hact H]. apply result_bind_Ok in H as (b & Hb & [= <-]).
    destruct (bundle_new (kps.*1)) as [b'|] eqn:Hbn; [|done]. injection Hb as <-. apply bundle_new_Ok in Hbn as (_ & _ & ->).
    exists kps. split_and!; try done. split; try done.
    + apply Forall_lookup. intros i r Hr'. destruct (Forall2_lookup_l _ _ _ _ _ Hf Hr') as ([key pub] & _ & Hp). by exists key, pub.
    + rewrite (pinned_hexes _ _ Hf). by apply (NoDup_fmap_2 hex_lower).
    + destruct (decide (Exists (λ r, state r = Active) (document_keys d))) as [|Hno]; [done|]. by apply kind_ids_nil in Hno.
  - intros (kps & Hd & [Hv Hp Hids Hhex Hact] & Hf & ->). split; [done|].
    rewrite !guard_Ok, negb_false_iff, Z.eqb_eq, bool_decide_eq_false. split; [done|]. split; [intros He; rewrite He in Hact; by apply Exists_nil in Hact|].
    apply result_bind_Ok. eexists. split.
    { apply load_records_Ok. exists kps. rewrite (pinned_hexes _ _ Hf) in Hhex. apply NoDup_fmap_1 in Hhex.
      split_and!; try done; intros; apply not_elem_of_empty. }
    destruct (loading_of _ _ nothing_loaded Hf) as (Hl & Ha & Hr). rewrite guard_Ok, bool_decide_eq_false, Ha, Hl, Hr. cbn [app nothing_loaded active loaded retired].
    split; [intros Hn%kind_ids_nil; done|].
    assert (bundle_new kps.*1 = Ok (by_id kps.*1)) as ->; [|done]. apply bundle_new_Ok. rewrite (pinned_ids _ _ Hf). split_and!; try done.
    intros Hn%fmap_nil_inv. rewrite Hn in Hf. apply Forall2_nil_inv_r in Hf. rewrite Hf in Hact. by apply Exists_nil in Hact.
Qed.
End Pinned.

(** ** The properties *)

Section Theorems.
Context `{B : BridgeLib} `{K : RecallKeys} `{D : PinnedDocuments}.

Lemma load_record_reachable l r : load_record l r ≠ Err Unreachable.
Proof using Type.
  unfold load_record, trusted_key_from_bytes. destruct (String.eqb _ ""); [done|].
  destruct (decode_public_key_cases (pinned_key_id r) (public_key_hex r)) as [(bs & -> & _)|[-> _]]; [|done]. cbn [result_bind].
  destruct (public_key_from_bytes bs); [|done]. cbn [ok_or result_bind result_map_err]. repeat case_match; done.
Qed.
Lemma load_records_reachable rs : ∀ l, load_records l rs ≠ Err Unreachable.
Proof using Type.
  induction rs as [|r rs IH]; intros l; [done|]. cbn [load_records]. pose proof (load_record_reachable l r).
  destruct (load_record l r) as [l'|e]; cbn [result_bind]; [apply IH|congruence].
Qed.
Lemma from_json_reachable text : from_json text ≠ Err Unreachable.
Proof using Type.
  unfold from_json. destruct (document_from_str text) as [d|]; [|done]. cbn [ok_or result_bind].
  destruct (negb _); [done|]. destruct (bool_decide _); [done|]. pose proof (load_records_reachable (document_keys d) nothing_loaded).
  destruct (load_records _ _) as [l|e]; cbn [result_bind]; [|congruence]. destruct (bool_decide _); [done|].
  destruct (bundle_new _) as [b|[]]; done.
Qed.

(** C30: the trust roots are the pinned keys.  A document is accepted exactly if it has the
    version, every record names a valid public key by its own fingerprint, no id or key
    occurs twice and one key is active; then the trusted keys are exactly those of the
    records, the binary searches find exactly their ids, and nothing panics. *)
Theorem trust_roots_are_pinned (text : string) :
  ((∃ s, from_json text = Ok s) ↔ ∃ d, document_from_str text = Some d ∧ doc_ok d)
  ∧ (∀ s d, from_json text = Ok s → document_from_str text = Some d →
      (∀ id key, s.(bundle) !! id = Some key ↔
         ∃ r public_key, r ∈ d.(document_keys) ∧ r.(pinned_key_id) = id ∧ pins r key public_key)
      ∧ ∀ id, contains_key s id = true ↔ is_Some (s.(bundle) !! id))
  ∧ from_json text ≠ Err Unreachable.
Proof using Type.
  split_and!; [| |apply from_json_reachable].
  - split; [intros (s & (d & kps & Hd & Hok & _)%from_json_Ok); eauto|]. intros (d & Hd & Hok).
    assert (∃ kps, Forall2 (λ r kp, pins r kp.1 kp.2) d.(document_keys) kps) as [kps Hf].
    { destruct Hok as [_ Hp _ _ _]. induction Hp as [|r rs (key & pub & Hr) _ [kps IH]]; [by exists []|]. exists ((key, pub) :: kps). by constructor. }
    eexists. apply from_json_Ok. by exists d, kps.
  - intros s d (d' & kps & Hd' & Hok & Hf & ->)%from_json_Ok Hd. rewrite Hd in Hd'. injection Hd' as <-. cbn [bundle].
    assert (∀ id key, by_id kps.*1 !! id = Some key ↔
      ∃ r public_key, r ∈ d.(document_keys) ∧ r.(pinned_key_id) = id ∧ pins r key public_key) as Hlook.
    { intros id key. rewrite by_id_lookup by (rewrite (pinned_ids _ _ Hf); apply Hok). split.
      - intros [([k pub] & -> & (i & Hi)%list_elem_of_lookup)%list_elem_of_fmap <-].
        destruct (Forall2_lookup_r _ _ _ _ _ Hf Hi) as (r & Hr & Hp). exists r, pub. cbn in *.
        split_and!; [by apply list_elem_of_lookup; eauto|by destruct Hp|done].
      - intros (r & pub & (i & Hi)%list_elem_of_lookup & <- & Hp). destruct (Forall2_lookup_l _ _ _ _ _ Hf Hi) as ([k pub'] & Hk & Hp').
        destruct (pins_unique _ _ _ _ _ Hp Hp') as [-> _]. split; [|by destruct Hp]. apply list_elem_of_fmap. exists (k, pub'). split; [done|].
        apply list_elem_of_lookup. eauto. }
    split; [exact Hlook|]. intros id. unfold contains_key. cbn [active_key_ids retired_key_ids].
    rewrite orb_true_iff, !sort_ids_search, !bool_decide_eq_true. unfold kind_ids. rewrite !list_elem_of_fmap. setoid_rewrite list_elem_of_filter. split.
    + assert (∀ r, r ∈ d.(document_keys) → is_Some (by_id kps.*1 !! pinned_key_id r)) as Hall.
      { intros r Hr. destruct Hok as [_ Hp _ _ _]. rewrite Forall_forall in Hp. destruct (Hp r Hr) as (key & pub & Hrp).
        exists key. apply Hlook. eauto. }
      intros [(r & -> & _ & Hr)|(r & -> & _ & Hr)]; by apply Hall.
    + intros (key & (r & pub & Hr & <- & _)%Hlook). destruct (state r) eqn:Hs; eauto 10.
Qed.

Lemma from_values_Enforced values c :
  from_values values = Ok (Enforced c) ↔ values.(mode) = Some "enforced"
    ∧ (∃ text, stated values.(trusted_keys_json) text ∧ from_json text = Ok c.(trusted_key_provider))
    ∧ stated values.(replay_database_url) c.(database_url)
    ∧ setting U32_MAX 8 c.(max_connections) values.(pool_max_connections)
    ∧ setting U64_MAX 5000 c.(connect_timeout) values.(connect_timeout_ms)
    ∧ setting U64_MAX 5000 c.(operation_timeout) values.(operation_timeout_ms).
Proof using Type.
  unfold from_values, parse_runtime_mode. destruct (mode values) as [m|]; [|cbn; naive_solver].
  destruct (String.eqb_spec m "disabled") as [->|]; [cbn; naive_solver|].
  destruct (String.eqb_spec m "enforced") as [->|]; [|cbn; naive_solver]. cbn [result_bind]. split.
  - intros (text & Ht%require_nonempty_Ok & (p & Hp & (url & Hu%require_nonempty_Ok & (cap & Hn & (ct & Hct & (ot & Hot & [= <-])%result_bind_Ok)
      %result_bind_Ok)%result_bind_Ok)%result_bind_Ok)%result_bind_Ok)%result_bind_Ok.
    apply parse_nonzero_Ok in Hn, Hct, Hot; [|unfold U64_MAX, U32_MAX; lia..]. destruct (from_json text) as [p'|] eqn:Hj; [|done]. injection Hp as ->.
    cbn. split_and!; eauto.
  - intros (_ & (text & Ht & Hp) & Hu & Hn & Hct & Hot). rewrite (proj2 (require_nonempty_Ok _ _ _) Ht). cbn [result_bind]. rewrite Hp. cbn [result_map_err result_bind].
    rewrite (proj2 (require_nonempty_Ok _ _ _) Hu). cbn [result_bind]. unfold parse_nonzero_u32, parse_nonzero_u64.
    rewrite (proj2 (parse_nonzero_Ok U32_MAX _ _ _ _ ltac:(done)) Hn). cbn [result_bind].
    rewrite (proj2 (parse_nonzero_Ok U64_MAX _ _ _ _ ltac:(done)) Hct). cbn [result_bind].
    rewrite (proj2 (parse_nonzero_Ok U64_MAX _ _ _ _ ltac:(done)) Hot). cbn [result_bind]. by destruct c.
Qed.
Lemma new_Ok timeout catalog t : Postgres.new timeout catalog = Ok t ↔ timeout ≠ 0 ∧ Postgres.validate_schema catalog = Ok () ∧ t = timeout.
Proof using Type.
  unfold Postgres.new, Postgres.validate_operation_timeout. rewrite !bind_unit_Ok, guard_Ok, done_Ok, Z.eqb_neq. naive_solver.
Qed.

(** Recall verification is never enforced in part.  The components are switched off
    exactly if the mode is absent or says so, whatever else is set; they are enforced
    exactly if the mode says so, the keys are pinned by an accepted document, every limit
    is its default or a positive decimal in range, and the database of the stated URL
    answered with the schema; every other start fails. *)
Theorem recall_mode_fails_closed (connect : EnforcedRecallV2ComponentConfig → Connection) (values : RecallV2ConfigValues) :
  (construct_recall_v2_components_from_values connect values = Ok ComponentsDisabled ↔
     values.(mode) = None ∨ values.(mode) = Some "disabled")
  ∧ ∀ s timeout, construct_recall_v2_components_from_values connect values = Ok (ComponentsEnforced s timeout) ↔
      values.(mode) = Some "enforced" ∧ ∃ text c catalog,
        stated values.(trusted_keys_json) text ∧ from_json text = Ok s
        ∧ c.(trusted_key_provider) = s ∧ c.(operation_timeout) = timeout ∧ 0 < timeout
        ∧ stated values.(replay_database_url) c.(database_url)
        ∧ setting U32_MAX 8 c.(max_connections) values.(pool_max_connections)
        ∧ setting U64_MAX 5000 c.(connect_timeout) values.(connect_timeout_ms)
        ∧ setting U64_MAX 5000 timeout values.(operation_timeout_ms)
        ∧ connect c = Connected catalog ∧ Postgres.validate_schema catalog = Ok ().
Proof using Type.
  unfold construct_recall_v2_components_from_values. split.
  - destruct (mode values) as [m|] eqn:Hm.
    2:{ unfold from_values. rewrite Hm. cbn. naive_solver. }
    destruct (String.eqb_spec m "disabled") as [->|Hne].
    { unfold from_values. rewrite Hm. cbn. naive_solver. }
    split; [|naive_solver]. intros (config & Hc & H)%result_bind_Ok. destruct (from_values values) as [c'|] eqn:Hv; [|done]. injection Hc as ->.
    destruct config as [|c].
    + unfold from_values, parse_runtime_mode in Hv. rewrite Hm in Hv. destruct (String.eqb_spec m "disabled"); [done|].
      destruct (String.eqb_spec m "enforced"); [|done]. cbn [result_bind] in Hv.
      by repeat (apply result_bind_Ok in Hv as (? & _ & Hv)).
    + cbn [construct_recall_v2_components] in H. destruct (connect c); try done. by apply result_bind_Ok in H as (? & _ & ?).
  - intros s timeout. split.
    + intros (config & Hc & H)%result_bind_Ok. destruct (from_values values) as [c'|] eqn:Hv; [|done]. injection Hc as ->.
      destruct config as [|c]; [done|]. apply from_values_Enforced in Hv as (Hm & (text & Ht & Hj) & Hu & Hn & Hct & Hot).
      cbn [construct_recall_v2_components] in H. destruct (connect c) as [| | |catalog] eqn:Hcon; try done.
      apply result_bind_Ok in H as (t & Hnew & [= <- <-]). destruct (Postgres.new _ _) as [t'|] eqn:Hpn; [|done]. injection Hnew as ->.
      apply new_Ok in Hpn as (Ht0 & Hs & ->). split; [done|]. exists text, c, catalog. split_and!; try done.
      unfold setting in Hot. destruct (operation_timeout_ms values); lia.
    + intros (Hm & text & c & catalog & Ht & Hj & <- & <- & Hpos & Hu & Hn & Hct & Hot & Hcon & Hs).
      assert (from_values values = Ok (Enforced c)) as -> by (apply from_values_Enforced; split_and!; eauto).
      cbn [result_map_err result_bind construct_recall_v2_components]. rewrite Hcon.
      assert (Postgres.new (operation_timeout c) catalog = Ok (operation_timeout c)) as -> by (apply new_Ok; split_and!; done || lia). done.
Qed.
End Theorems.

(** ** A concrete document *)

#[local] Existing Instances ToyBridge.lib ToyKeys.keys.
Module ToyDocument.
Definition record (b : byte) (st : PinnedAeonKeyState) : PinnedAeonKeyRecord :=
  {| pinned_key_id := "ed25519-sha256:" +:+ hex_lower (replicate 32 b); public_key_hex := hex_lower (replicate 32 b); state := st |}.
Definition document : PinnedAeonKeyDocument := {| document_version := 1; document_keys := [record x0b Retired; record x0a Active] |}.
#[export] Instance documents : PinnedDocuments := {| document_from_str text := if String.eqb text "pinned" then Some document else None |}.
Definition catalog : Postgres.Catalog :=
  {| Postgres.schema_version := Some 1;
     Postgres.columns :=
       [("replay_namespace", "bytea", "NO", None); ("nonce", "text", "NO", None); ("expires_at_unix_ms", "bigint", "NO", None);
        ("first_consumed_at", "timestamp with time zone", "NO", Some "clock_timestamp()")];
     Postgres.constraints :=
       [("nexus_recall_replay_nonces_pkey", "p", true, "PRIMARY KEY (replay_namespace, nonce)");
        ("nexus_recall_replay_namespace_length", "c", true, "CHECK ((octet_length(replay_namespace) = 32))");
        ("nexus_recall_replay_nonce_shape", "c", true, "CHECK (((octet_length(nonce) = 64) AND (nonce ~ '^[0-9a-f]{64}$'::text)))");
        ("nexus_recall_replay_expiry_nonnegative", "c", true, "CHECK ((expires_at_unix_ms >= 0))")];
     Postgres.expiry_index := Some "CREATE INDEX i ON t USING btree (expires_at_unix_ms, replay_namespace, nonce)";
     Postgres.privileges := true |}.
Definition values (m : string) : RecallV2ConfigValues :=
  {| mode := Some m; trusted_keys_json := Some "pinned"; replay_database_url := Some "postgres://h/d"; pool_max_connections := None;
     connect_timeout_ms := Some "250"; operation_timeout_ms := Some "0900" |}.
End ToyDocument.
#[local] Existing Instance ToyDocument.documents.

Lemma trust_roots_are_pinned_witness : ∃ s, from_json "pinned" = Ok s
  ∧ contains_key s (pinned_key_id (ToyDocument.record x0b Retired)) = true
  ∧ is_Some (s.(bundle) !! pinned_key_id (ToyDocument.record x0b Retired)).
Proof.
  assert (match from_json "pinned" with
          | Ok s => contains_key s (pinned_key_id (ToyDocument.record x0b Retired))
          | Err _ => false
          end = true) as Hin by (vm_compute; reflexivity).
  destruct (from_json "pinned") as [s|e] eqn:H; [|discriminate Hin].
  exists s. split; [reflexivity|].
  destruct (proj1 (proj2 (trust_roots_are_pinned "pinned")) s ToyDocument.document H eq_refl) as [_ Hc].
  split; [exact Hin|]. exact (proj1 (Hc _) Hin).
Defined.

Lemma recall_mode_fails_closed_witness : ∃ s,
  construct_recall_v2_components_from_values (λ _, Connected ToyDocument.catalog) (ToyDocument.values "enforced") = Ok (ComponentsEnforced s 900)
  ∧ from_json "pinned" = Ok s
  ∧ construct_recall_v2_components_from_values (λ _, Connected ToyDocument.catalog) (ToyDocument.values "Enforced") = Err (Config InvalidMode).
Proof.
  assert (match construct_recall_v2_components_from_values (λ _, Connected ToyDocument.catalog) (ToyDocument.values "enforced") with
          | Ok (ComponentsEnforced _ t) => t
          | _ => 0
          end = 900) as Ht by (vm_compute; reflexivity).
  destruct (construct_recall_v2_components_from_values (λ _, Connected ToyDocument.catalog) (ToyDocument.values "enforced")) as [[|s t]|e] eqn:H;
    [discriminate Ht| |discriminate Ht]. subst t.
  destruct (proj1 (proj2 (recall_mode_fails_closed _ _) s 900) H) as (_ & text & c & _ & (Hs & _) & Hj & _).
  exists s. split; [reflexivity|]. split; [|vm_compute; reflexivity]. injection Hs as <-. exact Hj.
Defined.
