(* ===== verification/AeonTimeline.v ===== *)
(** * The AEON timeline: [AeonTimelineSink] of [src/aeon.rs]

    Execution events are posted to the AEON service, each linked to the digest of the one
    before it, or, offline, appended to a spool file that is replayed later.  The network is
    the list of answers that the posts will get, consumed from its head; a file is its text,
    and [SpoolIo] says which of the operating system's operations fail.  The loops also
    return the bodies that the service acknowledged. *)

From stdpp Require Import pretty.
From S2P Require Import Prelude Errors Digest UrlGuard Egress Json Attestation.

Inductive NexusExecutionEvent :=
| CapabilityDenied (denied_category : string)
| SnapshotCreated (snapshot_id : Uuid)
| ProofCapsuleEmitted (capsule_id : Uuid).

Inductive TimelineDeliveryStatus := FireAndForget | Delivered | FailedOpen | RequiredButFailed.
Inductive TimelineDeliveryMode := Advisory | Attested | Offline.
Definition parse_mode (value : option string) : TimelineDeliveryMode :=
  let s := to_ascii_lowercase (trim (default "advisory" value)) in
  if bool_decide (s ∈ ["attested"; "required"]) then Attested
  else if bool_decide (s ∈ ["offline"; "spool"]) then Offline
  else Advisory.

Record TimelineReplayReport := { delivered : nat; failed : nat; skipped : nat }.
Definition report_zero : TimelineReplayReport := {| delivered := 0; failed := 0; skipped := 0 |}.

Record TimelineEventBody := {
  session_id : option string;
  nexus_snapshot_id : option string;
  capsule_digest : option string;
  event_type : string;
  prev_event_digest : option string;
}.
Record TimelineSpoolRecord := {
  created_at : DateTime;
  agent_id : string;
  event_id : option string;
  event : TimelineEventBody;
}.
#[export] Instance TimelineEventBody_eq_dec : EqDecision TimelineEventBody.
Proof. solve_decision. Defined.

Definition with_prev (b : TimelineEventBody) (prev : option string) : TimelineEventBody :=
  {| session_id := b.(session_id); nexus_snapshot_id := b.(nexus_snapshot_id); capsule_digest := b.(capsule_digest);
     event_type := b.(event_type); prev_event_digest := prev |}.

(** serde's texts, and the path of a URL. *)
Class TimelineLib `{U : UrlLib} := {
  uuid_text : Uuid → string;
  record_line : TimelineSpoolRecord → string;
  record_of_line : string → option TimelineSpoolRecord;
  url_with_segments : Url → list string → option Url;
}.
(** Texts are lossless; a record's text is one line that is not blank. *)
Definition newline : ascii := ascii_of_nat 10.
Definition carriage_return : ascii := ascii_of_nat 13.
Class TimelineLaws `(T : TimelineLib) : Prop := {
  uuid_text_inj : Inj (=) (=) uuid_text;
  record_round r : record_of_line (record_line r) = Some r;
  record_one_line r : no_char newline (record_line r) ∧ strip_suffix (String carriage_return "") (record_line r) = None;
  record_not_blank r : trim (record_line r) ≠ "";
}.

Definition TIMELINE_MAX_ATTEMPTS : nat := 3.
Definition is_success (status : Z) : bool := (200 <=? status) && (status <? 300).

Section Timeline.
Context `{T : TimelineLib} `{J : JsonLib} `{Sh : Sha256Lib}.
(** Name resolution, as in [Egress]. *)
Variable resolve : string → Z → option (list IpAddr).

Definition sha256_hex (bytes : list byte) : string := hex_lower (sha256 bytes).

(** ** Events *)

Definition from_event (session : option string) (e : NexusExecutionEvent) : TimelineEventBody :=
  match e with
  | SnapshotCreated id =>
      {| session_id := session; nexus_snapshot_id := Some (uuid_text id); capsule_digest := None;
         event_type := "snapshot_created"; prev_event_digest := None |}
  | CapabilityDenied _ =>
      {| session_id := session; nexus_snapshot_id := None; capsule_digest := None;
         event_type := "capability_denied"; prev_event_digest := None |}
  | ProofCapsuleEmitted id =>
      {| session_id := session; nexus_snapshot_id := None; capsule_digest := Some (uuid_text id);
         event_type := "proof_capsule_emitted"; prev_event_digest := None |}
  end.

(** Absent members are skipped. *)
Definition member_of (k : string) (o : option string) : list (string * Json) :=
  match o with Some s => [(k, JStr s)] | None => [] end.
Definition body_json (b : TimelineEventBody) : Json :=
  JObj (member_of "session_id" b.(session_id) ++ member_of "nexus_snapshot_id" b.(nexus_snapshot_id)
        ++ member_of "capsule_digest" b.(capsule_digest) ++ [("event_type", JStr b.(event_type))]
        ++ member_of "prev_event_digest" b.(prev_event_digest)).
Definition timeline_event_body_digest (b : TimelineEventBody) : string := sha256_hex (json_text (body_json b)).

Definition UNIT_SEPARATOR : string := String (ascii_of_nat 31) "".
Definition timeline_event_id (agent : string) (b : TimelineEventBody) : string :=
  sha256_hex (string_bytes
    (agent +:+ UNIT_SEPARATOR +:+ default "" b.(session_id) +:+ UNIT_SEPARATOR +:+ b.(event_type) +:+ UNIT_SEPARATOR
     +:+ default "" b.(nexus_snapshot_id) +:+ UNIT_SEPARATOR +:+ default "" b.(capsule_digest))).

(** [Err i] is the index of the first event whose link is wrong. *)
Fixpoint verify_from (index : nat) (previous : option string) (events : list TimelineEventBody) : result () nat :=
  match events with
  | [] => Ok ()
  | e :: events =>
      if decide (e.(prev_event_digest) = previous)
      then verify_from (S index) (Some (timeline_event_body_digest e)) events
      else Err index
  end.
Definition verify_timeline_chain (events : list TimelineEventBody) : result () nat := verify_from 0 None events.

(** ** The sink *)

Record AeonTimelineSink := {
  base_url : string;
  policy : result EgressPolicy NexusError;
  management_key : option string;
  mode : TimelineDeliveryMode;
  last_event_digest : option string;
}.
Definition set_last (s : AeonTimelineSink) (d : option string) : AeonTimelineSink :=
  {| base_url := s.(base_url); policy := s.(policy); management_key := s.(management_key); mode := s.(mode);
     last_event_digest := d |}.
Definition with_mode (s : AeonTimelineSink) (m : TimelineDeliveryMode) : AeonTimelineSink :=
  {| base_url := s.(base_url); policy := s.(policy); management_key := s.(management_key); mode := m;
     last_event_digest := s.(last_event_digest) |}.

Definition link_timeline_event (s : AeonTimelineSink) (b : TimelineEventBody) : TimelineEventBody :=
  with_prev b s.(last_event_digest).
Definition record_timeline_event_digest (s : AeonTimelineSink) (b : TimelineEventBody) : AeonTimelineSink :=
  set_last s (Some (timeline_event_body_digest b)).

Definition sink_url (s : AeonTimelineSink) (segments : list string) : option Url :=
  u ← url_parse (s.(base_url) +:+ "/"); url_with_segments u segments.

(** The status of each answer to come; [None] is a failed request. *)
Definition Net := list (option Z).
Definition post_json (s : AeonTimelineSink) (url : Url) (net : Net) : Net * option Z :=
  match s.(policy) with
  | Err _ => (net, None)
  | Ok p =>
      if is_ok (check_url resolve p url)
      then match net with a :: net => (net, a) | [] => ([], None) end
      else (net, None)
  end.

(** The loop; [remaining] attempts remain. *)
Fixpoint post_attempts (remaining : nat) (s : AeonTimelineSink) (url : Url) (net : Net) : Net * bool :=
  match remaining with
  | O => (net, false)
  | S remaining =>
      let again := (0 <? remaining)%nat in
      match post_json s url net with
      | (net, Some status) =>
          if is_success status then (net, true)
          else if (500 <=? status) && again then post_attempts remaining s url net
          else (net, false)
      | (net, None) => if again then post_attempts remaining s url net else (net, false)
      end
  end.
Definition post_event_with_retry (s : AeonTimelineSink) (net : Net) (agent : string) (b : TimelineEventBody) : Net * bool :=
  match s.(management_key) with
  | None => (net, false)
  | Some _ =>
      match sink_url s ["api"; "v1"; "agents"; agent; "timeline"] with
      | None => (net, false)
      | Some url => post_attempts TIMELINE_MAX_ATTEMPTS s url net
      end
  end.

(** The loop of [deliver]; also the acknowledged bodies. *)
Fixpoint deliver_events (s : AeonTimelineSink) (net : Net) (agent : string) (session : option string)
    (events : list NexusExecutionEvent) : AeonTimelineSink * Net * list TimelineEventBody * bool :=
  match events with
  | [] => (s, net, [], true)
  | e :: events =>
      let body := link_timeline_event s (from_event session e) in
      match post_event_with_retry s net agent body with
      | (net, true) =>
          let '(s, net, acked, all) := deliver_events (record_timeline_event_digest s body) net agent session events in
          (s, net, body :: acked, all)
      | (net, false) =>
          let '(s, net, acked, _) := deliver_events s net agent session events in (s, net, acked, false)
      end
  end.

(** ** The spool *)

Definition Spool := option string.
Record SpoolIo := {
  readable : bool;
  dir_created : bool;
  opened : bool;
  written : nat;       (** how many records are written before a write fails *)
  torn : string;       (** what a failed write leaves *)
  rewritten : bool;
  clock : DateTime;
}.

(** [str::lines]. *)
Fixpoint strip_returns (pieces : list string) : list string :=
  match pieces with
  | [] => []
  | [last] => if decide (last = "") then [] else [last]
  | p :: pieces => default p (strip_suffix (String carriage_return "") p) :: strip_returns pieces
  end.
Definition lines (content : string) : list string := strip_returns (split_on newline content).
Definition spool_lines (content : string) : list string := filter (λ l, trim l ≠ "") (lines content).

Definition read_spooled_event_ids (io : SpoolIo) (file : Spool) : list string :=
  match file with
  | Some content =>
      if io.(readable) then omap (λ l, r ← record_of_line l; r.(event_id)) (spool_lines content) else []
  | None => []
  end.

(** The append loop, from the text so far; [n] more writes succeed. *)
Fixpoint append_records (n : nat) (io : SpoolIo) (seen : list string) (content : string) (records : list TimelineSpoolRecord)
  : string * bool :=
  match records with
  | [] => (content, true)
  | r :: records =>
      let append seen :=
        match n with
        | O => (content +:+ io.(torn), false)
        | S n => append_records n io seen (content +:+ record_line r +:+ String newline "") records
        end in
      match r.(event_id) with
      | Some id => if decide (id ∈ seen) then append_records n io seen content records else append (id :: seen)
      | None => append seen
      end
  end.
Definition spool_record (io : SpoolIo) (agent : string) (session : option string) (e : NexusExecutionEvent) : TimelineSpoolRecord :=
  let body := from_event session e in
  {| created_at := io.(clock); agent_id := agent; event_id := Some (timeline_event_id agent body); event := body |}.
Definition spool_events (io : SpoolIo) (file : Spool) (agent : string) (session : option string)
    (events : list NexusExecutionEvent) : Spool * bool :=
  let seen := read_spooled_event_ids io file in
  if negb io.(dir_created) then (file, false)
  else if negb io.(opened) then (file, false)
  else
    let '(content, ok) := append_records io.(written) io seen (default "" file) (spool_record io agent session <$> events) in
    (Some content, ok).

Definition rewrite_spool (io : SpoolIo) (file : Spool) (retained : list string) : Spool :=
  if negb io.(rewritten) then file
  else match retained with [] => None | _ => Some (join (String newline "") retained +:+ String newline "") end.

(** The loop of [replay_spooled_events]. *)
Record Replayed := {
  rp_sink : AeonTimelineSink;
  rp_net : Net;
  rp_report : TimelineReplayReport;
  rp_retained : list string;
  rp_acked : list TimelineEventBody;
}.
Definition counted (d f s : nat) (retained : list string) (acked : list TimelineEventBody) (r : Replayed) : Replayed :=
  {| rp_sink := r.(rp_sink); rp_net := r.(rp_net);
     rp_report := {| delivered := d + r.(rp_report).(delivered); failed := f + r.(rp_report).(failed);
                     skipped := s + r.(rp_report).(skipped) |};
     rp_retained := retained ++ r.(rp_retained); rp_acked := acked ++ r.(rp_acked) |}.
Fixpoint replay_lines (s : AeonTimelineSink) (net : Net) (agent : string) (since : option DateTime) (seen : list string)
    (ls : list string) : Replayed :=
  match ls with
  | [] => {| rp_sink := s; rp_net := net; rp_report := report_zero; rp_retained := []; rp_acked := [] |}
  | l :: ls =>
      match record_of_line l with
      | None => counted 0 1 0 [l] [] (replay_lines s net agent since seen ls)
      | Some r =>
          if negb (bool_decide (r.(agent_id) = agent)) || match since with Some t => r.(created_at) <? t | None => false end
          then counted 0 0 1 [l] [] (replay_lines s net agent since seen ls)
          else if match r.(event_id) with Some id => bool_decide (id ∈ seen) | None => false end
          then counted 0 0 1 [] [] (replay_lines s net agent since seen ls)
          else
            let seen := match r.(event_id) with Some id => id :: seen | None => seen end in
            let body := link_timeline_event s r.(event) in
            match post_event_with_retry s net r.(agent_id) body with
            | (net, true) =>
                counted 1 0 0 [] [body] (replay_lines (record_timeline_event_digest s body) net agent since seen ls)
            | (net, false) => counted 0 1 0 [l] [] (replay_lines s net agent since seen ls)
            end
      end
  end.
Definition replay_spooled_events (io : SpoolIo) (s : AeonTimelineSink) (net : Net) (file : Spool) (agent : string)
    (since : option DateTime) : Spool * Replayed :=
  let nothing n := {| rp_sink := s; rp_net := net;
                      rp_report := {| delivered := 0; failed := n; skipped := 0 |}; rp_retained := []; rp_acked := [] |} in
  match file with
  | None => (None, nothing 0%nat)
  | Some content =>
      if negb io.(readable) then (file, nothing 1%nat)
      else
        let r := replay_lines s net agent since [] (spool_lines content) in
        (rewrite_spool io file r.(rp_retained), r)
  end.

Definition deliver (io : SpoolIo) (s : AeonTimelineSink) (net : Net) (file : Spool) (agent : string)
    (session : option string) (events : list NexusExecutionEvent)
  : AeonTimelineSink * Net * Spool * list TimelineEventBody * TimelineDeliveryStatus :=
  match events with
  | [] => (s, net, file, [], Delivered)
  | _ =>
      match s.(mode) with
      | Offline =>
          let '(file, ok) := spool_events io file agent session events in
          (s, net, file, [], if ok then FireAndForget else FailedOpen)
      | m =>
          let '(s, net, acked, all) := deliver_events s net agent session events in
          (s, net, file, acked,
           if all then Delivered else match m with Attested => RequiredButFailed | _ => FailedOpen end)
      end
  end.
End Timeline.

(** ** Texts and files *)

Section Theorems.
Context `{T : TimelineLib} `{J : JsonLib} `{Sh : Sha256Lib}.

(** A file of records is read back line by line. *)
Definition text_of (rs : list TimelineSpoolRecord) : string :=
  foldr (λ r t, record_line r +:+ String newline "" +:+ t) "" rs.
Lemma text_of_app rs rs' : text_of (rs ++ rs') = text_of rs +:+ text_of rs'.
Proof using Type. induction rs as [|r rs IH]; [done|]. cbn [app text_of foldr]. fold (text_of rs) (text_of (rs ++ rs')). by rewrite IH, <- !string_app_assoc. Qed.

Lemma spool_lines_text `{!TimelineLaws T} rs : spool_lines (text_of rs) = record_line <$> rs.
Proof.
  unfold spool_lines, lines. induction rs as [|r rs IH]; [done|].
  cbn [text_of foldr]. fold (text_of rs). destruct (record_one_line r) as [Hn Hr].
  change (String newline "" +:+ text_of rs) with (String newline (text_of rs)). rewrite split_on_app by done.
  pose proof (split_on_nonempty newline (text_of rs)) as Hne.
  destruct (split_on newline (text_of rs)) as [|p ps]; [done|]. cbn [strip_returns]. rewrite Hr. cbn [default].
  rewrite filter_cons_True by apply record_not_blank. cbn [fmap list_fmap]. by rewrite <- IH.
Qed.

(** ** The chain *)

(** The digest that the next event must link to. *)
Definition tip (previous : option string) (l : list TimelineEventBody) : option string :=
  match last l with Some b => Some (timeline_event_body_digest b) | None => previous end.
Definition chained (previous : option string) (l : list TimelineEventBody) : Prop := verify_from 0 previous l = Ok ().

Lemma verify_from_index i j prev l : verify_from i prev l = Ok () → verify_from j prev l = Ok ().
Proof using Type. revert i j prev. induction l as [|b l IH]; intros i j prev; [done|]. cbn. case_decide; [apply IH|done]. Qed.
Lemma tip_cons prev b l : tip prev (b :: l) = tip (Some (timeline_event_body_digest b)) l.
Proof using Type. unfold tip. destruct l as [|b' l]; [done|]. cbn [last]. by destruct (last (b' :: l)) eqn:E; [|apply last_None in E]. Qed.
Lemma chained_cons prev b l :
  chained prev (b :: l) ↔ b.(prev_event_digest) = prev ∧ chained (Some (timeline_event_body_digest b)) l.
Proof using Type.
  unfold chained. cbn [verify_from]. case_decide as Hd.
  - split; [intros H'; split; [done|by eapply verify_from_index]|]. intros [_ H']. by eapply verify_from_index.
  - split; [done|by intros [? _]].
Qed.
Lemma chained_app prev l l' : chained prev (l ++ l') ↔ chained prev l ∧ chained (tip prev l) l'.
Proof using Type.
  revert prev. induction l as [|b l IH]; intros prev; cbn [app]; [by unfold tip; cbn; split; [split|intros []]|].
  rewrite !chained_cons, IH, tip_cons. tauto.
Qed.
Lemma tip_app prev l l' : tip prev (l ++ l') = tip (tip prev l) l'.
Proof using Type. revert prev. induction l as [|b l IH]; intros prev; [done|]. cbn [app]. by rewrite !tip_cons, IH. Qed.

(** What a loop of deliveries leaves: the acknowledged bodies continue the chain. *)
Record continues (s s' : AeonTimelineSink) (acked : list TimelineEventBody) : Prop := {
  ct_chain : chained s.(last_event_digest) acked;
  ct_tip : s'.(last_event_digest) = tip s.(last_event_digest) acked;
  ct_same : s' = set_last s s'.(last_event_digest);
}.
Lemma continues_refl s : continues s s [].
Proof using Type. by split; [..|destruct s]. Qed.
Lemma continues_step s s' b acked :
  continues (record_timeline_event_digest s (link_timeline_event s b)) s' acked → continues s s' (link_timeline_event s b :: acked).
Proof using Type.
  intros [Hc Ht Hs]. split.
  - apply chained_cons. by split.
  - by rewrite Ht, tip_cons.
  - by rewrite Hs.
Qed.

Lemma deliver_events_continues resolve s net agent session events s' net' acked all :
  deliver_events resolve s net agent session events = (s', net', acked, all) → continues s s' acked.
Proof using Type.
  revert s net s' net' acked all. induction events as [|e events IH]; intros s net s' net' acked all; cbn [deliver_events].
  { intros [= <- <- <- <-]. apply continues_refl. }
  destruct (post_event_with_retry _ _ _ _ _) as [net1 [|]].
  - destruct (deliver_events _ _ net1 _ _ events) as [[[s1 net2] acked1] all1] eqn:E. intros [= <- <- <- <-].
    apply continues_step. by eapply IH.
  - destruct (deliver_events _ _ net1 _ _ events) as [[[s1 net2] acked1] all1] eqn:E. intros [= <- <- <- <-]. by eapply IH.
Qed.
Lemma replay_lines_continues resolve s net agent since seen ls :
  let r := replay_lines resolve s net agent since seen ls in continues s r.(rp_sink) r.(rp_acked).
Proof using Type.
  revert s net seen. induction ls as [|l ls IH]; intros s net seen; cbn [replay_lines]; [apply continues_refl|].
  destruct (record_of_line l) as [r|]; [|apply IH]. destruct (_ || _); [apply IH|].
  destruct (match event_id r with Some id => bool_decide (id ∈ seen) | None => false end); [apply IH|].
  destruct (post_event_with_retry _ _ _ _ _) as [net1 [|]]; [|apply IH]. apply continues_step, IH.
Qed.

(** Everything that is done with one sink, one operation after the other. *)
Inductive Op :=
| Deliver (io : SpoolIo) (net : Net) (file : Spool) (agent : string) (session : option string) (events : list NexusExecutionEvent)
| Replay (io : SpoolIo) (net : Net) (file : Spool) (agent : string) (since : option DateTime)
| SetMode (m : TimelineDeliveryMode).
Definition run_op (resolve : string → Z → option (list IpAddr)) (s : AeonTimelineSink) (op : Op)
  : AeonTimelineSink * list TimelineEventBody :=
  match op with
  | Deliver io net file agent session events =>
      let '(s, _, _, acked, _) := deliver resolve io s net file agent session events in (s, acked)
  | Replay io net file agent since =>
      let '(_, r) := replay_spooled_events resolve io s net file agent since in (r.(rp_sink), r.(rp_acked))
  | SetMode m => (with_mode s m, [])
  end.
Fixpoint run_ops (resolve : string → Z → option (list IpAddr)) (s : AeonTimelineSink) (ops : list Op)
  : AeonTimelineSink * list TimelineEventBody :=
  match ops with
  | [] => (s, [])
  | op :: ops =>
      let '(s, acked) := run_op resolve s op in
      let '(s, acked') := run_ops resolve s ops in (s, acked ++ acked')
  end.

Lemma run_op_chain resolve s op s' acked :
  run_op resolve s op = (s', acked) →
  chained s.(last_event_digest) acked ∧ s'.(last_event_digest) = tip s.(last_event_digest) acked.
Proof using Type.
  destruct op as [io net file agent session events|io net file agent since|m]; cbn.
  - unfold deliver. destruct events as [|e events]; [by intros [= <- <-]|].
    assert (∀ m, (let '(s1, _, _, a, _) := (let '(s2, net2, a, all) := deliver_events resolve s net agent session (e :: events) in
              (s2, net2, file, a, if all : bool then Delivered else m)) in (s1, a)) = (s', acked) →
      chained s.(last_event_digest) acked ∧ s'.(last_event_digest) = tip s.(last_event_digest) acked) as Hd.
    { intros m. destruct (deliver_events _ _ _ _ _ _) as [[[s2 net2] a] all] eqn:E. intros [= <- <-].
      by destruct (deliver_events_continues _ _ _ _ _ _ _ _ _ _ E). }
    destruct (mode s); [apply (Hd FailedOpen)|apply (Hd RequiredButFailed)|]. destruct (spool_events _ _ _ _ _). by intros [= <- <-].
  - unfold replay_spooled_events. destruct file as [content|]; [|by intros [= <- <-]]. destruct (readable io); cbn; [|by intros [= <- <-]].
    intros [= <- <-]. by destruct (replay_lines_continues resolve s net agent since [] (spool_lines content)).
  - by intros [= <- <-].
Qed.

(** C18: what the service acknowledged is one chain.  Whatever deliveries and replays are made
    with a new sink one after the other, in whatever order, with whatever failures and
    retries, the bodies that the service acknowledged, in their order, pass
    [verify_timeline_chain].  (Deliveries that run at the same time fork the chain:
    [concurrent_deliveries_fork].) *)
Theorem timeline_chain_verifies (resolve : string → Z → option (list IpAddr)) (s s' : AeonTimelineSink) (ops : list Op)
    (acked : list TimelineEventBody) :
  s.(last_event_digest) = None → run_ops resolve s ops = (s', acked) →
  verify_timeline_chain acked = Ok () ∧ s'.(last_event_digest) = tip None acked.
Proof using Type.
  intros H0. unfold verify_timeline_chain. rewrite <- H0. clear H0. change (run_ops resolve s ops = (s', acked) → chained (last_event_digest s) acked ∧ s'.(last_event_digest) = tip s.(last_event_digest) acked).
  revert s acked. induction ops as [|op ops IH]; intros s acked; cbn [run_ops]; [by intros [= <- <-]|].
  destruct (run_op resolve s op) as [s1 a1] eqn:E1. destruct (run_ops resolve s1 ops) as [s2 a2] eqn:E2. intros [= <- <-].
  destruct (run_op_chain _ _ _ _ _ E1) as [Hc1 Ht1]. destruct (IH _ _ E2) as [Hc2 Ht2]. rewrite Ht1 in Hc2, Ht2.
  by rewrite chained_app, tip_app.
Qed.

(** ** What a chain commits to *)

Lemma body_json_inj b b' : body_json b = body_json b' → b = b'.
Proof using Type.
  destruct b as [s n c e p], b' as [s' n' c' e' p']. unfold body_json, member_of. cbn.
  destruct s, s', n, n', c, c', p, p'; cbn; intros [=]; by subst.
Qed.
Definition bodies_clash (b b' : TimelineEventBody) : Prop := sha256_clash (json_text (body_json b)) (json_text (body_json b')).
Lemma body_digest_inj `{!JsonLaws J} b b' :
  timeline_event_body_digest b = timeline_event_body_digest b' → b = b' ∨ bodies_clash b b'.
Proof.
  intros [H|H]%hex_lower_inj%sha256_same; [left|by right]. by apply body_json_inj, json_text_inj.
Qed.

(** The last digest commits to the whole history: two chains that verify and end in the
    same digest are equal, event by event, unless an event of the one and an event of the
    other have texts with the same SHA-256; so no event of a verified history can be
    changed, dropped, added or moved unnoticed. *)
Theorem chain_commits_to_history `{!JsonLaws J} (l l' : list TimelineEventBody) :
  verify_timeline_chain l = Ok () → verify_timeline_chain l' = Ok () → tip None l = tip None l' →
  l = l' ∨ ∃ b b', b ∈ l ∧ b' ∈ l' ∧ bodies_clash b b'.
Proof.
  change (chained None l → chained None l' → tip None l = tip None l' → l = l' ∨ ∃ b b', b ∈ l ∧ b' ∈ l' ∧ bodies_clash b b').
  revert l'. induction l as [|b l IH] using rev_ind; intros l'.
  - intros _ _ Ht. destruct l' as [|b' l' _] using rev_ind; [by left|]. unfold tip in Ht. by rewrite last_snoc in Ht.
  - intros Hl Hl' Ht. destruct l' as [|b' l' _] using rev_ind; [unfold tip in Ht; by rewrite last_snoc in Ht|].
    unfold tip in Ht. rewrite !last_snoc in Ht. injection Ht as Hd.
    apply body_digest_inj in Hd as [->|?]; [|right; exists b, b'; split_and!; [apply elem_of_app; right; by apply elem_of_cons; left..|done]].
    apply chained_app in Hl as [Hl [Hp _]%chained_cons]. apply chained_app in Hl' as [Hl' [Hp' _]%chained_cons].
    rewrite Hp in Hp'. destruct (IH l' Hl Hl' Hp') as [->|(x & y & Hx & Hy & ?)]; [by left|right].
    exists x, y. split_and!; [apply elem_of_app; by left..|done].
Qed.

(** ** Replaying a spool *)

(** A body apart from its link. *)
Definition same_event (b b' : TimelineEventBody) : Prop := with_prev b None = with_prev b' None.
Lemma same_event_linked s b : same_event (link_timeline_event s b) b.
Proof using Type. done. Qed.

(** A line that was kept, or whose event was acknowledged. *)
Definition settled (agent : string) (retained : list string) (acked : list TimelineEventBody) (l : string) : Prop :=
  l ∈ retained ∨ ∃ r b, record_of_line l = Some r ∧ r.(agent_id) = agent ∧ b ∈ acked ∧ same_event b r.(event).
(** A line whose event has the identifier of one that is settled or was seen before. *)
Definition repeats (agent : string) (seen : list string) (ls retained : list string) (acked : list TimelineEventBody) (l : string) : Prop :=
  ∃ r id, record_of_line l = Some r ∧ r.(event_id) = Some id
    ∧ (id ∈ seen ∨ ∃ l' r', l' ∈ ls ∧ record_of_line l' = Some r' ∧ r'.(event_id) = Some id ∧ settled agent retained acked l').

Record accounted (agent : string) (seen ls : list string) (r : Replayed) : Prop := {
  ac_total : (r.(rp_report).(delivered) + r.(rp_report).(failed) + r.(rp_report).(skipped) = length ls)%nat;
  ac_delivered : r.(rp_report).(delivered) = length r.(rp_acked);
  ac_retained : sublist r.(rp_retained) ls;
  ac_lines l : l ∈ ls → settled agent r.(rp_retained) r.(rp_acked) l ∨ repeats agent seen ls r.(rp_retained) r.(rp_acked) l;
  ac_acked b : b ∈ r.(rp_acked) → ∃ l rc, l ∈ ls ∧ record_of_line l = Some rc ∧ rc.(agent_id) = agent ∧ same_event b rc.(event);
}.

Lemma settled_mono agent retained retained' acked acked' l :
  retained ⊆ retained' → acked ⊆ acked' → settled agent retained acked l → settled agent retained' acked' l.
Proof using Type. intros Hr Ha [H|(r & b & H1 & H2 & H3 & H4)]; [left; auto|right; exists r, b; auto]. Qed.

(** One more line at the front: what becomes of it, and what it adds to [seen]. *)
Lemma accounted_cons agent seen seen' l ls r d f k retained acked :
  accounted agent seen' ls r → (d + f + k = 1)%nat → d = length acked → sublist retained [l] →
  (settled agent retained acked l ∨ repeats agent seen [] [] [] l) →
  (∀ b, b ∈ acked → ∃ rc, record_of_line l = Some rc ∧ rc.(agent_id) = agent ∧ same_event b rc.(event)) →
  (∀ id, id ∈ seen' → id ∈ seen
     ∨ ∃ rc, record_of_line l = Some rc ∧ rc.(event_id) = Some id ∧ settled agent retained acked l) →
  accounted agent seen (l :: ls) (counted d f k retained acked r).
Proof using Type.
  intros [Ht Hd Hr Hl Ha] Hone Hlen Hret Hhead Hacked Hseen.
  assert (∀ x, settled agent r.(rp_retained) r.(rp_acked) x →
    settled agent (retained ++ r.(rp_retained)) (acked ++ r.(rp_acked)) x) as Htail.
  { intros x. apply settled_mono; set_solver. }
  assert (∀ x, settled agent retained acked x →
    settled agent (retained ++ r.(rp_retained)) (acked ++ r.(rp_acked)) x) as Hfront.
  { intros x. apply settled_mono; set_solver. }
  split; cbn.
  - lia.
  - rewrite length_app. lia.
  - change (l :: ls) with ([l] ++ ls). by apply sublist_app.
  - intros x [->|Hx]%elem_of_cons.
    + destruct Hhead as [Hs|(rc & id & H1 & H2 & [H3|(l' & _ & []%elem_of_nil & _)])]; [left; auto|].
      right. exists rc, id. auto.
    + destruct (Hl x Hx) as [Hs|(rc & id & H1 & H2 & H3)]; [left; auto|]. right. exists rc, id. split; [done|]. split; [done|].
      destruct H3 as [H3|(l' & r' & Hl' & H3 & H4 & H5)].
      * destruct (Hseen _ H3) as [?|(rc' & H4 & H5 & H6)]; [by left|right]. exists l, rc'. split; [left|]. auto.
      * right. exists l', r'. split; [by right|]. auto.
  - intros b [Hb|Hb]%elem_of_app.
    + destruct (Hacked b Hb) as (rc & ?). exists l, rc. split; [left|done].
    + destruct (Ha b Hb) as (l' & rc & ? & ?). exists l', rc. split; [by right|done].
Qed.

Lemma replay_lines_accounted resolve s net agent since seen ls :
  accounted agent seen ls (replay_lines resolve s net agent since seen ls).
Proof using Type.
  revert s net seen. induction ls as [|l ls IH]; intros s net seen; cbn [replay_lines].
  { split; cbn; [done|done|constructor|by intros ? []%elem_of_nil|by intros ? []%elem_of_nil]. }
  assert (settled agent [l] [] l) as Hkept by (left; left).
  destruct (record_of_line l) as [r|] eqn:Er.
  2:{ eapply accounted_cons; [apply IH|done|done|done|by left|by intros ? []%elem_of_nil|by left]. }
  destruct (_ || _) eqn:Eskip.
  { eapply accounted_cons; [apply IH|done|done|done|by left|by intros ? []%elem_of_nil|by left]. }
  apply orb_false_iff in Eskip as [Eag%negb_false_iff%bool_decide_eq_true _].
  destruct (match event_id r with Some id => bool_decide (id ∈ seen) | None => false end) eqn:Edup.
  { destruct (event_id r) as [id|] eqn:Eid; [|done]. apply bool_decide_eq_true in Edup.
    eapply accounted_cons; [apply IH|done|done|constructor| |by intros ? []%elem_of_nil|by left].
    { constructor. }
    right. exists r, id. auto. }
  destruct (post_event_with_retry _ _ _ _ _) as [net1 [|]].
  - assert (settled agent [] [link_timeline_event s r.(event)] l) as Hsent.
    { right. exists r, (link_timeline_event s r.(event)). split_and!; [done..|left|apply same_event_linked]. }
    eapply accounted_cons; [apply IH|done|done|repeat constructor|by left| |].
    + intros b ->%list_elem_of_singleton. exists r. split_and!; [done..|apply same_event_linked].
    + intros id. destruct (event_id r) as [id'|] eqn:Eid; [|by left]. intros [->|?]%elem_of_cons; [|by left]. right. by exists r.
  - eapply accounted_cons; [apply IH|done|done|done|by left|by intros ? []%elem_of_nil|].
    intros id. destruct (event_id r) as [id'|] eqn:Eid; [|by left]. intros [->|?]%elem_of_cons; [|by left]. right. by exists r.
Qed.

(** A replay loses nothing and invents nothing.  It counts every record once; every
    record is kept in the spool, or was acknowledged by the service, or repeats the
    identifier of one that was kept or acknowledged; what is kept keeps its order; what was
    acknowledged is the event of a record of this agent. *)
Theorem replay_accounts_for_every_record (resolve : string → Z → option (list IpAddr)) (io : SpoolIo)
    (s : AeonTimelineSink) (net : Net) (content : string) (agent : string) (since : option DateTime)
    (file' : Spool) (r : Replayed) :
  io.(readable) = true → io.(rewritten) = true →
  replay_spooled_events resolve io s net (Some content) agent since = (file', r) →
  accounted agent [] (spool_lines content) r
  ∧ file' = match r.(rp_retained) with
            | [] => None
            | _ => Some (join (String newline "") r.(rp_retained) +:+ String newline "")
            end.
Proof using Type.
  intros Hr Hw. unfold replay_spooled_events. rewrite Hr. cbn [negb]. intros [= <- <-].
  split; [apply replay_lines_accounted|]. unfold rewrite_spool. by rewrite Hw.
Qed.

(** ** Spooling and replaying *)

(** The records that are appended: the first of each identifier. *)
Fixpoint firsts (seen : list string) (rs : list TimelineSpoolRecord) : list TimelineSpoolRecord :=
  match rs with
  | [] => []
  | r :: rs =>
      match r.(event_id) with
      | Some id => if decide (id ∈ seen) then firsts seen rs else r :: firsts (id :: seen) rs
      | None => r :: firsts seen rs
      end
  end.

Lemma append_records_firsts n io seen rs0 rs :
  (length rs ≤ n)%nat →
  append_records n io seen (text_of rs0) rs = (text_of (rs0 ++ firsts seen rs), true).
Proof using Type.
  assert (∀ r rs0, text_of rs0 +:+ record_line r +:+ String newline "" = text_of (rs0 ++ [r])) as Hsnoc.
  { intros r rs1. by rewrite text_of_app. }
  revert n seen rs0. induction rs as [|r rs IH]; intros n seen rs0 Hn; cbn [append_records firsts]; [by rewrite app_nil_r|].
  cbn in Hn. destruct (event_id r) as [id|]; [case_decide; [by apply IH; lia|]|];
    (destruct n as [|n]; [lia|]; rewrite Hsnoc, IH by lia; by rewrite <- app_assoc).
Qed.

Lemma firsts_sublist seen rs : sublist (firsts seen rs) rs.
Proof using Type.
  revert seen. induction rs as [|r rs IH]; intros seen; cbn [firsts]; [constructor|].
  destruct (event_id r); [case_decide|]; constructor; apply IH.
Qed.
Lemma firsts_ids seen rs :
  NoDup (omap event_id (firsts seen rs)) ∧ ∀ id, id ∈ omap event_id (firsts seen rs) → id ∉ seen.
Proof using Type.
  revert seen. induction rs as [|r rs IH]; intros seen; cbn [firsts]; [split; [constructor|by intros id ?%elem_of_nil]|].
  destruct (event_id r) as [id|] eqn:E; [|cbn; rewrite E; apply IH]. case_decide as Hid; [apply IH|].
  destruct (IH (id :: seen)) as [Hnd Hnew]. cbn. rewrite E. split.
  - constructor; [|done]. intros Hin. by apply (Hnew _ Hin), elem_of_cons; left.
  - intros id' [->|Hin]%elem_of_cons; [done|]. intros Hs. by apply (Hnew _ Hin), elem_of_cons; right.
Qed.
Lemma firsts_complete seen rs r id :
  r ∈ rs → r.(event_id) = Some id → id ∈ seen ∨ id ∈ omap event_id (firsts seen rs).
Proof using Type.
  revert seen. induction rs as [|r' rs IH]; intros seen Hr Hid; [by apply elem_of_nil in Hr|]. cbn [firsts].
  apply elem_of_cons in Hr as [<-|Hr].
  - rewrite Hid. case_decide as Hs; [by left|right]. cbn. rewrite Hid. by left.
  - destruct (event_id r') as [id'|] eqn:E; [case_decide|].
    + by apply IH.
    + destruct (IH (id' :: seen) Hr Hid) as [[->|?]%elem_of_cons|?]; [|by left|]; right; cbn; rewrite E; [by left|by right].
    + destruct (IH seen Hr Hid) as [?|?]; [by left|right]. cbn. by rewrite E.
Qed.
Lemma firsts_nothing_new seen rs :
  (∀ r, r ∈ rs → ∃ id, r.(event_id) = Some id ∧ id ∈ seen) → firsts seen rs = [].
Proof using Type.
  induction rs as [|r rs IH]; intros H; [done|]. cbn [firsts]. destruct (H r ltac:(left)) as (id & -> & Hid).
  rewrite decide_True by done. apply IH. intros r' Hr'. apply H. by right.
Qed.

(** The service can be reached for this agent, and answers every request. *)
Record reachable (resolve : string → Z → option (list IpAddr)) (s : AeonTimelineSink) (agent : string) : Prop := {
  rc_key : is_Some s.(management_key);
  rc_url : ∃ url p, sink_url s ["api"; "v1"; "agents"; agent; "timeline"] = Some url ∧ s.(policy) = Ok p
             ∧ check_url resolve p url = Ok ();
}.
Definition answering (net : Net) : Prop := Forall (λ a, ∃ status, a = Some status ∧ is_success status = true) net.

Lemma post_reaches resolve s agent a net b :
  reachable resolve s agent → answering (a :: net) → post_event_with_retry resolve s (a :: net) agent b = (net, true).
Proof using Type.
  intros [[k Hk] (url & p & Hu & Hp & Hc)] [(st & -> & Hst) _]%Forall_cons.
  unfold post_event_with_retry. rewrite Hk, Hu. cbn. unfold post_json. rewrite Hp, Hc. cbn. by rewrite Hst.
Qed.

Lemma replay_delivers `{!TimelineLaws T} resolve s net agent seen fs :
  reachable resolve s agent → answering net → (length fs ≤ length net)%nat →
  Forall (λ r, r.(agent_id) = agent) fs →
  NoDup (omap event_id fs) → (∀ id, id ∈ omap event_id fs → id ∉ seen) →
  let r := replay_lines resolve s net agent None seen (record_line <$> fs) in
  r.(rp_retained) = [] ∧ r.(rp_report) = {| delivered := length fs; failed := 0; skipped := 0 |}
  ∧ (λ b, with_prev b None) <$> r.(rp_acked) = (λ r, with_prev r.(event) None) <$> fs.
Proof.
  revert s net seen. induction fs as [|f fs IH]; intros s net seen Hs Hnet Hlen Hag Hnd Hnew; [done|].
  cbn [fmap list_fmap replay_lines]. rewrite record_round. apply Forall_cons in Hag as [Hf Hag].
  rewrite bool_decide_true by done. cbn [negb orb].
  assert (match event_id f with Some id => bool_decide (id ∈ seen) | None => false end = false) as ->.
  { destruct (event_id f) as [id|] eqn:E; [|done]. apply bool_decide_eq_false. apply Hnew. cbn. rewrite E. by left. }
  destruct net as [|a net]; [cbn in Hlen; lia|]. rewrite Hf, post_reaches by done.
  set (b := link_timeline_event s f.(event)).
  set (seen' := match event_id f with Some id => id :: seen | None => seen end).
  assert (NoDup (omap event_id fs) ∧ ∀ id, id ∈ omap event_id fs → id ∉ seen') as [Hnd' Hnew'].
  { subst seen'. cbn in Hnd, Hnew. destruct (event_id f) as [id|]; [|done]. apply NoDup_cons in Hnd as [Hnin Hnd].
    split; [done|]. intros id' Hin [->|?]%elem_of_cons; [done|]. by apply (Hnew id'); [right|]. }
  destruct (IH (record_timeline_event_digest s b) net seen') as (H1 & H2 & H3);
    [destruct Hs; by split|by apply Forall_cons in Hnet as []|cbn in Hlen; lia|done|done|done|].
  cbn in *. rewrite H1, H2, H3. done.
Qed.

(** C19: offline delivery is idempotent, and a later replay delivers each event once.  With
    working files and no spool yet, spooling succeeds and spooling the same events again
    changes nothing; a replay against a service that answers then delivers, in order, the
    first event of each identifier, no identifier twice, and every spooled event by its
    identifier, and removes the spool. *)
Theorem spooled_events_are_delivered_once `{!TimelineLaws T} (resolve : string → Z → option (list IpAddr))
    (io io' : SpoolIo) (s : AeonTimelineSink) (net : Net) (agent : string) (session : option string)
    (events : list NexusExecutionEvent) :
  io.(readable) = true → io.(dir_created) = true → io.(opened) = true → (length events ≤ io.(written))%nat →
  io'.(readable) = true → io'.(rewritten) = true →
  reachable resolve s agent → answering net → (length events ≤ length net)%nat →
  ∃ content r,
    spool_events io None agent session events = (Some content, true)
    ∧ spool_events io (Some content) agent session events = (Some content, true)
    ∧ replay_spooled_events resolve io' s net (Some content) agent None = (None, r)
    ∧ r.(rp_report) = {| delivered := length r.(rp_acked); failed := 0; skipped := 0 |}
    ∧ sublist ((λ b, with_prev b None) <$> r.(rp_acked)) ((λ e, with_prev (from_event session e) None) <$> events)
    ∧ NoDup (timeline_event_id agent <$> r.(rp_acked))
    ∧ ∀ e, e ∈ events → timeline_event_id agent (from_event session e) ∈ timeline_event_id agent <$> r.(rp_acked).
Proof.
  intros Hr Hd Ho Hw Hr' Hw' Hs Hnet Hlen.
  set (rs := spool_record io agent session <$> events). set (fs := firsts [] rs).
  assert (∀ r, r ∈ rs → r.(agent_id) = agent ∧ r.(event_id) = Some (timeline_event_id agent r.(event))) as Hrs.
  { intros r Hin. apply list_elem_of_fmap in Hin as (e & -> & _). done. }
  pose proof (firsts_sublist [] rs) as Hsub. fold fs in Hsub. pose proof (sublist_length _ _ Hsub) as Hfl.
  unfold rs in Hfl. rewrite length_fmap in Hfl. fold rs in Hfl.
  assert (∀ r, r ∈ fs → r ∈ rs) as Hin by (intros r Hr0; by eapply elem_of_sublist).
  assert (omap event_id fs = (λ r, timeline_event_id agent r.(event)) <$> fs) as Hids.
  { clear -Hin Hrs. revert Hin. induction fs as [|f fs IH]; intros Hin; [done|]. cbn.
    rewrite (proj2 (Hrs f (Hin f ltac:(left)))), IH; [done|]. intros r Hr. apply Hin. by right. }
  destruct (firsts_ids [] rs) as [Hnd _]. fold fs in Hnd.
  assert (firsts (omap event_id fs) rs = []) as Hnone.
  { apply firsts_nothing_new. intros r Hrin. destruct (Hrs r Hrin) as [_ Hid]. eexists. split; [done|].
    by destruct (firsts_complete [] rs r _ Hrin Hid) as [[]%elem_of_nil|?]. }
  destruct (replay_delivers resolve s net agent [] fs) as (Hret & Hrep & Hack);
    [done|done|lia|apply Forall_forall; intros r Hrin; by apply Hrs, Hin|done|by intros id _ ?%elem_of_nil|].
  set (r := replay_lines resolve s net agent None [] (record_line <$> fs)) in *.
  assert (timeline_event_id agent <$> r.(rp_acked) = omap event_id fs) as Hackid.
  { rewrite Hids. apply (f_equal (fmap (timeline_event_id agent))) in Hack. by rewrite <- !list_fmap_compose in Hack. }
  exists (text_of fs), r. split_and!.
  - unfold spool_events, read_spooled_event_ids. rewrite Hd, Ho. cbn [negb default].
    change "" with (text_of []). fold rs. rewrite append_records_firsts by (unfold rs; by rewrite length_fmap). done.
  - unfold spool_events, read_spooled_event_ids. rewrite Hd, Ho, Hr. cbn [negb default]. unfold id. fold rs.
    rewrite spool_lines_text.
    assert (omap (λ l, r ← record_of_line l; event_id r) (record_line <$> fs) = omap event_id fs) as ->.
    { generalize fs. intros l. induction l as [|x l IH]; [done|]. cbn. rewrite record_round. cbn. by rewrite IH. }
    rewrite append_records_firsts by (unfold rs; by rewrite length_fmap). by rewrite Hnone, app_nil_r.
  - unfold replay_spooled_events. rewrite Hr'. cbn [negb]. rewrite spool_lines_text. fold r.
    unfold rewrite_spool. by rewrite Hw', Hret.
  - rewrite Hrep. f_equal. apply (f_equal length) in Hack. by rewrite !length_fmap in Hack.
  - rewrite Hack. apply (fmap_sublist (λ r, with_prev (event r) None)) in Hsub. unfold rs in Hsub.
    by rewrite <- list_fmap_compose in Hsub.
  - rewrite Hackid. done.
  - intros e He. rewrite Hackid. pose proof (list_elem_of_fmap_2 (spool_record io agent session) _ _ He) as Hr0.
    by destruct (firsts_complete [] rs _ (timeline_event_id agent (from_event session e)) Hr0 eq_refl) as [[]%elem_of_nil|?].
Qed.
End Theorems.

(** ** What goes wrong *)

Section Findings.
Context `{T : TimelineLib} `{J : JsonLib} `{Sh : Sha256Lib} `{TL : !TimelineLaws T}.

(** Denials have no identity of their own: of two denials in one session, of whatever
    capabilities, the second is not spooled, although spooling reports success. *)
Lemma second_denial_is_not_spooled (io : SpoolIo) (agent : string) (session : option string) (c1 c2 : string) :
  io.(dir_created) = true → io.(opened) = true → (2 ≤ io.(written))%nat →
  spool_events io None agent session [CapabilityDenied c1; CapabilityDenied c2]
  = (Some (text_of [spool_record io agent session (CapabilityDenied c1)]), true).
Proof using Type.
  intros Hd Ho Hw. unfold spool_events, read_spooled_event_ids. rewrite Hd, Ho. cbn [negb default].
  change "" with (text_of []). rewrite append_records_firsts by done. cbn [fmap list_fmap firsts app].
  set (id := timeline_event_id agent (from_event session (CapabilityDenied c1))).
  change (event_id (spool_record io agent session (CapabilityDenied c1))) with (Some id).
  change (event_id (spool_record io agent session (CapabilityDenied c2))) with (Some id). cbv iota beta.
  rewrite decide_False by (by apply not_elem_of_nil). by rewrite decide_True by (by left).
Qed.

(** A replay rewrites the spool from what it read at its start, whatever the file holds by
    then: what was appended while it was delivering is lost. *)
Lemma append_during_replay_is_lost (io : SpoolIo) (retained : list string) (before after : Spool) :
  io.(rewritten) = true → rewrite_spool io after retained = rewrite_spool io before retained.
Proof using Type. intros H. unfold rewrite_spool. by rewrite H. Qed.

(** Two deliveries that both link before either is recorded fork the chain. *)
Lemma concurrent_deliveries_fork (s : AeonTimelineSink) (b1 b2 : TimelineEventBody) :
  s.(last_event_digest) = None →
  verify_timeline_chain [link_timeline_event s b1; link_timeline_event s b2] = Err 1%nat.
Proof using Type. intros H. unfold verify_timeline_chain, link_timeline_event. rewrite H. reflexivity. Qed.
End Findings.

(** ** A concrete service *)

Module ToyTimeline.
#[export] Instance url : UrlLib := {|
  Url := string; url_parse s := Some s; url_scheme _ := "https"; url_host _ := None; url_host_str _ := Some "aeon";
  url_port_or_known_default _ := Some 443;
|}.
Definition untuple (t : Z * string * option string * (option string * option string * option string * string * option string))
  : TimelineSpoolRecord :=
  let '(c, a, i, (s, n, d, e, p)) := t in
  {| created_at := c; agent_id := a; event_id := i;
     event := {| session_id := s; nexus_snapshot_id := n; capsule_digest := d; event_type := e; prev_event_digest := p |} |}.
Definition tuple (r : TimelineSpoolRecord) :=
  (r.(created_at), r.(agent_id), r.(event_id),
   (r.(event).(session_id), r.(event).(nexus_snapshot_id), r.(event).(capsule_digest), r.(event).(event_type), r.(event).(prev_event_digest))).
(** A record is the binary digits of its code. *)
Fixpoint digits (p : positive) : string :=
  match p with xH => "." | xO p => String "0" (digits p) | xI p => String "1" (digits p) end.
Fixpoint undigits (s : string) : positive :=
  match s with
  | String c s => if Ascii.eqb c "0" then xO (undigits s) else if Ascii.eqb c "1" then xI (undigits s) else xH
  | EmptyString => xH
  end.
Lemma undigits_digits p : undigits (digits p) = p.
Proof. induction p as [p IH|p IH|]; cbn; [by rewrite IH..|done]. Qed.
Lemma digits_no_char c p : c ≠ "0"%char → c ≠ "1"%char → c ≠ "."%char → no_char c (digits p).
Proof. intros H0 H1 H2. induction p as [p IH|p IH|]; cbn; naive_solver. Qed.
#[export] Instance json : JsonLib := {| json_text v := ToyProof.bits (encode (ToyProof.tree v)) |}.
#[export] Instance json_laws : JsonLaws json.
Proof. constructor. intros v w H%ToyProof.bits_inj%(inj encode). rewrite <- (ToyProof.untree_tree v), <- (ToyProof.untree_tree w). by rewrite H. Qed.
#[export] Instance lib : TimelineLib := {|
  uuid_text id := pretty id;
  record_line r := digits (encode (tuple r));
  record_of_line l := untuple <$> decode (undigits l);
  url_with_segments u segs := Some (u +:+ join "/" segs);
|}.
Lemma digits_back p : ∃ t, digits p = t +:+ ".".
Proof. induction p as [p [t IH]|p [t IH]|]; cbn; [exists (String "1" t)|exists (String "0" t)|by exists ""]; by rewrite IH. Qed.
Lemma digits_front p : front_ok (digits p).
Proof. destruct p; cbn; eexists _, _; (split; [reflexivity|vm_compute; lia]). Qed.
#[export] Instance laws : TimelineLaws lib.
Proof.
  constructor.
  - intros a b. apply (inj pretty).
  - intros r. cbn. rewrite undigits_digits, decode_encode. by destruct r as [? ? ? []].
  - intros r. cbn. split; [by apply digits_no_char|]. destruct (digits_back (encode (tuple r))) as [t ->].
    unfold strip_suffix. by rewrite string_rev_concat.
  - intros r. change (trim (digits (encode (tuple r))) ≠ ""). destruct (digits_back (encode (tuple r))) as [t Ht]. rewrite trim_framed; [by destruct (encode (tuple r))|apply digits_front|].
    rewrite Ht. exists t, "."%char. split; [done|vm_compute; lia].
Qed.
Definition io : SpoolIo :=
  {| readable := true; dir_created := true; opened := true; written := 9; torn := ""; rewritten := true; clock := 5 |}.
Definition sink : AeonTimelineSink :=
  {| base_url := "https://aeon"; policy := Ok {| allow_hosts := ∅; allow_private := true |};
     management_key := Some "key"; mode := Advisory; last_event_digest := None |}.
Definition resolve (_ : string) (_ : Z) : option (list IpAddr) := Some [IpV4 {| oct0 := 1; oct1 := 1; oct2 := 1; oct3 := 1 |}].
Definition events : list NexusExecutionEvent := [SnapshotCreated 7; CapabilityDenied "read"; CapabilityDenied "write"].
End ToyTimeline.
#[local] Existing Instances ToyTimeline.url ToyTimeline.json ToyTimeline.json_laws ToyTimeline.lib ToyTimeline.laws.
#[local] Instance toy_sha : Sha256Lib := {| sha256 m := m |}.

Lemma toy_reachable agent : reachable ToyTimeline.resolve ToyTimeline.sink agent.
Proof. split; [by eexists|]. eexists _, _. split_and!; [reflexivity..|vm_compute; reflexivity]. Qed.

Lemma timeline_chain_verifies_witness :
  ∃ s acked, run_ops ToyTimeline.resolve ToyTimeline.sink
      [Deliver ToyTimeline.io [Some 200; Some 503; None; Some 200; Some 404] None "a" None ToyTimeline.events] = (s, acked)
    ∧ length acked = 2%nat ∧ verify_timeline_chain acked = Ok ().
Proof.
  destruct (run_ops ToyTimeline.resolve ToyTimeline.sink
    [Deliver ToyTimeline.io [Some 200; Some 503; None; Some 200; Some 404] None "a" None ToyTimeline.events]) as [s acked] eqn:E.
  exists s, acked. split; [reflexivity|]. split.
  - apply (f_equal (length ∘ snd)) in E. cbn [compose snd] in E. rewrite <- E. vm_compute. reflexivity.
  - refine (proj1 (timeline_chain_verifies _ _ _ _ _ _ E)). reflexivity.
Defined.

Lemma chain_commits_to_history_witness :
  let b := from_event None (SnapshotCreated 7) in
  verify_timeline_chain [b] = Ok () ∧ ([b] = [b] ∨ ∃ x y, x ∈ [b] ∧ y ∈ [b] ∧ bodies_clash x y).
Proof.
  split; [vm_compute; reflexivity|]. apply chain_commits_to_history; [vm_compute; reflexivity|vm_compute; reflexivity|reflexivity].
Defined.

Lemma replay_accounts_for_every_record_witness :
  ∃ file r, replay_spooled_events ToyTimeline.resolve ToyTimeline.io ToyTimeline.sink [] (Some "not a record") "a" None = (file, r)
    ∧ (r.(rp_report).(delivered) + r.(rp_report).(failed) + r.(rp_report).(skipped) = 1)%nat.
Proof.
  destruct (replay_spooled_events ToyTimeline.resolve ToyTimeline.io ToyTimeline.sink [] (Some "not a record") "a" None)
    as [file r] eqn:E. exists file, r. split; [reflexivity|].
  refine (ac_total _ _ _ _ (proj1 (replay_accounts_for_every_record _ _ _ _ _ _ _ _ _ _ _ E))); reflexivity.
Defined.

Lemma spooled_events_are_delivered_once_witness :
  ∃ content r, spool_events ToyTimeline.io None "a" None ToyTimeline.events = (Some content, true)
    ∧ replay_spooled_events ToyTimeline.resolve ToyTimeline.io ToyTimeline.sink (replicate 3 (Some 200)) (Some content) "a" None = (None, r).
Proof.
  destruct (spooled_events_are_delivered_once ToyTimeline.resolve ToyTimeline.io ToyTimeline.io ToyTimeline.sink
    (replicate 3 (Some 200)) "a" None ToyTimeline.events) as (content & r & H1 & _ & H2 & _); try reflexivity.
  - vm_compute. lia.
  - apply toy_reachable.
  - repeat constructor; by eexists.
  - exists content, r. split; [exact H1|exact H2].
Defined.
