(* ===== verification/AeonConfig.v ===== *)
(** * Settings of the AEON service: [AeonConfig] of [src/aeon.rs]

    The settings are read from the environment, a function from names to [EnvVar]; every
    setting has its own way of being absent, empty or malformed. *)

From S2P Require Import Prelude Errors UrlGuard Egress Json MemoryBridge RecallConfig.

Definition ENABLED_ENV : string := "NEXUS_AEON_ENABLED".
Definition BASE_URL_ENV : string := "NEXUS_AEON_BASE_URL".
Definition AGENT_ID_ENV : string := "NEXUS_AEON_AGENT_ID".
Definition SESSION_ID_ENV : string := "NEXUS_AEON_SESSION_ID".
Definition TIMEOUT_MS_ENV : string := "NEXUS_AEON_TIMEOUT_MS".
Definition MANAGEMENT_KEY_ENV : string := "NEXUS_AEON_MANAGEMENT_KEY".
Definition HMAC_KEY_ENV : string := "NEXUS_AEON_HMAC_KEY".
Definition VERIFYING_KEY_ENV : string := "NEXUS_AEON_VERIFYING_KEY".
Definition REQUIRED_ENV : string := "NEXUS_AEON_REQUIRED".

Record AeonConfig := {
  enabled : bool;
  base_url : string;
  agent_id : string;
  session_id : option string;
  timeout_ms : Z;
  management_key : option string;
  hmac_key : option (list byte);
  verifying_key : option (list byte);
}.
Definition AeonConfig_default : AeonConfig :=
  {| enabled := false; base_url := "http://localhost:8080"; agent_id := "nexus"; session_id := None; timeout_ms := 30000;
     management_key := None; hmac_key := None; verifying_key := None |}.

(** What [Debug] shows of a field. *)
Inductive Shown := ShowBool (b : bool) | ShowStr (s : string) | ShowNum (n : Z) | ShowOpt (o : option string).
Definition fmt (c : AeonConfig) : list (string * Shown) :=
  [("enabled", ShowBool c.(enabled)); ("base_url", ShowStr c.(base_url)); ("agent_id", ShowStr c.(agent_id));
   ("session_id", ShowOpt c.(session_id)); ("timeout_ms", ShowNum c.(timeout_ms));
   ("management_key", ShowOpt ((λ _, "[REDACTED]") <$> c.(management_key)));
   ("hmac_key", ShowOpt ((λ key, "[REDACTED " +:+ fmt_u (len key) +:+ " bytes]") <$> c.(hmac_key)));
   ("verifying_key", ShowOpt (hex_lower <$> c.(verifying_key)))].

(** ** Variables *)

Definition not_unicode (name : string) : NexusError := ConfigError (Fmt "{name} must be valid Unicode" [AStr name]).
Definition env_string (name : string) (v : EnvVar) (default : string) : result string NexusError :=
  match v with
  | Present value =>
      if decide (trim value = "") then Err (ConfigError (Fmt "{name} must not be empty when configured" [AStr name]))
      else Ok value
  | NotPresent => Ok default
  | NotUnicode => Err (not_unicode name)
  end.
Definition env_optional_string (name : string) (v : EnvVar) : result (option string) NexusError :=
  match v with
  | Present value => if decide (trim value = "") then Ok None else Ok (Some value)
  | NotPresent => Ok None
  | NotUnicode => Err (not_unicode name)
  end.
Definition YES : list string := ["1"; "true"; "yes"; "on"].
Definition NO : list string := ["0"; "false"; "no"; "off"].
Definition env_bool (name : string) (v : EnvVar) (default : bool) : result bool NexusError :=
  match v with
  | Present value =>
      let value := to_ascii_lowercase (trim value) in
      if bool_decide (value ∈ YES) then Ok true
      else if bool_decide (value ∈ NO) then Ok false
      else Err (ConfigError (Fmt "{name} must be one of true/false, yes/no, on/off, or 1/0" [AStr name]))
  | NotPresent => Ok default
  | NotUnicode => Err (not_unicode name)
  end.

(** [str::parse::<u64>]: digits, with one plus sign in front if any. *)
Definition parse_u64 (s : string) : option Z :=
  let digits := match s with String "+" rest => rest | _ => s end in
  if is_decimal digits then parse_digits U64_MAX 0 (string_bytes digits) else None.
Definition env_u64 (name : string) (v : EnvVar) (default : Z) : result Z NexusError :=
  match v with
  | Present value => ok_or (parse_u64 (trim value)) (ConfigError (Fmt "invalid {name}: {e}" [AStr name; AOpaque]))
  | NotPresent => Ok default
  | NotUnicode => Err (not_unicode name)
  end.

Definition hex_nibble : byte → option Z := hex_value.
Definition invalid_hex (name : string) : NexusError := ConfigError (Fmt "{name} contains invalid hex character" [AStr name]).
(** [chunks(2)], collected up to the first error. *)
Fixpoint hex_bytes (name : string) (bytes : list byte) : result (list byte) NexusError :=
  match bytes with
  | [] => Ok []
  | [_] => Err (ConfigError (Fmt "{name} must be an even-length hex string" [AStr name]))
  | a :: b :: rest =>
      let? hi := ok_or (hex_nibble a) (invalid_hex name) in
      let? lo := ok_or (hex_nibble b) (invalid_hex name) in
      let? decoded := hex_bytes name rest in
      Ok (byte_of_Z (Z.lor (Z.shiftl hi 4) lo) :: decoded)
  end.
Definition env_optional_hex (name : string) (v : EnvVar) : result (option (list byte)) NexusError :=
  match v with
  | Present value =>
      if decide (trim value = "") then Ok None
      else
        let? bytes := hex_bytes name (string_bytes (trim value)) in
        if 512 <? len bytes
        then Err (ConfigError (Fmt "{name} must be at most 512 bytes (1024 hex chars)" [AStr name]))
        else Ok (Some bytes)
  | NotPresent => Ok None
  | NotUnicode => Err (not_unicode name)
  end.

Definition aeon_required (env : string → EnvVar) : bool :=
  match env_bool REQUIRED_ENV (env REQUIRED_ENV) false with Ok b => b | Err _ => false end.

(** ** The configuration *)

Section Config.
Context `{U : UrlLib}.

Definition check_base_url (url : string) : result () NexusError :=
  let? parsed := ok_or (url_parse url) (ConfigError (Fmt "AEON_BASE_URL is not a valid URL: {e}" [AOpaque])) in
  if bool_decide (url_scheme parsed ∈ ["http"; "https"]) then Ok ()
  else Err (ConfigError (Fmt "AEON_BASE_URL must use http or https scheme, got '{}'" [AStr (url_scheme parsed)])).

Definition from_env (env : string → EnvVar) : result AeonConfig NexusError :=
  let defaults := AeonConfig_default in
  let? url := env_string BASE_URL_ENV (env BASE_URL_ENV) defaults.(base_url) in
  let? _ := check_base_url url in
  let? on := env_bool ENABLED_ENV (env ENABLED_ENV) defaults.(enabled) in
  let? agent := env_string AGENT_ID_ENV (env AGENT_ID_ENV) defaults.(agent_id) in
  let? session := env_optional_string SESSION_ID_ENV (env SESSION_ID_ENV) in
  let? timeout := env_u64 TIMEOUT_MS_ENV (env TIMEOUT_MS_ENV) defaults.(timeout_ms) in
  let? management := env_optional_string MANAGEMENT_KEY_ENV (env MANAGEMENT_KEY_ENV) in
  let? hmac := env_optional_hex HMAC_KEY_ENV (env HMAC_KEY_ENV) in
  let? verifying := env_optional_hex VERIFYING_KEY_ENV (env VERIFYING_KEY_ENV) in
  let? _ :=
    match verifying with
    | Some bytes =>
        if len bytes =? 32 then Ok ()
        else Err (ConfigError (Fmt "{VERIFYING_KEY_ENV} must decode to exactly 32 bytes (Ed25519 public key)" [AStr VERIFYING_KEY_ENV]))
    | None => Ok ()
    end in
  let? _ :=
    match hmac with
    | Some key =>
        if len key <? 32
        then Err (ConfigError (Fmt "AEON_HMAC_KEY must be at least 32 bytes (256 bits); got {} bytes" [ANum (len key)]))
        else Ok ()
    | None => Ok ()
    end in
  Ok {| enabled := on; base_url := url; agent_id := agent; session_id := session; timeout_ms := timeout;
        management_key := management; hmac_key := hmac; verifying_key := verifying |}.

Definition chat_completions_url (c : AeonConfig) : string := trim_end_char "/"%char c.(base_url) +:+ "/v1/chat/completions".
End Config.

(** ** What a setting may be *)

(** The relations between a variable and the value that it gives. *)
Definition text_setting (v : EnvVar) (default value : string) : Prop :=
  match v with NotPresent => value = default | Present s => trim s ≠ "" ∧ value = s | NotUnicode => False end.
Definition optional_setting (v : EnvVar) (value : option string) : Prop :=
  match v with
  | NotPresent => value = None
  | Present s => trim s = "" ∧ value = None ∨ trim s ≠ "" ∧ value = Some s
  | NotUnicode => False
  end.
Definition flag_setting (v : EnvVar) (default value : bool) : Prop :=
  match v with
  | NotPresent => value = default
  | Present s => to_ascii_lowercase (trim s) ∈ (if value then YES else NO)
  | NotUnicode => False
  end.
Definition number_setting (v : EnvVar) (default value : Z) : Prop :=
  match v with
  | NotPresent => value = default
  | Present s => ∃ digits, (trim s = String "+" digits ∨ trim s = digits) ∧ is_decimal digits = true
                   ∧ value = dec_value (string_bytes digits) ∧ value ≤ U64_MAX
  | NotUnicode => False
  end.
Definition hex_setting (v : EnvVar) (min max : Z) (value : option (list byte)) : Prop :=
  match v with
  | NotPresent => value = None
  | Present s =>
      trim s = "" ∧ value = None
      ∨ ∃ bytes, value = Some bytes ∧ trim s ≠ "" ∧ hex_lower bytes = to_ascii_lowercase (trim s) ∧ min ≤ len bytes ≤ max
  | NotUnicode => False
  end.

Lemma ok_or_Ok {A E} (o : option A) (e : E) a : ok_or o e = Ok a ↔ o = Some a.
Proof. destruct o; cbn; naive_solver. Qed.
Lemma env_string_Ok name v default value : env_string name v default = Ok value ↔ text_setting v default value.
Proof. destruct v; cbn; [naive_solver|naive_solver|]. case_decide; naive_solver. Qed.
Lemma env_optional_string_Ok name v value : env_optional_string name v = Ok value ↔ optional_setting v value.
Proof. destruct v; cbn; [naive_solver|naive_solver|]. case_decide; naive_solver. Qed.
Lemma env_bool_Ok name v default value : env_bool name v default = Ok value ↔ flag_setting v default value.
Proof.
  destruct v as [| |s]; cbn; [naive_solver|naive_solver|]. generalize (to_ascii_lowercase (trim s)) as l. intros l.
  destruct (bool_decide_reflect (l ∈ YES)) as [Hy|Hy].
  - assert (l ∉ NO) as Hn.
    { assert (bool_decide (Forall (λ w, w ∉ NO) YES) = true) as Hdis%bool_decide_eq_true by reflexivity. by apply (proj1 (Forall_forall _ _) Hdis). }
    destruct value; naive_solver.
  - destruct (bool_decide_reflect (l ∈ NO)); destruct value; naive_solver.
Qed.
Lemma is_decimal_digits s : is_decimal s = true → Forall (λ b, ascii_digit b = true) (string_bytes s).
Proof. intros [_ H]%andb_true_iff. rewrite forallb_forall in H. apply Forall_forall. intros b Hb%list_elem_of_In. by apply H. Qed.
Lemma decimal_parses s n : is_decimal s = true →
  parse_digits U64_MAX 0 (string_bytes s) = Some n ↔ n = dec_value (string_bytes s) ∧ n ≤ U64_MAX.
Proof. intros H%is_decimal_digits. apply parse_digits_Some; [unfold U64_MAX; lia|done]. Qed.
Lemma env_u64_Ok name v default value : env_u64 name v default = Ok value ↔ number_setting v default value.
Proof.
  destruct v as [| |s]; cbn; [naive_solver|naive_solver|]. rewrite ok_or_Ok. unfold parse_u64.
  set (t := trim s). clearbody t. clear s.
  assert (∀ digits, (t = String "+" digits ∨ t = digits) ∧ is_decimal digits = true →
    digits = match t with String "+" rest => rest | _ => t end) as Hdig.
  { intros digits [[->| ->] Hd]; [done|]. destruct digits as [|a rest]; [done|].
    destruct (Ascii.eqb_spec a "+") as [->|Hne]; [discriminate Hd|]. by destruct a as [[] [] [] [] [] [] [] []]. }
  assert (t = String "+" (match t with String "+" rest => rest | _ => t end) ∨ t = match t with String "+" rest => rest | _ => t end) as Ht.
  { destruct t as [|a rest]; [by right|]. destruct a as [[] [] [] [] [] [] [] []]; (by left) || (by right). }
  set (d := match t with String "+" rest => rest | _ => t end) in *. clearbody d. split.
  - destruct (is_decimal d) eqn:Ed; [|done]. intros H%decimal_parses; [|done]. exists d. tauto.
  - intros (digits & Hor & Hd & Hv & Hle). rewrite <- (Hdig digits) by done. rewrite Hd. by apply decimal_parses.
Qed.
Lemma hex_bytes_Ok name bytes : ∀ s, string_bytes s = bytes → ∀ bs,
  hex_bytes name bytes = Ok bs ↔ hex_lower bs = to_ascii_lowercase s.
Proof.
  intros s <- bs. rewrite <- decode_hex_Some. unfold decode_hex. rewrite <- string_bytes_length.
  generalize (string_bytes s) as l. clear s. intros l.
  assert (∀ n l, (length l ≤ n)%nat → ∀ bs,
    hex_bytes name l = Ok bs ↔ (if Nat.even (length l) then decode_pairs l else None) = Some bs) as H; [|by eapply H].
  clear. intros n. induction n as [|n IH]; intros [|a [|b l]] Hn bs; cbn [length Nat.even hex_bytes decode_pairs] in *; try lia;
    [naive_solver|naive_solver|naive_solver|].
  unfold hex_nibble. destruct (hex_value a) as [hi|]; cbn; [|destruct (Nat.even _); naive_solver].
  destruct (hex_value b) as [lo|]; cbn; [|destruct (Nat.even _); naive_solver].
  rewrite result_bind_Ok. setoid_rewrite (IH l ltac:(lia)).
  destruct (Nat.even (length l)); [|naive_solver]. destruct (decode_pairs l); cbn; naive_solver.
Qed.
Lemma env_optional_hex_Ok name v value : env_optional_hex name v = Ok value ↔ hex_setting v 0 512 value.
Proof.
  destruct v as [| |s]; cbn; [naive_solver|naive_solver|]. case_decide as Ht; [naive_solver|]. rewrite result_bind_Ok.
  setoid_rewrite (hex_bytes_Ok _ _ _ eq_refl). split.
  - intros (bytes & Hb & H). destruct (Z.ltb_spec 512 (len bytes)); [done|]. injection H as <-.
    right. exists bytes. pose proof (len_nonneg bytes). split_and!; (done || lia).
  - intros [[? _]|(bytes & -> & _ & Hb & Hlen)]; [done|]. exists bytes. split; [done|].
    by destruct (Z.ltb_spec 512 (len bytes)); [lia|].
Qed.

(** What the environment says, setting by setting. *)
Record configured `{U : UrlLib} (env : string → EnvVar) (c : AeonConfig) : Prop := {
  cf_url : text_setting (env BASE_URL_ENV) "http://localhost:8080" c.(base_url);
  cf_scheme : ∃ u, url_parse c.(base_url) = Some u ∧ url_scheme u ∈ ["http"; "https"];
  cf_enabled : flag_setting (env ENABLED_ENV) false c.(enabled);
  cf_agent : text_setting (env AGENT_ID_ENV) "nexus" c.(agent_id);
  cf_session : optional_setting (env SESSION_ID_ENV) c.(session_id);
  cf_timeout : number_setting (env TIMEOUT_MS_ENV) 30000 c.(timeout_ms);
  cf_management : optional_setting (env MANAGEMENT_KEY_ENV) c.(management_key);
  cf_hmac : hex_setting (env HMAC_KEY_ENV) 32 512 c.(hmac_key);
  cf_verifying : hex_setting (env VERIFYING_KEY_ENV) 32 32 c.(verifying_key);
}.

Lemma check_base_url_Ok `{U : UrlLib} url :
  check_base_url url = Ok () ↔ ∃ u, url_parse url = Some u ∧ url_scheme u ∈ ["http"; "https"].
Proof.
  unfold check_base_url. destruct (url_parse url) as [u|]; cbn [ok_or result_bind]; [|naive_solver].
  destruct (bool_decide_reflect (url_scheme u ∈ ["http"; "https"])); naive_solver.
Qed.
Lemma hex_setting_narrow v lo hi value : 0 ≤ lo → hi ≤ 512 →
  hex_setting v lo hi value ↔ hex_setting v 0 512 value ∧ ∀ bytes, value = Some bytes → lo ≤ len bytes ≤ hi.
Proof.
  intros Hlo Hhi. destruct v as [| |s]; cbn; [naive_solver|naive_solver|]. split.
  - intros [[? ->]|(bytes & -> & ? & ? & ?)]; [naive_solver|]. split; [right; exists bytes; split_and!; (done || lia)|]. naive_solver.
  - intros [[Hn|(bytes & -> & Ht & Hx & Hl)] Hb]; [by left|]. right. exists bytes. by specialize (Hb bytes eq_refl).
Qed.

(** Which environments are accepted, and as what.  [from_env] gives a configuration
    exactly if every variable gives its field: texts are not blank, the address parses and
    is HTTP(S), flags are one of the eight words in any case, the timeout fits 64 bits, keys
    are hexadecimal of at least 32 and at most 512 bytes, and of 32 for the verifying key;
    anything else is an error.  So no key that is shorter is ever used. *)
Theorem aeon_settings_load_exactly `{U : UrlLib} (env : string → EnvVar) (c : AeonConfig) :
  from_env env = Ok c ↔ configured env c.
Proof.
  unfold from_env. split.
  - intros (url & H1%env_string_Ok & ([] & H2%check_base_url_Ok & (on & H3%env_bool_Ok & (agent & H4%env_string_Ok &
      (session & H5%env_optional_string_Ok & (timeout & H6%env_u64_Ok & (management & H7%env_optional_string_Ok &
      (hmac & H8%env_optional_hex_Ok & (verifying & H9%env_optional_hex_Ok & ([] & H10 & ([] & H11 & [= <-])%result_bind_Ok)
      %result_bind_Ok)%result_bind_Ok)%result_bind_Ok)%result_bind_Ok)%result_bind_Ok)%result_bind_Ok)%result_bind_Ok)
      %result_bind_Ok)%result_bind_Ok)%result_bind_Ok.
    constructor; try done; (apply hex_setting_narrow; [lia|lia|split; [done|]]); cbn.
    + intros bytes ->. destruct (Z.ltb_spec (len bytes) 32); [done|]. split; [lia|].
      destruct (env HMAC_KEY_ENV); cbn in H8; naive_solver.
    + intros bytes ->. destruct (Z.eqb_spec (len bytes) 32); [lia|done].
  - intros [H1 H2 H3 H4 H5 H6 H7 H8 H9]. destruct c; cbn in *.
    apply hex_setting_narrow in H8 as [H8 Hh]; [|lia..]. apply hex_setting_narrow in H9 as [H9 Hv]; [|lia..].
    rewrite (proj2 (env_string_Ok _ _ _ _) H1). cbn [result_bind]. rewrite (proj2 (check_base_url_Ok _) H2). cbn [result_bind].
    rewrite (proj2 (env_bool_Ok _ _ _ _) H3). cbn [result_bind]. rewrite (proj2 (env_string_Ok _ _ _ _) H4). cbn [result_bind].
    rewrite (proj2 (env_optional_string_Ok _ _ _) H5). cbn [result_bind]. rewrite (proj2 (env_u64_Ok _ _ _ _) H6). cbn [result_bind].
    rewrite (proj2 (env_optional_string_Ok _ _ _) H7). cbn [result_bind]. rewrite (proj2 (env_optional_hex_Ok _ _ _) H8). cbn [result_bind].
    rewrite (proj2 (env_optional_hex_Ok _ _ _) H9). cbn [result_bind].
    destruct verifying_key0 as [vk|]; [rewrite (proj2 (Z.eqb_eq _ _)) by (destruct (Hv vk eq_refl); lia)|]; cbn [result_bind];
      (destruct hmac_key0 as [hk|]; [rewrite (proj2 (Z.ltb_ge _ _)) by (destruct (Hh hk eq_refl); lia)|]; reflexivity).
Qed.

(** The debug text of a configuration does not depend on the secrets, apart from whether
    they are there and how long the HMAC key is. *)
Lemma debug_shows_no_secret (c : AeonConfig) (management management' : string) (hmac hmac' : list byte) :
  len hmac = len hmac' →
  let with_secrets m h :=
    {| enabled := c.(enabled); base_url := c.(base_url); agent_id := c.(agent_id); session_id := c.(session_id);
       timeout_ms := c.(timeout_ms); management_key := Some m; hmac_key := Some h; verifying_key := c.(verifying_key) |} in
  fmt (with_secrets management hmac) = fmt (with_secrets management' hmac').
Proof. intros H. unfold fmt. cbn. by rewrite H. Qed.
