(* ===== verification/AeonMemory.v ===== *)
(** * Recall from the AEON service: the memory client of [src/aeon.rs]

    Search, store and health of [AeonMemoryClient], the counter-signature over what a search
    served, the evidence that goes into capsules, and the construction of clients and
    timeline sinks.  The network is the list of answers to come; the requests that were
    made are recorded.  Ed25519 and what serde reads are interfaces. *)

From S2P Require Import Prelude Errors Floats Digest Framed UrlGuard Egress Json MemoryBridge AeonConfig AeonTimeline.

Definition EVIDENCE_SIG_VERSION : string := "aeon-evidence-sig-v1".

Inductive MemoryAttestationMode := MemAdvisory | MemAttested | AttestedNoHit | AttestedWithRecall | Degraded | Absent.
#[export] Instance MemoryAttestationMode_eq_dec : EqDecision MemoryAttestationMode.
Proof. solve_decision. Defined.

Record MemoryHit := { hit_id : string; content : string; hit_score : option f64 }.
Record MemorySearchOutcome := { hits : list MemoryHit; attestation : MemoryAttestationMode }.
Record MemoryEvidenceV1 := {
  ev_version : Z;
  ev_query : string;
  hit_count : nat;
  hit_digests : list string;
  ev_attestation : MemoryAttestationMode;
  ev_capsule_digest : option string;
}.
Record MemoryRecallEvidence := { recall_hits : list MemoryHit; recall_evidence : MemoryEvidenceV1 }.

(** ** The wire *)

Record EvidenceEnvelopeWire := { env_version : string; env_key_id : string; env_signature : string; payload_digest : string }.
Record SearchHit := {
  sh_id : option string; sh_content : option string;
  sh_score : option f64; sh_distance : option f64; sh_similarity : option f64;
}.
Record SearchResponse := { results : list SearchHit; response_evidence : option EvidenceEnvelopeWire }.
Record HttpResponse := { status : Z; response_body : string }.
Record HttpRequest `{U : UrlLib} := { to_url : Url; with_key : string; request_body : option Json }.

(** The requests so far, and the answers to come; [None] is a failed request. *)
Record Wire `{U : UrlLib} := { sent : list HttpRequest; answers : list (option HttpResponse) }.

Class AeonWire := {
  EvidenceKey : Type;
  evidence_key_from_bytes : list byte → option EvidenceKey;   (** [VerifyingKey::from_bytes] *)
  evidence_verify : EvidenceKey → list byte → list byte → bool;
  search_response_from_str : string → option SearchResponse;
  value_from_str : string → option Json;
  json_f32 : f32 → Json;
  parse_uuid : string → option Uuid;
}.

Record AeonMemoryClient := {
  cl_base_url : string;
  cl_policy : EgressPolicy;
  cl_agent_id : string;
  cl_session_id : option string;
  cl_management_key : option string;
  cl_verifying_key : option (list byte);
}.

(** What the process finds around it. *)
Record Host := { env : string → EnvVar; http_builds : bool }.

(** [decode_hex_exact]: an array of exactly [n] bytes. *)
Definition decode_hex_exact (n : nat) (hex : string) : option (list byte) :=
  let hex := trim hex in
  if negb (String.length hex =? n * 2)%nat then None else decode_pairs (string_bytes hex).

(** [Value::get] and [Value::as_str]. *)
Definition value_get (k : string) (v : Json) : option Json := match v with JObj m => jget k m | _ => None end.
Definition as_str (v : Json) : option string := match v with JStr s => Some s | _ => None end.
Definition or_else {A} (o o' : option A) : option A := match o with Some _ => o | None => o' end.

(** ** Evidence *)

Definition mode_text (m : MemoryAttestationMode) : string :=
  match m with
  | MemAdvisory => "Advisory" | MemAttested => "Attested" | AttestedNoHit => "AttestedNoHit"
  | AttestedWithRecall => "AttestedWithRecall" | Degraded => "Degraded" | Absent => "Absent"
  end.
Definition VERSION : Z := 1.

Section Evidence.
Context `{Sh : Sha256Lib} `{Hm : HmacLib} `{J : JsonLib}.

Definition evidence_v1_new (query : string) (hits : list MemoryHit) (a : MemoryAttestationMode) : MemoryEvidenceV1 :=
  {| ev_version := VERSION; ev_query := query; hit_count := length hits;
     hit_digests := (λ h, sha256_hex (string_bytes h.(content))) <$> hits; ev_attestation := a; ev_capsule_digest := None |}.
Definition with_capsule_digest (e : MemoryEvidenceV1) (d : option string) : MemoryEvidenceV1 :=
  {| ev_version := e.(ev_version); ev_query := e.(ev_query); hit_count := e.(hit_count); hit_digests := e.(hit_digests);
     ev_attestation := e.(ev_attestation); ev_capsule_digest := d |}.
Definition digest_body (e : MemoryEvidenceV1) : Json :=
  JObj [("query", JStr e.(ev_query)); ("hit_count", JNum (Z.of_nat e.(hit_count))); ("hit_digests", strings e.(hit_digests));
        ("attestation", JStr (mode_text e.(ev_attestation)))].
Definition canonical_digest_bytes (e : MemoryEvidenceV1) : list byte := json_text (digest_body e).
Definition evidence_hmac_digest (e : MemoryEvidenceV1) (key : list byte) : string := hex_lower (hmac_sha256 key (canonical_digest_bytes e)).

Inductive EvidenceError := UnsupportedVersion | HitCountMismatch | EmptyCapsuleDigest.
Definition validate_memory_evidence_v1 (e : MemoryEvidenceV1) : result () EvidenceError :=
  if negb (e.(ev_version) =? VERSION) then Err UnsupportedVersion
  else if negb (e.(hit_count) =? length e.(hit_digests))%nat then Err HitCountMismatch
  else if match e.(ev_capsule_digest) with Some d => bool_decide (trim d = "") | None => false end then Err EmptyCapsuleDigest
  else Ok ().

(** The hits in the bridge's form, up to the first score that is refused. *)
Definition bridge_hits (hits : list MemoryHit) : result (list MemoryEvidenceHit) BridgeError :=
  result_mapM (λ h, hit_new h.(hit_id) (string_bytes h.(content)) h.(hit_score)) hits.
Definition attested (hits : list MemoryHit) : MemoryAttestationMode :=
  match hits with [] => AttestedNoHit | _ => AttestedWithRecall end.
Definition build_memory_evidence_ref (config : AeonConfig) (hits : list MemoryHit) (session : option string)
  : option MemoryEvidenceRef * MemoryAttestationMode :=
  match config.(hmac_key) with
  | None => (None, Absent)
  | Some key =>
      let mapping := mapping_new config.(AeonConfig.agent_id) session config.(AeonConfig.agent_id) in
      match bridge_hits hits with
      | Err _ => (None, Degraded)
      | Ok bridged => (Some (to_ref (memory_evidence mapping key bridged)), attested hits)
      end
  end.
End Evidence.

(** ** The client *)

Section Client.
Context `{U : UrlLib} `{T : !TimelineLib} `{W : AeonWire} `{J : JsonLib} `{Sh : Sha256Lib}.
Variable resolve : string → Z → option (list IpAddr).

Definition client_url (c : AeonMemoryClient) (segments : list string) : option Url :=
  u ← url_parse (c.(cl_base_url) +:+ "/"); url_with_segments u segments.

(** [post_json] and [get], which does not read the body of the answer. *)
Definition request (c : AeonMemoryClient) (w : Wire) (url : Url) (key : string) (body : option Json)
  : Wire * option HttpResponse :=
  match check_url resolve c.(cl_policy) url with
  | Err _ => (w, None)
  | Ok _ =>
      ({| sent := w.(sent) ++ [{| to_url := url; with_key := key; request_body := body |}]; answers := tail w.(answers) |},
       match w.(answers) with a :: _ => a | [] => None end)
  end.

Definition payload_mirror (agent : string) (session : option string) (ids digests : list string) : Json :=
  JObj [("version", JStr EVIDENCE_SIG_VERSION); ("agent_id", JStr agent); ("session_id", opt JStr session);
        ("hit_ids", strings ids); ("hit_content_digests", strings digests)].
Definition served_ids (hits : list SearchHit) : list string := (λ h, default "" h.(sh_id)) <$> hits.
Definition served_digests (hits : list SearchHit) : list string :=
  (λ h, sha256_hex (string_bytes (default "" h.(sh_content)))) <$> hits.

Definition evidence_signature_ok (c : AeonMemoryClient) (body : SearchResponse) : bool :=
  match c.(cl_verifying_key), body.(response_evidence) with
  | None, _ | _, None => false
  | Some key_bytes, Some envelope =>
      if negb (String.eqb envelope.(env_version) EVIDENCE_SIG_VERSION) then false
      else if negb (String.eqb (to_ascii_lowercase envelope.(env_key_id)) (to_ascii_lowercase (hex_lower key_bytes))) then false
      else
        match evidence_key_from_bytes key_bytes, decode_hex_exact 64 envelope.(env_signature) with
        | Some key, Some signature =>
            evidence_verify key
              (canonical_bytes (payload_mirror c.(cl_agent_id) c.(cl_session_id) (served_ids body.(results)) (served_digests body.(results))))
              signature
        | _, _ => false
        end
  end.

Definition search_request (c : AeonMemoryClient) (query : string) (limit : Z) : Json :=
  JObj ([("agent_id", JStr c.(cl_agent_id)); ("query", JStr query); ("limit", JNum limit)]
        ++ member_of "session_id" c.(cl_session_id)).
Definition hit_of (h : SearchHit) : MemoryHit :=
  {| hit_id := default "" h.(sh_id); content := default "" h.(sh_content);
     hit_score := or_else h.(sh_score) (or_else h.(sh_distance) h.(sh_similarity)) |}.
Definition no_hits (m : MemoryAttestationMode) : MemorySearchOutcome := {| hits := []; attestation := m |}.

Definition SEARCH : list string := ["api"; "v1"; "memories"; "search"].
Definition search_with_status (c : AeonMemoryClient) (w : Wire) (query : string) (limit : Z) : Wire * MemorySearchOutcome :=
  match c.(cl_management_key) with
  | None => (w, no_hits Absent)
  | Some key =>
      match client_url c SEARCH with
      | None => (w, no_hits Degraded)
      | Some url =>
          match request c w url key (Some (search_request c query limit)) with
          | (w, None) => (w, no_hits Degraded)
          | (w, Some response) =>
              if negb (is_success response.(status)) then (w, no_hits Degraded)
              else
                match search_response_from_str response.(response_body) with
                | None => (w, no_hits Degraded)
                | Some body =>
                    if match c.(cl_verifying_key) with Some _ => true | None => false end && negb (evidence_signature_ok c body)
                    then (w, no_hits Degraded)
                    else let hits := hit_of <$> body.(results) in (w, {| hits := hits; attestation := attested hits |})
                end
          end
      end
  end.
Definition search (c : AeonMemoryClient) (w : Wire) (query : string) (limit : Z) : Wire * list MemoryHit :=
  let '(w, outcome) := search_with_status c w query limit in (w, outcome.(hits)).

Definition extract_memory_id (body : Json) : option Uuid :=
  id ← or_else (as_str body) (or_else (v ← value_get "id" body; as_str v) (v ← value_get "memory_id" body; as_str v));
  parse_uuid id.
Definition store_request (text : string) (importance : option f32) (memory_type : option string) : Json :=
  JObj ([("content", JStr text)] ++ member_of "memory_type" memory_type
        ++ match importance with Some i => [("importance", json_f32 i)] | None => [] end).
Definition store (c : AeonMemoryClient) (w : Wire) (text : string) (importance : option f32) (memory_type : option string)
  : Wire * option Uuid :=
  match c.(cl_management_key) with
  | None => (w, None)
  | Some key =>
      match client_url c ["api"; "v1"; "agents"; c.(cl_agent_id); "memories"] with
      | None => (w, None)
      | Some url =>
          match request c w url key (Some (store_request text importance memory_type)) with
          | (w, None) => (w, None)
          | (w, Some response) =>
              if negb (is_success response.(status)) then (w, None)
              else (w, body ← value_from_str response.(response_body); extract_memory_id body)
          end
      end
  end.
Definition health (c : AeonMemoryClient) (w : Wire) : Wire * bool :=
  match c.(cl_management_key) with
  | None => (w, false)
  | Some key =>
      match client_url c ["health"] with
      | None => (w, false)
      | Some url =>
          match request c w url key None with
          | (w, Some response) => (w, is_success response.(status))
          | (w, None) => (w, false)
          end
      end
  end.

Definition recall_memory_evidence_v1 (client : option AeonMemoryClient) (w : Wire) (query : string) (limit : Z)
  : Wire * MemoryRecallEvidence :=
  match client with
  | None => (w, {| recall_hits := []; recall_evidence := evidence_v1_new query [] Absent |})
  | Some c =>
      let '(w, outcome) := search_with_status c w query limit in
      (w, {| recall_hits := outcome.(hits); recall_evidence := evidence_v1_new query outcome.(hits) outcome.(attestation) |})
  end.

(** ** Construction *)

Variable host : Host.

Definition egress_policy (config : AeonConfig) : result EgressPolicy NexusError :=
  let? policy := Egress.from_env (host.(env) "NEXUS_EGRESS_ALLOWLIST") (host.(env) "NEXUS_EGRESS_ALLOW_PRIVATE") in
  Ok match url_parse config.(AeonConfig.base_url) with
     | Some u => match url_host_str u with Some h => allow_host policy h | None => policy end
     | None => policy
     end.
Definition client_from_config (config : AeonConfig) : result AeonMemoryClient NexusError :=
  if negb host.(http_builds) then Err (ConfigError (Fmt "failed to build AEON-IQ memory client: {error}" [AOpaque]))
  else
    let? policy := egress_policy config in
    Ok {| cl_base_url := trim_end_char "/"%char config.(AeonConfig.base_url); cl_policy := policy;
          cl_agent_id := config.(AeonConfig.agent_id); cl_session_id := config.(AeonConfig.session_id);
          cl_management_key := config.(AeonConfig.management_key); cl_verifying_key := config.(AeonConfig.verifying_key) |}.
Definition has_required_config (config : AeonConfig) : bool :=
  config.(enabled) && negb (bool_decide (trim config.(AeonConfig.base_url) = "")) && negb (bool_decide (trim config.(AeonConfig.agent_id) = ""))
  && match config.(AeonConfig.management_key) with Some key => negb (bool_decide (trim key = "")) | None => false end.
Definition client_from_enabled_config (config : AeonConfig) : result (option AeonMemoryClient) NexusError :=
  if negb (has_required_config config) then Ok None
  else let? c := client_from_config config in Ok (Some c).

Definition sink_from_config (config : AeonConfig) : result AeonTimelineSink NexusError :=
  if negb host.(http_builds) then Err (ConfigError (Fmt "failed to build AEON-IQ timeline client: {error}" [AOpaque]))
  else Ok {| AeonTimeline.base_url := trim_end_char "/"%char config.(AeonConfig.base_url); policy := egress_policy config;
             AeonTimeline.management_key := config.(AeonConfig.management_key); mode := Advisory; last_event_digest := None |}.
Definition from_memory_client (c : AeonMemoryClient) : AeonTimelineSink :=
  {| AeonTimeline.base_url := c.(cl_base_url); policy := Ok c.(cl_policy);
     AeonTimeline.management_key := c.(cl_management_key); mode := Advisory; last_event_digest := None |}.
Definition sink_from_enabled_config (config : AeonConfig) : result (option AeonTimelineSink) NexusError :=
  let? client := client_from_enabled_config config in Ok (from_memory_client <$> client).

Definition degrade_or_fail {A} (error : NexusError) : result (option A) NexusError :=
  if aeon_required host.(env) then Err error else Ok None.
Definition init_aeon_memory_client (config : AeonConfig) : result (option AeonMemoryClient) NexusError :=
  match client_from_enabled_config config with Ok client => Ok client | Err error => degrade_or_fail error end.
Definition init_aeon_timeline_sink (config : AeonConfig) : result (option AeonTimelineSink) NexusError :=
  match sink_from_enabled_config config with Ok sink => Ok sink | Err error => degrade_or_fail error end.
Definition init_aeon_timeline_sink_offline (config : AeonConfig) : result (option AeonTimelineSink) NexusError :=
  match sink_from_config config with Ok sink => Ok (Some sink) | Err error => degrade_or_fail error end.
End Client.

(** ** What a search answers *)

Section Theorems.
Context `{U : UrlLib} `{T : !TimelineLib} `{W : AeonWire} `{J : JsonLib} `{Sh : Sha256Lib} `{Hm : HmacLib}.

Definition signed_payload (agent : string) (session : option string) (served : list (string * string)) : list byte :=
  canonical_bytes (payload_mirror agent session served.*1 ((λ t, sha256_hex (string_bytes t)) <$> served.*2)).
Definition recalled (hits : list MemoryHit) : list (string * string) := (λ h, (h.(hit_id), h.(content))) <$> hits.

(** The envelope is AEON's counter-signature, under the pinned key, of these hits. *)
Record counter_signed (c : AeonMemoryClient) (key_bytes : list byte) (envelope : EvidenceEnvelopeWire) (hits : list MemoryHit)
  : Prop := {
  cs_version : envelope.(env_version) = EVIDENCE_SIG_VERSION;
  cs_key_id : to_ascii_lowercase envelope.(env_key_id) = hex_lower key_bytes;
  cs_verifies : ∃ key signature,
    evidence_key_from_bytes key_bytes = Some key
    ∧ hex_lower signature = to_ascii_lowercase (trim envelope.(env_signature)) ∧ length signature = 64%nat
    ∧ evidence_verify key (signed_payload c.(cl_agent_id) c.(cl_session_id) (recalled hits)) signature = true;
}.

Lemma hex_lower_lowercase bs : to_ascii_lowercase (hex_lower bs) = hex_lower bs.
Proof using Type.
  symmetry. apply decode_hex_Some. unfold decode_hex. rewrite hex_lower_length, Nat.even_mul. cbn [Nat.even orb].
  apply (MemoryBridge.decode_pairs_Some (length bs)); [apply hex_lower_length|].
  induction bs as [|b bs IH]; [done|]. cbn [hex_lower to_ascii_lowercase]. destruct (byte_nibbles b) as (Hh & Hl & _).
  assert (∀ v, 0 ≤ v < 16 → lower_ascii (Prelude.hex_digit v) = Prelude.hex_digit v) as Hlow.
  { intros v Hv. apply Ascii.eqb_eq. by apply (hex_digit_ind (λ v a, Ascii.eqb (lower_ascii a) a)). }
  by rewrite !Hlow, <- IH.
Qed.
Lemma decode_hex_exact_Some n s bs :
  decode_hex_exact n s = Some bs ↔ hex_lower bs = to_ascii_lowercase (trim s) ∧ length bs = n.
Proof using Type.
  unfold decode_hex_exact. destruct (Nat.eqb_spec (String.length (trim s)) (n * 2)) as [Hlen|Hlen]; cbn [negb].
  - rewrite (MemoryBridge.decode_pairs_Some n) by lia. split; [|tauto]. intros H. split; [done|].
    apply (f_equal String.length) in H. rewrite hex_lower_length, lowercase_length in H. lia.
  - split; [done|]. intros [H Hn]. apply (f_equal String.length) in H. rewrite hex_lower_length, lowercase_length in H. lia.
Qed.

Lemma served_recalled results :
  recalled (hit_of <$> results) = zip (served_ids results) ((λ h, default "" h.(sh_content)) <$> results).
Proof using Type. induction results as [|h l IH]; [done|]. cbn. by f_equal. Qed.
Lemma signed_payload_served agent session results :
  signed_payload agent session (recalled (hit_of <$> results))
  = canonical_bytes (payload_mirror agent session (served_ids results) (served_digests results)).
Proof using Type.
  unfold signed_payload. do 2 f_equal.
  - induction results as [|h l IH]; [done|]. cbn. by f_equal.
  - induction results as [|h l IH]; [done|]. cbn. by f_equal.
Qed.

Lemma evidence_signature_ok_iff c body :
  evidence_signature_ok c body = true ↔
  ∃ key_bytes envelope, c.(cl_verifying_key) = Some key_bytes ∧ body.(response_evidence) = Some envelope
    ∧ counter_signed c key_bytes envelope (hit_of <$> body.(results)).
Proof using Type.
  unfold evidence_signature_ok. destruct (cl_verifying_key c) as [key_bytes|]; [|naive_solver].
  destruct (response_evidence body) as [envelope|]; [|naive_solver].
  destruct (String.eqb_spec envelope.(env_version) EVIDENCE_SIG_VERSION) as [Hv|Hv]; cbn [negb].
  2:{ split; [done|]. intros (? & ? & [= <-] & [= <-] & []). done. }
  rewrite hex_lower_lowercase.
  destruct (String.eqb_spec (to_ascii_lowercase envelope.(env_key_id)) (hex_lower key_bytes)) as [Hk|Hk]; cbn [negb].
  2:{ split; [done|]. intros (? & ? & [= <-] & [= <-] & []). done. }
  rewrite <- signed_payload_served. split.
  - destruct (evidence_key_from_bytes key_bytes) as [key|] eqn:Ek; [|done].
    destruct (decode_hex_exact 64 _) as [signature|] eqn:Es; [|done]. apply decode_hex_exact_Some in Es as [Es Hlen].
    intros Hver. exists key_bytes, envelope. split; [done|]. split; [done|]. constructor; [done|done|]. by exists key, signature.
  - intros (? & ? & [= <-] & [= <-] & [_ _ (key & signature & -> & Hs & Hlen & Hver)]).
    by rewrite (proj2 (decode_hex_exact_Some 64 _ signature) (conj Hs Hlen)).
Qed.

Variable resolve : string → Z → option (list IpAddr).

(** A search that is answered, and one that is not. *)
Record answered (c : AeonMemoryClient) (w : Wire) (query : string) (limit : Z) (w' : Wire) (body : option SearchResponse) : Prop := {
  an_key : ∃ key url response rest,
    c.(cl_management_key) = Some key ∧ client_url c SEARCH = Some url ∧ check_url resolve c.(cl_policy) url = Ok ()
    ∧ w.(answers) = Some response :: rest
    ∧ w' = {| sent := w.(sent) ++ [{| to_url := url; with_key := key; request_body := Some (search_request c query limit) |}];
              answers := rest |}
    ∧ body = if is_success response.(status) then search_response_from_str response.(response_body) else None;
}.
Definition trusted (c : AeonMemoryClient) (body : SearchResponse) : Prop :=
  ∀ key_bytes, c.(cl_verifying_key) = Some key_bytes →
    ∃ envelope, body.(response_evidence) = Some envelope ∧ counter_signed c key_bytes envelope (hit_of <$> body.(results)).

Lemma signature_gate c body :
  match cl_verifying_key c with Some _ => true | None => false end && negb (evidence_signature_ok c body) = false ↔ trusted c body.
Proof using Type.
  unfold trusted. destruct (cl_verifying_key c) as [kb|] eqn:Ek; cbn [andb]; [|naive_solver].
  rewrite negb_false_iff, evidence_signature_ok_iff, Ek. naive_solver.
Qed.

Local Ltac refuted H := destruct H as (? & ? & ? & ? & ? & ? & ? & ?); congruence.
Lemma search_outcome (c : AeonMemoryClient) (w w' : Wire) (query : string) (limit : Z) (o : MemorySearchOutcome) :
  search_with_status resolve c w query limit = (w', o) →
  match o.(attestation) with
  | Absent => c.(cl_management_key) = None ∧ w' = w ∧ o.(hits) = []
  | AttestedNoHit | AttestedWithRecall =>
      ∃ body, answered c w query limit w' (Some body) ∧ trusted c body
        ∧ o.(hits) = hit_of <$> body.(results) ∧ o.(attestation) = attested o.(hits)
  | Degraded =>
      is_Some c.(cl_management_key) ∧ o.(hits) = []
      ∧ ∀ w'' body, answered c w query limit w'' (Some body) → ¬ trusted c body
  | MemAdvisory | MemAttested => False
  end.
Proof using Type.
  unfold search_with_status, request. destruct (cl_management_key c) as [key|] eqn:Hkey; [|by intros [= <- <-]].
  assert (∀ w'' body, answered c w query limit w'' (Some body) →
    ∃ url response rest, client_url c SEARCH = Some url ∧ check_url resolve c.(cl_policy) url = Ok ()
      ∧ w.(answers) = Some response :: rest ∧ is_success response.(status) = true
      ∧ search_response_from_str response.(response_body) = Some body) as Hans.
  { intros w'' body [(k & url & response & rest & _ & Hu & Hc & Ha & _ & Hb)]. exists url, response, rest.
    destruct (is_success _); naive_solver. }
  destruct (client_url c SEARCH) as [url|] eqn:Hurl.
  2:{ intros [= <- <-]. split_and!; [by eexists|done|]. intros w'' body H%Hans. refuted H. }
  destruct (check_url resolve c.(cl_policy) url) as [[]|] eqn:Hcheck.
  2:{ intros [= <- <-]. split_and!; [by eexists|done|]. intros w'' body H%Hans. refuted H. }
  destruct (answers w) as [|[response|] rest] eqn:Hw.
  1,3: intros [= <- <-]; split_and!; [by eexists|done|]; intros w'' body H%Hans; refuted H.
  destruct (is_success (status response)) eqn:Hs; cbn [negb].
  2:{ intros [= <- <-]. split_and!; [by eexists|done|]. intros w'' body H%Hans. refuted H. }
  destruct (search_response_from_str (response_body response)) as [body|] eqn:Hp.
  2:{ intros [= <- <-]. split_and!; [by eexists|done|]. intros w'' body H%Hans. refuted H. }
  destruct (match cl_verifying_key c with Some _ => true | None => false end && negb (evidence_signature_ok c body)) eqn:Hg.
  { intros [= <- <-]. split_and!; [by eexists|done|]. intros w'' body' H%Hans Ht%signature_gate.
    destruct H as (? & ? & ? & _ & _ & [= <- <-] & _ & Hp'). rewrite Hp in Hp'. injection Hp' as <-. congruence. }
  intros [= <- <-]. apply signature_gate in Hg. cbn [attestation hits].
  assert (answered c w query limit {| sent := w.(sent) ++ [{| to_url := url; with_key := key; request_body := Some (search_request c query limit) |}];
    answers := rest |} (Some body)) as Ha.
  { constructor. exists key, url, response, rest. rewrite Hs. done. }
  destruct body as [[|h l] ev]; cbn [results fmap list_fmap attested] in *; by eexists.
Qed.
Lemma recall_is_served c w w' query limit o :
  search_with_status resolve c w query limit = (w', o) → o.(hits) ≠ [] →
  ∃ body, answered c w query limit w' (Some body) ∧ trusted c body
    ∧ o.(hits) = hit_of <$> body.(results) ∧ o.(attestation) = attested o.(hits).
Proof using Type.
  intros H%search_outcome Hne. destruct (attestation o); naive_solver.
Qed.

(** C20: what a search answers.  Without a management key nothing is sent and the answer is
    absent.  Otherwise hits are returned exactly when one request, that the egress policy
    allows, was answered with success and a response that parses and that, if a key is
    pinned, carries AEON's signature under that key over these very hits, in this order,
    for this agent and session; then they are attested by whether there are any.  In every
    other case the answer is degraded and empty. *)
Theorem recall_is_what_was_served (c : AeonMemoryClient) (w w' : Wire) (query : string) (limit : Z) (o : MemorySearchOutcome) :
  search_with_status resolve c w query limit = (w', o) →
  match o.(attestation) with
  | Absent => c.(cl_management_key) = None ∧ w' = w ∧ o.(hits) = []
  | AttestedNoHit | AttestedWithRecall =>
      ∃ body, answered c w query limit w' (Some body) ∧ trusted c body
        ∧ o.(hits) = hit_of <$> body.(results) ∧ o.(attestation) = attested o.(hits)
  | Degraded =>
      is_Some c.(cl_management_key) ∧ o.(hits) = []
      ∧ ∀ w'' body, answered c w query limit w'' (Some body) → ¬ trusted c body
  | MemAdvisory | MemAttested => False
  end.
Proof using Type. apply search_outcome. Qed.

(** ** Genuine recall *)

Lemma faithful_mirror a s i d a' s' i' d' :
  sort_json_value (payload_mirror a s i d) = sort_json_value (payload_mirror a' s' i' d') → a = a' ∧ s = s' ∧ i = i' ∧ d = d'.
Proof using Type.
  intros H. unfold payload_mirror in H. cbn -[sort_json_value opt strings] in H. members H.
  apply cons_inj in H as [_ H]. repeat member H. done.
Qed.
(** One memory: the same identifier, and the same content unless these two contents have
    the same SHA-256. *)
Definition same_memory (h s : string * string) : Prop :=
  h.1 = s.1 ∧ (h.2 = s.2 ∨ sha256_clash (string_bytes h.2) (string_bytes s.2)).
Lemma served_inj (l l' : list (string * string)) :
  l.*1 = l'.*1 → (λ t, sha256_hex (string_bytes t)) <$> l.*2 = (λ t, sha256_hex (string_bytes t)) <$> l'.*2 →
  Forall2 same_memory l l'.
Proof using Type.
  revert l'. induction l as [|x l IH]; intros [|y l']; cbn; [constructor|done|done|]. intros [= Hi Hl] [= Hx Hd].
  constructor; [|by apply IH]. split; [done|]. by apply sha256_same_text, hex_lower_inj.
Qed.
Lemma signed_payload_inj `{!JsonLaws J} agent session served agent' session' served' :
  signed_payload agent session served = signed_payload agent' session' served' →
  agent = agent' ∧ session = session' ∧ Forall2 same_memory served served'.
Proof using Type.
  intros H. apply json_text_inj, faithful_mirror in H as (-> & -> & Hi & Hd). by split_and!; [..|apply served_inj].
Qed.

(** C21: recall under a pinned key is genuine.  If whatever verifies under the pinned key was
    signed by AEON, of agent, session and hits in its ledger, then hits that a search
    returns are what AEON served to this agent in this session: as many, in the same order,
    with the same identifiers, and each with the same content, unless the returned and the
    served content have the same SHA-256.  (The scores and the query are not signed.) *)
Theorem pinned_recall_is_genuine `{!JsonLaws J} (c : AeonMemoryClient) (w w' : Wire) (query : string) (limit : Z)
    (o : MemorySearchOutcome) (key_bytes : list byte) (ledger : list (string * option string * list (string * string))) :
  c.(cl_verifying_key) = Some key_bytes →
  (∀ key message signature, evidence_key_from_bytes key_bytes = Some key → evidence_verify key message signature = true →
    ∃ agent session served, (agent, session, served) ∈ ledger ∧ message = signed_payload agent session served) →
  search_with_status resolve c w query limit = (w', o) → o.(hits) ≠ [] →
  ∃ served, (c.(cl_agent_id), c.(cl_session_id), served) ∈ ledger ∧ Forall2 same_memory (recalled o.(hits)) served.
Proof using Type.
  intros Hpin Hgenuine Hs Hne.
  destruct (recall_is_served _ _ _ _ _ _ Hs Hne) as (body & _ & Ht & Hh & _). destruct (Ht _ Hpin) as (envelope & _ & [_ _ (key & signature & Hk & _ & _ & Hv)]).
  destruct (Hgenuine _ _ _ Hk Hv) as (agent & session & served & Hin & Hmsg). rewrite <- Hh in Hmsg.
  apply signed_payload_inj in Hmsg as (-> & -> & ?). by exists served.
Qed.

(** Neither the query nor the scores are signed: an old response answers any query. *)
Lemma query_is_not_signed (c : AeonMemoryClient) (w : Wire) (q q' : string) (n n' : Z) :
  (search_with_status resolve c w q n).2 = (search_with_status resolve c w q' n').2.
Proof using Type.
  unfold search_with_status, request. destruct (cl_management_key c), (client_url c SEARCH) as [url|]; try done.
  destruct (check_url _ _ _); [|done]. destruct (answers w) as [|[r|] rest]; [done| |done]. destruct (is_success _); [|done]. cbn [negb].
  destruct (search_response_from_str _); [|done]. by destruct (_ && _).
Qed.

(** ** Evidence *)

Lemma evidence_v1_validates query hits a : validate_memory_evidence_v1 (evidence_v1_new query hits a) = Ok ().
Proof using Type.
  unfold validate_memory_evidence_v1, evidence_v1_new. cbn -[Nat.eqb]. by rewrite length_fmap, Nat.eqb_refl.
Qed.

(** What a hit leaves in the evidence, its content by digest. *)
Definition recorded (h : MemoryHit) : string * option (result Z BridgeError) * list byte :=
  (h.(hit_id), MemoryScore_new <$> h.(hit_score), sha256 (string_bytes h.(content))).
(** One recalled hit: identifier, score in millionths, and content unless these two
    contents have the same SHA-256. *)
Definition same_hit (h h' : MemoryHit) : Prop :=
  h.(hit_id) = h'.(hit_id) ∧ MemoryScore_new <$> h.(hit_score) = MemoryScore_new <$> h'.(hit_score)
  ∧ (h.(content) = h'.(content) ∨ sha256_clash (string_bytes h.(content)) (string_bytes h'.(content))).
Lemma recorded_same h h' : recorded h = recorded h' → same_hit h h'.
Proof using Type. intros [= Hi Hs Hc]. by split_and!; [..|apply sha256_same_text]. Qed.
Lemma hit_new_inj h h' b :
  hit_new h.(hit_id) (string_bytes h.(content)) h.(hit_score) = Ok b →
  hit_new h'.(hit_id) (string_bytes h'.(content)) h'.(hit_score) = Ok b → same_hit h h'.
Proof using Type.
  intros H H'. apply recorded_same. revert H H'.
  unfold hit_new, recorded. destruct (hit_score h) as [s|] eqn:E, (hit_score h') as [s'|] eqn:E'; cbn.
  - destruct (MemoryScore_new s) as [m|] eqn:Em, (MemoryScore_new s') as [m'|] eqn:Em'; cbn; try done.
    intros [= <-] [= Hi Hmi Hd%hex_lower_inj]. by rewrite Hi, Hmi, Hd.
  - destruct (MemoryScore_new s); cbn; [intros [= <-]|done]. by intros [=].
  - destruct (MemoryScore_new s'); cbn; [|done]. intros [= <-]. by intros [=].
  - intros [= <-] [= Hi Hd%hex_lower_inj]. by rewrite Hi, Hd.
Qed.
Lemma bridge_hits_inj l l' bs : bridge_hits l = Ok bs → bridge_hits l' = Ok bs → Forall2 same_hit l l'.
Proof using Type.
  unfold bridge_hits. revert l' bs. induction l as [|h l IH]; intros [|h' l'] bs; cbn [result_mapM]; [constructor|..].
  - intros [= <-] (b & _ & (bs' & _ & [=])%result_bind_Ok)%result_bind_Ok.
  - intros (b & _ & (bs' & _ & [= <-])%result_bind_Ok)%result_bind_Ok [=].
  - intros (b & Hb & (bs' & Hbs & [= <-])%result_bind_Ok)%result_bind_Ok (b' & Hb' & (bs'' & Hbs' & [= -> ->])%result_bind_Ok)%result_bind_Ok.
    constructor; [by eapply hit_new_inj|by eapply IH].
Qed.

(** The evidence that [build_memory_evidence_ref] refers to. *)
Definition evidence_of (config : AeonConfig) (hits : list MemoryHit) (session : option string) : option MemoryEvidence :=
  match config.(hmac_key), bridge_hits hits with
  | Some key, Ok bridged =>
      Some (memory_evidence (mapping_new config.(AeonConfig.agent_id) session config.(AeonConfig.agent_id)) key bridged)
  | _, _ => None
  end.
Lemma build_refers config hits session r m : build_memory_evidence_ref config hits session = (Some r, m) →
  ∃ e, evidence_of config hits session = Some e ∧ r.(digest) = memory_evidence_digest e ∧ m = attested hits.
Proof using Type.
  unfold build_memory_evidence_ref, evidence_of. destruct (hmac_key config) as [key|]; [|done].
  destruct (bridge_hits hits) as [b|]; [|done]. intros [= <- <-]. by eexists.
Qed.
Lemma evidence_of_inj config hits hits' session session' e :
  evidence_of config hits session = Some e → evidence_of config hits' session' = Some e →
  session = session' ∧ Forall2 same_hit hits hits'.
Proof using Type.
  unfold evidence_of. destruct (hmac_key config) as [key|]; [|done].
  destruct (bridge_hits hits) as [b|] eqn:Eb; [|done]. destruct (bridge_hits hits') as [b'|] eqn:Eb'; [|done].
  intros [= <-] [= <- <-]. split; [done|]. by eapply bridge_hits_inj.
Qed.

(** C31: the evidence in a capsule binds the recall.  If two recalls have evidence built under
    one configuration with one digest, the texts of the two evidences have the same
    SHA-256; and if it is one text, both recalls are of one session and of the same hits:
    as many, in the same order, with the same identifiers and scores in millionths, each
    with the same content unless the two contents have the same SHA-256. *)
Theorem evidence_reference_binds_recall `{!JsonLaws J} (config : AeonConfig) (hits hits' : list MemoryHit)
    (session session' : option string) (r r' : MemoryEvidenceRef) (m m' : MemoryAttestationMode) :
  build_memory_evidence_ref config hits session = (Some r, m) →
  build_memory_evidence_ref config hits' session' = (Some r', m') →
  r.(digest) = r'.(digest) →
  ∃ e e', evidence_of config hits session = Some e ∧ evidence_of config hits' session' = Some e'
    ∧ sha256 (canonical_bytes (evidence_json e)) = sha256 (canonical_bytes (evidence_json e'))
    ∧ (canonical_bytes (evidence_json e) = canonical_bytes (evidence_json e') →
       session = session' ∧ Forall2 same_hit hits hits' ∧ m = m').
Proof using Type.
  intros (e & He & Hr & ->)%build_refers (e' & He' & Hr' & ->)%build_refers Hd. exists e, e'. split_and!; [done..| |].
  - apply sha256_public_same. by rewrite Hr, Hr' in Hd.
  - intros ->%evidence_bytes_inj. destruct (evidence_of_inj _ _ _ _ _ _ He He') as [-> Hh]. split_and!; [done..|].
    by destruct Hh.
Qed.

(** ** Construction *)

Variable host : Host.

(** AEON is optional unless it is required.  A client or a sink fails to be constructed
    only if it is required and the HTTP client or the egress settings are at fault; then
    and when it is not required, a missing setting disables it; and a sink for spooling is
    there whenever an HTTP client can be built, whatever is or is not set. *)
Theorem aeon_is_fatal_only_when_required (config : AeonConfig) :
  (∀ e, init_aeon_memory_client host config = Err e ↔
    aeon_required host.(env) = true ∧ has_required_config config = true ∧ client_from_config host config = Err e)
  ∧ (∀ e, init_aeon_timeline_sink host config = Err e ↔ init_aeon_memory_client host config = Err e)
  ∧ (init_aeon_memory_client host config = Ok None ↔
      has_required_config config = false
      ∨ aeon_required host.(env) = false ∧ ∃ e, client_from_config host config = Err e)
  ∧ (host.(http_builds) = true → ∃ s, init_aeon_timeline_sink_offline host config = Ok (Some s)
      ∧ s.(AeonTimeline.management_key) = config.(AeonConfig.management_key)
      ∧ s.(policy) = egress_policy host config).
Proof using Type.
  unfold init_aeon_memory_client, init_aeon_timeline_sink, init_aeon_timeline_sink_offline, sink_from_enabled_config,
    client_from_enabled_config, sink_from_config, degrade_or_fail.
  split_and!.
  - intros e. destruct (has_required_config config), (client_from_config host config), (aeon_required _); cbn; naive_solver.
  - intros e. destruct (has_required_config config), (client_from_config host config), (aeon_required _); cbn; naive_solver.
  - destruct (has_required_config config), (client_from_config host config), (aeon_required _); cbn; naive_solver.
  - intros ->. cbn. by eexists.
Qed.

(** The host of the configured address is allowed, wherever its name leads. *)
Lemma own_host_is_exempt (config : AeonConfig) (c : AeonMemoryClient) (u url : Url) (h : string) :
  client_from_config host config = Ok c → url_parse config.(AeonConfig.base_url) = Some u → url_host_str u = Some h →
  to_ascii_lowercase (trim h) ≠ "" →
  url_host_str url = Some h → url_scheme url ∈ ["http"; "https"] → check_url resolve c.(cl_policy) url = Ok ().
Proof using Type.
  unfold client_from_config, egress_policy. intros Hc Hu Hh Hne Hurl Hs. destruct (http_builds host); [cbn [negb] in Hc|discriminate Hc].
  destruct (Egress.from_env _ _) as [p|e0]; [|discriminate Hc]. cbn [result_bind] in Hc. rewrite Hu, Hh in Hc. injection Hc as <-. cbn [cl_policy].
  unfold check_url. rewrite bool_decide_eq_true_2 by done. cbn [negb]. rewrite Hurl.
  assert (to_ascii_lowercase (trim h) ∈ allow_hosts (allow_host p h)) as Hin.
  { unfold allow_host. case_decide; [done|]. cbn [allow_hosts]. set_solver. }
  by rewrite decide_True.
Qed.
End Theorems.

(** ** A concrete service *)

Module ToyAeon.
(** Signing is prefixing the message with 64 bytes of the key's first byte; the body of a
    response is fixed by its text. *)
Definition key_bytes : list byte := replicate 32 x01.
Definition signature : list byte := replicate 64 x01.
Definition served : list SearchHit :=
  [{| sh_id := Some "m1"; sh_content := Some "use a guard"; sh_score := None; sh_distance := Some (f64_lit 1 2); sh_similarity := None |}].
Definition answer : SearchResponse :=
  {| results := served;
     response_evidence := Some {| env_version := EVIDENCE_SIG_VERSION; env_key_id := hex_lower key_bytes;
                                  env_signature := hex_lower signature; payload_digest := "" |} |}.
Definition message `{JsonLib} `{Sha256Lib} : list byte := signed_payload "nexus" None [("m1", "use a guard")].
#[export] Instance wire `{JsonLib} `{Sha256Lib} : AeonWire := {|
  EvidenceKey := list byte; evidence_key_from_bytes := Some;
  evidence_verify key m s := bool_decide (m = message);
  search_response_from_str s := if String.eqb s "hits" then Some answer else None;
  value_from_str _ := None; json_f32 _ := JNull; parse_uuid _ := None;
|}.
Definition client : AeonMemoryClient :=
  {| cl_base_url := "https://aeon"; cl_policy := {| allow_hosts := ∅; allow_private := true |}; cl_agent_id := "nexus";
     cl_session_id := None; cl_management_key := Some "key"; cl_verifying_key := Some key_bytes |}.
Definition start `{UrlLib} : Wire := {| sent := []; answers := [Some {| status := 200; response_body := "hits" |}] |}.
Definition config : AeonConfig :=
  {| enabled := true; AeonConfig.base_url := "https://aeon"; AeonConfig.agent_id := "nexus"; AeonConfig.session_id := None;
     timeout_ms := 1; AeonConfig.management_key := Some "key"; hmac_key := Some key_bytes; AeonConfig.verifying_key := None |}.
Definition host : Host := {| env _ := NotPresent; http_builds := true |}.
End ToyAeon.
#[local] Existing Instances ToyTimeline.url ToyTimeline.json ToyTimeline.json_laws ToyTimeline.lib ToyAeon.wire.
#[local] Instance toy_sha256 : Sha256Lib := {| sha256 m := m |}.
#[local] Instance toy_hmac : HmacLib := {| hmac_sha256 k m := k ++ m |}.

Lemma toy_search :
  ∃ w', search_with_status ToyTimeline.resolve ToyAeon.client ToyAeon.start "q" 3
    = (w', {| hits := hit_of <$> ToyAeon.served; attestation := AttestedWithRecall |}).
Proof. by eexists. Qed.

Lemma recall_is_what_was_served_witness :
  ∃ w' o, search_with_status ToyTimeline.resolve ToyAeon.client ToyAeon.start "q" 3 = (w', o) ∧ o.(attestation) = AttestedWithRecall
    ∧ ∃ body, trusted ToyAeon.client body ∧ o.(hits) = hit_of <$> body.(results).
Proof.
  destruct (search_with_status ToyTimeline.resolve ToyAeon.client ToyAeon.start "q" 3) as [w' o] eqn:E.
  exists w', o. split; [reflexivity|]. assert (o.(attestation) = AttestedWithRecall) as Ha.
  { destruct toy_search as [w'' H]. rewrite H in E. by injection E as _ <-. }
  split; [exact Ha|]. pose proof (recall_is_what_was_served _ _ _ _ _ _ _ E) as H. rewrite Ha in H.
  destruct H as (body & _ & H1 & H2 & _). exists body. split; assumption.
Defined.

Lemma pinned_recall_is_genuine_witness :
  ∃ w' o, search_with_status ToyTimeline.resolve ToyAeon.client ToyAeon.start "q" 3 = (w', o)
    ∧ ∃ served, ("nexus", @None string, served) ∈ [("nexus", None, [("m1", "use a guard")])] ∧ Forall2 same_memory (recalled o.(hits)) served.
Proof.
  destruct toy_search as [w' E]. exists w', {| hits := hit_of <$> ToyAeon.served; attestation := AttestedWithRecall |}.
  split; [exact E|]. refine (pinned_recall_is_genuine _ _ _ _ _ _ _ ToyAeon.key_bytes _ _ _ E _).
  - reflexivity.
  - intros key m s _ Hv. cbn in Hv. apply bool_decide_eq_true in Hv. exists "nexus", None, [("m1", "use a guard")].
    split; [by apply elem_of_cons; left|exact Hv].
  - done.
Defined.

(** Two recalls that differ in a score by less than a millionth leave one digest. *)
Definition scored (n : Z) : list MemoryHit :=
  [{| hit_id := "m1"; content := "use a guard"; hit_score := Some (f64_lit n 10000000) |}].
Lemma evidence_reference_binds_recall_witness :
  scored 5000001 ≠ scored 5000002
  ∧ ∃ e e', evidence_of ToyAeon.config (scored 5000001) None = Some e ∧ evidence_of ToyAeon.config (scored 5000002) None = Some e'
    ∧ (canonical_bytes (evidence_json e) = canonical_bytes (evidence_json e') → Forall2 same_hit (scored 5000001) (scored 5000002)).
Proof.
  split; [vm_compute; discriminate|].
  destruct (build_memory_evidence_ref ToyAeon.config (scored 5000001) None) as [[r|] m] eqn:E; [|vm_compute in E; discriminate E].
  destruct (build_memory_evidence_ref ToyAeon.config (scored 5000002) None) as [[r'|] m'] eqn:E'; [|vm_compute in E'; discriminate E'].
  assert (digest <$> (build_memory_evidence_ref ToyAeon.config (scored 5000001) None).1
          = digest <$> (build_memory_evidence_ref ToyAeon.config (scored 5000002) None).1) as Hd by (vm_compute; reflexivity).
  rewrite E, E' in Hd. injection Hd as Hd.
  destruct (evidence_reference_binds_recall _ _ _ _ _ _ _ _ _ E E' Hd) as (e & e' & He & He' & _ & H).
  exists e, e'. split_and!; [exact He|exact He'|]. intros Hb. exact (proj1 (proj2 (H Hb))).
Defined.

(** [aeon_is_fatal_only_when_required] has one hypothesis, of its last part. *)
Lemma aeon_is_fatal_only_when_required_witness :
  ∃ s, init_aeon_timeline_sink_offline ToyAeon.host ToyAeon.config = Ok (Some s).
Proof.
  destruct (proj2 (proj2 (proj2 (aeon_is_fatal_only_when_required ToyAeon.host ToyAeon.config))) eq_refl) as [s [H _]].
  exists s. exact H.
Defined.
