(* ===== verification/AeonExecution.v ===== *)
(** * Execution with AEON memory: [src/hypervisor/mod.rs] under [aeon-memory]

    What a failed run or a tried recovery leaves for the memory service, the memory part of
    a capsule, and [execute_tool_proof_with_tokens], which negotiates a denied request down
    to what remembered evidence singles out and the caller may do.  Requests that are sent
    in the background are values; the answers a negotiation gets in a round are arguments. *)

From S2P Require Import Prelude Errors Floats UrlGuard LexPath Capability Tokens HostFs Wasi Compression.
From S2P Require Import Snapshot Differential SnapshotManager Digest Framed Fuel Failure Telemetry Instinct Execution WasiExecution.
From S2P Require Import Speculative Profile McpGate McpServer Negotiator Json MemoryBridge AeonConfig AeonTimeline AeonMemory Redaction Attestation.
From S2P Require Import ProofExecution LlmPolicy.

(** ** Tools, receipts and capsules *)

(** The fields of a [ToolDefinition] that the feature adds. *)
Record AeonTool := {
  the_tool : ToolDefinition;
  aeon_agent_id : option string;
  aeon_session_id : option string;
  memory_evidence_digest : option string;
  memory_evidence_verified : bool;
}.
Definition plain_tool (t : ToolDefinition) : AeonTool :=
  {| the_tool := t; aeon_agent_id := None; aeon_session_id := None; memory_evidence_digest := None;
     memory_evidence_verified := false |}.
Definition with_aeon_context (t : AeonTool) (agent session : option string) : AeonTool :=
  {| the_tool := t.(the_tool); aeon_agent_id := agent; aeon_session_id := session;
     memory_evidence_digest := t.(memory_evidence_digest); memory_evidence_verified := t.(memory_evidence_verified) |}.
Definition with_memory_evidence (t : AeonTool) (d : option string) (verified : bool) : AeonTool :=
  {| the_tool := t.(the_tool); aeon_agent_id := t.(aeon_agent_id); aeon_session_id := t.(aeon_session_id);
     memory_evidence_digest := d; memory_evidence_verified := verified |}.
Definition with_required (t : AeonTool) (caps : list Capability) : AeonTool :=
  {| the_tool := with_capabilities t.(the_tool) caps; aeon_agent_id := t.(aeon_agent_id); aeon_session_id := t.(aeon_session_id);
     memory_evidence_digest := t.(memory_evidence_digest); memory_evidence_verified := t.(memory_evidence_verified) |}.

Record AeonReceipt := { receipt : ExecutionReceipt; run_of : AeonTool; receipt_rounds : option nat }.
Record AeonCapsule := {
  capsule : ProofCapsule;
  negotiation_rounds : option nat;
  memory_evidence : option MemoryEvidenceRef;
  memory_mode : option MemoryAttestationMode;
}.
Definition with_memory (c : AeonCapsule) (e : option MemoryEvidenceRef) (m : option MemoryAttestationMode) : AeonCapsule :=
  {| capsule := c.(capsule); negotiation_rounds := c.(negotiation_rounds); memory_evidence := e; memory_mode := m |}.

Definition cap_unverified_memory_mode (m : MemoryAttestationMode) (verification_required : bool) : MemoryAttestationMode :=
  match verification_required, m with
  | true, (MemAttested | AttestedWithRecall | AttestedNoHit) => MemAdvisory
  | _, _ => m
  end.

Definition is_hex_digest (value : string) : bool :=
  negb (String.eqb value "") && Nat.even (String.length value) && forallb (λ a, match MemoryBridge.hex_value (byte_of_ascii a) with Some _ => true | None => false end) (String.list_ascii_of_string value).

(** ** What is remembered *)

Definition aeon_redact_token (token : string) : string :=
  let lower := to_ascii_lowercase token in
  if starts_with "sk-" lower || existsb (λ m, contains_str m lower) ["api_key"; "apikey"; "token="; "password"; "secret"; "authorization"]
     || String.eqb lower "bearer"
  then "[redacted]" else token.
Definition aeon_safe_fragment (raw : string) (max_chars : nat) : string :=
  join " " (aeon_redact_token <$> split_whitespace (clean max_chars raw)).
Definition fmt_bool (b : bool) : string := if b then "true" else "false".

Definition required_aeon_memory_scope (tool : AeonTool) : option MemoryScope :=
  match tool.(aeon_agent_id), tool.(aeon_session_id) with
  | Some agent, Some session => Some (Capability.Session agent session)
  | Some agent, None => Some (Capability.Agent agent)
  | None, _ => None
  end.

Section AeonExecution.
Context `{U : UrlLib} `{C : CryptoLib} `{Zs : ZstdLib} `{Hi : HashIter} `{E : SnapEnv} `{Io : InstinctIo} `{G : Guest}
  `{D : DigestLib} `{P : !ProofLib} `{T : !TimelineLib} `{W : AeonWire} `{J : JsonLib} `{Sh : Sha256Lib} `{Hm : HmacLib}.
Variable dbg : Capability → string.
Variable resolve : string → Z → option (list IpAddr).

Definition aeon_failure_memory_content (log : ErrorLog) (rolled_back : bool) (duration_ms fuel_consumed : Z) (snapshot : option Uuid) : string :=
  let content :=
    "execution failure: operation=" +:+ aeon_safe_fragment log.(log_operation) 128 +:+ " category=" +:+ mode_category log.(failure_mode)
    +:+ " description=" +:+ aeon_safe_fragment log.(log_description) 512 +:+ " rollback_performed=" +:+ fmt_bool rolled_back
    +:+ " duration_ms=" +:+ fmt_u duration_ms +:+ " fuel_consumed=" +:+ fmt_u fuel_consumed +:+ " snapshot_id="
    +:+ match snapshot with Some id => Attestation.uuid_text id | None => "none" end in
  let actions :=
    List.filter (λ a, negb (String.eqb a "")) ((λ a, aeon_safe_fragment a.(Failure.description) 256) <$> take 3 log.(recovery_actions)) in
  take_chars 2048
    (content +:+ match actions with [] => "" | _ => " recovery_actions=" +:+ join " | " actions end).
Definition aeon_recovery_outcome_memory_content (operation : string) (attempt : Z) (instinct_id : Uuid) (text : string) (success : bool) : string :=
  "recovery outcome: operation=" +:+ aeon_safe_fragment operation 128 +:+ " attempt=" +:+ fmt_u attempt +:+ " instinct_id="
  +:+ Attestation.uuid_text instinct_id +:+ " outcome=" +:+ (if success then "success" else "failure")
  +:+ " action=" +:+ aeon_safe_fragment text 512.

(** [None] is the authorisation's panic. *)
Definition can_capture_aeon_memory (h : NexusHypervisor) (now : DateTime) (tool : AeonTool) (tokens : list CapabilityToken) : option bool :=
  match required_aeon_memory_scope tool with
  | None => Some false
  | Some scope => is_ok <$> authorize h.(capability_manager) now tokens [WriteMemory scope]
  end.
(** What [execute_tool_inner] captures of the run that ended in [output]. *)
Definition failure_capture (h : NexusHypervisor) (now : DateTime) (tool : AeonTool) (tokens : list CapabilityToken) (output : ToolOutput)
  : option string :=
  match output.(error_log), can_capture_aeon_memory h now tool tokens with
  | Some log, Some true =>
      Some (aeon_failure_memory_content log output.(rollback_performed) output.(out_time_ms) output.(out_fuel_consumed) output.(out_snapshot_id))
  | _, _ => None
  end.
Definition capture_aeon_memory (client : option AeonMemoryClient) (w : Wire) (content : string) (importance : option f32) (memory_type : string) : Wire :=
  match client with None => w | Some c => (store resolve c w content importance (Some memory_type)).1 end.

(** ** Capsules *)

Definition ref_json (e : MemoryEvidenceRef) : Json :=
  JObj [("evidence_version", JStr e.(evidence_version)); ("digest", MemoryBridge.digest_json e.(digest));
        ("agent_handle", MemoryBridge.digest_json e.(ref_agent_handle)); ("session_id", opt JStr e.(ref_session_id));
        ("injected_count", JNum (Z.of_nat e.(injected_count)))].
(** Fields that are absent are not written; sorting settles the order of the members. *)
Definition aeon_json (c : AeonCapsule) : Json :=
  match to_json c.(capsule) with
  | JObj members =>
      JObj ((λ '(k, v), (k, match v, c.(negotiation_rounds) with
                            | JObj inner, Some n =>
                                if String.eqb k "capabilities" then JObj (inner ++ [("negotiation_rounds", JNum (Z.of_nat n))]) else v
                            | _, _ => v
                            end)) <$> members
            ++ match c.(memory_evidence) with Some e => [("memory_evidence", ref_json e)] | None => [] end
            ++ match c.(memory_mode) with Some m => [("memory_mode", JStr (mode_text m))] | None => [] end)
  | v => v
  end.
Definition set_capsule (c : AeonCapsule) (p : ProofCapsule) : AeonCapsule :=
  {| capsule := p; negotiation_rounds := c.(negotiation_rounds); memory_evidence := c.(memory_evidence); memory_mode := c.(memory_mode) |}.
Definition aeon_canonical_bytes (c : AeonCapsule) : list byte :=
  to_vec (sort_json_value (aeon_json (set_capsule c (with_envelope c.(capsule) None)))).
Definition sign_aeon_capsule (c : AeonCapsule) (key : SigningKey) : AeonCapsule :=
  let payload := aeon_canonical_bytes c in
  set_capsule c (with_envelope c.(capsule)
    (Some {| signer := "nexus-hypervisor"; Attestation.key_id := verifying_key_id (verifying_key_of key);
             envelope_signature := hex_lower (ed_sign key payload); signed_payload_digest := Redaction.sha256_public payload |})).

Definition unsigned_aeon_capsule (keys : ProofKeys) (capsule_id : Uuid) (r : AeonReceipt) (output : ToolOutput) : AeonCapsule :=
  {| capsule := unsigned_capsule_from_receipt keys capsule_id r.(receipt) output; negotiation_rounds := r.(receipt_rounds);
     memory_evidence := None;
     memory_mode := match r.(run_of).(aeon_agent_id), r.(run_of).(aeon_session_id) with
                    | Some _, Some _ => Some MemAdvisory
                    | _, _ => None
                    end |}.

(** [config]: the hypervisor's [aeon_config]. *)
Definition memory_evidence_ref_from_digest (config : option AeonConfig) (tool : AeonTool) : option MemoryEvidenceRef :=
  raw ← tool.(memory_evidence_digest);
  let d := trim raw in
  if negb (is_hex_digest d) then None
  else
    config ← config;
    key ← config.(AeonConfig.hmac_key);
    Some {| evidence_version := MEMORY_EVIDENCE_VERSION;
            digest := {| Redaction.algorithm := HMAC_SHA256_ALGORITHM; Redaction.value := to_ascii_lowercase d;
                         Redaction.public_recomputable := false |};
            ref_agent_handle := hmac_agent_id key (default config.(AeonConfig.agent_id) tool.(aeon_agent_id));
            ref_session_id := or_else tool.(aeon_session_id) config.(AeonConfig.session_id);
            injected_count := 0 |}.
Definition verification_required (config : option AeonConfig) : bool :=
  match config with Some c => match c.(AeonConfig.verifying_key) with Some _ => true | None => false end | None => false end.

Definition attach_memory_evidence_from_receipt (config : option AeonConfig) (c : AeonCapsule) (tool : AeonTool) : AeonCapsule * bool :=
  match tool.(memory_evidence_digest) with
  | None => (c, false)
  | Some _ =>
      match memory_evidence_ref_from_digest config tool with
      | Some e =>
          (with_memory c (Some e)
             (Some (if tool.(memory_evidence_verified) && verification_required config then MemAttested else MemAdvisory)), true)
      | None => (with_memory c c.(memory_evidence) (Some Degraded), true)
      end
  end.
Definition aeon_capsule_from_receipt (config : option AeonConfig) (keys : ProofKeys) (capsule_id : Uuid) (r : AeonReceipt)
    (output : ToolOutput) : AeonCapsule :=
  sign_aeon_capsule (attach_memory_evidence_from_receipt config (unsigned_aeon_capsule keys capsule_id r output) r.(run_of)).1
    keys.(proof_signing_key).
Definition capsule_from_receipt_with_memory (config : option AeonConfig) (keys : ProofKeys) (capsule_id : Uuid) (r : AeonReceipt)
    (output : ToolOutput) (evidence : option MemoryEvidenceRef) (mode : option MemoryAttestationMode) : AeonCapsule :=
  let '(c, attached) := attach_memory_evidence_from_receipt config (unsigned_aeon_capsule keys capsule_id r output) r.(run_of) in
  let capped := (λ m, cap_unverified_memory_mode m (verification_required config)) <$> mode in
  let c := match evidence with
           | Some _ => with_memory c evidence capped
           | None => if attached then c else with_memory c c.(memory_evidence) capped
           end in
  sign_aeon_capsule c keys.(proof_signing_key).
Definition memory_evidence_from_hits (config : option AeonConfig) (tool : AeonTool) (hits : list AeonMemory.MemoryHit)
  : option MemoryEvidenceRef * MemoryAttestationMode :=
  match config with
  | None => (None, MemAdvisory)
  | Some config => build_memory_evidence_ref config hits (or_else tool.(aeon_session_id) config.(AeonConfig.session_id))
  end.

(** ** Runs with a proof *)

(** The receipt of a run; [granted] is what the caller was found to hold. *)
Definition aeon_receipt (h : NexusHypervisor) (keys : ProofKeys) (p : ProofReads) (tool : AeonTool) (input_bytes : list byte)
    (output : ToolOutput) (granted : list string) (rounds : option nat) : AeonReceipt :=
  let r := receipt_of h keys p tool.(the_tool) input_bytes output in
  {| receipt := {| rc_run_id := r.(rc_run_id); rc_started_at := r.(rc_started_at); rc_finished_at := r.(rc_finished_at);
                   rc_tool_name := r.(rc_tool_name); rc_entrypoint := r.(rc_entrypoint); module_sha256 := r.(module_sha256);
                   input_sha256 := r.(input_sha256); input_bytes_len := r.(input_bytes_len); required_caps := r.(required_caps);
                   granted_caps := granted; policy_mode := r.(policy_mode); rc_profile := r.(rc_profile);
                   rc_snapshot := r.(rc_snapshot); rc_failure := r.(rc_failure); rc_rollback := r.(rc_rollback);
                   rc_branches := r.(rc_branches) |};
     run_of := tool; receipt_rounds := rounds |}.

(** [execute_tool_proof] with the feature. *)
Definition aeon_execute_tool_proof (h : NexusHypervisor) (c : Call) (config : option AeonConfig) (keys : ProofKeys) (p : ProofReads)
    (tool : AeonTool) : option (NexusHypervisor * result (ToolOutput * AeonCapsule) NexusError) :=
  match c.(Execution.input_bytes) with
  | None => Some (h, Err (SerializationError (Fmt "failed to serialize tool input: {e}" [AOpaque])))
  | Some input_bytes =>
      match execute_tool dbg h c tool.(the_tool) with
      | None => None
      | Some (h, Err e) => Some (h, Err e)
      | Some (h, Ok output) =>
          Some (h, Ok (output, aeon_capsule_from_receipt config keys p.(fresh_capsule_id)
                                 (aeon_receipt h keys p tool input_bytes output [] None) output))
      end
  end.

(** The memory client as the negotiator searches it; [wires] is what answers in a round. *)
Definition hit_to_negotiator (x : AeonMemory.MemoryHit) : Negotiator.MemoryHit :=
  {| Negotiator.hit_id := x.(AeonMemory.hit_id); Negotiator.content := x.(AeonMemory.content); Negotiator.score := x.(hit_score) |}.
Definition hit_of_negotiator (x : Negotiator.MemoryHit) : AeonMemory.MemoryHit :=
  {| AeonMemory.hit_id := x.(Negotiator.hit_id); AeonMemory.content := x.(Negotiator.content); hit_score := x.(Negotiator.score) |}.
Definition negotiation_search (memory : AeonMemoryClient) (wires : nat → Wire) (round : nat) (query : string) (limit : nat)
  : list Negotiator.MemoryHit := hit_to_negotiator <$> (search resolve memory (wires round) query (Z.of_nat limit)).2.
Definition may_run (h : NexusHypervisor) (now : DateTime) (tokens : list CapabilityToken) (caps : list Capability) : bool :=
  match authorize h.(capability_manager) now tokens caps with Some (Ok _) => true | _ => false end.

(** What is left of a request: all of it if it is authorised, a strict part if that was
    negotiated, or the refusal. *)
Definition negotiate_request (h : NexusHypervisor) (now : DateTime) (memory : option AeonMemoryClient) (wires : nat → Wire) (tool : AeonTool)
    (tokens : list CapabilityToken) : option (result (AeonTool * option NegotiationOutcome) NexusError) :=
  match tool.(the_tool).(required_capabilities) with
  | [] => Some (Ok (tool, None))
  | required =>
      match authorize h.(capability_manager) now tokens required with
      | None => None
      | Some (Ok _) => Some (Ok (tool, None))
      | Some (Err denial) =>
          match denial with
          | Errors.CapabilityDenied _ =>
              match memory, tool.(aeon_agent_id), tool.(aeon_session_id) with
              | Some memory, Some _, Some _ =>
                  match negotiate_capability_denial_with_authorizer dbg (negotiation_search memory wires) (may_run h now tokens) required with
                  | None => None
                  | Some None => Some (Err denial)
                  | Some (Some outcome) => Some (Ok (with_required tool outcome.(narrowed_capabilities), Some outcome))
                  end
              | _, _, _ => Some (Err denial)
              end
          | _ => Some (Err denial)
          end
      end
  end.

Definition execute_tool_proof_with_tokens (h : NexusHypervisor) (c : Call) (config : option AeonConfig) (memory : option AeonMemoryClient)
    (wires : nat → Wire) (keys : ProofKeys) (p : ProofReads) (tool : AeonTool) (tokens : list CapabilityToken)
  : option (NexusHypervisor * result (ToolOutput * AeonCapsule) NexusError) :=
  match c.(Execution.input_bytes) with
  | None => Some (h, Err (SerializationError (Fmt "failed to serialize tool input: {e}" [AOpaque])))
  | Some input_bytes =>
      match negotiate_request h c.(Execution.now) memory wires tool tokens with
      | None => None
      | Some (Err e) => Some (h, Err e)
      | Some (Ok (tool, outcome)) =>
          match execute_tool_with_tokens dbg h c tool.(the_tool) tokens with
          | None => None
          | Some (h, Err e) => Some (h, Err e)
          | Some (h, Ok output) =>
              let granted := Capability.description <$> tool.(the_tool).(required_capabilities) in
              let r := aeon_receipt h keys p tool input_bytes output granted (rounds <$> outcome) in
              let capsule :=
                match outcome with
                | Some outcome =>
                    let '(evidence, mode) := memory_evidence_from_hits config tool (hit_of_negotiator <$> outcome.(evidence_hits)) in
                    capsule_from_receipt_with_memory config keys p.(fresh_capsule_id) r output evidence (Some mode)
                | None => aeon_capsule_from_receipt config keys p.(fresh_capsule_id) r output
                end in
              Some (h, Ok (output, capsule))
          end
      end
  end.
End AeonExecution.

(** ** Properties *)

(** Words that look secret are replaced, but not the word after [Bearer]: the credential of an
    authorization header reaches the memory service. *)
Lemma bearer_token_is_remembered :
  aeon_safe_fragment "Authorization: Bearer eyJhbGciOi" 512 = "[redacted] [redacted] eyJhbGciOi".
Proof. reflexivity. Qed.

Section Theorems.
Context `{U : UrlLib} `{C : CryptoLib} `{CL : !CryptoLaws C} `{Zs : ZstdLib} `{Hi : HashIter} `{E : SnapEnv} `{Io : InstinctIo} `{G : Guest}
  `{D : DigestLib} `{P : !ProofLib} `{T : !TimelineLib} `{W : AeonWire} `{J : JsonLib} `{Sh : Sha256Lib} `{Hm : HmacLib}.
Variable dbg : Capability → string.
Variable resolve : string → Z → option (list IpAddr).

(** Memory counts as attested only if the recall was verified under a configured key: with such
    a key no capsule claims that a search was attested, or that there was nothing to attest. *)
Theorem attested_only_when_verified (config : option AeonConfig) (keys : ProofKeys) (id : Uuid) (r : AeonReceipt) (output : ToolOutput)
    (evidence : option MemoryEvidenceRef) (mode : option MemoryAttestationMode) (c : AeonCapsule) :
  c = aeon_capsule_from_receipt config keys id r output ∨ c = capsule_from_receipt_with_memory config keys id r output evidence mode →
  verification_required config = true →
  (c.(memory_mode) = Some MemAttested → r.(run_of).(memory_evidence_verified) = true ∧ c.(memory_evidence) ≠ None)
  ∧ c.(memory_mode) ≠ Some AttestedWithRecall ∧ c.(memory_mode) ≠ Some AttestedNoHit.
Proof using Type.
  intros Hc Hv. set (c0 := unsigned_aeon_capsule keys id r output).
  assert (memory_mode c0 = Some MemAdvisory ∨ memory_mode c0 = None) as H0.
  { subst c0. unfold unsigned_aeon_capsule. cbn [memory_mode]. destruct (aeon_agent_id (run_of r)), (aeon_session_id (run_of r)); auto. }
  set (a := attach_memory_evidence_from_receipt config c0 (run_of r)).
  assert ((memory_mode a.1 = Some MemAttested → memory_evidence_verified (run_of r) = true ∧ memory_evidence a.1 ≠ None)
    ∧ memory_mode a.1 ≠ Some AttestedWithRecall ∧ memory_mode a.1 ≠ Some AttestedNoHit) as Ha.
  { subst a. unfold attach_memory_evidence_from_receipt. destruct (memory_evidence_digest (run_of r)); [|destruct H0 as [H0|H0]; cbn [fst]; rewrite H0; done].
    destruct (memory_evidence_ref_from_digest _ _); cbn; [|done]. rewrite Hv. by destruct (memory_evidence_verified _). }
  destruct Hc as [->| ->]; [done|]. unfold capsule_from_receipt_with_memory. fold c0 a.
  destruct a as [c1 attached]. cbn [fst] in Ha. cbn [memory_mode memory_evidence sign_aeon_capsule set_capsule].
  assert (∀ m, cap_unverified_memory_mode m (verification_required config) ≠ MemAttested
    ∧ cap_unverified_memory_mode m (verification_required config) ≠ AttestedWithRecall
    ∧ cap_unverified_memory_mode m (verification_required config) ≠ AttestedNoHit) as Hcap by (rewrite Hv; by intros []).
  destruct evidence; [|destruct attached; [done|]]; cbn [memory_mode memory_evidence with_memory];
    (destruct mode as [m'|]; cbn [fmap option_fmap option_map]; [|done]); destruct (Hcap m') as (? & ? & ?); split_and!; congruence.
Qed.

(** What a capsule says of authority. *)
Definition authority (k : AeonCapsule) : list string * list string * option nat :=
  (k.(capsule).(evidence).(ev_required), k.(capsule).(evidence).(ev_granted), k.(negotiation_rounds)).
Definition receipt_authority (r : AeonReceipt) : list string * list string * option nat :=
  (r.(receipt).(required_caps), r.(receipt).(granted_caps), r.(receipt_rounds)).
Lemma unsigned_authority keys id r output : authority (unsigned_aeon_capsule keys id r output) = receipt_authority r.
Proof using Type. unfold authority, unsigned_aeon_capsule, unsigned_capsule_from_receipt. cbn. by repeat case_match. Qed.
Lemma attached_authority config c tool : authority (attach_memory_evidence_from_receipt config c tool).1 = authority c.
Proof using Type. unfold attach_memory_evidence_from_receipt. by repeat case_match. Qed.
Lemma aeon_capsule_authority config keys id r output : authority (aeon_capsule_from_receipt config keys id r output) = receipt_authority r.
Proof using Type.
  change (authority (attach_memory_evidence_from_receipt config (unsigned_aeon_capsule keys id r output) r.(run_of)).1 = receipt_authority r).
  by rewrite attached_authority, unsigned_authority.
Qed.
Lemma with_memory_authority config keys id r output e m :
  authority (capsule_from_receipt_with_memory config keys id r output e m) = receipt_authority r.
Proof using Type.
  unfold capsule_from_receipt_with_memory.
  pose proof (attached_authority config (unsigned_aeon_capsule keys id r output) r.(run_of)) as H. rewrite unsigned_authority in H.
  destruct (attach_memory_evidence_from_receipt _ _ _) as [c attached]. by destruct e, attached.
Qed.

(** What a negotiated request is allowed to be. *)
Definition narrowed_from (required caps : list Capability) (rounds : option nat) : Prop :=
  match rounds with
  | None => caps = required
  | Some n => caps ≠ [] ∧ caps `sublist_of` required ∧ (length caps < length required)%nat ∧ (n ≤ MAX_NEGOTIATION_ROUNDS)%nat
  end.

Lemma negotiate_request_spec h now memory wires tool tokens tool' outcome :
  manager_ok h.(capability_manager) → (∀ t, t ∈ tokens → 0 ≤ t.(tok_chain_depth)) →
  negotiate_request dbg resolve h now memory wires tool tokens = Some (Ok (tool', outcome)) →
  narrowed_from tool.(the_tool).(required_capabilities) tool'.(the_tool).(required_capabilities) (rounds <$> outcome)
  ∧ ∀ cap, cap ∈ tool'.(the_tool).(required_capabilities) → ∃ t, t ∈ tokens ∧ valid_for h.(capability_manager) now t cap.
Proof using CL.
  intros Hok Htok. unfold negotiate_request. destruct (required_capabilities (the_tool tool)) as [|c0 caps] eqn:Hreq.
  { intros [= <- <-]. rewrite Hreq. split; [done|]. by intros cap ?%elem_of_nil. }
  set (required := c0 :: caps) in *.
  destruct (authorize_spec h.(capability_manager) now tokens required Hok Htok) as [Ha _].
  destruct (authorize _ now tokens required) as [[[]|denial]|]; [|destruct denial; try done|done].
  { intros [= <- <-]. rewrite Hreq. split; [done|]. by apply Ha. }
  destruct memory as [memory|]; [|done]. destruct (aeon_agent_id tool); [|done]. destruct (aeon_session_id tool); [|done].
  destruct (negotiation_narrows dbg (negotiation_search resolve memory wires) h.(capability_manager) now tokens required Hok Htok)
    as (r & Hr & Ho).
  change (negotiate_capability_denial_with_authorizer dbg (negotiation_search resolve memory wires) (may_run h now tokens) required = Some r) in Hr.
  rewrite Hr. destruct r as [o|]; [|done]. intros [= <- <-]. destruct (Ho o eq_refl) as (Hs & Hl & Hn & Hg).
  cbn [with_required the_tool with_capabilities required_capabilities fmap option_fmap option_map narrowed_from]. split.
  - split_and!; [by intros He; rewrite He in Hl; cbn in Hl; lia|done|lia|lia].
  - intros cap Hcap. by destruct (Hg cap Hcap) as [_ ?].
Qed.

(** A run with a proof has authority.  Whenever such a run changes the hypervisor or has an
    output, the caller held a valid token for each capability that it ran with; these are
    the required ones, or after a negotiation of at most two rounds a nonempty, strictly
    shorter sublist of them; and the capsule says which: it lists exactly these as required
    and granted, and the number of rounds. *)
Theorem proof_run_has_authority (h h' : NexusHypervisor) (c : Call) (config : option AeonConfig) (memory : option AeonMemoryClient)
    (wires : nat → Wire) (keys : ProofKeys) (p : ProofReads) (tool : AeonTool) (tokens : list CapabilityToken)
    (res : result (ToolOutput * AeonCapsule) NexusError) :
  manager_ok h.(capability_manager) → (∀ t, t ∈ tokens → 0 ≤ t.(tok_chain_depth)) →
  execute_tool_proof_with_tokens dbg resolve h c config memory wires keys p tool tokens = Some (h', res) →
  h' ≠ h ∨ is_ok res = true →
  ∃ caps rounds, narrowed_from tool.(the_tool).(required_capabilities) caps rounds
    ∧ (∀ cap, cap ∈ caps → ∃ t, t ∈ tokens ∧ valid_for h.(capability_manager) c.(Execution.now) t cap)
    ∧ ∀ output k, res = Ok (output, k) →
        authority k = (Capability.description <$> caps, Capability.description <$> caps, rounds).
Proof using CL.
  intros Hok Htok. unfold execute_tool_proof_with_tokens.
  destruct (Execution.input_bytes c) as [input_bytes|]; [|intros [= <- <-] [?|?]; done].
  destruct (negotiate_request _ _ _ _ _ _ _ _) as [[[tool' outcome]|e]|] eqn:Hn; [|intros [= <- <-] [?|?]; done|done].
  destruct (negotiate_request_spec _ _ _ _ _ _ _ _ Hok Htok Hn) as [Hnarrow Hgranted].
  intros Hrun _. exists (required_capabilities (the_tool tool')), (rounds <$> outcome). split; [done|]. split; [done|].
  destruct (execute_tool_with_tokens _ _ _ _ _) as [[h1 [output1|e]]|]; [|by injection Hrun as <- <-|done].
  injection Hrun as <- <-. intros output k [= <- <-].
  destruct outcome as [o|]; cbn [fmap option_fmap option_map];
    [destruct (memory_evidence_from_hits _ _ _) as [ev mode]; rewrite with_memory_authority|rewrite aeon_capsule_authority]; done.
Qed.
End Theorems.
