(* ===== verification/McpHandlers.v ===== *)
(** * The other handlers of the MCP server: [src/bin/nexus_mcp.rs]

    The handlers that carry proofs or work with the AEON service, and those that only read;
    with the handlers of [McpServer] these are all of them ([handle_request]), as built
    with the feature [aeon-memory].  Timeline deliveries that run in the background are
    recorded in [deliveries]; what the services answer, and the spool on disk, are read.
    [reached_by_requests]: the servers that any sequence of requests leads to. *)

From S2P Require Import Prelude Errors Floats UrlGuard LexPath Capability Tokens HostFs Wasi Compression.
From S2P Require Import Snapshot Differential SnapshotManager Digest Framed Fuel Failure Telemetry Instinct Execution WasiExecution.
From S2P Require Import Egress Speculative Profile McpGate McpServer Tenants Negotiator Json MemoryBridge Redaction Attestation ProofExecution.
From S2P Require Import AeonConfig AeonTimeline AeonMemory LlmPolicy AeonExecution.

(** ** Requests and answers *)

Record AeonProofParams := { pr_wasm_path : string; pr_agent_id : option string; pr_session_id : option string }.
Record AeonTimelineExecuteParams := {
  tl_wasm_path : string;
  tl_entry : option string;
  tl_capabilities : option (list CapabilitySpec);
  tl_caller_capabilities : option (list CapabilitySpec);
  tl_parent_token_id : option string;
  tl_agent_id : option string;
  tl_session_id : option string;
}.
Record NexusIqExecuteParams := {
  iq_tool_name : string;
  iq_tool_wasm : string;
  iq_input : string;
  iq_agent_id : string;
  iq_session_id : option string;
  iq_attestation_mode : option string;
  iq_required_capabilities : option (list string);
  iq_memory_query : option string;
  iq_memory_limit : option Z;
}.
Inductive AnyRequest :=
| RqCore (rq : Request)
| RqExecuteProof (p : AeonProofParams)
| RqAeonExecuteTimeline (p : AeonTimelineExecuteParams)
| RqNexusIqExecute (p : NexusIqExecuteParams)
| RqGetHistory (limit : option Z)
| RqGetStats
| RqInstinctStats
| RqInstinctExport.

Record MemoryEvidenceForMcp := {
  mc_version : Z; mc_hit_count : nat; mc_hit_digests : list string; mc_attestation : MemoryAttestationMode;
  mc_capsule_digest : option string;
}.
Definition evidence_for_mcp (e : MemoryEvidenceV1) : MemoryEvidenceForMcp :=
  {| mc_version := e.(ev_version); mc_hit_count := e.(hit_count); mc_hit_digests := e.(hit_digests);
     mc_attestation := e.(ev_attestation); mc_capsule_digest := e.(ev_capsule_digest) |}.
Record DenialNegotiationResponse := { dn_denied : bool; dn_negotiated : bool; dn_rounds : option nat; dn_reason : option string }.
Record NexusIqExecuteResponse := {
  iq_output : option ToolOutput;
  proof_capsule_ref : option string;
  memory_evidence_ref : MemoryEvidenceForMcp;
  memory_hits_count : nat;
  timeline_status : TimelineDeliveryStatus;
  denial_negotiation : option DenialNegotiationResponse;
  attestation_mode : string;
  denied : bool;
  iq_events : list NexusExecutionEvent;
}.
Record InstinctStats := {
  total_instincts : Z;
  categories : gmap string Z;
  avg_confidence : f32;
  highest_confidence : option (string * f32);
  total_support : Z;
  total_failures : Z;
}.
Record ExecutionRecordSummary := {
  sm_id : string; sm_timestamp : DateTime; sm_operation : string; sm_success : bool; sm_duration_ms : Z; sm_fuel_consumed : Z;
  has_error : bool;
}.
Inductive AnyResponse :=
| ACore (r : Response)
| AProof (output : ToolOutput) (reference : McpProofReference) (full : option AeonCapsule) (events : list NexusExecutionEvent)
| ATimeline (output : ToolOutput) (full : AeonCapsule) (events : list NexusExecutionEvent) (status : option TimelineDeliveryStatus)
    (agent session path : option string)
| AIq (r : NexusIqExecuteResponse)
| AHistory (records : list ExecutionRecordSummary) (total : nat)
| AStats (telemetry : TelemetryStats) (snapshots : SnapshotStats)
| AInstinctStats (stats : InstinctStats)
| AExport (json : list byte) (instinct_count : nat).

Class IqLib := {
  base64_decode_text : string → option (list byte);
  spec_from_str : string → option CapabilitySpec;   (** [serde_json::from_str::<CapabilitySpec>] *)
  is_json : string → bool;                          (** [serde_json::from_str::<Value>] succeeds *)
}.

(** ** Reading handlers *)

Section Reading.
Context `{Io : InstinctIo}.

Definition all_instincts (s : InstinctStore) : list InstinctEntry :=
  cat_iter s.(Instinct.cache) ≫= λ cat, default [] (s.(Instinct.cache) !! cat).
Definition count_instinct (st : InstinctStats * f32) (i : InstinctEntry) : InstinctStats * f32 :=
  let '(st, conf_sum) := st in
  ({| total_instincts := wrap64 (st.(total_instincts) + 1); categories := st.(categories); avg_confidence := st.(avg_confidence);
      highest_confidence :=
        if match st.(highest_confidence) with None => true | Some (_, c) => f_lt c i.(inst_confidence) end
        then Some (i.(recovery_description), i.(inst_confidence)) else st.(highest_confidence);
      total_support := wrap64 (st.(total_support) + i.(support_count));
      total_failures := wrap64 (st.(total_failures) + i.(failure_count)) |},
   f32_add conf_sum i.(inst_confidence)).
Definition instinct_stats (s : InstinctStore) : InstinctStats :=
  let zero := {| total_instincts := 0; categories := (λ b, len b) <$> s.(Instinct.cache); avg_confidence := f32_of_Z 0;
                 highest_confidence := None; total_support := 0; total_failures := 0 |} in
  let '(st, conf_sum) := fold_left count_instinct (all_instincts s) (zero, f32_of_Z 0) in
  {| total_instincts := st.(total_instincts); categories := st.(categories);
     avg_confidence := if 0 <? st.(total_instincts) then f32_div conf_sum (f32_of_Z st.(total_instincts)) else f32_of_Z 0;
     highest_confidence := st.(highest_confidence); total_support := st.(total_support); total_failures := st.(total_failures) |}.
Definition export_all (s : InstinctStore) : result (list byte) NexusError :=
  ok_or (inst_serialize (all_instincts s)) (SerializationError (Fmt "export: {e}" [AOpaque])).

Definition summary_of (r : ExecutionRecord) : ExecutionRecordSummary :=
  {| sm_id := r.(rec_id); sm_timestamp := r.(rec_timestamp); sm_operation := r.(operation); sm_success := r.(success);
     sm_duration_ms := r.(Telemetry.duration_ms); sm_fuel_consumed := r.(rec_fuel_consumed);
     has_error := match r.(rec_error) with Some _ => true | None => false end |}.
End Reading.

(** ** Handlers *)

(** What a handler reads of its surroundings: [base] as in [McpServer]; the environment; what
    the memory service answers a recall and a negotiation round; what the timeline answers a
    delivery that is waited for; [Instant::now] in nanoseconds. *)
Record AnyReads `{U : UrlLib} := {
  base : Reads;
  host : Host;
  proof_reads : ProofReads;
  recall_wire : Wire;
  round_wires : nat → Wire;
  spool_io : SpoolIo;
  timeline_net : Net;
  spool : Spool;
  instant_now : Z;
}.
Record Delivery := {
  to_agent : string; to_session : option string; with_mode_of : TimelineDeliveryMode; of_events : list NexusExecutionEvent;
}.

Definition RECALL_RATE_MAX : nat := 10.
Definition RECALL_RATE_WINDOW : Z := 60000000000.

Definition proof_events (output : ToolOutput) (capsule_id : Uuid) (rounds : option nat) : list NexusExecutionEvent :=
  match rounds with Some _ => [AeonTimeline.CapabilityDenied "capability_denial_negotiated"] | None => [] end
  ++ match output.(out_snapshot_id) with Some id => [SnapshotCreated id] | None => [] end
  ++ [ProofCapsuleEmitted capsule_id].
Definition timeline_mode_label (m : TimelineDeliveryMode) : string :=
  match m with Advisory => "advisory" | Attested => "attested" | Offline => "offline" end.
Definition required_read_memory_scope (agent : string) (session : option string) : Capability :=
  match session with
  | Some session => ReadMemory (Capability.Session agent session)
  | None => ReadMemory (Capability.Agent agent)
  end.
Definition is_capability_denial (e : NexusError) : bool := match e with Errors.CapabilityDenied _ => true | _ => false end.
Definition verify_proof_capsule_memory_digest (c : AeonCapsule) (expected : string) : result () AnyError :=
  match c.(memory_evidence) with
  | None => Err (Anyhow (Fmt "proof capsule missing AEON memory evidence digest; expected {expected_digest}" [AStr expected]))
  | Some e =>
      let actual := e.(MemoryBridge.digest).(Redaction.value) in
      if String.eqb (to_ascii_lowercase actual) (to_ascii_lowercase expected) then Ok ()
      else Err (Anyhow (Fmt "proof capsule AEON memory evidence digest mismatch: expected {expected_digest}, got {actual_digest}"
                          [AStr expected; AStr actual]))
  end.

(** [nexus_iq_allowlist_from_env]; [strings_from_str] is [serde_json::from_str::<Vec<String>>]. *)
Definition nexus_iq_allowlist_from_env (strings_from_str : string → option (list string)) (var : EnvVar)
  : result (option (list string)) AnyError :=
  match var with
  | NotPresent => Ok None
  | NotUnicode => Err (Anyhow (Lit "NEXUS_IQ_ALLOWLIST must be UTF-8 JSON or comma-separated tool names"))
  | Present raw =>
      let raw := trim raw in
      if String.eqb raw "" then Ok (Some [])
      else if starts_with "[" raw then
        match strings_from_str raw with
        | Some tools => Ok (Some tools)
        | None => Err (Anyhow (Fmt "NEXUS_IQ_ALLOWLIST must be a JSON array of strings: {e}" [AOpaque]))
        end
      else Ok (Some (List.filter (λ t, negb (String.eqb t "")) (trim <$> split_on ","%char raw)))
  end.

Section Handlers.
Context `{U : UrlLib} `{C : CryptoLib} `{Zs : ZstdLib} `{Hi : HashIter} `{E : SnapEnv} `{Io : InstinctIo} `{G : Guest}
  `{WG : WasiGuest} `{Sch : Scheduler} `{M : McpLib} `{D : DigestLib} `{P : !ProofLib} `{T : !TimelineLib} `{W : AeonWire}
  `{J : JsonLib} `{Sh : Sha256Lib} `{Hm : HmacLib} `{Iq : IqLib}.
Variable dbg : Capability → string.
Variable resolve : string → Z → option (list IpAddr).
Variable debug_assertions : bool.

(** The server with all that its handlers share; [aeon_config] and [aeon_memory] are the hypervisor's. *)
Record FullServer := {
  core : NexusMcpServer;
  nexus_iq_allowlist : option (list string);
  keys : ProofKeys;
  aeon_config : option AeonConfig;
  aeon_memory : option AeonMemoryClient;
  recall_rate : gmap string (list Z);
  deliveries : list Delivery;
}.
Definition AnyAnswer : Type := option (FullServer * result AnyResponse AnyError).
Definition with_core (s : FullServer) (c : NexusMcpServer) : FullServer :=
  {| core := c; nexus_iq_allowlist := s.(nexus_iq_allowlist); keys := s.(keys); aeon_config := s.(aeon_config);
     aeon_memory := s.(aeon_memory); recall_rate := s.(recall_rate); deliveries := s.(deliveries) |}.
Definition with_rate (s : FullServer) (m : gmap string (list Z)) : FullServer :=
  {| core := s.(core); nexus_iq_allowlist := s.(nexus_iq_allowlist); keys := s.(keys); aeon_config := s.(aeon_config);
     aeon_memory := s.(aeon_memory); recall_rate := m; deliveries := s.(deliveries) |}.
Definition with_delivery (s : FullServer) (d : Delivery) : FullServer :=
  {| core := s.(core); nexus_iq_allowlist := s.(nexus_iq_allowlist); keys := s.(keys); aeon_config := s.(aeon_config);
     aeon_memory := s.(aeon_memory); recall_rate := s.(recall_rate); deliveries := s.(deliveries) ++ [d] |}.
Definition with_hypervisor (s : FullServer) (h : NexusHypervisor) : FullServer := with_core s (set_hypervisor s.(core) h).
Definition tokens_of (s : FullServer) : CapabilityManager := manager s.(core).
Definition with_tokens_of (s : FullServer) (m : CapabilityManager) : FullServer := with_core s (with_manager s.(core) m).

(** [?] *)
Definition attempt {A} (s : FullServer) (r : result A AnyError) (k : A → AnyAnswer) : AnyAnswer :=
  match r with Ok a => k a | Err e => Some (s, Err e) end.

(** *** Proofs *)

Definition aeon_capsule_digest (c : AeonCapsule) : TypedDigest := Redaction.sha256_public (aeon_canonical_bytes c).
Definition aeon_proof_reference (c : AeonCapsule) : McpProofReference :=
  {| ref_capsule_digest := aeon_capsule_digest c; artifact_id := None; inline_summary := scorecard c.(capsule) |}.

Definition do_execute_proof_aeon (s : FullServer) (r : AnyReads) (p : AeonProofParams) : AnyAnswer :=
  attempt s (ensure_tool_allowed s.(core).(gate) "nexus_execute_proof") (λ _,
  attempt s (ensure_proof_enabled s.(core).(gate)) (λ _,
  attempt s (read_module s.(core) r.(base) p.(pr_wasm_path)) (λ bytes,
  let tool := with_aeon_context (plain_tool (ToolDefinition_new "mcp_tool_proof" bytes)) p.(pr_agent_id) p.(pr_session_id) in
  match aeon_execute_tool_proof dbg s.(core).(hypervisor) (r.(base).(calls) O) s.(aeon_config) s.(keys) r.(proof_reads) tool with
  | None => None
  | Some (h, Err e) => Some (with_hypervisor s h, Err (Nexus e))
  | Some (h, Ok (output, c)) =>
      Some (with_hypervisor s h,
            Ok (AProof output (aeon_proof_reference c)
                  (if should_include_full_proof_capsule debug_assertions s.(keys).(ProofExecution.env) then Some c else None)
                  (proof_events output c.(capsule).(capsule_id) None)))
  end))).

(** *** The timeline *)

Definition do_aeon_execute_timeline (s : FullServer) (r : AnyReads) (p : AeonTimelineExecuteParams) : AnyAnswer :=
  attempt s (ensure_tool_allowed s.(core).(gate) "nexus_aeon_execute_timeline") (λ _,
  attempt s (ensure_proof_enabled s.(core).(gate)) (λ _,
  attempt s (read_module s.(core) r.(base) p.(tl_wasm_path)) (λ bytes,
  attempt s (parse_capabilities p.(tl_capabilities)) (λ required,
  attempt s (match p.(tl_caller_capabilities) with Some specs => parse_capabilities (Some specs) | None => Ok required end) (λ caller,
  let '(m, minted) := execute_wasi_tokens s.(core).(gate) (tokens_of s) (McpServer.clock r.(base)) r.(base).(ids) caller p.(tl_parent_token_id) in
  let s := with_tokens_of s m in
  attempt s minted (λ tokens,
  attempt s (check_tokens_against_active_profile s.(core).(gate) (tokens_of s) (McpServer.clock r.(base)) tokens) (λ _,
  let tool := with_aeon_context
    (plain_tool (with_capabilities (named_tool "mcp_aeon_timeline" bytes p.(tl_entry)) required)) p.(tl_agent_id) p.(tl_session_id) in
  attempt s (check_tokens_against_active_profile s.(core).(gate) (tokens_of s) (McpServer.clock r.(base)) tokens) (λ _,
  match execute_tool_proof_with_tokens dbg resolve s.(core).(hypervisor) (r.(base).(calls) O) s.(aeon_config) s.(aeon_memory)
          r.(round_wires) s.(keys) r.(proof_reads) tool tokens with
  | None => None
  | Some (h, Err e) => Some (with_hypervisor s h, Err (Nexus e))
  | Some (h, Ok (output, c)) =>
      let s := with_hypervisor s h in
      let events := proof_events output c.(capsule).(capsule_id) c.(negotiation_rounds) in
      let sink := match AeonConfig.from_env r.(host).(AeonMemory.env) with
                  | Ok config => match sink_from_enabled_config r.(host) config with Ok sink => sink | Err _ => None end
                  | Err _ => None
                  end in
      let '(s, status) :=
        match p.(tl_agent_id) with
        | None => (s, None)
        | Some agent =>
            match sink with
            | Some sink =>
                (with_delivery s {| to_agent := agent; to_session := p.(tl_session_id); with_mode_of := sink.(mode); of_events := events |},
                 Some FireAndForget)
            | None => (s, Some FailedOpen)
            end
        end in
      Some (s, Ok (ATimeline output c events status p.(tl_agent_id) p.(tl_session_id)
                     ((λ a, "/agents/" +:+ a +:+ "/timeline") <$> p.(tl_agent_id))))
  end)))))))).

(** *** The loop with AEON-IQ *)

(** One token per capability that the operator listed; the others are passed over. *)
Fixpoint issue_listed (m : CapabilityManager) (allowlist : list Capability) (now : DateTime) (ids : nat → Uuid) (k : nat)
    (capabilities : list Capability) : CapabilityManager * result (list CapabilityToken) AnyError :=
  match capabilities with
  | [] => (m, Ok [])
  | capability :: rest =>
      match sanitize_token_request capability None with
      | Err e => (m, Err e)
      | Ok (capability, secs) =>
          if capability_allowed_by allowlist capability then
            match issue m capability "mcp_nexus_iq_allowlist" (from_secs secs) now (ids k) with
            | Err e => (m, Err (Nexus e))
            | Ok (token, m) =>
                let '(m, r) := issue_listed m allowlist now ids (S k) rest in
                (m, let? tokens := r in Ok (token :: tokens))
            end
          else issue_listed m allowlist now ids k rest
      end
  end.
Definition iq_caller_tokens_for_required (s : FullServer) (r : AnyReads) (ids : nat → Uuid) (capabilities : list Capability)
  : FullServer * result (list CapabilityToken) AnyError :=
  match capabilities, s.(core).(gate).(capability_allowlist) with
  | [], _ | _, None => (s, Ok [])
  | _, Some allowlist =>
      let '(m, minted) := issue_listed (tokens_of s) allowlist (McpServer.clock r.(base)) ids 0 capabilities in
      let s := with_tokens_of s m in
      (s, let? tokens := minted in
          let? _ := check_tokens_against_active_profile s.(core).(gate) (tokens_of s) (McpServer.clock r.(base)) tokens in
          Ok tokens)
  end.

Definition parse_iq_capability (spec : string) : result Capability AnyError :=
  match spec_from_str spec with
  | Some value => parse_capability value
  | None =>
      if String.eqb spec "memory_preview" || String.eqb spec NEXUS_MEMORY_PREVIEW_CAPABILITY then Ok MemoryPreview
      else
        match split_once ":"%char spec with
        | None => Err (Anyhow (Fmt "invalid capability '{spec}'; expected kind:value" [AStr spec]))
        | Some (kind, value) =>
            let among := existsb (String.eqb kind) in
            let unknown := Anyhow (Fmt "unknown capability type: {kind}" [AStr kind]) in
            let http (c : string → Capability) :=
              let? _ := result_map_err (λ _, Anyhow (Fmt "{}" [AOpaque])) (validate_http_capability_pattern value) in Ok (c value) in
            let named (name : string) (v : option string) := ok_or (parse_capability_from_str name v) unknown in
            if among ["read"; "read_file"] then named "read_file" (Some value)
            else if among ["write"; "write_file"] then named "write_file" (Some value)
            else if among ["list"; "list_dir"] then named "list_dir" (Some value)
            else if among ["http_get"] then http HttpGet
            else if among ["http_post"] then http HttpPost
            else if among ["read_memory"] then named "read_memory" (Some value)
            else if among ["write_memory"] then named "write_memory" (Some value)
            else if among ["exec"; "execute"] then named "execute" (Some value)
            else if among ["tmpfs"; "mount_tmpfs"] then named "mount_tmpfs" (Some value)
            else if among ["nexus"] then
              if String.eqb value "memory_recall" then Ok MemoryRecall
              else match strip_prefix "read_memory:" value, strip_prefix "write_memory:" value with
                   | Some rest, _ => named "read_memory" (Some rest)
                   | None, Some rest => named "write_memory" (Some rest)
                   | None, None => Err unknown
                   end
            else Err unknown
        end
  end.

(** The status of a delivery, and the delivery that was begun. *)
Definition deliver_nexus_iq_timeline (s : FullServer) (r : AnyReads) (config : option AeonConfig) (agent : string) (session : option string)
    (mode : TimelineDeliveryMode) (events : list NexusExecutionEvent) : FullServer * TimelineDeliveryStatus :=
  match (config ≫= λ config, match sink_from_enabled_config r.(host) config with
                             | Ok sink => (λ s, with_mode s mode) <$> sink
                             | Err _ => None
                             end) with
  | None => (s, match mode with Attested => RequiredButFailed | Advisory | Offline => FailedOpen end)
  | Some sink =>
      let s := with_delivery s {| to_agent := agent; to_session := session; with_mode_of := mode; of_events := events |} in
      match mode with
      | Attested =>
          let '(_, _, _, _, status) := deliver resolve r.(spool_io) sink r.(timeline_net) r.(spool) agent session events in (s, status)
      | Advisory | Offline => (s, FireAndForget)
      end
  end.

Definition nexus_iq_denial_response (s : FullServer) (r : AnyReads) (p : NexusIqExecuteParams) (mode : TimelineDeliveryMode)
    (evidence : MemoryEvidenceV1) (hits : nat) (reason : string) : AnyAnswer :=
  let config := match AeonConfig.from_env r.(host).(AeonMemory.env) with Ok c => Some c | Err _ => None end in
  let events := [AeonTimeline.CapabilityDenied "capability_denied"] in
  let '(s, status) := deliver_nexus_iq_timeline s r config p.(iq_agent_id) p.(iq_session_id) mode events in
  Some (s, Ok (AIq {| iq_output := None; proof_capsule_ref := None; memory_evidence_ref := evidence_for_mcp evidence;
                      memory_hits_count := hits; timeline_status := status;
                      denial_negotiation := Some {| dn_denied := true; dn_negotiated := false; dn_rounds := None; dn_reason := Some reason |};
                      attestation_mode := timeline_mode_label mode; denied := true; iq_events := events |})).

(** The limit on recalls per agent; the limiter is shared by the whole process. *)
Definition recall_allowed (s : FullServer) (agent : string) (now : Z) : FullServer * result () AnyError :=
  let bucket := List.filter (λ t, now - t <? RECALL_RATE_WINDOW) (default [] (s.(recall_rate) !! agent)) in
  if (RECALL_RATE_MAX <=? length bucket)%nat
  then (with_rate s (<[agent := bucket]> s.(recall_rate)),
        Err (Anyhow (Fmt "memory recall rate limit exceeded: max {RECALL_RATE_MAX} calls per {}s per agent" [ANum 10; ANum 60])))
  else (with_rate s (<[agent := bucket ++ [now]]> s.(recall_rate)), Ok ()).

(** The digest of attested evidence.  Without a key there is no client and nothing is attested. *)
Definition memory_digest_of (config : option AeonConfig) (e : MemoryEvidenceV1) : option string :=
  match e.(ev_attestation) with
  | MemAttested | AttestedNoHit | AttestedWithRecall =>
      config ← config; key ← config.(AeonConfig.hmac_key); Some (evidence_hmac_digest e key)
  | _ => None
  end.

Definition no_recall : MemoryRecallEvidence := {| recall_hits := []; recall_evidence := evidence_v1_new "" [] Absent |}.

(** The recall of a request: the gate, the limit, the search. *)
Definition recall_for (s : FullServer) (r : AnyReads) (p : NexusIqExecuteParams) (config : option AeonConfig)
  : FullServer * result MemoryRecallEvidence AnyError :=
  match p.(iq_memory_query) with
  | None => (s, Ok no_recall)
  | Some query =>
      match (match config ≫= λ c, (λ _, c) <$> c.(AeonConfig.hmac_key) with
             | Some config => result_map_err Nexus (init_aeon_memory_client r.(host) config)
             | None => Ok None
             end) with
      | Err e => (s, Err e)
      | Ok client =>
          match iq_caller_tokens_for_required s r r.(base).(ids) [required_read_memory_scope p.(iq_agent_id) p.(iq_session_id)] with
          | (s, Err e) => (s, Err (Anyhow (Fmt "memory recall requires matching read_memory capability for scope: {e}" [AOpaque])))
          | (s, Ok _) =>
              match recall_allowed s p.(iq_agent_id) r.(instant_now) with
              | (s, Err e) => (s, Err e)
              | (s, Ok _) =>
                  (s, Ok (recall_memory_evidence_v1 resolve client r.(recall_wire) query (default 5 p.(iq_memory_limit))).2)
              end
          end
      end
  end.

(** The answer to a run that was carried out. *)
Definition iq_ran (s : FullServer) (r : AnyReads) (p : NexusIqExecuteParams) (config : option AeonConfig) (mode : TimelineDeliveryMode)
    (recall : MemoryRecallEvidence) (memory_digest : option string) (output : ToolOutput) (c : AeonCapsule) : AnyAnswer :=
  let id := c.(capsule).(capsule_id) in
  attempt s (match memory_digest with Some expected => verify_proof_capsule_memory_digest c expected | None => Ok () end) (λ _,
  let events := proof_events output id c.(negotiation_rounds) in
  let '(s, status) := deliver_nexus_iq_timeline s r config p.(iq_agent_id) p.(iq_session_id) mode events in
  let reference := Some (AeonTimeline.uuid_text id) in
  Some (s, Ok (AIq {| iq_output := Some output; proof_capsule_ref := reference;
                      memory_evidence_ref := evidence_for_mcp (with_capsule_digest recall.(recall_evidence) reference);
                      memory_hits_count := length recall.(recall_hits); timeline_status := status;
                      denial_negotiation := (λ n, {| dn_denied := false; dn_negotiated := true; dn_rounds := Some n; dn_reason := None |})
                                            <$> c.(negotiation_rounds);
                      attestation_mode := timeline_mode_label mode; denied := false; iq_events := events |}))).

Definition do_nexus_iq_execute (s : FullServer) (r : AnyReads) (p : NexusIqExecuteParams) : AnyAnswer :=
  attempt s (ensure_tool_allowed s.(core).(gate) "nexus_iq_execute") (λ _,
  attempt s (ensure_proof_enabled s.(core).(gate)) (λ _,
  let mode := parse_mode p.(iq_attestation_mode) in
  if match s.(nexus_iq_allowlist) with Some tools => negb (existsb (String.eqb p.(iq_tool_name)) tools) | None => false end
  then nexus_iq_denial_response s r p mode (evidence_v1_new "" [] Absent) 0 (safe_message ToolNotAllowed)
  else
    let config := match AeonConfig.from_env r.(host).(AeonMemory.env) with Ok c => Some c | Err _ => None end in
    let '(s, recalled) := recall_for s r p config in
    attempt s recalled (λ recall,
    let memory_digest := memory_digest_of config recall.(recall_evidence) in
    attempt s (ok_or (base64_decode_text (trim p.(iq_tool_wasm))) (Anyhow (Fmt "tool_wasm is not valid base64: {e}" [AOpaque]))) (λ bytes,
    attempt s (if is_json p.(iq_input) then Ok () else Err (Anyhow (Fmt "input is not valid JSON: {e}" [AOpaque]))) (λ _,
    attempt s (result_mapM parse_iq_capability (default [] p.(iq_required_capabilities))) (λ required,
    let verified := match memory_digest with Some _ => verification_required config | None => false end in
    let tool := with_memory_evidence
      (with_aeon_context (plain_tool (with_capabilities (ToolDefinition_new p.(iq_tool_name) bytes) required))
         (Some p.(iq_agent_id)) p.(iq_session_id)) memory_digest verified in
    let refuse s := nexus_iq_denial_response s r p mode recall.(recall_evidence) (length recall.(recall_hits))
                      (safe_message CapabilityNotPermitted) in
    let answer s (run : option (NexusHypervisor * result (ToolOutput * AeonCapsule) NexusError)) :=
      match run with
      | None => None
      | Some (h, Ok (output, c)) => iq_ran (with_hypervisor s h) r p config mode recall memory_digest output c
      | Some (h, Err e) =>
          if is_capability_denial e then refuse (with_hypervisor s h) else Some (with_hypervisor s h, Err (Nexus e))
      end in
    match required with
    | [] =>
        answer s (aeon_execute_tool_proof dbg s.(core).(hypervisor) (r.(base).(calls) O) s.(aeon_config) s.(keys) r.(proof_reads) tool)
    | _ =>
        match iq_caller_tokens_for_required s r (λ k, r.(base).(ids) (S k)) required with
        | (s, Err _) => refuse s
        | (s, Ok tokens) =>
            attempt s (check_tokens_against_active_profile s.(core).(gate) (tokens_of s) (McpServer.clock r.(base)) tokens) (λ _,
            answer s (execute_tool_proof_with_tokens dbg resolve s.(core).(hypervisor) (r.(base).(calls) O) s.(aeon_config)
                        s.(aeon_memory) r.(round_wires) s.(keys) r.(proof_reads) tool tokens))
        end
    end)))))).

(** *** Readers *)

Definition instinct_store_of (s : FullServer) : result InstinctStore AnyError :=
  ok_or s.(core).(hypervisor).(instinct_store) (Anyhow (Lit "instinct store not initialised")).
Definition do_instinct_stats (s : FullServer) : AnyAnswer :=
  attempt s (ensure_tool_allowed s.(core).(gate) "nexus_instinct_stats") (λ _,
  attempt s (ensure_instinct_enabled s.(core).(gate)) (λ _,
  attempt s (instinct_store_of s) (λ store, Some (s, Ok (AInstinctStats (instinct_stats store)))))).
(** The text that was just written is read back to count its entries. *)
Definition do_instinct_export (s : FullServer) : AnyAnswer :=
  attempt s (ensure_tool_allowed s.(core).(gate) "nexus_instinct_export") (λ _,
  attempt s (ensure_instinct_enabled s.(core).(gate)) (λ _,
  attempt s (instinct_store_of s) (λ store,
  attempt s (result_map_err Nexus (export_all store)) (λ json, Some (s, Ok (AExport json (length (all_instincts store)))))))).
Definition do_get_history (s : FullServer) (limit : option Z) : AnyAnswer :=
  attempt s (ensure_tool_allowed s.(core).(gate) "nexus_get_history") (λ _,
  let records := summary_of <$> get_history s.(core).(hypervisor).(telemetry) (Some (Z.to_nat (default 50 limit))) in
  Some (s, Ok (AHistory records (length records)))).
Definition do_get_stats (s : FullServer) : AnyAnswer :=
  attempt s (ensure_tool_allowed s.(core).(gate) "nexus_get_stats") (λ _,
  Some (s, Ok (AStats s.(core).(hypervisor).(telemetry).(tele_stats) s.(core).(hypervisor).(snapshots).(SnapshotManager.stats)))).

(** *** All requests *)

Definition core_answer (s : FullServer) (a : Answer) : AnyAnswer :=
  match a with
  | None => None
  | Some (c, res) => Some (with_core s c, let? x := res in Ok (ACore x))
  end.
Definition handle_request (s : FullServer) (r : AnyReads) (rq : AnyRequest) : AnyAnswer :=
  match rq with
  | RqCore rq => core_answer s (handle dbg s.(core) r.(base) rq)
  | RqExecuteProof p => do_execute_proof_aeon s r p
  | RqAeonExecuteTimeline p => do_aeon_execute_timeline s r p
  | RqNexusIqExecute p => do_nexus_iq_execute s r p
  | RqGetHistory limit => do_get_history s limit
  | RqGetStats => do_get_stats s
  | RqInstinctStats => do_instinct_stats s
  | RqInstinctExport => do_instinct_export s
  end.
End Handlers.

(** ** What the handlers grant *)

Section Confinement.
Context `{U : UrlLib} `{C : CryptoLib} `{CL : !CryptoLaws C} `{Zs : ZstdLib} `{Hi : HashIter} `{E : SnapEnv} `{Io : InstinctIo} `{G : Guest}
  `{WG : WasiGuest} `{Sch : Scheduler} `{M : McpLib} `{D : DigestLib} `{P : !ProofLib} `{T : !TimelineLib} `{W : AeonWire}
  `{J : JsonLib} `{Sh : Sha256Lib} `{Hm : HmacLib} `{Iq : IqLib}.
Variable dbg : Capability → string.
Variable resolve : string → Z → option (list IpAddr).
Variable debug_assertions : bool.

Lemma aeon_execute_tool_proof_keeps h c config ks p tool h' res :
  aeon_execute_tool_proof dbg h c config ks p tool = Some (h', res) → keeps h h'.
Proof using Type.
  unfold aeon_execute_tool_proof. destruct (Execution.input_bytes c); [|by intros [= <- _]].
  destruct (execute_tool dbg h c tool.(the_tool)) as [[h1 [o|e]]|] eqn:Hx; [| |done]; apply execute_tool_inner_keeps in Hx;
    by intros [= <- _].
Qed.
Lemma execute_tool_proof_with_tokens_keeps h c config memory wires ks p tool tokens h' res :
  execute_tool_proof_with_tokens dbg resolve h c config memory wires ks p tool tokens = Some (h', res) → keeps h h'.
Proof using Type.
  unfold execute_tool_proof_with_tokens. destruct (Execution.input_bytes c); [|by intros [= <- _]].
  destruct (negotiate_request _ _ _ _ _ _ _ _) as [[[tool' outcome]|e]|]; [|by intros [= <- _]|done].
  destruct (execute_tool_with_tokens dbg h c tool'.(the_tool) tokens) as [[h1 [o|e]]|] eqn:Hx; [| |done];
    apply execute_tool_inner_keeps in Hx; by intros [= <- _].
Qed.

Lemma fresh_from_later m ids j k : (j ≤ k)%nat → fresh_from m ids j → fresh_from m ids k.
Proof using Type. intros Hjk [Hf Hinj]. split; [|done]. intros i Hi'. apply Hf. lia. Qed.
Lemma fresh_from_shift m ids : fresh_from m ids 1 → fresh_from m (λ k, ids (S k)) 0.
Proof using Type.
  intros [Hf Hinj]. split; [intros j _; apply Hf; lia|]. intros i j Hij%Hinj. lia.
Qed.

Lemma issue_listed_safe al l now ids capabilities : ∀ m k,
  al = Some l → safe al m → fresh_from m ids k →
  safe al (issue_listed m l now ids k capabilities).1
  ∧ fresh_from (issue_listed m l now ids k capabilities).1 ids (k + length capabilities).
Proof.
  induction capabilities as [|c capabilities IH]; intros m k Hal Hs Hf; cbn [issue_listed length]; [by rewrite Nat.add_0_r|].
  destruct (sanitize_token_request c None) as [[c' secs]|e] eqn:Hq; [|split; [done|eapply fresh_from_later, Hf; lia]].
  apply sanitize_Ok in Hq as (_ & Hc & Hsecs). cbn in Hc, Hsecs.
  destruct (capability_allowed_by l c') eqn:Hl.
  2:{ destruct (IH m k Hal Hs Hf) as [H1 H2]. split; [done|]. eapply fresh_from_later, H2. lia. }
  destruct (issue m c' "mcp_nexus_iq_allowlist" (from_secs secs) now (ids k)) as [[t m1]|e] eqn:Ha;
    [|split; [done|eapply fresh_from_later, Hf; lia]].
  assert (safe al m1) as Hs1 by (eapply (issue_safe al m); [exact Hs|apply (proj1 Hf k); lia|exact Ha|done|done|by exists l]).
  apply issue_Ok in Ha as (-> & _ & Hid & _).
  destruct (IH (Tokens.register m t) (S k) Hal Hs1 (fresh_from_register _ _ _ _ Hf Hid)) as [H1 H2].
  rewrite Nat.add_succ_l in H2. rewrite Nat.add_succ_r.
  by destruct (issue_listed (Tokens.register m t) l now ids (S k) capabilities).
Qed.

Definition full_ok (s : FullServer) : Prop := server_ok s.(core).
Definition any_confined (g : GateConfig) (a : AnyAnswer) : Prop :=
  ∀ s' res, a = Some (s', res) → s'.(core).(gate) = g ∧ full_ok s'.

Lemma any_stop s res : full_ok s → any_confined s.(core).(gate) (Some (s, res)).
Proof using Type. by intros Hs s' res' [= <- <-]. Qed.
Lemma any_attempt {A} s (r : result A AnyError) k :
  full_ok s → (∀ a, r = Ok a → any_confined s.(core).(gate) (k a)) → any_confined s.(core).(gate) (attempt s r k).
Proof using Type. intros Hs Hk. destruct r; [by apply Hk|by apply any_stop]. Qed.
Lemma full_ok_hypervisor s h : full_ok s → keeps s.(core).(hypervisor) h → full_ok (with_hypervisor s h).
Proof using Type. intros Hs Hk. unfold full_ok, server_ok, manager, with_hypervisor. cbn. by rewrite Hk. Qed.

Lemma iq_tokens_keep s r ids capabilities :
  full_ok s → fresh_from (tokens_of s) ids 0 →
  let s' := (iq_caller_tokens_for_required s r ids capabilities).1 in
  full_ok s' ∧ s'.(core).(gate) = s.(core).(gate) ∧ fresh_from (tokens_of s') ids (length capabilities).
Proof.
  intros Hs Hf. unfold iq_caller_tokens_for_required. destruct capabilities as [|c capabilities]; [done|].
  destruct (capability_allowlist _) as [l|] eqn:Hl; [|split_and!; [done|done|eapply fresh_from_later, Hf; lia]].
  destruct (issue_listed_safe s.(core).(gate).(capability_allowlist) l (McpServer.clock r.(base)) ids (c :: capabilities) (tokens_of s) 0 Hl Hs Hf)
    as [H1 H2].
  destruct (issue_listed _ _ _ _ _ _) as [m minted]. cbn in *. by split_and!.
Qed.

Lemma delivered_same s r config agent session mode events :
  (deliver_nexus_iq_timeline resolve s r config agent session mode events).1.(core) = s.(core).
Proof using Type. unfold deliver_nexus_iq_timeline. repeat case_match; done. Qed.
Lemma any_denial s r p mode evidence hits reason :
  full_ok s → any_confined s.(core).(gate) (nexus_iq_denial_response resolve s r p mode evidence hits reason).
Proof using Type.
  intros Hs. unfold nexus_iq_denial_response.
  match goal with |- context [deliver_nexus_iq_timeline ?re ?s ?r ?c ?a ?se ?m ?ev] => pose proof (delivered_same s r c a se m ev) as H end.
  destruct (deliver_nexus_iq_timeline _ _ _ _ _ _ _ _) as [s1 status]. cbn in H. intros s' res [= <- _].
  unfold full_ok. rewrite H. done.
Qed.
Lemma any_ran s r p config mode recall digest output c :
  full_ok s → any_confined s.(core).(gate) (iq_ran resolve s r p config mode recall digest output c).
Proof using Type.
  intros Hs. unfold iq_ran. apply any_attempt; [done|]. intros _ _.
  match goal with |- context [deliver_nexus_iq_timeline ?re ?s ?r ?c ?a ?se ?m ?ev] => pose proof (delivered_same s r c a se m ev) as H end.
  destruct (deliver_nexus_iq_timeline _ _ _ _ _ _ _ _) as [s1 status]. cbn in H. intros s' res [= <- _].
  unfold full_ok. rewrite H. done.
Qed.
Lemma recall_keeps s r p config :
  full_ok s → fresh_from (tokens_of s) r.(base).(ids) 0 →
  let s' := (recall_for resolve s r p config).1 in
  full_ok s' ∧ s'.(core).(gate) = s.(core).(gate) ∧ fresh_from (tokens_of s') r.(base).(ids) 1.
Proof.
  intros Hs Hf. assert (fresh_from (tokens_of s) r.(base).(ids) 1) as Hf1 by (eapply fresh_from_later, Hf; lia).
  unfold recall_for. destruct (iq_memory_query p) as [query|]; [|done].
  destruct (match _ with Some config => _ | None => _ end) as [client|e]; [|done].
  destruct (iq_tokens_keep s r r.(base).(ids) [required_read_memory_scope p.(iq_agent_id) p.(iq_session_id)] Hs Hf) as (H1 & H2 & H3).
  destruct (iq_caller_tokens_for_required _ _ _ _) as [s1 [ts|e]]; [|done]. cbn in H1, H2, H3.
  unfold recall_allowed. by destruct (_ <=? _)%nat.
Qed.

(** The gate of a recall refuses only what the operator listed: a scope that is not listed is
    passed over without a token, and the recall goes ahead. *)
Lemma unlisted_recall_goes_ahead s r ids agent session :
  (∀ l, s.(core).(gate).(capability_allowlist) = Some l → capability_allowed_by l (required_read_memory_scope agent session) = false) →
  (iq_caller_tokens_for_required s r ids [required_read_memory_scope agent session]).2 = Ok [].
Proof using Type.
  intros Hl. unfold iq_caller_tokens_for_required. destruct (capability_allowlist _) as [l|] eqn:Hal; [|done].
  specialize (Hl l eq_refl). cbn [issue_listed].
  assert (∃ secs, sanitize_token_request (required_read_memory_scope agent session) None
    = Ok (required_read_memory_scope agent session, secs)) as [secs ->] by (destruct session; by eexists).
  rewrite Hl. cbn. unfold check_tokens_against_active_profile. cbn. by destruct (capability_profile _).
Qed.

(** Only a client with a key attests a recall, so evidence is never digested without one. *)
Lemma attested_recall_has_key s r p config s' recall :
  recall_for resolve s r p config = (s', Ok recall) →
  match recall.(recall_evidence).(ev_attestation) with
  | MemAttested | AttestedNoHit | AttestedWithRecall => ∃ c key, config = Some c ∧ c.(AeonConfig.hmac_key) = Some key
  | _ => True
  end.
Proof using Type.
  unfold recall_for. destruct (iq_memory_query p) as [query|]; [|by intros [= _ <-]].
  destruct config as [c|]; cbn [mbind option_bind]; [destruct (AeonConfig.hmac_key c) as [key|] eqn:Hk; cbn [fmap option_fmap option_map]|].
  { intros _. destruct (ev_attestation _); eauto. }
  all: destruct (iq_caller_tokens_for_required _ _ _ _) as [s1 [ts|e]]; [|done];
    unfold recall_allowed; destruct (_ <=? _)%nat; [done|]; by intros [= _ <-].
Qed.

Lemma any_execute_proof s r p : full_ok s → any_confined s.(core).(gate) (do_execute_proof_aeon dbg debug_assertions s r p).
Proof using Type.
  intros Hs. unfold do_execute_proof_aeon. repeat (apply any_attempt; [done|intros ? ?]).
  destruct (aeon_execute_tool_proof _ _ _ _ _ _ _) as [[h [[o c]|e]]|] eqn:Hx; [| |done]; apply aeon_execute_tool_proof_keeps in Hx;
    intros s' res [= <- _]; (split; [done|by apply full_ok_hypervisor]).
Qed.

Lemma any_timeline s r p :
  full_ok s → fresh_from (tokens_of s) r.(base).(ids) 0 → any_confined s.(core).(gate) (do_aeon_execute_timeline dbg resolve s r p).
Proof.
  intros Hs Hf. unfold do_aeon_execute_timeline. do 5 (apply any_attempt; [done|intros ? ?]).
  destruct (execute_wasi_tokens_minted s.(core).(gate) (tokens_of s) (McpServer.clock r.(base)) r.(base).(ids) a3
    p.(tl_parent_token_id) Hs Hf) as [Hsafe _].
  destruct (execute_wasi_tokens _ _ _ _ _ _) as [m minted]. cbn [fst] in Hsafe.
  change s.(core).(gate) with (with_tokens_of s m).(core).(gate).
  assert (full_ok (with_tokens_of s m)) as Hs1 by exact Hsafe. do 3 (apply any_attempt; [done|intros ? ?]).
  destruct (execute_tool_proof_with_tokens _ _ _ _ _ _ _ _ _ _ _) as [[h [[o c]|e]]|] eqn:Hx; [| |done];
    apply execute_tool_proof_with_tokens_keeps in Hx.
  - destruct (tl_agent_id p); [destruct (match from_env _ with Ok _ => _ | Err _ => _ end)|]; intros s' res [= <- _];
      (split; [done|]); by apply (full_ok_hypervisor (with_tokens_of s m) h).
  - intros s' res [= <- _]. split; [done|]. by apply (full_ok_hypervisor (with_tokens_of s m) h).
Qed.

Lemma any_iq s r p :
  full_ok s → fresh_from (tokens_of s) r.(base).(ids) 0 → any_confined s.(core).(gate) (do_nexus_iq_execute dbg resolve s r p).
Proof.
  intros Hs Hf. unfold do_nexus_iq_execute. do 2 (apply any_attempt; [done|intros ? ?]).
  destruct (match nexus_iq_allowlist s with Some _ => _ | None => _ end); [by apply any_denial|].
  set (config := match from_env _ with Ok c => Some c | Err _ => None end). clearbody config.
  destruct (recall_keeps s r p config Hs Hf) as (Hs1 & Hg & Hf1). destruct (recall_for _ _ _ _ _) as [s1 recalled]. cbn [fst] in *.
  rewrite <- Hg. do 4 (apply any_attempt; [done|intros ? ?]).
  assert (∀ s2 run recall digest, full_ok s2 → s2.(core).(gate) = s1.(core).(gate) →
    (∀ h res, run = Some (h, res) → keeps s2.(core).(hypervisor) h) →
    any_confined s1.(core).(gate)
      match run with
      | None => None
      | Some (h, Ok (output, c)) =>
          iq_ran resolve (with_hypervisor s2 h) r p config (parse_mode (iq_attestation_mode p)) recall digest output c
      | Some (h, Err e) =>
          if is_capability_denial e
          then nexus_iq_denial_response resolve (with_hypervisor s2 h) r p (parse_mode (iq_attestation_mode p))
                 recall.(recall_evidence) (length recall.(recall_hits)) (safe_message CapabilityNotPermitted)
          else Some (with_hypervisor s2 h, Err (Nexus e))
      end) as Hanswer.
  { intros s2 run recall digest Hok2 <- Hrun. destruct run as [[h res]|]; [|done]. specialize (Hrun h res eq_refl).
    assert (full_ok (with_hypervisor s2 h)) as Hok3 by by apply full_ok_hypervisor.
    change s2.(core).(gate) with (with_hypervisor s2 h).(core).(gate).
    destruct res as [[o c]|e]; [by apply any_ran|]. destruct (is_capability_denial e); [by apply any_denial|by apply any_stop]. }
  match goal with |- context [match ?required with [] => _ | _ :: _ => _ end] => destruct required as [|c0 caps] eqn:Hreq end.
  { apply Hanswer; [done|done|]. intros h res. apply aeon_execute_tool_proof_keeps. }
  destruct (iq_tokens_keep s1 r (λ k, r.(base).(ids) (S k)) (c0 :: caps) Hs1 (fresh_from_shift _ _ Hf1)) as (Hs2 & Hg2 & _).
  destruct (iq_caller_tokens_for_required _ _ _ _) as [s2 [tokens|e]]; cbn [fst] in *.
  - rewrite <- Hg2. apply any_attempt; [done|]. intros _ _. rewrite Hg2. apply Hanswer; [done|done|].
    intros h res. apply execute_tool_proof_with_tokens_keeps.
  - rewrite <- Hg2. by apply any_denial.
Qed.

Lemma any_reader s (x : AnyAnswer) : full_ok s → (∃ res, x = Some (s, res)) → any_confined s.(core).(gate) x.
Proof using Type. intros Hs [res ->]. by apply any_stop. Qed.
Lemma stats_read s : ∃ res, do_instinct_stats s = Some (s, res).
Proof using Type. unfold do_instinct_stats, attempt. repeat case_match; eauto. Qed.
Lemma export_reads s : ∃ res, do_instinct_export s = Some (s, res).
Proof using Type. unfold do_instinct_export, attempt. repeat case_match; eauto. Qed.
Lemma history_reads s limit : ∃ res, do_get_history s limit = Some (s, res).
Proof using Type. unfold do_get_history, attempt. repeat case_match; eauto. Qed.
Lemma telemetry_reads s : ∃ res, do_get_stats s = Some (s, res).
Proof using Type. unfold do_get_stats, attempt. repeat case_match; eauto. Qed.

Lemma handle_request_confined s r rq :
  full_ok s → fresh_from (tokens_of s) r.(base).(ids) 0 →
  any_confined s.(core).(gate) (handle_request dbg resolve debug_assertions s r rq).
Proof.
  intros Hs Hf. destruct rq as [rq|p|p|p|limit| | |]; cbn [handle_request].
  - unfold core_answer. destruct (handle dbg s.(core) r.(base) rq) as [[c res]|] eqn:Hh; [|done].
    intros s' res' [= <- _]. exact (handle_confined dbg s.(core) r.(base) rq Hs Hf c res Hh).
  - by apply any_execute_proof.
  - by apply any_timeline.
  - by apply any_iq.
  - apply any_reader, history_reads. done.
  - apply any_reader, telemetry_reads. done.
  - apply any_reader, stats_read. done.
  - apply any_reader, export_reads. done.
Qed.

(** A server as it starts, and after any requests, each with fresh identifiers. *)
Inductive reached_by_requests : FullServer → Prop :=
| fresh_server s key : tokens_of s = manager_new key → reached_by_requests s
| after_request s r rq s' res :
    reached_by_requests s → fresh_from (tokens_of s) r.(base).(ids) 0 →
    handle_request dbg resolve debug_assertions s r rq = Some (s', res) → reached_by_requests s'.

Lemma reached_ok s : reached_by_requests s → full_ok s.
Proof.
  induction 1 as [s key Hk|s r rq s' res Hs IH Hf Hh].
  - unfold full_ok, server_ok. unfold tokens_of in Hk. split; rewrite Hk; [apply manager_ok_new|].
    intros id t Ht. cbn in Ht. by rewrite lookup_empty in Ht.
  - by destruct (handle_request_confined s r rq IH Hf s' res Hh).
Qed.
End Confinement.

(** ** What a closed gate stops *)

(** The tool and the switch of each request. *)
Definition tool_of_any (rq : AnyRequest) : string :=
  match rq with
  | RqCore rq => tool_of rq
  | RqExecuteProof _ => "nexus_execute_proof"
  | RqAeonExecuteTimeline _ => "nexus_aeon_execute_timeline"
  | RqNexusIqExecute _ => "nexus_iq_execute"
  | RqGetHistory _ => "nexus_get_history"
  | RqGetStats => "nexus_get_stats"
  | RqInstinctStats => "nexus_instinct_stats"
  | RqInstinctExport => "nexus_instinct_export"
  end.
Definition switch_of_any (rq : AnyRequest) (g : GateConfig) : result () AnyError :=
  match rq with
  | RqCore rq => switch_of rq g
  | RqExecuteProof _ | RqAeonExecuteTimeline _ | RqNexusIqExecute _ => ensure_proof_enabled g
  | RqInstinctStats | RqInstinctExport => ensure_instinct_enabled g
  | RqGetHistory _ | RqGetStats => Ok ()
  end.
Definition may_execute_timeline (rq : AnyRequest) : bool := match rq with RqAeonExecuteTimeline _ => true | _ => false end.

Section Theorems.
Context `{U : UrlLib} `{C : CryptoLib} `{CL : !CryptoLaws C} `{Zs : ZstdLib} `{Hi : HashIter} `{E : SnapEnv} `{Io : InstinctIo} `{G : Guest}
  `{WG : WasiGuest} `{Sch : Scheduler} `{M : McpLib} `{D : DigestLib} `{P : !ProofLib} `{T : !TimelineLib} `{W : AeonWire}
  `{J : JsonLib} `{Sh : Sha256Lib} `{Hm : HmacLib} `{Iq : IqLib}.
Variable dbg : Capability → string.
Variable resolve : string → Z → option (list IpAddr).
Variable debug_assertions : bool.

(** C5: an MCP server grants nothing the operator did not list.  Whatever requests of its
    nineteen tools a server has answered, no token it holds is for everything, none lives
    longer than an hour, and whatever one of its tokens can authorise is covered by an entry
    of the operator's allowlist, exactly as listed, or, where the token is for memory, with
    the entry's scope widened to all memory of its agent, which is as far as attenuation can
    widen one; without an allowlist, nothing is. *)
Theorem all_grants_are_listed (s : FullServer) (id : Uuid) (t : CapabilityToken) :
  reached_by_requests dbg resolve debug_assertions s → (tokens_of s).(active_tokens) !! id = Some t →
  t.(tok_capability) ≠ AllCaps
  ∧ t.(tok_expires_at) ≤ t.(tok_issued_at) + from_secs MAX_TOKEN_VALIDITY_SECS
  ∧ ∀ now c, valid_for (tokens_of s) now t c →
      reached s.(core).(gate).(capability_allowlist) c
      ∧ (plain t.(tok_capability) → listed s.(core).(gate).(capability_allowlist) c).
Proof using CL.
  intros Hs Ht. destruct (proj2 (reached_ok _ _ _ s Hs) id t Ht) as [Hall Hlife Hlist Hreach]. split_and!; [done|done|].
  intros now c (_ & _ & _ & _ & _ & Ha). split.
  - eapply reached_trans; [apply Hreach|exact Hall|exact Ha]. intros He. by rewrite He in Ha.
  - intros Hp. destruct (Hlist Hp) as (l & a & -> & Hin & Hat). exists l, a.
    split_and!; [done|done|]. apply (allows_trans a t.(tok_capability) c); [done| |done|done]. by destruct a, (tok_capability t).
Qed.

Lemma any_gate_refuses s r rq e :
  (let? _ := ensure_tool_allowed s.(core).(gate) (tool_of_any rq) in switch_of_any rq s.(core).(gate)) = Err e →
  handle_request dbg resolve debug_assertions s r rq = Some (s, Err e).
Proof using Type.
  intros H. destruct rq as [rq|p|p|p|limit| | |]; cbn [handle_request tool_of_any switch_of_any] in *.
  1:{ by rewrite (gate_refuses dbg s.(core) r.(base) rq e H); destruct s as [[]]. }
  all: unfold do_execute_proof_aeon, do_aeon_execute_timeline, do_nexus_iq_execute, do_get_history, do_get_stats,
    do_instinct_stats, do_instinct_export;
    destruct (ensure_tool_allowed _ _) as [[]|]; cbn [result_bind attempt] in *; simplify_eq; try done; by rewrite H.
Qed.

Lemma timeline_changes_needs s r p s' res :
  do_aeon_execute_timeline dbg resolve s r p = Some (s', res) → s' ≠ s →
  ensure_proof_enabled s.(core).(gate) = Ok () ∧ ∃ bytes, read_module s.(core) r.(base) p.(tl_wasm_path) = Ok bytes.
Proof using Type.
  unfold do_aeon_execute_timeline. destruct (ensure_tool_allowed _ _) as [[]|]; cbn [attempt]; [|by intros [= <- _]].
  destruct (ensure_proof_enabled _) as [[]|]; cbn [attempt]; [|by intros [= <- _]].
  destruct (read_module _ _ _) as [bytes|]; cbn [attempt]; [|by intros [= <- _]]. eauto.
Qed.

End Theorems.

(** ** A concrete server *)

Module ToyHandlers.
#[local] Existing Instances Tokens.Toy.crypto Tokens.Toy.crypto_laws Tokens.Toy.url ToyZstd.zstd ToyZstd.zstd_laws
  ToySnap.env ToyInstinct.io ToyExec.guest ToyWasi.guest ToyRace.schedule ToyServer.mcp_lib ToyDigest.lib ToyProof.lib ToyTimeline.json.
#[export] Instance timeline_lib : TimelineLib :=
  {| AeonTimeline.uuid_text _ := "id"; record_line _ := ""; record_of_line _ := None; url_with_segments _ _ := None |}.
#[export] Instance sha : Sha256Lib := {| Digest.sha256 m := m |}.
#[export] Instance hmac : HmacLib := {| hmac_sha256 k m := k ++ m |}.
#[export] Instance iq : IqLib := {| base64_decode_text _ := Some [x00]; spec_from_str _ := None; is_json _ := true |}.
#[local] Existing Instances ToyAeon.wire.

Definition gate (read_only : bool) : GateConfig :=
  {| wasm_module_dirs := ["/data"]; capability_allowlist := Some [ReadFile "/data"];
     capability_profile :=
       Some {| Profile.name := "ops"; capabilities := [ReadFile "/"];
               mcp := {| tool_allowlist := None; snapshot_enabled := false; fork_enabled := false; proof_enabled := true;
                         wasi_enabled := false; instinct_enabled := false; retry_enabled := false |};
               execution := {| module_dirs := ["/data"]; daemon_auth_required := true |} |};
     forced_tool_allowlist := if read_only then Some NEXUS_MCP_HTTP_READ_ONLY_TOOL_ALLOWLIST else None |}.
Definition server (read_only : bool) : FullServer :=
  {| core := {| hypervisor := set_manager (ToyExec.hv 0) (manager_new Tokens.Toy.key); McpServer.gate := gate read_only |};
     nexus_iq_allowlist := None;
     keys := {| ProofExecution.env _ := None; proof_hmac_key := Disabled; proof_signing_key := Tokens.Toy.key |};
     aeon_config := None; aeon_memory := None; recall_rate := ∅; deliveries := [] |}.
Definition reads : AnyReads :=
  {| base := ToyServer.reads 1; host := ToyAeon.host;
     proof_reads := {| fresh_run_id := 1; fresh_capsule_id := 2; clock_started := 3; clock_finished := 4 |};
     recall_wire := ToyAeon.start; round_wires _ := ToyAeon.start;
     spool_io := ToyTimeline.io; timeline_net := []; spool := None; instant_now := 0 |}.
Definition execute : AnyRequest :=
  RqAeonExecuteTimeline
    {| tl_wasm_path := "/data/m.wasm"; tl_entry := None;
       tl_capabilities := Some [{| spec_type := "read_file"; spec_path := Some "/data/in" |}]; tl_caller_capabilities := None;
       tl_parent_token_id := None; tl_agent_id := Some "nexus"; tl_session_id := None |}.
Definition handled (read_only : bool) (rq : AnyRequest) : AnyAnswer :=
  handle_request ToyExec.dbg ToyTimeline.resolve false (server read_only) reads rq.
Definition after (a : AnyAnswer) : FullServer := match a with Some (s, _) => s | None => server false end.

Lemma reached_after :
  reached_by_requests ToyExec.dbg ToyTimeline.resolve false (after (handled false execute)).
Proof.
  assert (reached_by_requests ToyExec.dbg ToyTimeline.resolve false (server false)) as Hs
    by by apply (fresh_server _ _ _ _ Tokens.Toy.key).
  destruct (handled false execute) as [[s res]|] eqn:Hx; [|exact Hs].
  refine (after_request _ _ _ _ reads execute s res Hs _ Hx). by apply (ToyServer.fresh_start (server false).(core) 1).
Qed.
End ToyHandlers.
#[local] Existing Instances Tokens.Toy.crypto Tokens.Toy.crypto_laws Tokens.Toy.url ToyZstd.zstd ToyZstd.zstd_laws
  ToySnap.env ToyInstinct.io ToyExec.guest ToyWasi.guest ToyRace.schedule ToyServer.mcp_lib ToyDigest.lib ToyProof.lib ToyTimeline.json
  ToyHandlers.timeline_lib ToyHandlers.sha ToyHandlers.hmac ToyHandlers.iq ToyAeon.wire.

Lemma all_grants_are_listed_witness :
  ∃ t, (tokens_of (ToyHandlers.after (ToyHandlers.handled false ToyHandlers.execute))).(active_tokens) !! 100%N = Some t
    ∧ t.(tok_capability) = ReadFile "/data/in" ∧ t.(tok_expires_at) ≤ t.(tok_issued_at) + 3600000000000.
Proof.
  assert (match (tokens_of (ToyHandlers.after (ToyHandlers.handled false ToyHandlers.execute))).(active_tokens) !! 100%N with
          | Some t => t.(tok_capability) = ReadFile "/data/in" | None => False end) as Ha by (vm_compute; reflexivity).
  destruct (_ !! 100%N) as [t|] eqn:Ht; [|destruct Ha]. exists t. split; [reflexivity|]. split; [exact Ha|].
  apply (all_grants_are_listed ToyExec.dbg ToyTimeline.resolve false _ 100%N t ToyHandlers.reached_after Ht).
Defined.

