(* ===== verification/Agentd.v ===== *)
(** * The daemon: [src/bin/nexus_agentd.rs] and the messages of [src/daemon/mod.rs]

    Start-up with its authentication gates, the authentication of a request, the module
    paths that a request may name, and the loop of one connection over framed JSON.  The
    hypervisors of the pool and the module cache are the components of their own; who
    gets which instance is [acquired].  Connections share the daemon; a request is served
    as one step of it.  The codec of the frames and the compiler are arguments; the event
    and proof fields of the feature [aeon-memory] are not modelled. *)

From S2P Require Import Prelude Errors Floats UrlGuard LexPath Capability Tokens HostFs Compression Snapshot Differential.
From S2P Require Import SnapshotManager Digest DaemonFraming Egress Fuel ModuleCache Failure Telemetry Instinct Execution Profile McpGate.

Definition UNAUTHORIZED_MESSAGE : string := "Unauthorized: daemon request authentication failed".
Definition WASM_PATH_REJECTED_MESSAGE : string := "wasm_path rejected: configure an allowed module directory".
Definition AuthToken : Type := option string.

(** ** Start-up *)

Inductive StartError :=
| TokenNotUnicode
| ReleaseBuildUnauthenticated
| ReleaseActiveUnauthenticated
| InvalidProfile (errors : list ValidationError)
| ProfileUnauthenticated (profile : string).

Definition configured_auth_token (var : EnvVar) : result AuthToken StartError :=
  match var with
  | Present token => Ok (Some token)
  | NotPresent => Ok None
  | NotUnicode => Err TokenNotUnicode
  end.
Definition is_none (auth_token : AuthToken) : bool := match auth_token with None => true | Some _ => false end.
Definition release_auth_requirement_violated (auth_token : AuthToken) (release_build : bool) : bool :=
  release_build && is_none auth_token.
(** [release_build] is [cfg(not(debug_assertions))]. *)
Definition enforce_release_auth_requirement (auth_token : AuthToken) (release_build : bool) : result () StartError :=
  if release_auth_requirement_violated auth_token release_build then Err ReleaseBuildUnauthenticated else Ok ().
(** The profile is its path and what reading the file gives. *)
Definition enforce_profile_auth_requirement (auth_token : AuthToken) (release_var : option string)
    (profile : option (PathBuf * result string Msg)) : result () StartError :=
  let release_active := match release_var with Some v => negb (String.eqb v "") | None => false end in
  if release_active && is_none auth_token then Err ReleaseActiveUnauthenticated
  else
    match profile with
    | None => Ok ()
    | Some (profile_path, read) =>
        let? manifest := result_map_err InvalidProfile (load_and_validate profile_path read) in
        if manifest.(execution).(daemon_auth_required) && is_none auth_token
        then Err (ProfileUnauthenticated manifest.(Profile.name)) else Ok ()
    end.
(** The gates of [main], in order. *)
Definition start (token_var : EnvVar) (release_build : bool) (release_var : option string)
    (profile : option (PathBuf * result string Msg)) : result AuthToken StartError :=
  let? auth_token := configured_auth_token token_var in
  let? _ := enforce_release_auth_requirement auth_token release_build in
  let? _ := enforce_profile_auth_requirement auth_token release_var profile in
  Ok auth_token.
(** On POSIX systems. *)
Definition default_socket_path (fs : Fs) (socket_var runtime_dir_var : EnvVar) : PathBuf :=
  match socket_var with
  | Present p => p
  | _ => push_str (match runtime_dir_var with
                   | Present dir => if is_dir fs dir then dir else "/tmp"
                   | _ => "/tmp"
                   end) "nexus-agentd.sock"
  end.

(** ** Requests *)

(** [input] is the JSON value, as its serialisation. *)
Record ExecuteRequest := {
  rq_name : string;
  rq_wasm_bytes : option (list byte);
  rq_wasm_path : option PathBuf;
  rq_entry : string;
  rq_input : option (list byte);
  rq_auth_token : option string;
}.
Inductive DaemonRequest := Ping | Execute (r : ExecuteRequest) | Shutdown (auth_token : option string).
Inductive DaemonResponse := Pong (version : string) | Executed (output : ToolOutput) | Error (message : AnyError).
Definition CARGO_PKG_VERSION : string := "1.0.0".
Definition error_text (s : string) : DaemonResponse := Error (Anyhow (Lit s)).

Definition constant_time_eq (a b : list byte) : bool :=
  fold_left (λ diff i, Z.lor diff (Z.lxor (Z_of_byte (nth i a x00)) (Z_of_byte (nth i b x00))))
    (seq 0 (Nat.max (length a) (length b))) (Z.lxor (len a) (len b)) =? 0.
Definition unauthorized_response (req : DaemonRequest) (auth_token : AuthToken) : option DaemonResponse :=
  match auth_token, req with
  | None, _ | _, Ping => None
  | Some configured, Execute {| rq_auth_token := supplied |} | Some configured, Shutdown supplied =>
      if match supplied with
         | Some token => constant_time_eq (string_bytes token) (string_bytes configured)
         | None => false
         end
      then None else Some (error_text UNAUTHORIZED_MESSAGE)
  end.

(** ** Module paths *)

(** The disk when a request opens its module; which files may be opened, where an opened
    file is linked when its handle is looked up, and what reading the handle gives. *)
Record Files := {
  files_disk : Fs;
  may_open : list string → bool;
  linked : list string → option (list string);
  contents : list string → option (list byte);
}.
Definition rejected {A} : result A AnyError := Err (Anyhow (Lit WASM_PATH_REJECTED_MESSAGE)).

Definition allowed_dir (fs : Fs) (dir : PathBuf) : result PathBuf AnyError :=
  match canonicalize fs dir with
  | Ok canonical => if is_dir fs canonical then Ok canonical else rejected
  | Err _ => rejected
  end.
Definition allowed_agentd_module_dirs (fs : Fs) (module_dir_var : option string) : result (list PathBuf) AnyError :=
  match module_dir_var with
  | Some value =>
      match split_on ":"%char value with
      | [] => rejected
      | raw_dirs => result_mapM (allowed_dir fs) raw_dirs
      end
  | None => rejected
  end.
(** A handle is the location of the file it was opened at. *)
Definition open_untrusted_agentd_file (f : Files) (wasm_path : PathBuf) : result (list string) AnyError :=
  match resolve f.(files_disk) wasm_path with
  | Ok loc => if f.(may_open) loc then Ok loc else rejected
  | Err _ => rejected
  end.
Definition canonicalize_open_agentd_file (f : Files) (file : list string) : result PathBuf AnyError :=
  match f.(linked) file with Some loc => Ok (loc_path loc) | None => rejected end.
Definition open_agentd_wasm_path_with_dirs (f : Files) (wasm_path : PathBuf) (allowed_dirs : list PathBuf)
  : result (list string * PathBuf) AnyError :=
  let? file := open_untrusted_agentd_file f wasm_path in
  if negb (bool_decide (node_at f.(files_disk) file = Some NFile)) then rejected
  else
    let? canonical := canonicalize_open_agentd_file f file in
    if existsb (λ dir, comps_prefix (components dir) (components canonical)) allowed_dirs
    then Ok (file, canonical) else rejected.
Definition open_agentd_wasm_path (f : Files) (module_dir_var : option string) (wasm_path : PathBuf)
  : result (list string * PathBuf) AnyError :=
  let? allowed_dirs := allowed_agentd_module_dirs f.(files_disk) module_dir_var in
  open_agentd_wasm_path_with_dirs f wasm_path allowed_dirs.
Definition read_allowlisted_wasm_path (f : Files) (module_dir_var : option string) (wasm_path : PathBuf)
  : result (list byte) AnyError :=
  let? opened := open_agentd_wasm_path f module_dir_var wasm_path in
  match f.(contents) opened.1 with Some bytes => Ok bytes | None => rejected end.

(** ** Serving *)

Definition with_input (c : Call) (input : option (list byte)) : Call :=
  {| now := c.(now); Execution.input_bytes := input; sandbox_rebuilds := c.(sandbox_rebuilds); new_id := c.(new_id);
     create_us := c.(create_us); call_duration_ms := c.(call_duration_ms); host_corruption := c.(host_corruption);
     host_health := c.(host_health); resources := c.(resources); new_log_id := c.(new_log_id) |}.

Section Serve.
Context `{U : UrlLib} `{C : CryptoLib} `{Zs : ZstdLib} `{Hi : HashIter} `{E : SnapEnv} `{Io : InstinctIo} `{G : Guest}
  `{Sh : Sha256Lib}.
Variable capability_debug : Capability → string.
Variable compile : list byte → option Z.

Record Daemon := { instances : list NexusHypervisor; module_cache : CacheInner (Mod := Z); shutdown : bool }.
(** What one request reads from outside; no instance is [acquired] if the semaphore is closed. *)
Record Outside := { acquired : option nat; call : Call; files : Files; module_dir : option string }.

Definition with_cache (d : Daemon) (c : CacheInner) : Daemon :=
  {| instances := d.(instances); module_cache := c; shutdown := d.(shutdown) |}.
Definition with_instance (d : Daemon) (i : nat) (h : NexusHypervisor) : Daemon :=
  {| instances := <[i := h]> d.(instances); module_cache := d.(module_cache); shutdown := d.(shutdown) |}.

Definition execute_tool_precompiled (h : NexusHypervisor) (c : Call) (tool : ToolDefinition) (m : Z) :=
  execute_tool_inner capability_debug h c tool [] (Some m) None.

Definition request_bytes (auth_token : AuthToken) (o : Outside) (r : ExecuteRequest) : result (list byte) AnyError :=
  match r.(rq_wasm_bytes), r.(rq_wasm_path) with
  | Some b, _ =>
      if is_none auth_token
      then Err (Anyhow (Lit "wasm_bytes submission requires daemon authentication to be configured")) else Ok b
  | None, Some p => read_allowlisted_wasm_path o.(files) o.(module_dir) p
  | None, None => Err (Anyhow (Lit "request missing wasm_bytes and wasm_path"))
  end.
(** [None] is a panic of the hypervisor. *)
Definition serve (auth_token : AuthToken) (d : Daemon) (o : Outside) (req : DaemonRequest) : option (Daemon * DaemonResponse) :=
  match unauthorized_response req auth_token with
  | Some resp => Some (d, resp)
  | None =>
      match req with
      | Ping => Some (d, Pong CARGO_PKG_VERSION)
      | Shutdown _ =>
          Some ({| instances := d.(instances); module_cache := d.(module_cache); shutdown := true |}, Pong CARGO_PKG_VERSION)
      | Execute r =>
          match request_bytes auth_token o r with
          | Err e => Some (d, Error e)
          | Ok bytes =>
              match (match o.(acquired) with Some i => (i,.) <$> d.(instances) !! i | None => None end) with
              | None => Some (d, error_text "service temporarily unavailable")
              | Some (i, h) =>
                  match get_or_compile compile d.(module_cache) bytes with
                  | (cache, None) => Some (with_cache d cache, error_text "module load failed")
                  | (cache, Some m) =>
                      let tool := with_entry (ToolDefinition_new r.(rq_name) bytes) r.(rq_entry) in
                      match execute_tool_precompiled h (with_input o.(call) r.(rq_input)) tool m with
                      | None => None
                      | Some (h, res) =>
                          Some (with_instance (with_cache d cache) i h,
                                match res with Ok output => Executed output | Err e => Error (Nexus e) end)
                      end
                  end
              end
          end
      end
  end.

(** ** Connections *)

Variable from_slice : list byte → option DaemonRequest.
Variable to_vec : DaemonResponse → option (list byte).

(** The loop: what the peer still sends, what was written.  The outcome is [None] only when the
    hypervisor panics or the fuel is spent. *)
Fixpoint handle_connection (fuel : nat) (auth_token : AuthToken) (d : Daemon) (os : nat → Outside) (n : nat)
    (rd wr : list byte) : option (Daemon * list byte * result () IoErrorKind) :=
  match fuel with
  | O => None
  | S fuel =>
      match read_frame from_slice rd with
      | (_, Err UnexpectedEof) => Some (d, wr, Ok ())
      | (_, Err e) => Some (d, wr, Err e)
      | (rd, Ok req) =>
          match serve auth_token d (os n) req with
          | None => None
          | Some (d, resp) =>
              match write_frame to_vec wr resp with
              | (wr, Err e) => Some (d, wr, Err e)
              | (wr, Ok _) => handle_connection fuel auth_token d os (S n) rd wr
              end
          end
      end
  end.
End Serve.

(** ** Authentication *)

Lemma constant_time_eq_spec a b : constant_time_eq a b = true ↔ a = b.
Proof.
  unfold constant_time_eq. rewrite Z.eqb_eq, fold_lor_zero.
  - setoid_rewrite Z.lxor_eq_0_iff. split; [|by intros ->]. intros [Hlen H]. unfold len in Hlen.
    assert (length a = length b) as Hl by lia. apply (nth_ext _ _ x00 x00); [done|]. intros i Hi.
    apply Z_of_byte_inj, H, elem_of_seq. lia.
  - intros i. apply Z.lxor_nonneg. split; intros; apply Z_of_byte_range.
  - apply Z.lxor_nonneg. unfold len. split; lia.
Qed.
(** The token that a request supplies; a ping needs none. *)
Definition supplied (req : DaemonRequest) : option (option string) :=
  match req with Ping => None | Execute r => Some r.(rq_auth_token) | Shutdown t => Some t end.
Definition authentic (auth_token : AuthToken) (req : DaemonRequest) : Prop :=
  ∀ configured t, auth_token = Some configured → supplied req = Some t → t = Some configured.
Lemma unauthorized_response_spec req auth_token :
  (unauthorized_response req auth_token = None ∧ authentic auth_token req)
  ∨ (unauthorized_response req auth_token = Some (error_text UNAUTHORIZED_MESSAGE) ∧ ¬ authentic auth_token req).
Proof.
  unfold unauthorized_response, authentic. destruct auth_token as [configured|]; [|left; split; [done|]; by intros].
  assert (∀ t, (if match t with Some token => constant_time_eq (string_bytes token) (string_bytes configured) | None => false end
                then None else Some (error_text UNAUTHORIZED_MESSAGE)) = None ∧ t = Some configured
             ∨ (if match t with Some token => constant_time_eq (string_bytes token) (string_bytes configured) | None => false end
                then None else Some (error_text UNAUTHORIZED_MESSAGE)) = Some (error_text UNAUTHORIZED_MESSAGE) ∧ t ≠ Some configured) as Ht.
  { intros [token|]; [|right; by split]. pose proof (constant_time_eq_spec (string_bytes token) (string_bytes configured)) as Hs.
    destruct (constant_time_eq _ _); [left|right]; (split; [done|]).
    - by rewrite (string_bytes_inj _ _ (proj1 Hs eq_refl)).
    - intros [= ->]. by discriminate (proj2 Hs eq_refl). }
  destruct req as [|[]|t]; cbn [supplied rq_auth_token].
  - left. split; [done|]. intros ? ? _ [=].
  - destruct (Ht rq_auth_token0) as [[-> ->]|[-> Hn]]; [left|right]; (split; [done|]); [by intros ? ? [= <-] [= <-]|].
    intros H. by apply Hn, H.
  - destruct (Ht t) as [[-> ->]|[-> Hn]]; [left|right]; (split; [done|]); [by intros ? ? [= <-] [= <-]|].
    intros H. by apply Hn, H.
Qed.

(** ** Which modules a request may run *)

(** The file at the location is a plain file under a module directory of the operator when
    its handle is looked up. *)
Record under_module_dir (f : Files) (module_dir_var : option string) (file : list string) : Prop := {
  plain_file : node_at f.(files_disk) file = Some NFile;
  inside : ∃ value dir canonical_dir loc, module_dir_var = Some value ∧ dir ∈ split_on ":"%char value
    ∧ canonicalize f.(files_disk) dir = Ok canonical_dir ∧ is_dir f.(files_disk) canonical_dir = true
    ∧ f.(linked) file = Some loc ∧ comps_prefix (components canonical_dir) (components (loc_path loc)) = true;
}.
Lemma result_mapM_elem {A B E} (f : A → result B E) l : ∀ bs b, result_mapM f l = Ok bs → b ∈ bs → ∃ a, a ∈ l ∧ f a = Ok b.
Proof.
  induction l as [|x l IH]; intros bs b; cbn [result_mapM].
  - intros [= <-] H. by apply elem_of_nil in H.
  - intros (y & Hy & (ys & Hys & [= <-])%result_bind_Ok)%result_bind_Ok [->|Hb]%elem_of_cons.
    + exists x. split; [by left|done].
    + destruct (IH _ _ Hys Hb) as (a & Ha & Hf). exists a. split; [by right|done].
Qed.
Lemma read_allowlisted_Ok f var p bytes : read_allowlisted_wasm_path f var p = Ok bytes →
  ∃ file, resolve f.(files_disk) p = Ok file ∧ under_module_dir f var file ∧ f.(contents) file = Some bytes.
Proof.
  unfold read_allowlisted_wasm_path, open_agentd_wasm_path.
  intros ([file canonical] & (dirs & Hdirs & H)%result_bind_Ok & Hc)%result_bind_Ok. cbn [fst] in Hc.
  unfold open_agentd_wasm_path_with_dirs in H. apply result_bind_Ok in H as (file' & Hopen & H).
  destruct (bool_decide_reflect (node_at (files_disk f) file' = Some NFile)) as [Hfile|]; cbn [negb] in H; [|done].
  apply result_bind_Ok in H as (canonical' & Hcan & H). destruct (existsb _ dirs) eqn:He; [|done]. injection H as -> ->.
  exists file. unfold open_untrusted_agentd_file in Hopen. destruct (resolve _ p) as [loc|]; [|done]. destruct (may_open f loc); [|done]. injection Hopen as ->.
  split; [done|]. split; [|destruct (contents f file); [by injection Hc as ->|done]]. split; [done|].
  unfold canonicalize_open_agentd_file in Hcan. destruct (linked f file) as [loc|] eqn:Hl; [|done]. injection Hcan as <-.
  apply existsb_exists in He as (dir & Hin%list_elem_of_In & Hpre).
  unfold allowed_agentd_module_dirs in Hdirs. destruct var as [value|]; [|done].
  assert (result_mapM (allowed_dir (files_disk f)) (split_on ":"%char value) = Ok dirs) as Hm by (destruct (split_on _ value); done).
  destruct (result_mapM_elem _ _ _ _ Hm Hin) as (raw & Hraw & Hdir). unfold allowed_dir in Hdir.
  destruct (canonicalize _ raw) as [c|] eqn:Hcr; [|done]. destruct (is_dir _ c) eqn:Hd; [|done]. injection Hdir as ->.
  exists value, raw, dir, loc. by split_and!.
Qed.

Section Properties.
Context `{U : UrlLib} `{C : CryptoLib} `{Zs : ZstdLib} `{Hi : HashIter} `{E : SnapEnv} `{Io : InstinctIo} `{G : Guest}
  `{Sh : Sha256Lib}.
Variable dbg : Capability → string.
Variable compile : list byte → option Z.

(** The modules that an execution request may bring. *)
Inductive admitted (auth_token : AuthToken) (o : Outside) (r : ExecuteRequest) : list byte → Prop :=
| admitted_bytes token bytes :
    auth_token = Some token → r.(rq_auth_token) = Some token → r.(rq_wasm_bytes) = Some bytes →
    admitted auth_token o r bytes
| admitted_file path file bytes :
    r.(rq_wasm_bytes) = None → r.(rq_wasm_path) = Some path →
    resolve o.(files).(files_disk) path = Ok file → under_module_dir o.(files) o.(module_dir) file →
    o.(files).(contents) file = Some bytes → admitted auth_token o r bytes.

(** C11: the daemon runs only what it admits.  With a configured token, a request other
    than a ping that does not carry exactly that token is refused and changes nothing; an
    output is the precompiled run, by an instance of the pool, of a module that either
    came with the token or was read from a file that lay under a module directory when
    its handle was checked; and without an output or an admitted module nothing but a
    requested shutdown changes. *)
Theorem daemon_runs_only_admitted (auth_token : AuthToken) (d d' : Daemon) (o : Outside) (req : DaemonRequest) (resp : DaemonResponse) :
  serve dbg compile auth_token d o req = Some (d', resp) →
  (¬ authentic auth_token req → d' = d ∧ resp = error_text UNAUTHORIZED_MESSAGE)
  ∧ (∀ output, resp = Executed output → ∃ r bytes i h h' m cache,
       req = Execute r ∧ authentic auth_token req ∧ admitted auth_token o r bytes
       ∧ o.(acquired) = Some i ∧ d.(instances) !! i = Some h
       ∧ get_or_compile compile d.(module_cache) bytes = (cache, Some m)
       ∧ execute_tool_precompiled dbg h (with_input o.(call) r.(rq_input)) (with_entry (ToolDefinition_new r.(rq_name) bytes) r.(rq_entry)) m
         = Some (h', Ok output)
       ∧ d' = {| instances := <[i := h']> d.(instances); module_cache := cache; shutdown := d.(shutdown) |})
  ∧ (d'.(shutdown) = true → d.(shutdown) = true ∨ ∃ t, req = Shutdown t)
  ∧ (d'.(instances) ≠ d.(instances) ∨ d'.(module_cache) ≠ d.(module_cache) → ∃ r bytes, req = Execute r ∧ admitted auth_token o r bytes).
Proof using Type.
  unfold serve. destruct (unauthorized_response_spec req auth_token) as [[-> Ha]|[-> Ha]].
  2:{ intros [= <- <-]. split; [done|]. split; [intros ? [=]|]. split; [by left|]. by intros [?|?]. }
  destruct req as [|r|t].
  - intros [= <- <-]. split; [done|]. split; [intros ? [=]|]. split; [by left|]. by intros [?|?].
  - destruct (request_bytes auth_token o r) as [bytes|e] eqn:Hb.
    2:{ intros [= <- <-]. split; [done|]. split; [intros ? [=]|]. split; [by left|]. by intros [?|?]. }
    assert (admitted auth_token o r bytes) as Hadm.
    { unfold request_bytes in Hb. destruct (rq_wasm_bytes r) as [b|] eqn:Hw.
      - destruct auth_token as [token|]; cbn in Hb; [|done]. injection Hb as ->.
        apply (admitted_bytes _ _ _ token); try done. by apply (Ha token (rq_auth_token r)).
      - destruct (rq_wasm_path r) as [p|] eqn:Hp; [|done]. apply read_allowlisted_Ok in Hb as (file & Hr & Hu & Hc).
        by apply (admitted_file _ _ _ p file). }
    destruct (acquired o) as [i|] eqn:Hacq.
    2:{ intros [= <- <-]. split; [done|]. split; [intros ? [=]|]. split; [by left|]. by intros [?|?]. }
    destruct (instances d !! i) as [h|] eqn:Hi'; cbn [fmap option_fmap option_map].
    2:{ intros [= <- <-]. split; [done|]. split; [intros ? [=]|]. split; [by left|]. by intros [?|?]. }
    destruct (get_or_compile compile (module_cache d) bytes) as [cache [m|]] eqn:Hg.
    2:{ intros [= <- <-]. split; [done|]. split; [intros ? [=]|]. split; [by left|]. eauto. }
    destruct (execute_tool_precompiled _ _ _ _ _) as [[h' res]|] eqn:Hex; [|done]. intros [= <- <-].
    split; [done|]. split; [|split; [by left|eauto]].
    intros output Hout. destruct res as [out|]; [|done]. injection Hout as ->.
    exists r, bytes, i, h, h', m, cache. by split_and!.
  - intros [= <- <-]. split; [done|]. split; [intros ? [=]|]. split; [eauto|]. cbn. by intros [?|?].
Qed.

(** The gates of start-up.  The daemon starts without a token exactly if none is set,
    this is no release build, the release variable is absent or empty, and no profile is
    named or the named one loads and does not require authentication; it starts with a
    token exactly if that token is set, whatever its text, and a named profile loads. *)
Theorem daemon_start_gates (token_var : EnvVar) (release_build : bool) (release_var : option string)
    (profile : option (PathBuf * result string Msg)) :
  (start token_var release_build release_var profile = Ok None ↔
     token_var = NotPresent ∧ release_build = false ∧ (∀ v, release_var = Some v → v = "")
     ∧ ∀ path read, profile = Some (path, read) →
         ∃ manifest, load_and_validate path read = Ok manifest ∧ manifest.(execution).(daemon_auth_required) = false)
  ∧ ∀ token, start token_var release_build release_var profile = Ok (Some token) ↔
      token_var = Present token ∧ ∀ path read, profile = Some (path, read) → is_ok (load_and_validate path read) = true.
Proof using Type.
  unfold start, enforce_release_auth_requirement, release_auth_requirement_violated, enforce_profile_auth_requirement.
  destruct token_var as [| |t]; cbn [configured_auth_token result_bind is_none]; [|split; [|intros token]; (split; [done|]; naive_solver)|].
  - split; [|intros token; split; [|naive_solver]].
    + destruct release_build; cbn [andb result_bind]; [split; [done|]; naive_solver|].
      assert ((match release_var with Some v => negb (String.eqb v "") | None => false end) && true = false ↔ ∀ v, release_var = Some v → v = "") as Hr.
      { destruct release_var as [v|]; [|cbn; naive_solver]. rewrite andb_true_r, negb_false_iff, String.eqb_eq. naive_solver. }
      destruct (_ && true) eqn:Hv; [split; [done|]; intros (_ & _ & H & _); apply Hr in H; done|].
      destruct profile as [[path read]|]; [|cbn; naive_solver].
      destruct (load_and_validate path read) as [manifest|] eqn:Hl; cbn [result_map_err result_bind];
        [|split; [done|]; intros (_ & _ & _ & H); destruct (H _ _ eq_refl) as (? & Hm & _); congruence].
      rewrite andb_true_r. destruct (daemon_auth_required _) eqn:Hq; cbn [result_bind].
      * split; [done|]. intros (_ & _ & _ & H). destruct (H _ _ eq_refl) as (? & Hm & ?). congruence.
      * split; [|done]. intros _. split_and!; [done|done|by apply Hr|]. intros ? ? [= <- <-]. eauto.
    + intros H. apply result_bind_Ok in H as ([] & _ & H). by apply result_bind_Ok in H as ([] & _ & ?).
  - rewrite andb_false_r. cbn [result_bind]. rewrite !andb_false_r. split; [|intros token].
    + split; [|naive_solver]. intros H. by apply result_bind_Ok in H as ([] & _ & ?).
    + destruct profile as [[path read]|]; [|cbn; naive_solver].
      assert ((∀ p r, Some (path, read) = Some (p, r) → is_ok (load_and_validate p r) = true) ↔ is_ok (load_and_validate path read) = true) as -> by naive_solver.
      destruct (load_and_validate path read) as [manifest|]; cbn [result_map_err result_bind]; rewrite ?andb_false_r; cbn; naive_solver.
Qed.

(** ** Connections *)

Variable from_slice : list byte → option DaemonRequest.
Variable to_vec : DaemonResponse → option (list byte).
Abbreviation handle := (handle_connection dbg compile from_slice to_vec).

(** Requests served one after the other, from request number [n] on. *)
Fixpoint serve_all (auth_token : AuthToken) (d : Daemon) (os : nat → Outside) (n : nat) (reqs : list DaemonRequest)
  : option (Daemon * list DaemonResponse) :=
  match reqs with
  | [] => Some (d, [])
  | req :: reqs =>
      match serve dbg compile auth_token d (os n) req with
      | None => None
      | Some (d, resp) =>
          match serve_all auth_token d os (S n) reqs with None => None | Some (d, resps) => Some (d, resp :: resps) end
      end
  end.
Definition frames (bodies : list (list byte)) : list byte := concat ((λ b, be_bytes 4 (len b) ++ b) <$> bodies).
Definition sends (req : DaemonRequest) (body : list byte) : Prop := from_slice body = Some req ∧ len body ≤ DEFAULT_MAX_PAYLOAD.
Definition answers (resp : DaemonResponse) (body : list byte) : Prop := to_vec resp = Some body ∧ len body ≤ U32_MAX.

Lemma handle_frames reqs : ∀ fuel auth_token d os n wr bodies d' resps outs,
  Forall2 sends reqs bodies → serve_all auth_token d os n reqs = Some (d', resps) → Forall2 answers resps outs →
  (length reqs < fuel)%nat →
  handle fuel auth_token d os n (frames bodies) wr = Some (d', wr ++ frames outs, Ok ()).
Proof using Type.
  induction reqs as [|req reqs IH]; intros fuel auth_token d os n wr bodies d' resps outs Hs Hall Ha Hf.
  - apply Forall2_nil_inv_l in Hs as ->. injection Hall as <- <-. apply Forall2_nil_inv_l in Ha as ->.
    destruct fuel; [cbn in Hf; lia|]. cbn. unfold frames. cbn. by rewrite app_nil_r.
  - apply Forall2_cons_inv_l in Hs as (body & bodies' & [Hbody Hlen] & Hs & ->).
    cbn [serve_all] in Hall. destruct (serve dbg compile auth_token d (os n) req) as [[d1 resp]|] eqn:Hserve; [|done].
    destruct (serve_all auth_token d1 os (S n) reqs) as [[d2 resps']|] eqn:Hrest; [|done]. injection Hall as <- <-.
    apply Forall2_cons_inv_l in Ha as (out & outs' & [Hout Holen] & Ha & ->).
    destruct fuel as [|fuel]; [cbn in Hf; lia|]. cbn [handle_connection].
    assert (frames (body :: bodies') = be_bytes 4 (len body) ++ body ++ frames bodies') as -> by (unfold frames; cbn [fmap list_fmap concat]; by rewrite <- app_assoc).
    unfold read_frame, read_frame_with_limit. unfold DEFAULT_MAX_PAYLOAD in Hlen.
    rewrite read_frame_bytes by (unfold U32_MAX; lia). unfold DEFAULT_MAX_PAYLOAD.
    destruct (Z.ltb_spec (64 * 1024 * 1024) (len body)); [lia|]. rewrite Hbody. cbn [ok_or]. rewrite Hserve.
    unfold write_frame. rewrite Hout. unfold write_raw_frame. destruct (Z.ltb_spec U32_MAX (len out)); [lia|].
    rewrite (IH fuel auth_token d1 os (S n) _ bodies' d2 resps' outs') by (done || (cbn in Hf; lia)).
    unfold frames. cbn [fmap list_fmap concat]. by rewrite <- !app_assoc.
Qed.
Lemma handle_returns fuel : ∀ auth_token d os n rd wr, (length rd < fuel)%nat →
  (∀ n d req, is_Some (serve dbg compile auth_token d (os n) req)) → is_Some (handle fuel auth_token d os n rd wr).
Proof using Type.
  induction fuel as [|fuel IH]; intros auth_token d os n rd wr Hf Hs; [lia|]. cbn [handle_connection].
  unfold read_frame, read_frame_with_limit. destruct (read_raw_frame_with_limit rd DEFAULT_MAX_PAYLOAD) as [rd' [frame|e]] eqn:Hr.
  - apply read_raw_frame_Ok in Hr. destruct (from_slice frame) as [req|]; cbn [ok_or]; [|eauto].
    destruct (Hs n d req) as [[d1 resp] ->]. destruct (write_frame to_vec wr resp) as [wr' [[]|e]]; [|eauto].
    apply IH; [|done]. rewrite Hr, !length_app, be_bytes_length in Hf. lia.
  - destruct e; eauto.
Qed.

(** A connection serves its requests in order.  The frames of a sequence of requests
    are answered by the frames of the responses to serving them one after the other on the
    shared daemon, and the connection ends in peace with the stream; and for any stream of
    bytes the loop returns, with one turn per frame. *)
Theorem connection_serves_in_order (auth_token : AuthToken) (d : Daemon) (os : nat → Outside) :
  (∀ reqs bodies d' resps outs wr fuel,
     Forall2 sends reqs bodies → serve_all auth_token d os 0 reqs = Some (d', resps) → Forall2 answers resps outs →
     (length reqs < fuel)%nat →
     handle fuel auth_token d os 0 (frames bodies) wr = Some (d', wr ++ frames outs, Ok ()))
  ∧ ∀ rd wr fuel, (length rd < fuel)%nat → (∀ n d req, is_Some (serve dbg compile auth_token d (os n) req)) →
      is_Some (handle fuel auth_token d os 0 rd wr).
Proof using Type.
  split.
  - intros. by eapply handle_frames.
  - intros. by apply handle_returns.
Qed.
End Properties.

(** ** A concrete daemon *)

Module ToyDaemon.
#[local] Existing Instances Tokens.Toy.crypto Tokens.Toy.crypto_laws Tokens.Toy.url ToyZstd.zstd ToyZstd.zstd_laws
  ToySnap.env ToyInstinct.io ToyExec.guest ToySha.sha.
Definition compile (bytes : list byte) : option Z := match bytes with [] => None | _ => Some (len bytes) end.
Definition disk : Fs :=
  {| nodes := <[["modules"] := NDir]> (<[["a"; "modules"] := NFile]> (<[["x"; "modules"] := NLink "/etc/shadow"]>
                (<[["etc"] := NDir]> {[ ["shadow"; "etc"] := NFile ]})));
     cwd := []; may_create _ := false |}.
Definition readable : Files :=
  {| files_disk := disk; may_open _ := true; linked loc := Some loc; contents _ := Some [x00; x61] |}.
Definition outside : Outside := {| acquired := Some 0%nat; call := ToyExec.call 1; files := readable; module_dir := Some "/modules" |}.
Definition daemon : Daemon := {| instances := [ToyExec.hv 0]; module_cache := with_capacity 2; shutdown := false |}.
Definition request (path : PathBuf) (token : option string) : DaemonRequest :=
  Execute {| rq_name := "a"; rq_wasm_bytes := None; rq_wasm_path := Some path; rq_entry := "_start"; rq_input := Some [x01];
             rq_auth_token := token |}.
Definition output (r : option (Daemon * DaemonResponse)) : option bool :=
  match r with Some (_, Executed out) => Some out.(out_success) | Some (_, _) => Some false | None => None end.

(** A codec of two messages. *)
Definition from_slice (body : list byte) : option DaemonRequest :=
  match body with [x01] => Some Ping | [x02] => Some (Shutdown (Some "secret")) | _ => None end.
Definition to_vec (resp : DaemonResponse) : option (list byte) :=
  match resp with Pong _ => Some [x09] | _ => Some [x0a] end.
End ToyDaemon.
#[local] Existing Instances Tokens.Toy.crypto Tokens.Toy.crypto_laws Tokens.Toy.url ToyZstd.zstd ToyZstd.zstd_laws
  ToySnap.env ToyInstinct.io ToyExec.guest ToySha.sha.

Lemma daemon_runs_only_admitted_witness :
  let run path token := serve ToyExec.dbg ToyDaemon.compile (Some "secret") ToyDaemon.daemon ToyDaemon.outside (ToyDaemon.request path token) in
  ToyDaemon.output (run "/modules/a" (Some "secret")) = Some true
  ∧ ToyDaemon.output (run "/modules/x" (Some "secret")) = Some false
  ∧ (∃ d resp, run "/modules/a" (Some "guess") = Some (d, resp) ∧ d = ToyDaemon.daemon)
  ∧ ∃ r bytes, ToyDaemon.request "/modules/a" (Some "secret") = Execute r ∧ admitted (Some "secret") ToyDaemon.outside r bytes.
Proof.
  cbv zeta.
  assert (ToyDaemon.output (serve ToyExec.dbg ToyDaemon.compile (Some "secret") ToyDaemon.daemon ToyDaemon.outside
    (ToyDaemon.request "/modules/a" (Some "secret"))) = Some true) as Ho by (vm_compute; reflexivity).
  split; [exact Ho|]. split; [vm_compute; reflexivity|]. split.
  - exists ToyDaemon.daemon, (error_text UNAUTHORIZED_MESSAGE). split; [|reflexivity].
    unfold serve, ToyDaemon.request. destruct (unauthorized_response_spec (ToyDaemon.request "/modules/a" (Some "guess")) (Some "secret")) as [[_ Ha]|[Hu _]].
    + specialize (Ha "secret" (Some "guess") eq_refl eq_refl). discriminate Ha.
    + unfold ToyDaemon.request in Hu. rewrite Hu. reflexivity.
  - destruct (serve ToyExec.dbg ToyDaemon.compile (Some "secret") ToyDaemon.daemon ToyDaemon.outside
      (ToyDaemon.request "/modules/a" (Some "secret"))) as [[d' resp]|] eqn:Hs; [|discriminate Ho].
    destruct resp as [v|out|m]; [discriminate Ho| |discriminate Ho].
    destruct (daemon_runs_only_admitted ToyExec.dbg ToyDaemon.compile (Some "secret") ToyDaemon.daemon d' ToyDaemon.outside
      (ToyDaemon.request "/modules/a" (Some "secret")) (Executed out) Hs) as (_ & Hout & _).
    destruct (Hout out eq_refl) as (r & bytes & i & h & h' & m & cache & Hreq & _ & Hadm & _).
    exists r, bytes. split; [exact Hreq|exact Hadm].
Defined.

(** An empty token passes every gate, and then the empty token is what authenticates. *)
Lemma empty_token_starts :
  start (Present "") true (Some "1") None = Ok (Some "") ∧ authentic (Some "") (Shutdown (Some "")).
Proof. split; [reflexivity|]. by intros ? ? [= <-] [= <-]. Qed.
Lemma daemon_start_gates_witness :
  start NotPresent false (Some "") None = Ok None ∧ start NotPresent true None None = Err ReleaseBuildUnauthenticated.
Proof.
  split; [|reflexivity]. apply (proj1 (daemon_start_gates NotPresent false (Some "") None)).
  split; [reflexivity|]. split; [reflexivity|]. split; [intros v [= <-]; reflexivity|intros path read [=]].
Defined.

Lemma connection_serves_in_order_witness :
  ∃ d, handle_connection ToyExec.dbg ToyDaemon.compile ToyDaemon.from_slice ToyDaemon.to_vec 3 (Some "secret") ToyDaemon.daemon
    (λ _, ToyDaemon.outside) 0 (frames [[x01]; [x02]]) [] = Some (d, frames [[x09]; [x09]], Ok ()) ∧ d.(shutdown) = true.
Proof.
  destruct (connection_serves_in_order ToyExec.dbg ToyDaemon.compile ToyDaemon.from_slice ToyDaemon.to_vec (Some "secret")
    ToyDaemon.daemon (λ _, ToyDaemon.outside)) as [H _].
  eexists. split.
  - apply (H [Ping; Shutdown (Some "secret")] [[x01]; [x02]] _ [Pong CARGO_PKG_VERSION; Pong CARGO_PKG_VERSION] [[x09]; [x09]] [] 3%nat).
    + repeat constructor; discriminate.
    + reflexivity.
    + repeat constructor; discriminate.
    + cbn. lia.
  - reflexivity.
Defined.
